(* ===== verification/_CoqProject ===== *)
-Q . S2P
Prelude.v
Crates.v
RefCrates.v
Ept.v
A64.v
Memory.v
Frame.v
MockHal.v
PageTable.v
Backend.v
AddrSpace.v
AddrSpaceInv.v
AddrSpaceSpec.v
AddrSpaceRun.v
Demo.v
BackendProps.v
AddrSpaceProps.v
ByteBuffer.v
AddrSpaceRefine.v
AddrSpaceEdge.v
AddrSpaceA64.v
Ownership.v
Conservation.v
Accessor.v
AccessorMock.v
Device.v
Tests.v
