(* ===== verification/Prelude.v ===== *)
(** * A verification of [axaddrspace]

    [axaddrspace] manages the address space of a guest in a hypervisor: it
    maps guest physical addresses to host physical addresses through a nested
    page table, serves nested page faults, and gives devices access to guest
    memory.  This development models the crate's own code and proves what its
    operations do.  Paths below are relative to the crate ([src/] is the
    crate's source directory).

    ** The parts of the program and where they are modelled

    - [src/npt/arch/x86_64.rs], the entries of Intel's extended page table:
      [Ept] (modules [EPTFlags], [EPTEntry]).
    - [src/npt/arch/aarch64.rs], the VMSAv8-64 stage 2 descriptors: [A64]
      (modules [DescriptorAttr], [A64PTEHV]).
    - [src/hal.rs] and [src/frame.rs], the hardware abstraction and frames that
      give their memory back when dropped: [Frame].
    - [src/address_space/backend], the linear and the allocating backend:
      [Backend] (operations in module [BackendOps], and their contracts),
      [BackendProps] (properties).
    - [src/address_space/mod.rs] and [src/lib.rs], the address space and the
      conversion of errors: [AddrSpace] (record and operations),
      [AddrSpaceInv] (invariant [wf]), [AddrSpaceSpec] and [AddrSpaceRun] (what
      each operation does), [AddrSpaceProps] (properties), [AddrSpaceRefine]
      (abstract machine and refinement), [Ownership] (frames are not shared),
      [Conservation] (frames are given back), [AddrSpaceEdge] (behaviour at
      the edges of the invariant), [AddrSpaceA64] (device memory on aarch64),
      [ByteBuffer] (host slices of guest buffers).
    - [src/memory_accessor.rs], typed and buffer access to guest memory:
      [Accessor], with the translator of its tests in [AccessorMock].
    - [src/device], access widths, ports, registers and ranges: [Device].
    - [src/test_utils/mod.rs], the simulated platform: [MockHal].
    - the unit tests of [src/address_space/mod.rs], [src/frame.rs] and
      [src/memory_accessor.rs]: [Tests].

    [Prelude] (this file) has the outcomes and monads, machine integers, pages
    and the shared automation; [Memory] the byte memory behind raw pointers;
    [PageTable] the lemmas on whole lists of pages; [Demo] the concrete
    instance the witnesses run on.

    ** How the code is represented

    Functions that change state are state passing functions into [outcome]:
    [Done], [Panic] (an explicit panic, [unwrap], or overflow in a checked
    build), [UB] (a raw access to memory that is misaligned or not allocated)
    and [OutOfFuel].  [usize] values are integers with the wrap-around written
    out; whether plain arithmetic panics or wraps is the parameter
    [BuildProfile].  Page table entries are the 64 bits of the word.

    The crates the program is built on ([memory_addr], [bitflags],
    [bit_field], [page_table_entry], [page_table_multiarch], [memory_set],
    [axerrno]) are not part of the repository.  [Crates] has a class of
    operations and a class of laws for each; the definitions take the
    operations as arguments and the theorems take the laws as hypotheses.
    [Ept] and [A64] prove the laws [GenericPTELaws] that the address space
    needs of an architecture's entries, [Backend] implements the interface
    [MappingBackend] that the memory set calls, [MockHal] implements
    [AxMmHal] and [PagingHandler].  [RefCrates] has instances of the rest, so
    that all laws hold together and every witness is an evaluation.

    ** What is proved

    - Entries: what [new_page] stores reads back, on both architectures; the
      setters touch one field each; where the flags of a stage 2 descriptor
      do not read back, what they read as.
    - Frames: zeroing, and giving back exactly once.
    - Address space: the invariant [wf] (areas aligned, disjoint and in range,
      every page of an area backed by the entry its backend keeps) is
      established by [new_empty] and preserved by every operation; each
      operation's effect on the translation of every guest address, on every
      branch, the prefix a mapping leaves that fails half way included; which
      requests get which error; the frames that go back to the allocator; and
      the refinement of an abstract machine of areas and a translation
      function by every sequence of requests.
    - Frames of an address space: with an allocator that hands out only frames
      it has ([Ownership.FrameOwnership]), two pages of allocating areas never
      share a frame, after any sequence of requests; the frame that a repeated
      fault replaces is never given back; and with an allocator and a page
      table that keep count ([Conservation.FrameAccounting]), a run without
      such faults and without mappings that fail half way holds exactly the
      frames of the tables and of the mapped pages, and gives all of them back
      when the address space is dropped.
    - Backends: map and unmap, and protect and unmap, of a region.
    - Edges: panics on overflowing requests, on unremovable linear areas and
      on buffers that run past their area, and pages that are left by failed
      populated mappings.
    - Accessors: buffers are transferred as if byte by byte, whatever the
      regions, with an exact account of partial transfers; round trips; typed
      access with its undefined behaviour; divergence for empty regions.
    - Devices: conversions of access widths, and the printed text of ports,
      registers and ranges, which a strict reader reads back.

    [Tests] runs the unit tests of the repository on the model, as a check of
    the definitions.

    ** Fuel

    [AddrSpace.translate_loop] runs with as many rounds as the buffer has
    bytes and the loops of [Accessor] likewise; each round that does not stop
    advances by at least one byte, so that the theorems conclude a result
    ([Done]), never only "if it returns".  Where a loop of the code does not
    end, [zero_limit_diverges] says so for every amount of fuel.

    ** What is not modelled

    TLB flushes and the other assembly, [Debug] output, logging, the mutexes
    of the tests, the address types made by macros of [memory_addr]
    ([src/addr.rs]), the choice of an architecture by conditional compilation
    and the riscv page table, which is an alias of another crate's type. *)
From stdpp Require Export prelude gmap list.
From Stdlib Require Export ZArith Lia.
#[export] Set Default Goal Selector "!".
Local Open Scope Z_scope.

(** * Outcomes of a computation *)

(** How a piece of Rust code can end: with a value, with a panic, with
    undefined behaviour (an access outside allocated or aligned memory), or,
    for a loop run with fuel, without having finished. *)
Inductive outcome (A : Type) : Type :=
  | Done (a : A)
  | Panic
  | UB
  | OutOfFuel.
Arguments Done {A} a.
Arguments Panic {A}.
Arguments UB {A}.
Arguments OutOfFuel {A}.

(** Rust's [Result]. *)
Inductive result (A E : Type) : Type :=
  | Ok (a : A)
  | Err (e : E).
Arguments Ok {A E} a.
Arguments Err {A E} e.

Definition is_ok {A E} (r : result A E) : bool :=
  match r with Ok _ => true | Err _ => false end.

(** [Result::ok]. *)
Definition ok {A E} (r : result A E) : option A :=
  match r with Ok a => Some a | Err _ => None end.

Definition map_err {A E F} (f : E -> F) (r : result A E) : result A F :=
  match r with Ok a => Ok a | Err e => Err (f e) end.

(** [Option::unwrap], [Option::expect]. *)
Definition unwrap {A} (o : option A) : outcome A :=
  match o with Some a => Done a | None => Panic end.

(** [Result::unwrap]. *)
Definition unwrap_ok {A E} (r : result A E) : outcome A :=
  match r with Ok a => Done a | Err _ => Panic end.

#[export] Instance outcome_ret : MRet outcome := fun _ => Done.
#[export] Instance outcome_bind : MBind outcome := fun _ _ f m =>
  match m with
  | Done a => f a
  | Panic => Panic
  | UB => UB
  | OutOfFuel => OutOfFuel
  end.

(** State passing: a computation reads and updates a state of type [S]. *)
Definition M (S A : Type) : Type := S -> outcome (A * S).

#[export] Instance M_ret {S} : MRet (M S) := fun _ a s => Done (a, s).
#[export] Instance M_bind {S} : MBind (M S) := fun _ _ f m s =>
  match m s with
  | Done (a, s') => f a s'
  | Panic => Panic
  | UB => UB
  | OutOfFuel => OutOfFuel
  end.

Definition lift {S A} (o : outcome A) : M S A := fun s =>
  match o with
  | Done a => Done (a, s)
  | Panic => Panic
  | UB => UB
  | OutOfFuel => OutOfFuel
  end.

Lemma M_bind_Done {S A B} (f : A -> M S B) (m : M S A) (s : S) a s' :
  m s = Done (a, s') -> (m ≫= f) s = f a s'.
Proof. unfold mbind, M_bind. by intros ->. Qed.

Lemma outcome_bind_Done {A B} (f : A -> outcome B) (m : outcome A) b :
  (m ≫= f) = Done b <-> exists a, m = Done a /\ f a = Done b.
Proof.
  destruct m; unfold mbind, outcome_bind; (split; [eauto|]); try done.
  - intros (? & [= ->] & ?). done.
  - by intros (? & ? & _).
  - by intros (? & ? & _).
  - by intros (? & ? & _).
Qed.

(** * Machine integers *)

(** [usize] and [u64] are 64 bits wide: values in [0, 2^64). *)
Definition u64_modulus : Z := 2 ^ 64.
Definition wrap64 (z : Z) : Z := z mod u64_modulus.

(** Whether the build has [overflow-checks] (on in the dev and test profiles,
    off in the release profile): plain [+] and [-] panic on overflow when it
    has, and wrap around when it has not. *)
Class BuildProfile := overflow_checks : bool.

Definition usize_arith `{BuildProfile} (exact : Z) : outcome Z :=
  if (0 <=? exact) && (exact <? u64_modulus) then Done exact
  else if overflow_checks then Panic
  else Done (wrap64 exact).

Definition usize_add `{BuildProfile} (a b : Z) : outcome Z := usize_arith (a + b).
Definition usize_sub `{BuildProfile} (a b : Z) : outcome Z := usize_arith (a - b).

(** * Pages *)

Definition PAGE_SIZE : Z := 4096.

(** The 4K page an address lies in, and the addresses of [n] consecutive
    pages. *)
Definition page_of (v : Z) : Z := v - v mod PAGE_SIZE.

Fixpoint pages (start : Z) (n : nat) : list Z :=
  match n with
  | O => []
  | S n => start :: pages (start + PAGE_SIZE) n
  end.

Definition page_count (size : Z) : nat := Z.to_nat (size / PAGE_SIZE).

(** * Automation *)

Create HintDb addr discriminated.
Create Rewrite HintDb bits.

(** Puts the goal and the hypotheses in the language of [lia]: booleans of
    comparisons become propositions and the page constants are unfolded. *)
Ltac zbool :=
  repeat match goal with
  | H : (_ && _)%bool = true |- _ => apply andb_true_iff in H; destruct H
  | H : (_ && _)%bool = false |- _ => apply andb_false_iff in H
  | H : (_ || _)%bool = true |- _ => apply orb_true_iff in H
  | H : (_ || _)%bool = false |- _ => apply orb_false_iff in H; destruct H
  | H : negb _ = true |- _ => apply negb_true_iff in H
  | H : negb _ = false |- _ => apply negb_false_iff in H
  | H : (_ <=? _) = true |- _ => apply Z.leb_le in H
  | H : (_ <=? _) = false |- _ => apply Z.leb_gt in H
  | H : (_ <? _) = true |- _ => apply Z.ltb_lt in H
  | H : (_ <? _) = false |- _ => apply Z.ltb_ge in H
  | H : (_ =? _) = true |- _ => apply Z.eqb_eq in H
  | H : (_ =? _) = false |- _ => apply Z.eqb_neq in H
  end.

Ltac zpage :=
  intros; zbool; unfold page_of, PAGE_SIZE, u64_modulus in *;
  Z.div_mod_to_equations; lia.

(** Extensionality of integers by bits, with the boolean algebra left over
    closed by case analysis. *)
#[export] Hint Rewrite Z.land_spec Z.lor_spec Z.ldiff_spec Z.lxor_spec Z.bits_0 : bits.
#[export] Hint Rewrite Z.lnot_spec Z.shiftl_spec Z.shiftr_spec using lia : bits.
#[export] Hint Rewrite andb_true_r andb_false_r orb_true_r orb_false_r
  andb_true_l andb_false_l orb_true_l orb_false_l andb_diag orb_diag : bits.

Ltac bitwise i :=
  apply Z.bits_inj'; intros i ?; autorewrite with bits.

Ltac bool_cases :=
  repeat match goal with
  | |- context [Z.testbit ?a ?i] => destruct (Z.testbit a i)
  end; reflexivity.

(** * Lemmas on arithmetic *)

Lemma usize_arith_in_range `{BuildProfile} z :
  0 <= z < u64_modulus -> usize_arith z = Done z.
Proof.
  intros [??]. unfold usize_arith.
  by rewrite (proj2 (Z.leb_le 0 z)), (proj2 (Z.ltb_lt z _)).
Qed.

Lemma usize_arith_wraps `{BuildProfile} z :
  overflow_checks = false -> usize_arith z = Done (wrap64 z).
Proof.
  unfold usize_arith. intros ->.
  destruct ((0 <=? z) && (z <? u64_modulus)) eqn:E; [|done].
  f_equal. unfold wrap64. rewrite Z.mod_small; zpage.
Qed.

Lemma usize_arith_panics `{BuildProfile} z :
  overflow_checks = true -> ~ 0 <= z < u64_modulus -> usize_arith z = Panic.
Proof.
  unfold usize_arith. intros -> ?.
  destruct ((0 <=? z) && (z <? u64_modulus)) eqn:E; [|done]. zpage.
Qed.

Lemma wrap64_range z : 0 <= wrap64 z < u64_modulus.
Proof. apply Z.mod_pos_bound. done. Qed.

Lemma wrap64_small z : 0 <= z < u64_modulus -> wrap64 z = z.
Proof. apply Z.mod_small. Qed.

#[export] Hint Resolve wrap64_range : addr.

Lemma page_of_aligned v : v mod PAGE_SIZE = 0 -> page_of v = v.
Proof. zpage. Qed.

Lemma page_of_mod v : page_of v mod PAGE_SIZE = 0.
Proof. zpage. Qed.

#[export] Hint Resolve page_of_mod : addr.

(** * Lemmas on pages *)

Lemma elem_of_pages p start n :
  p ∈ pages start n <-> exists i, 0 <= i < Z.of_nat n /\ p = start + PAGE_SIZE * i.
Proof.
  revert start. induction n as [|n IH]; intros start; simpl.
  - rewrite elem_of_nil. split; [done|]. intros (i & ? & _). lia.
  - rewrite elem_of_cons, IH. split.
    + intros [->|(i & ? & ->)]; [exists 0; lia|].
      exists (i + 1). unfold PAGE_SIZE. lia.
    + intros (i & ? & ->). destruct (decide (i = 0)) as [->|]; [left; lia|].
      right. exists (i - 1). unfold PAGE_SIZE. lia.
Qed.

(** The pages of an aligned region are the aligned addresses in it. *)
Lemma elem_of_pages_region p start size :
  start mod PAGE_SIZE = 0 -> size mod PAGE_SIZE = 0 -> 0 <= size ->
  p ∈ pages start (page_count size) <->
    start <= p < start + size /\ p mod PAGE_SIZE = 0.
Proof.
  intros Ha Hs ?. rewrite elem_of_pages. unfold page_count, PAGE_SIZE in *.
  split; [intros (i & ? & ->); zpage|]. intros [??]. exists ((p - start) / 4096). zpage.
Qed.

Lemma page_of_elem_of_pages v start size :
  start mod PAGE_SIZE = 0 -> size mod PAGE_SIZE = 0 -> 0 <= size ->
  page_of v ∈ pages start (page_count size) <-> start <= v < start + size.
Proof.
  intros. rewrite elem_of_pages_region by done. split; [intros [? _]|intros; split]; zpage.
Qed.

Lemma NoDup_pages start n : NoDup (pages start n).
Proof.
  revert start. induction n as [|n IH]; intros start; simpl; constructor; [|apply IH].
  intros (i & ? & ?)%elem_of_pages. unfold PAGE_SIZE in *. lia.
Qed.

(** * Lemmas on the monads *)

Lemma M_bind_inv {S A B} (f : A -> M S B) (m : M S A) (s : S) r :
  (m ≫= f) s = Done r -> exists a s', m s = Done (a, s') /\ f a s' = Done r.
Proof. unfold mbind, M_bind. destruct (m s) as [[a s']| | |]; naive_solver. Qed.

Lemma lift_inv {S A} (o : outcome A) (s : S) a s' : lift o s = Done (a, s') -> o = Done a /\ s' = s.
Proof. unfold lift. by destruct o; intros; simplify_eq/=. Qed.

(** * Lemmas on bits *)

(** The complement of a [u64]. *)
Definition u64_not (x : Z) : Z := Z.lxor x (Z.ones 64).

(** Reading a field of a word that was put together from two disjoint
    fields: the other field does not show, and the field itself does. *)
Lemma land_lor_other x y m k :
  Z.land m k = 0 -> Z.land (Z.lor x (Z.land y m)) k = Z.land x k.
Proof.
  intros Hmk. by rewrite Z.land_lor_distr_l, <- Z.land_assoc, Hmk, Z.land_0_r, Z.lor_0_r.
Qed.

Lemma land_lor_same x y m :
  Z.land x m = 0 -> Z.land (Z.lor x (Z.land y m)) m = Z.land y m.
Proof.
  intros Hx. by rewrite Z.land_lor_distr_l, Hx, Z.lor_0_l, <- Z.land_assoc, Z.land_diag.
Qed.

Lemma land_u64_not x m : 0 <= m < u64_modulus -> Z.land (Z.land x (u64_not m)) m = 0.
Proof.
  intros Hm. unfold u64_not. bitwise i.
  destruct (Z.testbit m i) eqn:E; [|by rewrite andb_false_r].
  rewrite Z.ones_spec_low, xorb_true_r; [by rewrite andb_false_r|].
  split; [lia|]. destruct (Z.lt_ge_cases i 64); [done|].
  rewrite <- (Z.mod_small m (2 ^ 64)), Z.mod_pow2_bits_high in E by (try done; lia). done.
Qed.

(** An aligned address below [2^k] survives the mask of the bits 12 to [k]. *)
Lemma land_page_mask k pa :
  12 <= k -> 0 <= pa < 2 ^ k -> pa mod PAGE_SIZE = 0 ->
  Z.land pa (Z.shiftl (Z.ones (k - 12)) 12) = pa.
Proof.
  intros Hk Hpa Ha.
  assert (pa = Z.shiftl (pa / 2 ^ 12) 12) as ->.
  { rewrite Z.shiftl_mul_pow2 by lia. unfold PAGE_SIZE in Ha.
    change (2 ^ 12) with 4096. Z.div_mod_to_equations. lia. }
  rewrite <- Z.shiftl_land, Z.land_ones, Z.mod_small; [done| |lia].
  split; [apply Z.div_pos; lia|]. apply Z.div_lt_upper_bound; [lia|].
  rewrite <- Z.pow_add_r by lia. replace (12 + (k - 12)) with k by lia. lia.
Qed.

Lemma land_pow2 a b : 0 <= b -> (Z.land a (2 ^ b) =? 2 ^ b) = Z.testbit a b.
Proof.
  intros Hb. destruct (Z.testbit a b) eqn:E.
  - apply Z.eqb_eq. bitwise i.
    rewrite Z.pow2_bits_eqb by done. destruct (Z.eqb_spec b i) as [->|]; [by rewrite E|].
    by rewrite andb_false_r.
  - apply Z.eqb_neq. intros H%(f_equal (fun z => Z.testbit z b)).
    rewrite Z.land_spec, Z.pow2_bits_true, E in H by done. done.
Qed.

Lemma not_elem_of_single {A} (x y : A) : x ∉ [y] <-> x <> y.
Proof. by rewrite list_elem_of_singleton. Qed.
