(* ===== verification/Crates.v ===== *)
(** Interfaces of the crates the program is built on.

    The crates [memory_addr], [bitflags], [bit_field], [page_table_entry],
    [page_table_multiarch], [memory_set] and [axerrno] are not part of the
    repository.  Each is a class of operations (what the sources call) and a
    class of laws (the documented behaviour the sources rely on); every
    definition of the program takes the operations as arguments and every
    theorem takes the laws as hypotheses.  [RefCrates] has instances that
    satisfy the laws. *)
From S2P Require Import Prelude.
Local Open Scope Z_scope.

(** * memory_addr *)

(** [AddrRange]: half open, with public fields. *)
Record AddrRange := mkRange { range_start : Z; range_end : Z }.

#[export] Instance AddrRange_eq_dec : EqDecision AddrRange.
Proof. solve_decision. Defined.

Class MemoryAddr := {
  (** [AddrRange::from_start_size], which panics when the end overflows *)
  from_start_size : Z -> Z -> outcome AddrRange;
  range_contains : AddrRange -> Z -> bool;
  range_contains_range : AddrRange -> AddrRange -> bool;
  range_size : AddrRange -> Z;
  is_aligned_4k : Z -> bool;
  align_down : Z -> Z -> Z;
  (** the [+] and [-] of an address and a [usize] *)
  addr_add : Z -> Z -> outcome Z;
  addr_sub : Z -> Z -> outcome Z;
  (** [PageIter4K::new], [None] when a bound is not aligned *)
  page_iter_4k : Z -> Z -> option (list Z)
}.

Class MemoryAddrLaws `{MemoryAddr} : Prop := {
  from_start_size_spec start size :
    0 <= start < u64_modulus -> 0 <= size < u64_modulus ->
    from_start_size start size =
      if start + size <? u64_modulus then Done (mkRange start (start + size)) else Panic;
  range_contains_spec r a :
    range_contains r a = (range_start r <=? a) && (a <? range_end r);
  range_contains_range_spec r r' :
    range_contains_range r r' =
      (range_start r <=? range_start r') && (range_end r' <=? range_end r);
  range_size_spec r :
    range_start r <= range_end r -> range_size r = range_end r - range_start r;
  is_aligned_4k_spec a : is_aligned_4k a = (a mod PAGE_SIZE =? 0);
  align_down_spec a k :
    0 <= a -> 0 <= k -> align_down a (2 ^ k) = a - a mod 2 ^ k;
  addr_add_spec a b :
    0 <= a -> 0 <= b -> a + b < u64_modulus -> addr_add a b = Done (a + b);
  addr_sub_spec a b : 0 <= b <= a -> a < u64_modulus -> addr_sub a b = Done (a - b);
  page_iter_4k_spec start size :
    start mod PAGE_SIZE = 0 -> size mod PAGE_SIZE = 0 -> 0 <= start -> 0 <= size ->
    start + size < u64_modulus ->
    page_iter_4k start (start + size) = Some (pages start (page_count size))
}.

(** * bitflags and bit_field *)

(** A [bitflags!] type is its bits; [bf_from_bits_truncate] takes the union
    of the flags the type declares first. *)
Class Bitflags := {
  bf_contains : Z -> Z -> bool;
  bf_is_empty : Z -> bool;
  bf_union : Z -> Z -> Z;
  bf_from_bits_truncate : Z -> Z -> Z;
  (** [BitField::get_bits(lo..hi)] and [set_bits(lo..hi, v)] *)
  bf_get_bits : Z -> Z -> Z -> Z;
  bf_set_bits : Z -> Z -> Z -> Z -> Z
}.

Class BitflagsLaws `{Bitflags} : Prop := {
  bf_contains_spec a b : bf_contains a b = (Z.land a b =? b);
  bf_is_empty_spec a : bf_is_empty a = (a =? 0);
  bf_union_spec a b : bf_union a b = Z.lor a b;
  bf_from_bits_truncate_spec all b : bf_from_bits_truncate all b = Z.land b all;
  bf_get_bits_spec x lo hi :
    0 <= lo < hi -> bf_get_bits x lo hi = Z.land (Z.shiftr x lo) (Z.ones (hi - lo));
  bf_set_bits_spec x lo hi v :
    0 <= lo < hi -> 0 <= v < 2 ^ (hi - lo) ->
    bf_set_bits x lo hi v =
      Z.lor (Z.ldiff x (Z.shiftl (Z.ones (hi - lo)) lo)) (Z.shiftl v lo)
}.

(** * page_table_entry *)

(** The generic mapping flags: a [bitflags!] type with one bit per flag.  The
    positions of the bits are the crate's own. *)
Abbreviation MappingFlags := Z (only parsing).

Class MappingFlagBits := {
  bit_READ : Z; bit_WRITE : Z; bit_EXECUTE : Z; bit_DEVICE : Z; bit_UNCACHED : Z
}.

Definition flag_bits `{MappingFlagBits} : list Z :=
  [bit_READ; bit_WRITE; bit_EXECUTE; bit_DEVICE; bit_UNCACHED].

Class MappingFlagLaws `{MappingFlagBits} : Prop := {
  flag_bits_nonneg : Forall (fun b => 0 <= b) flag_bits;
  flag_bits_distinct : NoDup flag_bits
}.

Section mapping_flags.
Context `{MappingFlagBits}.
Definition READ : MappingFlags := 2 ^ bit_READ.
Definition WRITE : MappingFlags := 2 ^ bit_WRITE.
Definition EXECUTE : MappingFlags := 2 ^ bit_EXECUTE.
Definition DEVICE : MappingFlags := 2 ^ bit_DEVICE.
Definition UNCACHED : MappingFlags := 2 ^ bit_UNCACHED.
End mapping_flags.

(** [MappingFlags::empty()]. *)
Definition no_flags : MappingFlags := 0.

(** The trait [GenericPTE], over the 64 raw bits of an entry: [set_] methods
    return the new entry, [pte_flags] may panic. *)
Class GenericPTE := {
  pte_bits : Z -> Z;
  pte_new_page : Z -> MappingFlags -> bool -> Z;
  pte_new_table : Z -> Z;
  pte_paddr : Z -> Z;
  pte_flags : Z -> outcome MappingFlags;
  pte_set_paddr : Z -> Z -> Z;
  pte_set_flags : Z -> MappingFlags -> bool -> Z;
  pte_is_unused : Z -> bool;
  pte_is_present : Z -> bool;
  pte_is_huge : Z -> bool;
  pte_clear : Z -> Z
}.

(** The trait [PagingMetaData], its constants. *)
Class PagingMetaData := {
  LEVELS : Z;
  PA_MAX_BITS : Z;
  VA_MAX_BITS : Z
}.

Definition pa_limit `{PagingMetaData} : Z := 2 ^ PA_MAX_BITS.

(** What an architecture's entry promises to the page table and to the
    address space: the interface the architectures of [npt/arch] discharge. *)
Class GenericPTELaws `{GenericPTE} `{PagingMetaData} : Prop := {
  pa_limit_bound : pa_limit <= u64_modulus;
  pte_new_page_paddr pa fl huge :
    0 <= pa < pa_limit -> pa mod PAGE_SIZE = 0 ->
    pte_paddr (pte_new_page pa fl huge) = pa;
  pte_reset e pa fl huge :
    pte_set_flags (pte_set_paddr e pa) fl huge = pte_new_page pa fl huge;
  pte_set_flags_paddr e fl huge : pte_paddr (pte_set_flags e fl huge) = pte_paddr e;
  pte_set_flags_again e fl fl' huge huge' :
    pte_set_flags (pte_set_flags e fl huge) fl' huge' = pte_set_flags e fl' huge';
  pte_zero_unused : pte_is_unused 0 = true;
  pte_present_used e : pte_is_present e = true -> pte_is_unused e = false;
  pte_clear_zero e : pte_clear e = 0;
  pte_present_flags pa fl huge :
    pte_is_present (pte_new_page pa fl huge) = pte_is_present (pte_new_page 0 fl false);
  pte_empty_not_present : pte_is_present (pte_new_page 0 no_flags false) = false
}.

(** * page_table_multiarch *)

Inductive PageSize := Size4K | Size2M | Size1G.

#[export] Instance PageSize_eq_dec : EqDecision PageSize.
Proof. solve_decision. Defined.

Definition page_bytes (s : PageSize) : Z :=
  match s with Size4K => 4096 | Size2M => 2097152 | Size1G => 1073741824 end.

Definition page_is_huge (s : PageSize) : bool :=
  match s with Size4K => false | _ => true end.

Inductive PagingError :=
  PgNoMemory | PgNotAligned | PgNotMapped | PgAlreadyMapped | PgMappedToHugePage.

(** The trait [PagingHandler]; [hal] is the state behind its functions. *)
Class PagingHandler := {
  hal : Type;
  alloc_frame : hal -> option Z * hal;
  dealloc_frame : Z -> hal -> hal;
  phys_to_virt : Z -> outcome Z
}.

(** Frames are 4K aligned and lie in the physical address space. *)
Class PagingHandlerLaws `{PagingHandler} `{PagingMetaData} : Prop := {
  alloc_frame_spec h f h' :
    alloc_frame h = (Some f, h') -> f mod PAGE_SIZE = 0 /\ 0 <= f < pa_limit
}.

(** [allocs h fs h']: requests to the allocator, which granted the frames
    [fs] in this order, lead from [h] to [h']. *)
Inductive allocs `{PagingHandler} : hal -> list Z -> hal -> Prop :=
  | allocs_nil h : allocs h [] h
  | allocs_some h f h1 fs h' :
      alloc_frame h = (Some f, h1) -> allocs h1 fs h' -> allocs h (f :: fs) h'
  | allocs_none h h1 fs h' :
      alloc_frame h = (None, h1) -> allocs h1 fs h' -> allocs h fs h'.

Lemma allocs_app `{PagingHandler} h fs h1 fs' h' :
  allocs h fs h1 -> allocs h1 fs' h' -> allocs h (fs ++ fs') h'.
Proof. induction 1; intros; simpl; eauto using allocs. Qed.

(** Requests from [h] on can get to a state where one is refused. *)
Definition exhausted `{PagingHandler} (h : hal) : Prop :=
  exists fs h1, allocs h fs h1 /\ (alloc_frame h1).1 = None.

Lemma exhausted_after `{PagingHandler} h fs h' : allocs h fs h' -> exhausted h' -> exhausted h.
Proof. intros Ha (fs' & h1 & Ha' & Hn). exists (fs ++ fs'), h1. eauto using allocs_app. Qed.

(** [PageTable64] on top of a handler: the operations the sources call.  The
    [TlbFlush] values the crate returns stand for hardware effects and are
    left out. *)
Class PageTable64 `{PagingHandler} := {
  PageTable : Type;
  pt_try_new : hal -> outcome (result PageTable PagingError * hal);
  pt_root_paddr : PageTable -> Z;
  pt_map : Z -> Z -> PageSize -> MappingFlags ->
    M (hal * PageTable) (result unit PagingError);
  pt_remap : Z -> Z -> MappingFlags -> M (hal * PageTable) (result PageSize PagingError);
  pt_unmap : Z -> M (hal * PageTable) (result (Z * PageSize) PagingError);
  pt_query : PageTable -> Z -> outcome (result (Z * MappingFlags * PageSize) PagingError);
  pt_map_region : Z -> (Z -> outcome Z) -> Z -> MappingFlags -> bool -> bool ->
    M (hal * PageTable) (result unit PagingError);
  pt_unmap_region : Z -> Z -> bool -> M (hal * PageTable) (result unit PagingError);
  pt_protect_region : Z -> Z -> MappingFlags -> bool ->
    M (hal * PageTable) (result unit PagingError);
  pt_drop : PageTable -> hal -> hal
}.

Abbreviation world := (hal * PageTable)%type (only parsing).

(** How the laws speak of a page table: the entry a walk for a virtual
    address ends at ([None] when a table on the way is missing), and the
    bound below which distinct pages have distinct entries. *)
Class PageTableView `{PageTable64} := {
  pt_entry : PageTable -> Z -> option (Z * PageSize);
  va_limit : Z
}.

Section page_table_view.
Context `{PageTableView} `{GenericPTE}.

(** Nothing is mapped at [v], and a 4K page may be. *)
Definition vacant (pt : PageTable) (v : Z) : Prop :=
  match pt_entry pt v with
  | None => True
  | Some (e, Size4K) => pte_is_unused e = true
  | Some (_, _) => False
  end.

Definition present (pt : PageTable) (v : Z) : bool :=
  match pt_entry pt v with
  | Some (e, _) => pte_is_present e
  | None => false
  end.

(** Creating the tables on the way to a page gives its neighbours fresh
    entries; nothing else changes. *)
Definition grows (pt pt' : PageTable) (v : Z) : Prop :=
  pt_entry pt' v = pt_entry pt v \/
  pt_entry pt v = None /\
    exists e, pt_entry pt' v = Some (e, Size4K) /\ pte_is_unused e = true.

(** The region operations with 4K pages, page by page in increasing order,
    stopping at the first error. *)
Fixpoint map_pages (ps : list Z) (get_paddr : Z -> outcome Z) (fl : MappingFlags) :
    M world (result unit PagingError) :=
  match ps with
  | [] => mret (Ok tt)
  | p :: ps =>
      pa ← lift (get_paddr p);
      r ← pt_map p pa Size4K fl;
      match r with
      | Ok _ => map_pages ps get_paddr fl
      | Err e => mret (Err e)
      end
  end.

Fixpoint unmap_pages (ps : list Z) : M world (result unit PagingError) :=
  match ps with
  | [] => mret (Ok tt)
  | p :: ps =>
      r ← pt_unmap p;
      match r with
      | Ok _ => unmap_pages ps
      | Err e => mret (Err e)
      end
  end.
End page_table_view.

Class PageTableLaws `{PageTableView} `{GenericPTE} : Prop := {
  va_limit_bound : va_limit <= u64_modulus;
  pt_entry_page pt v : pt_entry pt (page_of v) = pt_entry pt v;
  pt_try_new_spec h :
    match alloc_frame h with
    | (None, h') => pt_try_new h = Done (Err PgNoMemory, h')
    | (Some f, h') =>
        exists pt, pt_try_new h = Done (Ok pt, h') /\ pt_root_paddr pt = f /\
          forall v, 0 <= v < va_limit -> vacant pt v
    end;
  pt_map_spec h pt v pa fl :
    0 <= v < va_limit ->
    exists r h' pt',
      pt_map v pa Size4K fl (h, pt) = Done (r, (h', pt')) /\
      pt_root_paddr pt' = pt_root_paddr pt /\
      (exists fs, allocs h fs h') /\
      (forall v', 0 <= v' < va_limit -> page_of v' <> page_of v -> grows pt pt' v') /\
      match r with
      | Ok _ => vacant pt v /\
          pt_entry pt' v = Some (pte_new_page (page_of pa) fl false, Size4K)
      | Err e => grows pt pt' v /\
          (vacant pt v -> e = PgNoMemory /\ pt_entry pt v = None /\ exhausted h)
      end;
  pt_remap_spec h pt v pa fl e :
    0 <= v < va_limit -> pt_entry pt v = Some (e, Size4K) ->
    exists pt',
      pt_remap v pa fl (h, pt) = Done (Ok Size4K, (h, pt')) /\
      pt_root_paddr pt' = pt_root_paddr pt /\
      pt_entry pt' v = Some (pte_set_flags (pte_set_paddr e pa) fl false, Size4K) /\
      forall v', 0 <= v' < va_limit -> page_of v' <> page_of v ->
        pt_entry pt' v' = pt_entry pt v';
  pt_unmap_present h pt v e :
    0 <= v < va_limit -> pt_entry pt v = Some (e, Size4K) -> pte_is_present e = true ->
    exists pt',
      pt_unmap v (h, pt) = Done (Ok (pte_paddr e, Size4K), (h, pt')) /\
      pt_root_paddr pt' = pt_root_paddr pt /\
      pt_entry pt' v = Some (pte_clear e, Size4K) /\
      forall v', 0 <= v' < va_limit -> page_of v' <> page_of v ->
        pt_entry pt' v' = pt_entry pt v';
  pt_unmap_absent h pt v :
    0 <= v < va_limit -> present pt v = false ->
    exists err pt',
      pt_unmap v (h, pt) = Done (Err err, (h, pt')) /\
      pt_root_paddr pt' = pt_root_paddr pt /\
      present pt' v = false /\
      forall v', 0 <= v' < va_limit -> page_of v' <> page_of v ->
        pt_entry pt' v' = pt_entry pt v';
  pt_query_spec pt v :
    0 <= v < va_limit ->
    pt_query pt v =
      match pt_entry pt v with
      | Some (e, s) =>
          if pte_is_present e
          then fl ← pte_flags e; Done (Ok (pte_paddr e + v mod page_bytes s, fl, s))
          else Done (Err PgNotMapped)
      | None => Done (Err PgNotMapped)
      end;
  pt_map_region_spec start get_paddr size fl flush w :
    start mod PAGE_SIZE = 0 -> size mod PAGE_SIZE = 0 -> 0 <= start -> 0 <= size ->
    start + size <= va_limit ->
    pt_map_region start get_paddr size fl false flush w =
      map_pages (pages start (page_count size)) get_paddr fl w;
  pt_unmap_region_spec start size flush h pt :
    start mod PAGE_SIZE = 0 -> size mod PAGE_SIZE = 0 -> 0 <= start -> 0 <= size ->
    start + size <= va_limit ->
    (forall p, p ∈ pages start (page_count size) ->
      exists e, pt_entry pt p = Some (e, Size4K)) ->
    pt_unmap_region start size flush (h, pt) =
      unmap_pages (pages start (page_count size)) (h, pt);
  pt_protect_region_spec start size fl flush h pt :
    start mod PAGE_SIZE = 0 -> size mod PAGE_SIZE = 0 -> 0 <= start -> 0 <= size ->
    start + size <= va_limit ->
    (forall p, p ∈ pages start (page_count size) ->
      exists e, pt_entry pt p = Some (e, Size4K) /\ pte_is_present e = true) ->
    exists pt',
      pt_protect_region start size fl flush (h, pt) = Done (Ok tt, (h, pt')) /\
      pt_root_paddr pt' = pt_root_paddr pt /\
      forall v, 0 <= v < va_limit ->
        pt_entry pt' v =
          if decide (start <= v < start + size)
          then (fun es => (pte_set_flags es.1 fl false, es.2)) <$> pt_entry pt v
          else pt_entry pt v
}.

(** * memory_set *)

Inductive MappingError := MsInvalidParam | MsAlreadyExists | MsBadState.

(** [MemoryArea<B>]: what [MemoryArea::new] stores and the accessors read. *)
Record MemoryArea (B : Type) := mkArea {
  area_start : Z;
  area_size : Z;
  area_flags : MappingFlags;
  area_backend : B
}.
Arguments mkArea {B}.
Arguments area_start {B}.
Arguments area_size {B}.
Arguments area_flags {B}.
Arguments area_backend {B}.

Definition area_end {B} (a : MemoryArea B) : Z := area_start a + area_size a.

(** The trait [MappingBackend]; [W] is the page table and what is behind it. *)
Class MappingBackend (W B : Type) := {
  be_map : B -> Z -> Z -> MappingFlags -> M W bool;
  be_unmap : B -> Z -> Z -> M W bool;
  be_protect : B -> Z -> Z -> MappingFlags -> M W bool
}.

Class MemorySetOps (W B : Type) `{MappingBackend W B} := {
  MemorySet : Type;
  ms_new : MemorySet;
  ms_iter : MemorySet -> list (MemoryArea B);
  ms_find : MemorySet -> Z -> option (MemoryArea B);
  (** the [bool] is [unmap_overlap] *)
  ms_map : MemoryArea B -> bool -> M (MemorySet * W) (result unit MappingError);
  ms_unmap : Z -> Z -> M (MemorySet * W) (result unit MappingError);
  ms_clear : M (MemorySet * W) (result unit MappingError)
}.

Section memory_set.
Context {W B : Type} `{MappingBackend W B}.
Implicit Types (a b : MemoryArea B) (s e : Z).

Definition area_contains a (v : Z) : Prop := area_start a <= v < area_end a.

Definition areas_overlap a b : Prop :=
  area_start a < area_end b /\ area_start b < area_end a.

#[export] Instance areas_overlap_dec a b : Decision (areas_overlap a b).
Proof. unfold areas_overlap. apply _. Defined.

(** The part of an area inside [s, e), and the parts of it outside. *)
Definition area_cut a s e : list (MemoryArea B) :=
  let lo := Z.max s (area_start a) in
  let hi := Z.min e (area_end a) in
  if lo <? hi then [mkArea lo (hi - lo) (area_flags a) (area_backend a)] else [].

Definition area_rest a s e : list (MemoryArea B) :=
  if (Z.max s (area_start a) <? Z.min e (area_end a)) then
    (if area_start a <? s
     then [mkArea (area_start a) (s - area_start a) (area_flags a) (area_backend a)]
     else []) ++
    (if e <? area_end a
     then [mkArea e (area_end a - e) (area_flags a) (area_backend a)]
     else [])
  else [a].

(** [backend.unmap] on each of the areas in turn, until one refuses. *)
Fixpoint unmap_areas (l : list (MemoryArea B)) : M W bool :=
  match l with
  | [] => mret true
  | a :: l =>
      b ← be_unmap (area_backend a) (area_start a) (area_size a);
      if b : bool then unmap_areas l else mret false
  end.
End memory_set.

Class MemorySetLaws (W B : Type) `{MemorySetOps W B} : Prop := {
  ms_new_spec : ms_iter ms_new = [];
  ms_find_Some s v a :
    ms_find s v = Some a -> a ∈ ms_iter s /\ area_contains a v;
  ms_find_None s v a :
    ms_find s v = None -> a ∈ ms_iter s -> ~ area_contains a v;
  (** an empty area is refused *)
  ms_map_empty a s w :
    area_size a = 0 -> ms_map a false (s, w) = Done (Err MsInvalidParam, (s, w));
  (** an area that overlaps another is refused *)
  ms_map_overlap a s w :
    0 < area_size a -> Exists (areas_overlap a) (ms_iter s) ->
    ms_map a false (s, w) = Done (Err MsAlreadyExists, (s, w));
  (** otherwise the backend maps it, and it is added if the backend agrees *)
  ms_map_fresh a s w :
    0 < area_size a -> ~ Exists (areas_overlap a) (ms_iter s) ->
    match be_map (area_backend a) (area_start a) (area_size a) (area_flags a) w with
    | Done (true, w') => exists s',
        ms_map a false (s, w) = Done (Ok tt, (s', w')) /\ ms_iter s' ≡ₚ a :: ms_iter s
    | Done (false, w') => ms_map a false (s, w) = Done (Err MsBadState, (s, w'))
    | Panic => ms_map a false (s, w) = Panic
    | UB => ms_map a false (s, w) = UB
    | OutOfFuel => ms_map a false (s, w) = OutOfFuel
    end;
  (** the parts of the areas inside the range are unmapped by their backends,
      in some order; the parts outside stay *)
  ms_unmap_spec start size s w :
    0 <= start -> 0 <= size -> start + size < u64_modulus ->
    exists cut, cut ≡ₚ (ms_iter s ≫= fun a => area_cut a start (start + size)) /\
    match unmap_areas cut w with
    | Done (true, w') => exists s',
        ms_unmap start size (s, w) = Done (Ok tt, (s', w')) /\
        ms_iter s' ≡ₚ (ms_iter s ≫= fun a => area_rest a start (start + size))
    | _ => forall sw', ms_unmap start size (s, w) <> Done (Ok tt, sw')
    end;
  (** every area is unmapped by its backend, in some order *)
  ms_clear_spec s w :
    exists l, l ≡ₚ ms_iter s /\
    match unmap_areas l w with
    | Done (true, w') => exists s',
        ms_clear (s, w) = Done (Ok tt, (s', w')) /\ ms_iter s' = []
    | Done (false, _) => exists e s', ms_clear (s, w) = Done (Err e, s')
    | _ => forall r, ms_clear (s, w) <> Done r
    end
}.

(** * axerrno *)

(** The error codes the sources produce. *)
Inductive AxError := InvalidInput | NoMemory | AlreadyExists | BadState.

#[export] Instance AxError_eq_dec : EqDecision AxError.
Proof. solve_decision. Defined.

Abbreviation AxResult A := (result A AxError) (only parsing).

(** * Lemmas on flags *)

Create Rewrite HintDb flags.

Section flag_lemmas.
Context `{BitflagsLaws} `{MappingFlagLaws}.

Lemma bit_nonneg :
  0 <= bit_READ /\ 0 <= bit_WRITE /\ 0 <= bit_EXECUTE /\ 0 <= bit_DEVICE /\
  0 <= bit_UNCACHED.
Proof.
  pose proof flag_bits_nonneg as Hb. unfold flag_bits in Hb.
  repeat (apply Forall_cons in Hb as [? Hb]). done.
Qed.

Lemma contains_READ f : bf_contains f READ = Z.testbit f bit_READ.
Proof. rewrite bf_contains_spec. apply land_pow2, bit_nonneg. Qed.
Lemma contains_WRITE f : bf_contains f WRITE = Z.testbit f bit_WRITE.
Proof. rewrite bf_contains_spec. apply land_pow2, bit_nonneg. Qed.
Lemma contains_EXECUTE f : bf_contains f EXECUTE = Z.testbit f bit_EXECUTE.
Proof. rewrite bf_contains_spec. apply land_pow2, bit_nonneg. Qed.
Lemma contains_DEVICE f : bf_contains f DEVICE = Z.testbit f bit_DEVICE.
Proof. rewrite bf_contains_spec. apply land_pow2, bit_nonneg. Qed.
Lemma contains_UNCACHED f : bf_contains f UNCACHED = Z.testbit f bit_UNCACHED.
Proof. rewrite bf_contains_spec. apply land_pow2, bit_nonneg. Qed.

(** A flag set, bit by bit: the flag [2^b] when [c] holds. *)
Definition flag_if (c : bool) (fl : Z) : Z := if c then fl else 0.

Lemma union_if (c : bool) ret fl :
  (if c then bf_union ret fl else ret) = Z.lor ret (flag_if c fl).
Proof. rewrite bf_union_spec. destruct c; simpl; [done|]. by rewrite Z.lor_0_r. Qed.

Lemma land_flag f b : 0 <= b -> Z.land f (2 ^ b) = flag_if (Z.testbit f b) (2 ^ b).
Proof.
  intros Hb. unfold flag_if. pose proof (land_pow2 f b Hb) as Hp.
  destruct (Z.testbit f b) eqn:E; [by apply Z.eqb_eq|].
  bitwise i. rewrite Z.pow2_bits_eqb by done.
  destruct (Z.eqb_spec b i) as [->|]; [by rewrite E|]. by rewrite andb_false_r.
Qed.
End flag_lemmas.

#[export] Hint Rewrite @contains_READ @contains_WRITE @contains_EXECUTE
  @contains_DEVICE @contains_UNCACHED using typeclasses eauto : flags.
