(* ===== verification/RefCrates.v ===== *)
(** Reference instances of the interfaces of [Crates].

    They show that the laws can hold together, and the witnesses evaluate the
    program on them.  They are not translations of the crates: the memory set
    is a list, the page table a finite map of leaf tables, and a missing table
    costs one frame. *)
From S2P Require Import Prelude Crates.
Local Open Scope Z_scope.

(** * memory_addr, bitflags, bit_field and MappingFlags *)

#[export] Instance RefMemoryAddr : MemoryAddr := {
  from_start_size s n := if s + n <? u64_modulus then Done (mkRange s (s + n)) else Panic;
  range_contains r a := (range_start r <=? a) && (a <? range_end r);
  range_contains_range r r' :=
    (range_start r <=? range_start r') && (range_end r' <=? range_end r);
  range_size r := range_end r - range_start r;
  is_aligned_4k a := a mod PAGE_SIZE =? 0;
  align_down a k := a - a mod k;
  addr_add a b := if a + b <? u64_modulus then Done (a + b) else Panic;
  addr_sub a b := if b <=? a then Done (a - b) else Panic;
  page_iter_4k s e :=
    if (s mod PAGE_SIZE =? 0) && (e mod PAGE_SIZE =? 0)
    then Some (pages s (page_count (e - s))) else None
}.

#[export] Instance RefMemoryAddr_laws : MemoryAddrLaws.
Proof.
  constructor; simpl; try done.
  - intros a b ???. by rewrite (proj2 (Z.ltb_lt _ _)).
  - intros a b [??] ?. by rewrite (proj2 (Z.leb_le _ _)).
  - intros s n Hs Hn ???. rewrite Hs, (Zplus_mod s n), Hs, Hn. simpl.
    by replace (s + n - s) with n by lia.
Qed.

#[export] Instance RefBitflags : Bitflags := {
  bf_contains a b := Z.land a b =? b;
  bf_is_empty a := a =? 0;
  bf_union := Z.lor;
  bf_from_bits_truncate all b := Z.land b all;
  bf_get_bits x lo hi := Z.land (Z.shiftr x lo) (Z.ones (hi - lo));
  bf_set_bits x lo hi v := Z.lor (Z.ldiff x (Z.shiftl (Z.ones (hi - lo)) lo)) (Z.shiftl v lo)
}.

#[export] Instance RefBitflags_laws : BitflagsLaws.
Proof. by constructor. Qed.

#[export] Instance RefMappingFlags : MappingFlagBits := {
  bit_READ := 0; bit_WRITE := 1; bit_EXECUTE := 2; bit_DEVICE := 4; bit_UNCACHED := 5
}.

#[export] Instance RefMappingFlags_laws : MappingFlagLaws.
Proof.
  constructor.
  - unfold flag_bits. simpl. repeat constructor; lia.
  - apply (bool_decide_unpack _). by vm_compute.
Qed.

(** * The page table *)

Record RefPT := mkRefPT {
  rp_root : Z;
  rp_upper : gset (Z * Z);
  rp_leaf : gmap Z (gmap Z Z);
  rp_frames : list Z  (** of the tables below the root *)
}.

Section ref_page_table.
Context `{PagingHandler} `{GenericPTE} `{PagingMetaData}.

Definition leaf_key (v : Z) : Z := v / 2097152.
Definition page_key (v : Z) : Z := v / PAGE_SIZE.

Definition upper_keys (v : Z) : list (Z * Z) :=
  if LEVELS =? 4 then [(39, v / 2 ^ 39); (30, v / 2 ^ 30)] else [(30, v / 2 ^ 30)].

Definition ref_entry (pt : RefPT) (v : Z) : option (Z * PageSize) :=
  t ← rp_leaf pt !! leaf_key v; Some (default 0 (t !! page_key v), Size4K).

(** The entry of [v] becomes [e], when its table is there. *)
Definition ref_set (pt : RefPT) (v e : Z) : RefPT :=
  mkRefPT (rp_root pt) (rp_upper pt)
    (alter (fun t => <[page_key v := e]> t) (leaf_key v) (rp_leaf pt)) (rp_frames pt).

(** Creates the missing tables for the keys [ks], one frame each; also the
    frames it took. *)
Fixpoint ref_upper (ks : list (Z * Z)) (h : hal) (u : gset (Z * Z)) :
    bool * hal * gset (Z * Z) * list Z :=
  match ks with
  | [] => (true, h, u, [])
  | k :: ks =>
      if decide (k ∈ u) then ref_upper ks h u
      else match alloc_frame h with
           | (Some f, h') =>
               let '(ok, h', u', fs) := ref_upper ks h' ({[k]} ∪ u) in (ok, h', u', f :: fs)
           | (None, h') => (false, h', u, [])
           end
  end.

Definition ref_leaf (v : Z) (h : hal) (pt : RefPT) : bool * hal * RefPT :=
  match rp_leaf pt !! leaf_key v with
  | Some _ => (true, h, pt)
  | None =>
      match alloc_frame h with
      | (Some f, h') =>
          (true, h', mkRefPT (rp_root pt) (rp_upper pt) (<[leaf_key v := ∅]> (rp_leaf pt))
                       (rp_frames pt ++ [f]))
      | (None, h') => (false, h', pt)
      end
  end.

Definition ref_tables (v : Z) (h : hal) (pt : RefPT) : bool * hal * RefPT :=
  if decide (is_Some (rp_leaf pt !! leaf_key v)) then (true, h, pt) else
  let '(ok, h1, u, fs) := ref_upper (upper_keys v) h (rp_upper pt) in
  let pt1 := mkRefPT (rp_root pt) u (rp_leaf pt) (rp_frames pt ++ fs) in
  if ok : bool then ref_leaf v h1 pt1 else (false, h1, pt1).

Definition ref_map (v pa : Z) (sz : PageSize) (fl : MappingFlags) :
    M (hal * RefPT) (result unit PagingError) := fun '(h, pt) =>
  let '(ok, h1, pt1) := ref_tables v h pt in
  if ok : bool then
    match ref_entry pt1 v with
    | Some (e, _) =>
        if pte_is_unused e
        then Done (Ok tt, (h1, ref_set pt1 v (pte_new_page (page_of pa) fl false)))
        else Done (Err PgAlreadyMapped, (h1, pt1))
    | None => Done (Err PgNoMemory, (h1, pt1))
    end
  else Done (Err PgNoMemory, (h1, pt1)).

Definition ref_remap (v pa : Z) (fl : MappingFlags) :
    M (hal * RefPT) (result PageSize PagingError) := fun '(h, pt) =>
  match ref_entry pt v with
  | Some (e, s) =>
      Done (Ok s, (h, ref_set pt v (pte_set_flags (pte_set_paddr e pa) fl (page_is_huge s))))
  | None => Done (Err PgNotMapped, (h, pt))
  end.

Definition ref_unmap (v : Z) : M (hal * RefPT) (result (Z * PageSize) PagingError) :=
  fun '(h, pt) =>
  match ref_entry pt v with
  | Some (e, s) =>
      if pte_is_present e
      then Done (Ok (pte_paddr e, s), (h, ref_set pt v (pte_clear e)))
      else Done (Err PgNotMapped, (h, ref_set pt v 0))
  | None => Done (Err PgNotMapped, (h, pt))
  end.

Definition ref_query (pt : RefPT) (v : Z) :
    outcome (result (Z * MappingFlags * PageSize) PagingError) :=
  match ref_entry pt v with
  | Some (e, s) =>
      if pte_is_present e
      then fl ← pte_flags e; Done (Ok (pte_paddr e + v mod page_bytes s, fl, s))
      else Done (Err PgNotMapped)
  | None => Done (Err PgNotMapped)
  end.

Fixpoint ref_map_pages (ps : list Z) (get : Z -> outcome Z) (fl : MappingFlags) :
    M (hal * RefPT) (result unit PagingError) :=
  match ps with
  | [] => mret (Ok tt)
  | p :: ps =>
      pa ← lift (get p);
      r ← ref_map p pa Size4K fl;
      match r with Ok _ => ref_map_pages ps get fl | Err e => mret (Err e) end
  end.

Fixpoint ref_unmap_pages (ps : list Z) : M (hal * RefPT) (result unit PagingError) :=
  match ps with
  | [] => mret (Ok tt)
  | p :: ps =>
      r ← ref_unmap p;
      match r with Ok _ => ref_unmap_pages ps | Err e => mret (Err e) end
  end.

Definition ref_protect_leaf (start size : Z) (fl : MappingFlags) (t : gmap Z Z) : gmap Z Z :=
  map_imap (fun p e =>
    Some (if decide (start <= p * PAGE_SIZE < start + size)
          then pte_set_flags e fl false else e)) t.

Definition ref_protect (start size : Z) (fl : MappingFlags) :
    M (hal * RefPT) (result unit PagingError) := fun '(h, pt) =>
  Done (Ok tt, (h, mkRefPT (rp_root pt) (rp_upper pt)
    (ref_protect_leaf start size fl <$> rp_leaf pt) (rp_frames pt))).

#[export] Instance RefPageTable : PageTable64 := {
  PageTable := RefPT;
  pt_try_new h :=
    match alloc_frame h with
    | (Some f, h') => Done (Ok (mkRefPT f ∅ ∅ []), h')
    | (None, h') => Done (Err PgNoMemory, h')
    end;
  pt_root_paddr := rp_root;
  pt_map := ref_map;
  pt_remap := ref_remap;
  pt_unmap := ref_unmap;
  pt_query := ref_query;
  pt_map_region start get size fl _ _ := ref_map_pages (pages start (page_count size)) get fl;
  pt_unmap_region start size _ := ref_unmap_pages (pages start (page_count size));
  pt_protect_region start size fl _ := ref_protect start size fl;
  pt_drop pt h := foldl (fun h f => dealloc_frame f h) h (rp_frames pt ++ [rp_root pt])
}.

#[export] Instance RefPageTableView : PageTableView := {
  pt_entry := ref_entry;
  va_limit := 2 ^ 48
}.

(** ** The page table satisfies its laws *)

Context `{!GenericPTELaws}.

Lemma page_key_eq v v' : page_key v = page_key v' <-> page_of v = page_of v'.
Proof. unfold page_key. split; zpage. Qed.

Lemma leaf_key_page v v' : page_key v = page_key v' -> leaf_key v = leaf_key v'.
Proof. unfold page_key, leaf_key. zpage. Qed.

Lemma ref_entry_set pt v v' e :
  ref_entry (ref_set pt v e) v' =
    if decide (page_key v = page_key v')
    then (fun _ => (e, Size4K)) <$> ref_entry pt v'
    else ref_entry pt v'.
Proof.
  unfold ref_entry, ref_set. simpl. rewrite lookup_alter.
  destruct (decide (page_key v = page_key v')) as [Hp|Hp].
  - rewrite (leaf_key_page _ _ Hp), decide_True by done.
    destruct (rp_leaf pt !! leaf_key v'); simpl; [|done]. by rewrite Hp, lookup_insert_eq.
  - case_decide as Hk; [|done]. rewrite Hk.
    destruct (rp_leaf pt !! leaf_key v'); simpl; [|done]. by rewrite lookup_insert_ne.
Qed.

Lemma ref_upper_allocs ks h u ok h' u' fs :
  ref_upper ks h u = (ok, h', u', fs) ->
  allocs h fs h' /\ (ok = false -> exhausted h).
Proof.
  revert h u fs. induction ks as [|k ks IH]; simpl; intros h u fs Hr.
  { simplify_eq. split; [constructor|done]. }
  case_decide; [eauto|].
  destruct (alloc_frame h) as [[f|] h1] eqn:Ha.
  - destruct (ref_upper ks h1 _) as [[[ok1 h2] u2] fs2] eqn:Hu.
    injection Hr as -> -> -> <-.
    destruct (IH _ _ _ Hu) as [Hfs Hex]. split; [by econstructor|].
    intros Hok. apply (exhausted_after h [f] h1); [|auto]. econstructor; [done|constructor].
  - simplify_eq. split; [eapply allocs_none; [done|constructor]|]. intros _.
    exists [], h. rewrite Ha. split; [constructor|done].
Qed.

(** What creating tables does: the frames it takes are the new tables'. *)
Definition tables_created h pt h' pt' : Prop :=
  exists fs, allocs h fs h' /\ rp_frames pt' = rp_frames pt ++ fs.

Lemma ref_leaf_spec v h pt ok h' pt' :
  ref_leaf v h pt = (ok, h', pt') ->
  tables_created h pt h' pt' /\ rp_root pt' = rp_root pt /\
  (forall v', grows pt pt' v') /\
  (ok = true -> exists e, ref_entry pt' v = Some (e, Size4K) /\
     (ref_entry pt v = Some (e, Size4K) \/ ref_entry pt v = None /\ e = 0)) /\
  (ok = false -> ref_entry pt v = None /\ exhausted h).
Proof.
  unfold ref_leaf, grows, tables_created. simpl. unfold ref_entry.
  destruct (rp_leaf pt !! leaf_key v) as [t|] eqn:Hl.
  - intros [= <- <- <-]. rewrite Hl. simpl.
    split; [exists []; split; [constructor|by rewrite app_nil_r]|]. naive_solver.
  - destruct (alloc_frame h) as [[f|] h1] eqn:Ha; intros [= <- <- <-]; simpl.
    + split; [exists [f]; split; [econstructor; [done|constructor]|done]|]. split; [done|].
      rewrite lookup_insert_eq. simpl.
      split; [|split; [intros _; exists 0; naive_solver|done]].
      intros v'. destruct (decide (leaf_key v = leaf_key v')) as [Hk|Hk].
      * right. rewrite <- Hk, Hl, lookup_insert_eq. simpl.
        split; [done|]. exists 0. by rewrite pte_zero_unused.
      * left. by rewrite lookup_insert_ne.
    + split; [exists []; split; [eapply allocs_none; [done|constructor]|by rewrite app_nil_r]|].
      split; [done|]. split; [by left|]. split; [done|]. intros _. split; [done|].
      exists [], h. rewrite Ha. split; [constructor|done].
Qed.

Lemma ref_tables_spec v h pt ok h' pt' :
  ref_tables v h pt = (ok, h', pt') ->
  tables_created h pt h' pt' /\ rp_root pt' = rp_root pt /\
  (forall v', grows pt pt' v') /\
  (ok = true -> exists e, ref_entry pt' v = Some (e, Size4K) /\
     (ref_entry pt v = Some (e, Size4K) \/ ref_entry pt v = None /\ e = 0)) /\
  (ok = false -> ref_entry pt v = None /\ exhausted h).
Proof.
  unfold ref_tables. case_decide as Hs; destruct (rp_leaf pt !! leaf_key v) as [t|] eqn:Hl;
    try by (destruct Hs || destruct Hs; eauto).
  { intros [= <- <- <-]. unfold grows. simpl. unfold ref_entry. rewrite Hl. simpl.
    split; [exists []; split; [constructor|by rewrite app_nil_r]|]. naive_solver. }
  destruct (ref_upper _ _ _) as [[[ok1 h1] u] fs] eqn:Hu.
  destruct (ref_upper_allocs _ _ _ _ _ _ _ Hu) as [Hfs Hex].
  destruct ok1.
  - intros ((fs' & Hfs' & Hfr) & Hroot & Hg & Hok & Hko)%ref_leaf_spec.
    split; [exists (fs ++ fs'); split; [by eapply allocs_app|by rewrite Hfr, app_assoc]|].
    split; [done|]. split; [done|]. split; [done|]. intros Hf. destruct (Hko Hf) as [He Hx].
    split; [done|]. by eapply exhausted_after.
  - intros [= <- <- <-]. split; [by exists fs|]. split; [done|]. split; [by left|].
    split; [done|]. unfold ref_entry. rewrite Hl. auto.
Qed.

Lemma ref_map_spec h pt v pa fl :
  exists r h' pt',
    ref_map v pa Size4K fl (h, pt) = Done (r, (h', pt')) /\
    rp_root pt' = rp_root pt /\
    tables_created h pt h' pt' /\
    (forall v', 0 <= v' < va_limit -> page_of v' <> page_of v -> grows pt pt' v') /\
    match r with
    | Ok _ => vacant pt v /\
        ref_entry pt' v = Some (pte_new_page (page_of pa) fl false, Size4K)
    | Err e => grows pt pt' v /\
        (vacant pt v -> e = PgNoMemory /\ ref_entry pt v = None /\ exhausted h)
    end.
Proof.
  unfold ref_map. destruct (ref_tables v h pt) as [[ok h1] pt1] eqn:Ht.
  destruct (ref_tables_spec _ _ _ _ _ _ Ht) as (Hfs & Hroot & Hg & Hok & Hko).
  destruct ok.
  - destruct (Hok eq_refl) as (e & He & Hold). rewrite He.
    destruct (pte_is_unused e) eqn:Hu.
    + eexists _, _, _. split; [done|]. split; [done|]. split; [done|].
      unfold grows, vacant in *. simpl in *. split.
      * intros v' _ Hne. rewrite ref_entry_set, decide_False; [apply Hg|].
        rewrite page_key_eq. congruence.
      * split; [by destruct Hold as [->|[-> _]]|].
        by rewrite ref_entry_set, decide_True, He.
    + eexists _, _, _. split; [done|]. split; [done|]. split; [done|]. split; [auto|].
      split; [auto|]. unfold vacant. simpl.
      destruct Hold as [->|[_ ->]]; [congruence|]. by rewrite pte_zero_unused in Hu.
  - eexists _, _, _. split; [done|]. split; [done|]. split; [done|]. split; [auto|].
    split; [auto|]. naive_solver.
Qed.

Lemma ref_map_pages_eq ps get fl w : ref_map_pages ps get fl w = map_pages ps get fl w.
Proof.
  revert w. induction ps as [|p ps IH]; intros w; [done|]. simpl.
  unfold mbind, M_bind. destruct (lift (get p) w) as [[pa w1]| | |]; [|done..].
  destruct (ref_map _ _ _ _ w1) as [[[[]|] w2]| | |]; [|done..]. apply IH.
Qed.

Lemma ref_unmap_pages_eq ps w : ref_unmap_pages ps w = unmap_pages ps w.
Proof.
  revert w. induction ps as [|p ps IH]; intros w; [done|]. simpl.
  unfold mbind, M_bind.
  destruct (ref_unmap p w) as [[[[]|] w2]| | |]; [|done..]. apply IH.
Qed.

Lemma ref_set_others pt v e v' :
  page_of v' <> page_of v -> ref_entry (ref_set pt v e) v' = ref_entry pt v'.
Proof. intros. rewrite ref_entry_set, decide_False; [done|]. rewrite page_key_eq. congruence. Qed.

Lemma ref_set_same pt v e e0 s :
  ref_entry pt v = Some (e0, s) -> ref_entry (ref_set pt v e) v = Some (e, Size4K).
Proof. intros He. by rewrite ref_entry_set, decide_True, He. Qed.

Lemma ref_protect_entry start size fl pt v :
  start mod PAGE_SIZE = 0 -> size mod PAGE_SIZE = 0 ->
  (start <= v < start + size ->
     exists e, ref_entry pt v = Some (e, Size4K) /\ pte_is_present e = true) ->
  ref_entry (mkRefPT (rp_root pt) (rp_upper pt)
    (ref_protect_leaf start size fl <$> rp_leaf pt) (rp_frames pt)) v =
  if decide (start <= v < start + size)
  then (fun es => (pte_set_flags es.1 fl false, es.2)) <$> ref_entry pt v
  else ref_entry pt v.
Proof.
  intros Ha Hs Hp. unfold ref_entry in *. simpl. rewrite lookup_fmap.
  destruct (rp_leaf pt !! leaf_key v) as [t|]; [|by case_decide]. simpl in *.
  unfold ref_protect_leaf. rewrite map_lookup_imap.
  assert ((start <= page_key v * PAGE_SIZE < start + size) <-> start <= v < start + size) as Hr.
  { unfold page_key. split; zpage. }
  destruct (t !! page_key v) as [e|]; simpl in *.
  - case_decide; case_decide; tauto.
  - case_decide as Hin; [|done]. destruct (Hp Hin) as (e & [= <-] & Hpr).
    apply pte_present_used in Hpr. by rewrite pte_zero_unused in Hpr.
Qed.

#[export] Instance RefPageTable_laws : PageTableLaws.
Proof.
  assert (pte_is_present 0 = false) as Hz.
  { destruct (pte_is_present 0) eqn:E; [|done].
    apply pte_present_used in E. by rewrite pte_zero_unused in E. }
  constructor; simpl.
  - done.
  - intros pt v. unfold ref_entry, leaf_key, page_key.
    replace (page_of v / 2097152) with (v / 2097152) by zpage.
    by replace (page_of v / PAGE_SIZE) with (v / PAGE_SIZE) by zpage.
  - intros h. destruct (alloc_frame h) as [[f|] h']; [|done].
    eexists. split; [done|]. split; [done|]. intros v _. unfold vacant. simpl.
    unfold ref_entry. simpl. by rewrite lookup_empty.
  - intros h pt v pa fl _.
    destruct (ref_map_spec h pt v pa fl) as (r & h' & pt' & ? & ? & (fs & ? & _) & ?).
    exists r, h', pt'. eauto 10.
  - intros h pt v pa fl e _ He. unfold ref_remap. rewrite He. eexists. split; [done|].
    split; [done|]. split; [by eapply ref_set_same|]. intros. by apply ref_set_others.
  - intros h pt v e _ He Hp. unfold ref_unmap. rewrite He, Hp. eexists. split; [done|].
    split; [done|]. split; [by eapply ref_set_same|]. intros. by apply ref_set_others.
  - intros h pt v _. unfold present, ref_unmap. simpl.
    destruct (ref_entry pt v) as [[e s]|] eqn:He.
    + intros ->. eexists _, _. split; [done|]. split; [done|].
      rewrite (ref_set_same _ _ _ _ _ He). split; [done|]. intros. by apply ref_set_others.
    + intros _. eexists _, _. split; [done|]. by rewrite He.
  - done.
  - intros. apply ref_map_pages_eq.
  - intros. apply ref_unmap_pages_eq.
  - intros start size fl flush h pt Ha Hs ??? Hall. eexists. split; [done|]. split; [done|].
    intros v _. apply ref_protect_entry; [done..|]. intros Hv.
    destruct (Hall (page_of v)) as (e & He & ?).
    { apply page_of_elem_of_pages; done. }
    exists e. split; [|done]. revert He. unfold ref_entry, leaf_key, page_key.
    replace (page_of v / 2097152) with (v / 2097152) by zpage.
    by replace (page_of v / PAGE_SIZE) with (v / PAGE_SIZE) by zpage.
Qed.
End ref_page_table.

(** * The memory set *)

Section ref_memory_set.
Context {W B : Type} `{MappingBackend W B}.

Definition ref_ms_map (a : MemoryArea B) (unmap_overlap : bool) :
    M (list (MemoryArea B) * W) (result unit MappingError) := fun '(s, w) =>
  if area_size a =? 0 then Done (Err MsInvalidParam, (s, w))
  else if decide (Exists (areas_overlap a) s) then Done (Err MsAlreadyExists, (s, w))
  else match be_map (area_backend a) (area_start a) (area_size a) (area_flags a) w with
       | Done (true, w') => Done (Ok tt, (a :: s, w'))
       | Done (false, w') => Done (Err MsBadState, (s, w'))
       | Panic => Panic
       | UB => UB
       | OutOfFuel => OutOfFuel
       end.

Definition ref_ms_remove (cut rest : list (MemoryArea B)) :
    M (list (MemoryArea B) * W) (result unit MappingError) := fun '(s, w) =>
  match unmap_areas cut w with
  | Done (true, w') => Done (Ok tt, (rest, w'))
  | Done (false, w') => Done (Err MsBadState, (s, w'))
  | Panic => Panic
  | UB => UB
  | OutOfFuel => OutOfFuel
  end.

#[export] Instance RefMemorySet : MemorySetOps W B := {
  MemorySet := list (MemoryArea B);
  ms_new := [];
  ms_iter s := s;
  ms_find s v := find (fun a => (area_start a <=? v) && (v <? area_end a)) s;
  ms_map := ref_ms_map;
  ms_unmap start size sw :=
    ref_ms_remove (sw.1 ≫= fun a => area_cut a start (start + size))
      (sw.1 ≫= fun a => area_rest a start (start + size)) sw;
  ms_clear sw := ref_ms_remove sw.1 [] sw
}.

#[export] Instance RefMemorySet_laws : MemorySetLaws W B.
Proof.
  constructor; simpl.
  - done.
  - intros s v a Hf. apply List.find_some in Hf as [Hin Hb].
    apply list_elem_of_In in Hin. unfold area_contains. split; [done|]. zpage.
  - intros s v a Hf Hin%list_elem_of_In Hc.
    pose proof (List.find_none _ _ Hf _ Hin) as Hb. unfold area_contains in Hc. simpl in Hb.
    apply andb_false_iff in Hb as [Hb|Hb]; zpage.
  - intros a s w ->. done.
  - intros a s w Hs Ho. rewrite (proj2 (Z.eqb_neq _ _)), decide_True; [done..|lia].
  - intros a s w Hs Ho. rewrite (proj2 (Z.eqb_neq _ _)), decide_False; [|done|lia].
    destruct (be_map _ _ _ _ w) as [[[] w']| | |]; eauto.
  - intros start size s w _ _ _. eexists. split; [done|]. simpl.
    destruct (unmap_areas _ w) as [[[] w']| | |]; naive_solver.
  - intros s w. exists s. split; [done|].
    destruct (unmap_areas _ w) as [[[] w']| | |]; naive_solver.
Qed.
End ref_memory_set.
