(* ===== verification/Ept.v ===== *)
(** The VMX extended page table entry of [src/npt/arch/x86_64.rs]: the flags,
    the memory types, the entry and its [GenericPTE] methods, and the proof
    that it keeps the promises [GenericPTELaws]. *)
From S2P Require Import Prelude Crates RefCrates.
Local Open Scope Z_scope.

Module EPTFlags.
Definition READ : Z := Z.shiftl 1 0.
Definition WRITE : Z := Z.shiftl 1 1.
Definition EXECUTE : Z := Z.shiftl 1 2.
Definition MEM_TYPE_MASK : Z := Z.shiftl 7 3.
Definition IGNORE_PAT : Z := Z.shiftl 1 6.
Definition HUGE_PAGE : Z := Z.shiftl 1 7.
Definition ACCESSED : Z := Z.shiftl 1 8.
Definition DIRTY : Z := Z.shiftl 1 9.
Definition EXECUTE_FOR_USER : Z := Z.shiftl 1 10.

(** The union of the declared flags. *)
Definition all : Z :=
  foldr Z.lor 0 [READ; WRITE; EXECUTE; MEM_TYPE_MASK; IGNORE_PAT; HUGE_PAGE;
    ACCESSED; DIRTY; EXECUTE_FOR_USER].
End EPTFlags.

Inductive EPTMemType :=
  Uncached | WriteCombining | WriteThrough | WriteProtected | WriteBack.

#[export] Instance EPTMemType_eq_dec : EqDecision EPTMemType.
Proof. solve_decision. Defined.

(** The discriminants, and the conversion [numeric_enum!] derives from them. *)
Definition EPTMemType_repr (t : EPTMemType) : Z :=
  match t with
  | Uncached => 0
  | WriteCombining => 1
  | WriteThrough => 4
  | WriteProtected => 5
  | WriteBack => 6
  end.

Definition EPTMemType_try_from (v : Z) : result EPTMemType Z :=
  match v with
  | 0 => Ok Uncached
  | 1 => Ok WriteCombining
  | 4 => Ok WriteThrough
  | 5 => Ok WriteProtected
  | 6 => Ok WriteBack
  | _ => Err v
  end.

Module EPTEntry.
Section ops.
Context `{Bitflags} `{MappingFlagBits}.

Definition from_bits_truncate (bits : Z) : Z := bf_from_bits_truncate EPTFlags.all bits.

Definition set_mem_type (flags : Z) (mem_type : EPTMemType) : Z :=
  let bits := bf_set_bits flags 3 6 (EPTMemType_repr mem_type) in
  from_bits_truncate bits.

Definition mem_type (flags : Z) : result EPTMemType Z :=
  EPTMemType_try_from (bf_get_bits flags 3 6).

(** [EPTFlags::from(MappingFlags)]. *)
Definition flags_from_mapping (f : MappingFlags) : Z :=
  if bf_is_empty f then 0 else
  let ret := 0 in
  let ret := if bf_contains f READ then bf_union ret EPTFlags.READ else ret in
  let ret := if bf_contains f WRITE then bf_union ret EPTFlags.WRITE else ret in
  let ret := if bf_contains f EXECUTE then bf_union ret EPTFlags.EXECUTE else ret in
  if negb (bf_contains f DEVICE) then set_mem_type ret WriteBack else ret.

(** [MappingFlags::from(EPTFlags)]. *)
Definition mapping_from_flags (f : Z) : MappingFlags :=
  let ret := no_flags in
  let ret := if bf_contains f EPTFlags.READ then bf_union ret READ else ret in
  let ret := if bf_contains f EPTFlags.WRITE then bf_union ret WRITE else ret in
  let ret := if bf_contains f EPTFlags.EXECUTE then bf_union ret EXECUTE else ret in
  match mem_type f with
  | Ok Uncached => bf_union ret DEVICE
  | _ => ret
  end.

Definition PHYS_ADDR_MASK : Z := 0x000ffffffffff000.

Definition new_page (paddr : Z) (flags : MappingFlags) (is_huge : bool) : Z :=
  let flags := flags_from_mapping flags in
  let flags := if is_huge then bf_union flags EPTFlags.HUGE_PAGE else flags in
  Z.lor flags (Z.land paddr PHYS_ADDR_MASK).

Definition new_table (paddr : Z) : Z :=
  let flags := bf_union (bf_union EPTFlags.READ EPTFlags.WRITE) EPTFlags.EXECUTE in
  Z.lor flags (Z.land paddr PHYS_ADDR_MASK).

Definition paddr (e : Z) : Z := Z.land e PHYS_ADDR_MASK.

Definition flags (e : Z) : MappingFlags := mapping_from_flags (from_bits_truncate e).

Definition set_paddr (e paddr : Z) : Z :=
  Z.lor (Z.land e (u64_not PHYS_ADDR_MASK)) (Z.land paddr PHYS_ADDR_MASK).

Definition set_flags (e : Z) (flags : MappingFlags) (is_huge : bool) : Z :=
  let flags := flags_from_mapping flags in
  let flags := if is_huge then bf_union flags EPTFlags.HUGE_PAGE else flags in
  Z.lor (Z.land e PHYS_ADDR_MASK) flags.

Definition is_unused (e : Z) : bool := e =? 0.
Definition is_present (e : Z) : bool := negb (Z.land e 0x7 =? 0).
Definition is_huge (e : Z) : bool := bf_contains (from_bits_truncate e) EPTFlags.HUGE_PAGE.
Definition clear (e : Z) : Z := 0.
Definition bits (e : Z) : Z := e.

#[export] Instance EPTEntry_pte : GenericPTE := {
  pte_bits := bits;
  pte_new_page := new_page;
  pte_new_table := new_table;
  pte_paddr := paddr;
  pte_flags e := Done (flags e);
  pte_set_paddr := set_paddr;
  pte_set_flags := set_flags;
  pte_is_unused := is_unused;
  pte_is_present := is_present;
  pte_is_huge := is_huge;
  pte_clear := clear
}.

#[export] Instance ExtendedPageTableMetadata : PagingMetaData := {
  LEVELS := 4;
  PA_MAX_BITS := 52;
  VA_MAX_BITS := 48
}.
End ops.

Section laws.
Context `{BitflagsLaws} `{MappingFlagLaws}.

(** The bits of an entry for generic flags, in closed form. *)
Definition flag_word (empty r w x d : bool) : Z :=
  if empty then 0
  else flag_if r 1 + flag_if w 2 + flag_if x 4 + (if d then 0 else 48).

Lemma flags_from_mapping_word f :
  flags_from_mapping f =
    flag_word (f =? 0) (Z.testbit f bit_READ) (Z.testbit f bit_WRITE)
      (Z.testbit f bit_EXECUTE) (Z.testbit f bit_DEVICE).
Proof.
  unfold flags_from_mapping, set_mem_type, from_bits_truncate.
  rewrite bf_is_empty_spec. autorewrite with flags.
  rewrite bf_from_bits_truncate_spec, bf_set_bits_spec, !bf_union_spec by (simpl; lia).
  destruct (f =? 0); [done|].
  destruct (Z.testbit f bit_READ), (Z.testbit f bit_WRITE), (Z.testbit f bit_EXECUTE),
    (Z.testbit f bit_DEVICE); reflexivity.
Qed.

Definition huge_word (huge : bool) (fw : Z) : Z := if huge then Z.lor fw 128 else fw.

Lemma new_page_word pa f huge :
  new_page pa f huge =
    Z.lor (huge_word huge (flags_from_mapping f)) (Z.land pa PHYS_ADDR_MASK).
Proof. unfold new_page. by rewrite bf_union_spec. Qed.

(** Whatever the flags, their word keeps out of the address bits. *)
Lemma flag_word_mask huge f :
  Z.land (huge_word huge (flags_from_mapping f)) PHYS_ADDR_MASK = 0.
Proof.
  rewrite flags_from_mapping_word.
  generalize (f =? 0), (Z.testbit f bit_READ), (Z.testbit f bit_WRITE),
    (Z.testbit f bit_EXECUTE), (Z.testbit f bit_DEVICE).
  intros [] [] [] [] []; destruct huge; reflexivity.
Qed.

Lemma paddr_new_page pa f huge : paddr (new_page pa f huge) = Z.land pa PHYS_ADDR_MASK.
Proof. unfold paddr. rewrite new_page_word. apply land_lor_same, flag_word_mask. Qed.

(** Reading low bits of a new entry sees the flag word only. *)
Lemma land_new_page_low pa f huge k :
  Z.land PHYS_ADDR_MASK k = 0 ->
  Z.land (new_page pa f huge) k = Z.land (huge_word huge (flags_from_mapping f)) k.
Proof. rewrite new_page_word. apply land_lor_other. Qed.

Lemma set_flags_word e f huge :
  set_flags e f huge =
    Z.lor (huge_word huge (flags_from_mapping f)) (Z.land e PHYS_ADDR_MASK).
Proof. unfold set_flags. rewrite bf_union_spec. apply Z.lor_comm. Qed.

Lemma paddr_set_flags e f huge : paddr (set_flags e f huge) = paddr e.
Proof. unfold paddr. rewrite set_flags_word. apply land_lor_same, flag_word_mask. Qed.

Lemma set_flags_again e f f' huge huge' :
  set_flags (set_flags e f huge) f' huge' = set_flags e f' huge'.
Proof. rewrite !(set_flags_word _ f'). f_equal. apply paddr_set_flags. Qed.

Lemma paddr_set_paddr e pa : paddr (set_paddr e pa) = Z.land pa PHYS_ADDR_MASK.
Proof.
  unfold paddr, set_paddr. apply land_lor_same, land_u64_not.
  unfold PHYS_ADDR_MASK, u64_modulus. lia.
Qed.

Lemma set_flags_set_paddr e pa f huge :
  set_flags (set_paddr e pa) f huge = new_page pa f huge.
Proof. rewrite set_flags_word, new_page_word. f_equal. apply paddr_set_paddr. Qed.

Lemma is_present_new_page pa f huge :
  is_present (new_page pa f huge) =
    negb (f =? 0) &&
    (Z.testbit f bit_READ || Z.testbit f bit_WRITE || Z.testbit f bit_EXECUTE).
Proof.
  unfold is_present. rewrite land_new_page_low by done. rewrite flags_from_mapping_word.
  generalize (f =? 0), (Z.testbit f bit_READ), (Z.testbit f bit_WRITE),
    (Z.testbit f bit_EXECUTE), (Z.testbit f bit_DEVICE).
  intros [] [] [] [] []; destruct huge; reflexivity.
Qed.

#[export] Instance EPTEntry_laws : GenericPTELaws.
Proof.
  constructor; simpl.
  - by vm_compute.
  - intros pa fl huge Hpa Ha. rewrite paddr_new_page. by apply (land_page_mask 52).
  - intros. apply set_flags_set_paddr.
  - intros. apply paddr_set_flags.
  - intros. apply set_flags_again.
  - done.
  - intros e Hp. unfold is_present, is_unused in *. destruct (Z.eqb_spec e 0); [|done].
    subst. done.
  - done.
  - intros. by rewrite !is_present_new_page.
  - by rewrite is_present_new_page.
Qed.

(** Reading generic flags back, one flag at a time. *)
Lemma mapping_from_flags_word g :
  mapping_from_flags g =
    Z.lor (Z.lor (Z.lor (flag_if (Z.testbit g 0) READ) (flag_if (Z.testbit g 1) WRITE))
      (flag_if (Z.testbit g 2) EXECUTE))
      (flag_if (Z.land (Z.shiftr g 3) 7 =? 0) DEVICE).
Proof.
  unfold mapping_from_flags, mem_type.
  rewrite !bf_contains_spec, bf_get_bits_spec by lia. rewrite !union_if, Z.lor_0_l.
  change EPTFlags.READ with (2 ^ 0). change EPTFlags.WRITE with (2 ^ 1).
  change EPTFlags.EXECUTE with (2 ^ 2). rewrite !land_pow2 by lia.
  change (Z.ones (6 - 3)) with 7.
  assert (0 <= Z.land (Z.shiftr g 3) 7 < 8) as Hr.
  { change 7 with (Z.ones 3). rewrite Z.land_ones by lia. apply Z.mod_pos_bound. lia. }
  destruct (Z.eqb_spec (Z.land (Z.shiftr g 3) 7) 0) as [->|Hn]; simpl.
  - by rewrite bf_union_spec.
  - rewrite Z.lor_0_r. unfold EPTMemType_try_from.
    destruct (Z.land (Z.shiftr g 3) 7) as [|q|q]; [done| |lia].
    destruct q as [[[?|?|]|[?|?|]|]|[[?|?|]|[?|?|]|]|]; try done; lia.
Qed.

Definition RWXD : MappingFlags := Z.lor (Z.lor (Z.lor READ WRITE) EXECUTE) DEVICE.

Lemma land_RWXD f :
  Z.land f RWXD =
    Z.lor (Z.lor (Z.lor (flag_if (Z.testbit f bit_READ) READ)
      (flag_if (Z.testbit f bit_WRITE) WRITE))
      (flag_if (Z.testbit f bit_EXECUTE) EXECUTE))
      (flag_if (Z.testbit f bit_DEVICE) DEVICE).
Proof.
  destruct bit_nonneg as (? & ? & ? & ? & _). unfold RWXD.
  rewrite !Z.land_lor_distr_r. unfold READ, WRITE, EXECUTE, DEVICE.
  by rewrite !land_flag.
Qed.

Lemma flags_new_page pa f huge :
  flags (new_page pa f huge) = if f =? 0 then DEVICE else Z.land f RWXD.
Proof.
  unfold flags, from_bits_truncate.
  rewrite bf_from_bits_truncate_spec, land_new_page_low by done.
  rewrite mapping_from_flags_word, land_RWXD, flags_from_mapping_word.
  generalize (f =? 0), (Z.testbit f bit_READ), (Z.testbit f bit_WRITE),
    (Z.testbit f bit_EXECUTE), (Z.testbit f bit_DEVICE).
  intros [] [] [] [] []; destruct huge; reflexivity.
Qed.

Lemma is_huge_new_page pa f huge : is_huge (new_page pa f huge) = huge.
Proof.
  unfold is_huge, from_bits_truncate.
  rewrite bf_contains_spec, bf_from_bits_truncate_spec, land_new_page_low by done.
  rewrite flags_from_mapping_word.
  generalize (f =? 0), (Z.testbit f bit_READ), (Z.testbit f bit_WRITE),
    (Z.testbit f bit_EXECUTE), (Z.testbit f bit_DEVICE).
  intros [] [] [] [] []; destruct huge; reflexivity.
Qed.

(** C8. A page entry built by [new_page] reads back: the frame address (any
    4K aligned address below 2^52) and the page size are returned exactly, the
    generic flags are returned restricted to READ, WRITE, EXECUTE and DEVICE
    (an entry for no flags at all reads as DEVICE), and the entry is present
    iff one of READ, WRITE, EXECUTE was asked for. *)
Theorem new_page_roundtrip pa f huge :
  0 <= pa < 2 ^ 52 -> pa mod PAGE_SIZE = 0 ->
  paddr (new_page pa f huge) = pa /\
  is_huge (new_page pa f huge) = huge /\
  flags (new_page pa f huge) = (if f =? 0 then DEVICE else Z.land f RWXD) /\
  is_present (new_page pa f huge) =
    bf_contains f READ || bf_contains f WRITE || bf_contains f EXECUTE.
Proof.
  intros Hpa Ha. rewrite paddr_new_page, is_huge_new_page, flags_new_page, is_present_new_page.
  split; [by apply (land_page_mask 52)|]. split; [done|]. split; [done|].
  autorewrite with flags. destruct (Z.eqb_spec f 0) as [->|]; [|done].
  by rewrite !Z.testbit_0_l.
Qed.

(** Reading bits outside the address field of an entry whose address was
    replaced. *)
Lemma land_set_paddr_low e pa k :
  Z.land PHYS_ADDR_MASK k = 0 -> Z.land (u64_not PHYS_ADDR_MASK) k = k ->
  Z.land (set_paddr e pa) k = Z.land e k.
Proof.
  intros Hm Hk. unfold set_paddr. rewrite land_lor_other by done.
  by rewrite <- Z.land_assoc, Hk.
Qed.

Lemma land_set_flags_low e f huge k :
  Z.land PHYS_ADDR_MASK k = 0 ->
  Z.land (set_flags e f huge) k = Z.land (new_page 0 f huge) k.
Proof.
  intros Hm. rewrite set_flags_word, land_new_page_low by done. by apply land_lor_other.
Qed.

(** C20. Updating an entry in place touches one field only: [set_paddr]
    stores the new frame and leaves flags, size and presence alone,
    [set_flags] stores flags and size and leaves the frame alone, and both in
    sequence (what [remap] does) give exactly the entry [new_page] builds. *)
Theorem set_fields_independent e pa f huge :
  0 <= pa < 2 ^ 52 -> pa mod PAGE_SIZE = 0 ->
  (paddr (set_paddr e pa) = pa /\
   flags (set_paddr e pa) = flags e /\
   is_huge (set_paddr e pa) = is_huge e /\
   is_present (set_paddr e pa) = is_present e) /\
  (paddr (set_flags e f huge) = paddr e /\
   flags (set_flags e f huge) = flags (new_page 0 f huge) /\
   is_huge (set_flags e f huge) = huge) /\
  set_flags (set_paddr e pa) f huge = new_page pa f huge.
Proof.
  intros Hpa Ha. unfold flags, is_huge, is_present, from_bits_truncate.
  rewrite !bf_from_bits_truncate_spec, !land_set_paddr_low, !land_set_flags_low by done.
  rewrite paddr_set_paddr, paddr_set_flags.
  split; [split; [by apply (land_page_mask 52)|done]|].
  split; [|apply set_flags_set_paddr].
  split; [done|]. split; [done|].
  rewrite <- (is_huge_new_page 0 f huge) at 2.
  unfold is_huge, from_bits_truncate. by rewrite !bf_from_bits_truncate_spec.
Qed.

(** C33. The memory type field: storing a type and reading it back gives the
    type for all five types, and no other declared flag changes. *)
Theorem mem_type_roundtrip fl t :
  mem_type (set_mem_type fl t) = Ok t /\
  Z.ldiff (set_mem_type fl t) EPTFlags.MEM_TYPE_MASK =
    Z.land (Z.ldiff fl EPTFlags.MEM_TYPE_MASK) EPTFlags.all.
Proof.
  unfold mem_type, set_mem_type, from_bits_truncate.
  rewrite bf_from_bits_truncate_spec, bf_get_bits_spec, bf_set_bits_spec
    by (destruct t; simpl; lia).
  change (Z.shiftl (Z.ones (6 - 3)) 3) with EPTFlags.MEM_TYPE_MASK.
  rewrite Z.land_lor_distr_l, Z.shiftr_lor, Z.shiftr_land, Z.shiftr_ldiff.
  split.
  - rewrite Z.land_lor_distr_l, <- Z.land_assoc.
    change (Z.land (Z.shiftr EPTFlags.all 3) (Z.ones (6 - 3))) with 7.
    change (Z.shiftr EPTFlags.MEM_TYPE_MASK 3) with 7.
    replace (Z.land (Z.ldiff (Z.shiftr fl 3) 7) 7) with 0.
    { destruct t; reflexivity. }
    symmetry. bitwise i. bool_cases.
  - assert (Z.land (Z.shiftl (EPTMemType_repr t) 3) EPTFlags.MEM_TYPE_MASK =
      Z.shiftl (EPTMemType_repr t) 3) as Ht by by destruct t.
    rewrite <- Ht. bitwise i. bool_cases.
Qed.
End laws.

Lemma set_fields_independent_witness :
  paddr (set_paddr 0x5000 0x9000) = 0x9000 /\
  set_flags (set_paddr 0x5000 0x9000) 1 false = new_page 0x9000 1 false.
Proof.
  destruct (set_fields_independent 0x5000 0x9000 1 false) as ((? & _) & _ & ?); [lia|done|].
  done.
Defined.

Lemma mem_type_roundtrip_witness :
  mem_type (set_mem_type 0x7f7 WriteThrough) = Ok WriteThrough.
Proof. apply (mem_type_roundtrip 0x7f7 WriteThrough). Defined.

Lemma new_page_roundtrip_witness :
  paddr (new_page 0x123456000 3 false) = 0x123456000 /\
  flags (new_page 0x123456000 3 false) = 3.
Proof.
  destruct (new_page_roundtrip 0x123456000 3 false) as (? & _ & ? & _); [lia|done|].
  split; [done|]. by vm_compute.
Defined.
End EPTEntry.
