(* ===== verification/A64.v ===== *)
(** The VMSAv8-64 stage 2 descriptor of [src/npt/arch/aarch64.rs]: the
    attributes, the memory types, the entry and its [GenericPTE] methods, and
    the proof that it keeps the promises [GenericPTELaws]. *)
From S2P Require Import Prelude Crates RefCrates.
Local Open Scope Z_scope.

Module DescriptorAttr.
Definition VALID : Z := Z.shiftl 1 0.
Definition NON_BLOCK : Z := Z.shiftl 1 1.
Definition ATTR : Z := Z.shiftl 15 2.
Definition S2AP_RO : Z := Z.shiftl 1 6.
Definition S2AP_WO : Z := Z.shiftl 1 7.
Definition INNER : Z := Z.shiftl 1 8.
Definition SHAREABLE : Z := Z.shiftl 1 9.
Definition AF : Z := Z.shiftl 1 10.
Definition NG : Z := Z.shiftl 1 11.
Definition CONTIGUOUS : Z := Z.shiftl 1 52.
Definition XN : Z := Z.shiftl 1 54.
Definition NS : Z := Z.shiftl 1 55.
Definition PXN_TABLE : Z := Z.shiftl 1 59.
Definition XN_TABLE : Z := Z.shiftl 1 60.
Definition AP_NO_EL0_TABLE : Z := Z.shiftl 1 61.
Definition AP_NO_WRITE_TABLE : Z := Z.shiftl 1 62.
Definition NS_TABLE : Z := Z.shiftl 1 63.

(** The union of the declared flags. *)
Definition all : Z :=
  foldr Z.lor 0 [VALID; NON_BLOCK; ATTR; S2AP_RO; S2AP_WO; INNER; SHAREABLE; AF; NG;
    CONTIGUOUS; XN; NS; PXN_TABLE; XN_TABLE; AP_NO_EL0_TABLE; AP_NO_WRITE_TABLE; NS_TABLE].

Definition ATTR_INDEX_MASK : Z := 60.
Definition PTE_S2_MEM_ATTR_NORMAL_INNER_WRITE_BACK_CACHEABLE : Z := Z.shiftl 3 2.
Definition PTE_S2_MEM_ATTR_NORMAL_OUTER_WRITE_BACK_CACHEABLE : Z := Z.shiftl 3 4.
Definition PTE_S2_MEM_ATTR_NORMAL_OUTER_WRITE_BACK_NOCACHEABLE : Z := Z.shiftl 1 4.
Definition NORMAL_BIT : Z :=
  Z.lor PTE_S2_MEM_ATTR_NORMAL_INNER_WRITE_BACK_CACHEABLE
    PTE_S2_MEM_ATTR_NORMAL_OUTER_WRITE_BACK_CACHEABLE.
End DescriptorAttr.

Inductive MemType := Device | Normal | NormalNonCache.

#[export] Instance MemType_eq_dec : EqDecision MemType.
Proof. solve_decision. Defined.

(** The cargo feature [4-level-ept]. *)
Class Feature4LevelEpt := four_level_ept : bool.

Module A64PTEHV.
Section ops.
Context `{Bitflags} `{MappingFlagBits}.

Definition from_mem_type (mem_type : MemType) : Z :=
  match mem_type with
  | Normal => Z.lor DescriptorAttr.NORMAL_BIT DescriptorAttr.SHAREABLE
  | NormalNonCache =>
      Z.lor (Z.lor DescriptorAttr.PTE_S2_MEM_ATTR_NORMAL_INNER_WRITE_BACK_CACHEABLE
               DescriptorAttr.PTE_S2_MEM_ATTR_NORMAL_OUTER_WRITE_BACK_NOCACHEABLE)
        DescriptorAttr.SHAREABLE
  | Device => DescriptorAttr.SHAREABLE
  end.

(** [DescriptorAttr::mem_type], which panics on the remaining encodings. *)
Definition mem_type (attr : Z) : outcome MemType :=
  let idx := Z.land attr DescriptorAttr.ATTR_INDEX_MASK in
  if idx =? DescriptorAttr.NORMAL_BIT then Done Normal
  else if idx =? DescriptorAttr.PTE_S2_MEM_ATTR_NORMAL_OUTER_WRITE_BACK_NOCACHEABLE
  then Done NormalNonCache
  else if idx =? 0 then Done Device
  else Panic.

(** [MappingFlags::from(DescriptorAttr)]. *)
Definition mapping_from_attr (attr : Z) : outcome MappingFlags :=
  let flags := no_flags in
  let flags := if bf_contains attr DescriptorAttr.VALID then bf_union flags READ else flags in
  let flags :=
    if negb (bf_contains attr DescriptorAttr.S2AP_WO) then bf_union flags WRITE else flags in
  let flags :=
    if negb (bf_contains attr DescriptorAttr.XN) then bf_union flags EXECUTE else flags in
  mt ← mem_type attr;
  Done (if decide (mt = Device) then bf_union flags DEVICE else flags).

(** [DescriptorAttr::from(MappingFlags)]. *)
Definition attr_from_mapping (flags : MappingFlags) : Z :=
  let attr :=
    if bf_contains flags DEVICE then
      if bf_contains flags UNCACHED then from_mem_type NormalNonCache
      else from_mem_type Device
    else from_mem_type Normal in
  let attr :=
    if bf_contains flags READ
    then bf_union attr (bf_union DescriptorAttr.VALID DescriptorAttr.S2AP_RO) else attr in
  if bf_contains flags WRITE then bf_union attr DescriptorAttr.S2AP_WO else attr.

Definition PHYS_ADDR_MASK : Z := 0x0000fffffffff000.

Definition empty : Z := 0.

Definition from_bits_truncate (bits : Z) : Z := bf_from_bits_truncate DescriptorAttr.all bits.

Definition bits (e : Z) : Z := e.

Definition new_page (paddr : Z) (flags : MappingFlags) (is_huge : bool) : Z :=
  let attr := bf_union (attr_from_mapping flags) DescriptorAttr.AF in
  let attr := if negb is_huge then bf_union attr DescriptorAttr.NON_BLOCK else attr in
  Z.lor attr (Z.land paddr PHYS_ADDR_MASK).

Definition new_table (paddr : Z) : Z :=
  let attr := bf_union DescriptorAttr.NON_BLOCK DescriptorAttr.VALID in
  Z.lor attr (Z.land paddr PHYS_ADDR_MASK).

Definition paddr (e : Z) : Z := Z.land e PHYS_ADDR_MASK.

Definition flags (e : Z) : outcome MappingFlags := mapping_from_attr (from_bits_truncate e).

Definition set_paddr (e paddr : Z) : Z :=
  Z.lor (Z.land e (u64_not PHYS_ADDR_MASK)) (Z.land paddr PHYS_ADDR_MASK).

Definition set_flags (e : Z) (flags : MappingFlags) (is_huge : bool) : Z :=
  let attr := bf_union (attr_from_mapping flags) DescriptorAttr.AF in
  let attr := if negb is_huge then bf_union attr DescriptorAttr.NON_BLOCK else attr in
  Z.lor (Z.land e PHYS_ADDR_MASK) attr.

Definition is_unused (e : Z) : bool := e =? 0.
Definition is_present (e : Z) : bool := bf_contains (from_bits_truncate e) DescriptorAttr.VALID.
Definition is_huge (e : Z) : bool :=
  negb (bf_contains (from_bits_truncate e) DescriptorAttr.NON_BLOCK).
Definition clear (e : Z) : Z := 0.

#[export] Instance A64PTEHV_pte : GenericPTE := {
  pte_bits := bits;
  pte_new_page := new_page;
  pte_new_table := new_table;
  pte_paddr := paddr;
  pte_flags := flags;
  pte_set_paddr := set_paddr;
  pte_set_flags := set_flags;
  pte_is_unused := is_unused;
  pte_is_present := is_present;
  pte_is_huge := is_huge;
  pte_clear := clear
}.

#[export] Instance A64HVPagingMetaData `{Feature4LevelEpt} : PagingMetaData := {
  LEVELS := if four_level_ept then 4 else 3;
  VA_MAX_BITS := if four_level_ept then 48 else 40;
  PA_MAX_BITS := 48
}.
End ops.

Section laws.
Context `{BitflagsLaws} `{MappingFlagLaws}.

(** The attribute bits of an entry for generic flags, in closed form. *)
Definition attr_word (r w d u huge : bool) : Z :=
  0x400 + (if d then (if u then 0x21c else 0x200) else 0x23c) +
  flag_if r 0x41 + flag_if w 0x80 + flag_if (negb huge) 0x2.

Definition attr_of (f : MappingFlags) (huge : bool) : Z :=
  attr_word (Z.testbit f bit_READ) (Z.testbit f bit_WRITE) (Z.testbit f bit_DEVICE)
    (Z.testbit f bit_UNCACHED) huge.

Lemma attr_word_spec f (huge : bool) :
  (let attr := bf_union (attr_from_mapping f) DescriptorAttr.AF in
   if negb huge then bf_union attr DescriptorAttr.NON_BLOCK else attr) = attr_of f huge.
Proof.
  unfold attr_from_mapping, attr_of. autorewrite with flags. rewrite !bf_union_spec.
  destruct (Z.testbit f bit_READ), (Z.testbit f bit_WRITE), (Z.testbit f bit_DEVICE),
    (Z.testbit f bit_UNCACHED), huge; reflexivity.
Qed.

(** A fact about the attribute bits of every entry, by computation. *)
Ltac attr_cases f huge :=
  unfold attr_of;
  generalize (Z.testbit f bit_READ), (Z.testbit f bit_WRITE), (Z.testbit f bit_DEVICE),
    (Z.testbit f bit_UNCACHED);
  intros [] [] [] []; destruct huge; reflexivity.

Lemma a64_new_page_word pa f huge :
  new_page pa f huge = Z.lor (attr_of f huge) (Z.land pa PHYS_ADDR_MASK).
Proof. unfold new_page. by rewrite <- attr_word_spec. Qed.

Lemma a64_set_flags_word e f huge :
  set_flags e f huge = Z.lor (attr_of f huge) (Z.land e PHYS_ADDR_MASK).
Proof. unfold set_flags. rewrite <- attr_word_spec. apply Z.lor_comm. Qed.

Lemma attr_of_mask f huge : Z.land (attr_of f huge) PHYS_ADDR_MASK = 0.
Proof. attr_cases f huge. Qed.

Lemma a64_paddr_new_page pa f huge : paddr (new_page pa f huge) = Z.land pa PHYS_ADDR_MASK.
Proof. unfold paddr. rewrite a64_new_page_word. apply land_lor_same, attr_of_mask. Qed.

Lemma a64_paddr_set_flags e f huge : paddr (set_flags e f huge) = paddr e.
Proof. unfold paddr. rewrite a64_set_flags_word. apply land_lor_same, attr_of_mask. Qed.

Lemma a64_set_flags_again e f f' huge huge' :
  set_flags (set_flags e f huge) f' huge' = set_flags e f' huge'.
Proof. rewrite !(a64_set_flags_word _ f'). f_equal. apply a64_paddr_set_flags. Qed.

Lemma a64_paddr_set_paddr e pa : paddr (set_paddr e pa) = Z.land pa PHYS_ADDR_MASK.
Proof.
  unfold paddr, set_paddr. apply land_lor_same, land_u64_not.
  unfold PHYS_ADDR_MASK, u64_modulus. lia.
Qed.

Lemma a64_set_flags_set_paddr e pa f huge :
  set_flags (set_paddr e pa) f huge = new_page pa f huge.
Proof. rewrite a64_set_flags_word, a64_new_page_word. f_equal. apply a64_paddr_set_paddr. Qed.

(** Reading the attributes of a new entry does not see the address. *)
Lemma truncate_new_page pa f huge :
  from_bits_truncate (new_page pa f huge) = attr_of f huge.
Proof.
  unfold from_bits_truncate. rewrite bf_from_bits_truncate_spec, a64_new_page_word.
  rewrite land_lor_other by done. attr_cases f huge.
Qed.

Lemma a64_is_present_new_page pa f huge :
  is_present (new_page pa f huge) = Z.testbit f bit_READ.
Proof.
  unfold is_present. rewrite truncate_new_page, bf_contains_spec. attr_cases f huge.
Qed.

Lemma a64_is_huge_new_page pa f huge : is_huge (new_page pa f huge) = huge.
Proof.
  unfold is_huge. rewrite truncate_new_page, bf_contains_spec. attr_cases f huge.
Qed.

#[export] Instance A64PTEHV_laws `{Feature4LevelEpt} : GenericPTELaws.
Proof.
  constructor; simpl.
  - by vm_compute.
  - intros pa fl huge Hpa Ha. rewrite a64_paddr_new_page. by apply (land_page_mask 48).
  - intros. apply a64_set_flags_set_paddr.
  - intros. apply a64_paddr_set_flags.
  - intros. apply a64_set_flags_again.
  - done.
  - intros e Hp. unfold is_present, is_unused, from_bits_truncate in *.
    rewrite bf_contains_spec, bf_from_bits_truncate_spec in Hp.
    destruct (Z.eqb_spec e 0); [|done]. by subst.
  - done.
  - intros. by rewrite !a64_is_present_new_page.
  - rewrite a64_is_present_new_page. apply Z.testbit_0_l.
Qed.

Lemma a64_flags_new_page pa f huge :
  flags (new_page pa f huge) =
    if Z.testbit f bit_DEVICE && Z.testbit f bit_UNCACHED then Panic
    else Done (Z.lor (Z.lor (Z.lor (flag_if (Z.testbit f bit_READ) READ)
      (flag_if (negb (Z.testbit f bit_WRITE)) WRITE)) EXECUTE)
      (flag_if (Z.testbit f bit_DEVICE) DEVICE)).
Proof.
  unfold flags, mapping_from_attr. rewrite truncate_new_page, !bf_contains_spec.
  rewrite !union_if, !bf_union_spec. unfold attr_of.
  generalize (Z.testbit f bit_READ), (Z.testbit f bit_WRITE), (Z.testbit f bit_DEVICE),
    (Z.testbit f bit_UNCACHED).
  intros [] [] [] []; destruct huge; try reflexivity.
  all: simpl; by rewrite ?Z.lor_0_r.
Qed.

(** Which flag a union of flags has. *)
Lemma contains_flag_if b (c : bool) b' :
  0 <= b' -> Z.testbit (flag_if c (2 ^ b')) b = c && (b' =? b).
Proof. intros. destruct c; simpl; [by apply Z.pow2_bits_eqb|apply Z.testbit_0_l]. Qed.

(** C9. A page descriptor built by [new_page] reads back: the frame address
    (any 4K aligned address below 2^48) and the page size are returned
    exactly, and the descriptor is valid iff READ was asked for. *)
Theorem a64_new_page_roundtrip pa f huge :
  0 <= pa < 2 ^ 48 -> pa mod PAGE_SIZE = 0 ->
  paddr (new_page pa f huge) = pa /\
  is_huge (new_page pa f huge) = huge /\
  is_unused (new_page pa f huge) = false /\
  is_present (new_page pa f huge) = bf_contains f READ.
Proof.
  intros Hpa Ha. rewrite a64_paddr_new_page, a64_is_huge_new_page, a64_is_present_new_page.
  split; [by apply (land_page_mask 48)|]. split; [done|]. split; [|by autorewrite with flags].
  apply Z.eqb_neq. intros Hz.
  assert (from_bits_truncate (new_page pa f huge) = 0) as Ht.
  { rewrite Hz. unfold from_bits_truncate. by rewrite bf_from_bits_truncate_spec. }
  rewrite truncate_new_page in Ht. apply Z.eqb_eq in Ht.
  enough ((attr_of f huge =? 0) = false) by congruence. attr_cases f huge.
Qed.

(** C30. What the flags of a new descriptor read as.  READ and DEVICE read
    back as stored.  WRITE reads back inverted, and EXECUTE is always read. *)
Theorem a64_flags_read_back pa f huge :
  bf_contains f DEVICE && bf_contains f UNCACHED = false ->
  exists g, flags (new_page pa f huge) = Done g /\
    bf_contains g READ = bf_contains f READ /\
    bf_contains g DEVICE = bf_contains f DEVICE /\
    bf_contains g WRITE = negb (bf_contains f WRITE) /\
    bf_contains g EXECUTE = true.
Proof.
  autorewrite with flags. intros Hdu. rewrite a64_flags_new_page, Hdu.
  eexists. split; [done|]. autorewrite with flags.
  pose proof bit_nonneg as (? & ? & ? & ? & _).
  pose proof flag_bits_distinct as Hd. unfold flag_bits in Hd.
  repeat rewrite NoDup_cons in Hd. rewrite !not_elem_of_cons in Hd.
  destruct Hd as ((? & ? & ? & _) & (? & ? & _) & (? & _) & _).
  rewrite !Z.lor_spec. unfold READ, WRITE, EXECUTE, DEVICE.
  rewrite !contains_flag_if, !Z.pow2_bits_eqb, !Z.eqb_refl by done.
  rewrite !(proj2 (Z.eqb_neq _ _)) by congruence. by rewrite ?andb_false_r, ?orb_false_r, ?andb_true_r, ?orb_true_r.
Qed.

(** C31. Memory that is mapped DEVICE and UNCACHED gets a memory attribute
    that [mem_type] does not know: reading the flags of such a descriptor
    panics. *)
Theorem a64_device_uncached_panics pa f huge :
  bf_contains f DEVICE = true -> bf_contains f UNCACHED = true ->
  flags (new_page pa f huge) = Panic /\
  mem_type (from_mem_type NormalNonCache) = Panic.
Proof.
  autorewrite with flags. intros Hd Hu. by rewrite a64_flags_new_page, Hd, Hu.
Qed.
End laws.

Lemma a64_new_page_roundtrip_witness : paddr (new_page 0x40000000 3 true) = 0x40000000.
Proof. apply (a64_new_page_roundtrip 0x40000000 3 true); [lia|done]. Defined.

Lemma a64_flags_read_back_witness :
  exists g, flags (new_page 0x40000000 3 false) = Done g /\ bf_contains g WRITE = false.
Proof.
  destruct (a64_flags_read_back 0x40000000 3 false) as (g & ? & _ & _ & ? & _); [done|].
  by exists g.
Defined.

Lemma a64_device_uncached_panics_witness : flags (new_page 0x9000000 49 false) = Panic.
Proof. apply (a64_device_uncached_panics 0x9000000 49 false); done. Defined.
End A64PTEHV.
