(* ===== verification/Memory.v ===== *)
(** Host memory, as raw pointer accesses see it: a finite map from addresses
    to bytes.  An access to an address outside the map is undefined
    behaviour. *)
From S2P Require Import Prelude.
Local Open Scope Z_scope.

Abbreviation mem := (gmap Z Z).

(** [n] consecutive addresses from [a] are allocated. *)
Definition allocated (m : mem) (a : Z) (n : nat) : Prop :=
  forall i, 0 <= i < Z.of_nat n -> is_Some (m !! (a + i)).

(** Reads [n] bytes at [a]. *)
Fixpoint read_bytes (m : mem) (a : Z) (n : nat) : outcome (list Z) :=
  match n with
  | O => Done []
  | S n =>
      match m !! a with
      | Some b => bs ← read_bytes m (a + 1) n; Done (b :: bs)
      | None => UB
      end
  end.

(** Writes the bytes [bs] at [a]. *)
Fixpoint write_bytes (m : mem) (a : Z) (bs : list Z) : outcome mem :=
  match bs with
  | [] => Done m
  | b :: bs =>
      match m !! a with
      | Some _ => write_bytes (<[a := b]> m) (a + 1) bs
      | None => UB
      end
  end.

Lemma allocated_S m a n :
  allocated m a (S n) <-> is_Some (m !! a) /\ allocated m (a + 1) n.
Proof.
  unfold allocated. split.
  - intros Hall. split; [rewrite <- (Z.add_0_r a); apply Hall; lia|].
    intros i Hi. rewrite <- Z.add_assoc. apply Hall. lia.
  - intros [H0 Hall] i Hi. destruct (decide (i = 0)) as [->|]; [by rewrite Z.add_0_r|].
    replace (a + i) with (a + 1 + (i - 1)) by lia. apply Hall. lia.
Qed.

(** Reading succeeds exactly on allocated bytes, and returns the bytes. *)
Lemma read_bytes_Done m a n bs :
  read_bytes m a n = Done bs <->
    length bs = n /\ forall i : nat, (i < n)%nat -> m !! (a + Z.of_nat i) = bs !! i.
Proof.
  revert a bs. induction n as [|n IH]; intros a bs; simpl.
  - split; [intros [= <-]; split; [done|lia]|]. intros [Hl _].
    by apply nil_length_inv in Hl as ->.
  - destruct (m !! a) as [b|] eqn:Hb.
    + rewrite outcome_bind_Done. split.
      * intros (bs' & Hr & [= <-]). apply IH in Hr as [Hl Hr]. simpl. split; [lia|].
        intros [|i] Hi; [by rewrite Z.add_0_r|].
        replace (a + Z.of_nat (S i)) with (a + 1 + Z.of_nat i) by lia. apply Hr. lia.
      * intros [Hl Hr]. destruct bs as [|b' bs]; [done|]. simpl in Hl.
        exists bs. split.
        -- apply IH. split; [lia|]. intros i Hi.
           replace (a + 1 + Z.of_nat i) with (a + Z.of_nat (S i)) by lia. apply Hr. lia.
        -- pose proof (Hr 0%nat ltac:(lia)) as H0. rewrite Z.add_0_r in H0. simpl in H0.
           congruence.
    + split; [done|]. intros [Hl Hr]. destruct bs as [|b' bs]; [done|].
      pose proof (Hr 0%nat ltac:(lia)) as H0. rewrite Z.add_0_r in H0. simpl in H0. congruence.
Qed.

Lemma read_bytes_allocated m a n :
  allocated m a n -> exists bs, read_bytes m a n = Done bs /\ length bs = n.
Proof.
  revert a. induction n as [|n IH]; intros a Hall; simpl; [by exists []|].
  apply allocated_S in Hall as [[b Hb] Hall]. rewrite Hb.
  destruct (IH _ Hall) as (bs & -> & Hl). exists (b :: bs). simpl. auto.
Qed.

(** Writing succeeds exactly on allocated bytes; the written bytes are there
    and nothing else changed. *)
Lemma write_bytes_lookup m a bs m' x :
  write_bytes m a bs = Done m' ->
  m' !! x = if decide (a <= x < a + Z.of_nat (length bs))
            then bs !! Z.to_nat (x - a) else m !! x.
Proof.
  revert m a. induction bs as [|b bs IH]; intros m a; simpl.
  - intros [= <-]. by rewrite decide_False by lia.
  - destruct (m !! a) eqn:Hb; [|done]. intros Hw. rewrite (IH _ _ Hw).
    destruct (decide (x = a)) as [->|Hx].
    + rewrite decide_False, decide_True, lookup_insert_eq by lia. by rewrite Z.sub_diag.
    + rewrite lookup_insert_ne by done. case_decide; case_decide; try lia; [|done].
      replace (Z.to_nat (x - a)) with (S (Z.to_nat (x - (a + 1)))) by lia. done.
Qed.

Lemma write_bytes_allocated m a bs :
  allocated m a (length bs) -> exists m', write_bytes m a bs = Done m'.
Proof.
  revert m a. induction bs as [|b bs IH]; intros m a Hall; simpl; [by exists m|].
  apply allocated_S in Hall as [[b' Hb] Hall]. rewrite Hb. apply IH.
  intros i Hi. rewrite lookup_insert_is_Some. destruct (decide (a = a + 1 + i)); eauto.
Qed.

(** A write is read back. *)
Lemma read_write_bytes m a bs m' :
  write_bytes m a bs = Done m' -> read_bytes m' a (length bs) = Done bs.
Proof.
  intros Hw. apply read_bytes_Done. split; [done|]. intros i Hi.
  rewrite (write_bytes_lookup _ _ _ _ _ Hw), decide_True by lia.
  by replace (Z.to_nat (a + Z.of_nat i - a)) with i by lia.
Qed.

(** [core::ptr::write_bytes]: [n] copies of a byte. *)
Lemma write_replicate m a n b :
  allocated m a n ->
  exists m', write_bytes m a (replicate n b) = Done m' /\
    forall x, m' !! x = if decide (a <= x < a + Z.of_nat n) then Some b else m !! x.
Proof.
  intros Hall. destruct (write_bytes_allocated m a (replicate n b)) as [m' Hw].
  { by rewrite length_replicate. }
  exists m'. split; [done|]. intros x.
  rewrite (write_bytes_lookup _ _ _ _ _ Hw), length_replicate.
  case_decide; [|done]. apply lookup_replicate. split; [done|]. lia.
Qed.

(** [n] zero bytes at [a]. *)
Fixpoint mem_region (a : Z) (n : nat) : mem :=
  match n with
  | O => ∅
  | S n => <[a := 0]> (mem_region (a + 1) n)
  end.

Lemma allocated_mem_region a n : allocated (mem_region a n) a n.
Proof.
  revert a. induction n as [|n IH]; intros a i Hi; simpl; [lia|].
  destruct (decide (i = 0)) as [->|]; [rewrite Z.add_0_r, lookup_insert_eq; eauto|].
  rewrite lookup_insert_ne by lia. replace (a + i) with (a + 1 + (i - 1)) by lia.
  apply IH. lia.
Qed.
