(* ===== verification/Frame.v ===== *)
(** [src/hal.rs] and [src/frame.rs]: the hardware abstraction [AxMmHal] as an
    interface, and the physical frame that gives its memory back when
    dropped. *)
From S2P Require Import Prelude Crates Memory.
Local Open Scope Z_scope.

(** The trait [AxMmHal]; [mm_state] is the state behind its functions.  A
    conversion of an address the platform does not know may panic. *)
Class AxMmHal := {
  mm_state : Type;
  mm_alloc_frame : mm_state -> option Z * mm_state;
  mm_dealloc_frame : Z -> mm_state -> mm_state;
  mm_phys_to_virt : Z -> outcome Z;
  mm_virt_to_phys : Z -> outcome Z
}.

Module PhysFrame.
Section ops.
Context `{HAL : AxMmHal}.

Record PhysFrame := mkFrame { start_paddr_field : option Z }.

(** The state the methods work on: the allocator and host memory. *)
Abbreviation state := (mm_state * mem)%type (only parsing).

Definition alloc : M state (AxResult PhysFrame) := fun '(h, m) =>
  let '(p, h) := mm_alloc_frame h in
  match p with
  | None => Done (Err NoMemory, (h, m))
  | Some start_paddr =>
      if start_paddr =? 0 then Panic
      else Done (Ok (mkFrame (Some start_paddr)), (h, m))
  end.

Definition uninit : PhysFrame := mkFrame None.

Definition start_paddr (f : PhysFrame) : outcome Z := unwrap (start_paddr_field f).

Definition as_mut_ptr (f : PhysFrame) : outcome Z :=
  p ← start_paddr f; mm_phys_to_virt p.

Definition fill (f : PhysFrame) (byte : Z) : M state unit := fun '(h, m) =>
  ptr ← as_mut_ptr f;
  m' ← write_bytes m ptr (replicate (Z.to_nat PAGE_SIZE) byte);
  Done (tt, (h, m')).

Definition alloc_zero : M state (AxResult PhysFrame) :=
  r ← alloc;
  match r with
  | Err e => mret (Err e)
  | Ok f => fill f 0;; mret (Ok f)
  end.

Definition drop (f : PhysFrame) : M state unit := fun '(h, m) =>
  match start_paddr_field f with
  | Some start_paddr => Done (tt, (mm_dealloc_frame start_paddr h, m))
  | None => Done (tt, (h, m))
  end.
End ops.

Section props.
Context `{HAL : AxMmHal}.
Implicit Types (h : mm_state) (m : mem).

(** What the platform guarantees of a frame: it has a nonzero address, it is
    mapped, and its 4 KiB are there. *)
Definition frame_mapped m (p : Z) : Prop :=
  p <> 0 /\ exists va, mm_phys_to_virt p = Done va /\ allocated m va (Z.to_nat PAGE_SIZE).

Lemma fill_spec h m p byte :
  frame_mapped m p ->
  exists va m', mm_phys_to_virt p = Done va /\
    fill (mkFrame (Some p)) byte (h, m) = Done (tt, (h, m')) /\
    (forall x, m' !! x = if decide (va <= x < va + PAGE_SIZE) then Some byte else m !! x).
Proof.
  intros (_ & va & Hva & Hall).
  destruct (write_replicate m va (Z.to_nat PAGE_SIZE) byte Hall) as (m' & Hw & Hm').
  exists va, m'. split; [done|]. split.
  - unfold fill, as_mut_ptr, start_paddr. simpl start_paddr_field. simpl unwrap.
    unfold mbind, outcome_bind. by rewrite Hva, Hw.
  - intros x. rewrite Hm'. by rewrite Z2Nat.id.
Qed.

(** C21. [alloc_zero] returns the frame the platform handed out, with all its
    4096 bytes zero and every other byte of memory unchanged; when the
    platform has none it fails with [NoMemory] and memory is untouched. *)
Theorem alloc_zero_spec h m :
  (forall p h', mm_alloc_frame h = (Some p, h') -> frame_mapped m p) ->
  match mm_alloc_frame h with
  | (None, h') => alloc_zero (h, m) = Done (Err NoMemory, (h', m))
  | (Some p, h') => exists va m', mm_phys_to_virt p = Done va /\
      alloc_zero (h, m) = Done (Ok (mkFrame (Some p)), (h', m')) /\
      forall x, m' !! x = if decide (va <= x < va + PAGE_SIZE) then Some 0 else m !! x
  end.
Proof.
  intros Hf. unfold alloc_zero, alloc.
  destruct (mm_alloc_frame h) as [[p|] h'] eqn:Ha; unfold mbind, M_bind; rewrite Ha; [|done].
  destruct (Hf _ _ eq_refl) as [Hnz _]. rewrite (proj2 (Z.eqb_neq _ _) Hnz).
  destruct (fill_spec h' m p 0 (Hf _ _ eq_refl)) as (va & m' & Hva & Hfill & Hm').
  exists va, m'. split; [done|]. split; [|done]. by rewrite Hfill.
Qed.

(** C22. Ownership: a frame that is allocated, filled any number of times and
    dropped goes back to the platform exactly once, with the address it was
    handed out with; an uninitialized frame gives nothing back, and asking it
    for its address panics. *)
Theorem frame_returned_once h m p h' (bytes : list Z) :
  mm_alloc_frame h = (Some p, h') -> frame_mapped m p ->
  exists m',
    (r ← alloc;
     match r with
     | Ok f => mapM (fill f) bytes;; drop f
     | Err _ => mret tt
     end) (h, m) = Done (tt, (mm_dealloc_frame p h', m')) /\
  drop uninit (h, m) = Done (tt, (h, m)) /\
  start_paddr uninit = Panic.
Proof.
  intros Ha Hf.
  assert (exists m', mapM (M:=M (mm_state * mem)) (fill (mkFrame (Some p))) bytes (h', m) =
    Done (replicate (length bytes) tt, (h', m'))) as [m' Hm'].
  { clear Ha. revert m Hf. induction bytes as [|b bytes IH]; intros m Hf; [by exists m|].
    destruct (fill_spec h' m p b Hf) as (va & m1 & Hva & Hfill & Hm1).
    destruct (IH m1) as [m' Hm'].
    { destruct Hf as (Hnz & va' & Hva' & Hall). split; [done|]. exists va'. split; [done|].
      intros i Hi. rewrite Hm1. case_decide; [eauto|]. by apply Hall. }
    exists m'. simpl. rewrite (M_bind_Done _ _ _ _ _ Hfill).
    by rewrite (M_bind_Done _ _ _ _ _ Hm'). }
  exists m'. split; [|done].
  destruct Hf as [Hnz _]. unfold alloc. unfold mbind at 1, M_bind at 1. rewrite Ha.
  rewrite (proj2 (Z.eqb_neq _ _) Hnz). by rewrite (M_bind_Done _ _ _ _ _ Hm').
Qed.
End props.
End PhysFrame.
