(* ===== verification/MockHal.v ===== *)
(** [src/test_utils/mod.rs]: the simulated platform the tests run on, a bump
    allocator over 64 KiB of memory.  It implements [AxMmHal] and
    [PagingHandler]; the witnesses of the other files run on it. *)
From S2P Require Import Prelude Crates Memory Frame.
Local Open Scope Z_scope.

Definition BASE_PADDR : Z := 0x1000.
Definition MEMORY_LEN : Z := 0x10000.

(** The statics. *)
Record MockState := mkMock {
  NEXT_PADDR : Z;
  ALLOC_COUNT : Z;
  DEALLOC_COUNT : Z;
  ALLOC_SHOULD_FAIL : bool
}.

(** Where the loader put [MEMORY]. *)
Class MockEnv := memory_ptr : Z.

(** [AtomicUsize::fetch_add], which wraps around. *)
Definition fetch_add (x d : Z) : Z * Z := (x, wrap64 (x + d)).

Definition mock_alloc_frame (s : MockState) : option Z * MockState :=
  if ALLOC_SHOULD_FAIL s then (None, s) else
  let '(paddr, next) := fetch_add (NEXT_PADDR s) PAGE_SIZE in
  let s := mkMock next (ALLOC_COUNT s) (DEALLOC_COUNT s) (ALLOC_SHOULD_FAIL s) in
  if MEMORY_LEN + BASE_PADDR <=? paddr then (None, s) else
  let '(_, count) := fetch_add (ALLOC_COUNT s) 1 in
  (Some paddr, mkMock (NEXT_PADDR s) count (DEALLOC_COUNT s) (ALLOC_SHOULD_FAIL s)).

Definition mock_dealloc_frame (paddr : Z) (s : MockState) : MockState :=
  let '(_, count) := fetch_add (DEALLOC_COUNT s) 1 in
  mkMock (NEXT_PADDR s) (ALLOC_COUNT s) count (ALLOC_SHOULD_FAIL s).

Section mock.
Context `{BuildProfile} `{MockEnv}.

Definition mock_phys_to_virt (paddr : Z) : outcome Z :=
  if (BASE_PADDR <=? paddr) && (paddr <? BASE_PADDR + MEMORY_LEN) then
    offset ← usize_sub paddr BASE_PADDR;
    usize_add memory_ptr offset
  else Panic.

(** The second operand of [&&] adds, and is reached only after the first. *)
Definition mock_virt_to_phys (vaddr : Z) : outcome Z :=
  in_bounds ← (if memory_ptr <=? vaddr
               then end_ ← usize_add memory_ptr MEMORY_LEN; Done (vaddr <? end_)
               else Done false);
  if in_bounds : bool then
    offset ← usize_sub vaddr memory_ptr;
    usize_add offset BASE_PADDR
  else Panic.

Definition set_alloc_fail (fail : bool) (s : MockState) : MockState :=
  mkMock (NEXT_PADDR s) (ALLOC_COUNT s) (DEALLOC_COUNT s) fail.

(** The statics are reset and [MEMORY] is filled with zeros. *)
Definition reset_state : M (MockState * mem) unit := fun '(_, m) =>
  m' ← write_bytes m memory_ptr (replicate (Z.to_nat MEMORY_LEN) 0);
  Done (tt, (mkMock BASE_PADDR 0 0 false, m')).

(** The decorator of the tests, and the check they run on exit. *)
Definition mock_hal_test {R} (test_fn : M (MockState * mem) R) : M (MockState * mem) R :=
  reset_state;; test_fn.

Definition test_dealloc_count (expected : Z) : M (MockState * mem) unit := fun '(s, m) =>
  if DEALLOC_COUNT s =? expected then Done (tt, (s, m)) else Panic.

#[export] Instance MockHal_AxMmHal : AxMmHal := {
  mm_state := MockState;
  mm_alloc_frame := mock_alloc_frame;
  mm_dealloc_frame := mock_dealloc_frame;
  mm_phys_to_virt := mock_phys_to_virt;
  mm_virt_to_phys := mock_virt_to_phys
}.
End mock.

(** The statics are private: the bump pointer only ever holds multiples of
    the page size. *)
Definition mock_ok (s : MockState) : bool :=
  (0 <=? NEXT_PADDR s) && (NEXT_PADDR s <? u64_modulus) && (NEXT_PADDR s mod PAGE_SIZE =? 0).

Definition mock_statics : Type := { s : MockState | mock_ok s = true }.

Lemma mock_alloc_frame_ok s : mock_ok s = true -> mock_ok (mock_alloc_frame s).2 = true.
Proof.
  unfold mock_ok, mock_alloc_frame, fetch_add.
  assert (forall z, z mod PAGE_SIZE = 0 ->
    (0 <=? wrap64 (z + PAGE_SIZE)) && (wrap64 (z + PAGE_SIZE) <? u64_modulus)
      && (wrap64 (z + PAGE_SIZE) mod PAGE_SIZE =? 0) = true) as Hw.
  { intros z Hz. pose proof (wrap64_range (z + PAGE_SIZE)).
    rewrite !andb_true_iff, Z.leb_le, Z.ltb_lt, Z.eqb_eq. split; [done|].
    unfold wrap64. zpage. }
  destruct (ALLOC_SHOULD_FAIL s); [done|]. intros Hs.
  destruct (MEMORY_LEN + BASE_PADDR <=? NEXT_PADDR s); simpl; apply Hw; zpage.
Qed.

Lemma mock_dealloc_frame_ok p s : mock_ok s = true -> mock_ok (mock_dealloc_frame p s) = true.
Proof. done. Qed.

#[export] Instance MockHal_PagingHandler `{BuildProfile} `{MockEnv} : PagingHandler := {
  hal := mock_statics;
  alloc_frame s :=
    ((mock_alloc_frame (`s)).1, (mock_alloc_frame (`s)).2 ↾ mock_alloc_frame_ok _ (proj2_sig s));
  dealloc_frame p s := mock_dealloc_frame p (`s) ↾ mock_dealloc_frame_ok p _ (proj2_sig s);
  phys_to_virt := mock_phys_to_virt
}.

Lemma mock_alloc_frame_granted s p s' :
  mock_alloc_frame s = (Some p, s') ->
  p = NEXT_PADDR s /\ p < BASE_PADDR + MEMORY_LEN /\ ALLOC_SHOULD_FAIL s = false.
Proof.
  unfold mock_alloc_frame, fetch_add. destruct (ALLOC_SHOULD_FAIL s); [done|].
  destruct (MEMORY_LEN + BASE_PADDR <=? NEXT_PADDR s) eqn:E; [done|].
  intros [= <- _]. zbool. split; [done|]. split; [|done]. lia.
Qed.

#[export] Instance MockHal_laws `{BuildProfile} `{MockEnv} `{PagingMetaData} :
  47 <= PA_MAX_BITS -> PagingHandlerLaws.
Proof.
  intros Hbits. constructor. intros [s Hs] f h'. simpl. intros Hf.
  injection Hf as Hf _.
  destruct (mock_alloc_frame s) as [r s'] eqn:Ha. simpl in Hf. subst r.
  destruct (mock_alloc_frame_granted _ _ _ Ha) as (-> & ? & _).
  unfold mock_ok in Hs. zbool. split; [done|]. split; [done|].
  unfold pa_limit. pose proof (Z.pow_le_mono_r 2 47 PA_MAX_BITS ltac:(lia) Hbits).
  unfold BASE_PADDR, MEMORY_LEN in *. lia.
Qed.

(** * What the tests rely on *)

(** [n] requests in a row. *)
Fixpoint mock_alloc_many (n : nat) (s : MockState) : list (option Z) * MockState :=
  match n with
  | O => ([], s)
  | S n =>
      let '(r, s) := mock_alloc_frame s in
      let '(rs, s) := mock_alloc_many n s in
      (r :: rs, s)
  end.

Definition mock_frames : Z := MEMORY_LEN / PAGE_SIZE.

Lemma mock_alloc_many_spec n k c d :
  0 <= k -> 0 <= c -> c + Z.of_nat n < u64_modulus ->
  BASE_PADDR + (k + Z.of_nat n) * PAGE_SIZE < u64_modulus ->
  mock_alloc_many n (mkMock (BASE_PADDR + k * PAGE_SIZE) c d false) =
    ((fun i => if k + Z.of_nat i <? mock_frames
               then Some (BASE_PADDR + (k + Z.of_nat i) * PAGE_SIZE) else None) <$> seq 0 n,
     mkMock (BASE_PADDR + (k + Z.of_nat n) * PAGE_SIZE)
       (c + Z.max 0 (Z.min (Z.of_nat n) (mock_frames - k))) d false).
Proof.
  revert k c. induction n as [|n IH]; intros k c Hk Hc Hc' Hn.
  - simpl. f_equal. f_equal; lia.
  - cbn [mock_alloc_many]. unfold mock_alloc_frame, fetch_add.
    cbn [ALLOC_SHOULD_FAIL NEXT_PADDR ALLOC_COUNT DEALLOC_COUNT].
    replace (wrap64 (BASE_PADDR + k * PAGE_SIZE + PAGE_SIZE))
      with (BASE_PADDR + (k + 1) * PAGE_SIZE).
    2:{ rewrite wrap64_small; unfold BASE_PADDR, PAGE_SIZE, u64_modulus in *; lia. }
    rewrite wrap64_small by lia.
    change mock_frames with 16 in *. unfold MEMORY_LEN.
    destruct (0x10000 + BASE_PADDR <=? BASE_PADDR + k * PAGE_SIZE) eqn:E; zbool;
      unfold PAGE_SIZE in E; rewrite IH by lia.
    + f_equal; [|f_equal; lia]. cbn [seq fmap list_fmap]. f_equal.
      * rewrite (proj2 (Z.ltb_ge _ _)); [done|lia].
      * rewrite <- fmap_S_seq, <- list_fmap_compose.
        apply list_fmap_ext. intros _ i _. simpl.
        replace (k + 1 + Z.of_nat i) with (k + Z.of_nat (S i)) by lia. done.
    + f_equal; [|f_equal; lia]. cbn [seq fmap list_fmap]. f_equal.
      * rewrite (proj2 (Z.ltb_lt _ _)) by lia. f_equal. lia.
      * rewrite <- fmap_S_seq, <- list_fmap_compose.
        apply list_fmap_ext. intros _ i _. simpl.
        replace (k + 1 + Z.of_nat i) with (k + Z.of_nat (S i)) by lia. done.
Qed.

(** C35. The simulated allocator, from its reset state: the first sixteen
    requests are granted the sixteen 4K frames of the simulated memory, in
    order and without repetition, every later one is refused, and
    [ALLOC_COUNT] counts the granted ones (up to the 2^51st request, far
    before the bump pointer wraps around). *)
Theorem mock_alloc_sequence (n : nat) :
  Z.of_nat n < 2 ^ 51 ->
  mock_alloc_many n (mkMock BASE_PADDR 0 0 false) =
    ((fun i => if Z.of_nat i <? 16 then Some (0x1000 * (Z.of_nat i + 1)) else None)
       <$> seq 0 n,
     mkMock (BASE_PADDR + Z.of_nat n * PAGE_SIZE) (Z.min (Z.of_nat n) 16) 0 false).
Proof.
  intros Hn. pose proof (mock_alloc_many_spec n 0 0 0) as Hs.
  rewrite Z.mul_0_l, Z.add_0_r in Hs. rewrite Hs.
  - change mock_frames with 16. f_equal; [|f_equal; lia].
    apply list_fmap_ext. intros _ i _. rewrite Z.add_0_l. case_match; [|done].
    f_equal. unfold BASE_PADDR, PAGE_SIZE. lia.
  - lia.
  - lia.
  - unfold u64_modulus. lia.
  - unfold u64_modulus, BASE_PADDR, PAGE_SIZE. lia.
Qed.

Lemma mock_alloc_sequence_witness :
  (mock_alloc_many 18 (mkMock BASE_PADDR 0 0 false)).1 !! 15%nat = Some (Some 0x10000) /\
  (mock_alloc_many 18 (mkMock BASE_PADDR 0 0 false)).1 !! 16%nat = Some None.
Proof. rewrite (mock_alloc_sequence 18) by lia. done. Defined.

Section mock_props.
Context `{BuildProfile} `{MockEnv}.

Lemma mock_phys_to_virt_in p :
  0 <= memory_ptr -> memory_ptr + MEMORY_LEN <= u64_modulus ->
  BASE_PADDR <= p < BASE_PADDR + MEMORY_LEN ->
  mock_phys_to_virt p = Done (memory_ptr + (p - BASE_PADDR)).
Proof.
  intros Hp0 Hp1 Hp. unfold mock_phys_to_virt.
  rewrite (proj2 (Z.leb_le _ _)), (proj2 (Z.ltb_lt _ _)) by lia. simpl.
  unfold usize_sub, usize_add, BASE_PADDR, MEMORY_LEN, u64_modulus in *.
  rewrite usize_arith_in_range by (unfold u64_modulus; lia). simpl.
  rewrite usize_arith_in_range by (unfold u64_modulus; lia). done.
Qed.

Lemma mock_virt_to_phys_spec v :
  0 <= memory_ptr -> memory_ptr + MEMORY_LEN <= u64_modulus ->
  mock_virt_to_phys v =
    if (memory_ptr + MEMORY_LEN <? u64_modulus) &&
       ((memory_ptr <=? v) && (v <? memory_ptr + MEMORY_LEN))
    then Done (v - memory_ptr + BASE_PADDR) else Panic.
Proof.
  intros Hp0 Hp1. unfold mock_virt_to_phys, usize_add, usize_sub, mbind, outcome_bind.
  destruct (memory_ptr <=? v) eqn:Hlo; [|by rewrite andb_false_r].
  destruct (memory_ptr + MEMORY_LEN <? u64_modulus) eqn:Hend; zbool.
  - rewrite usize_arith_in_range by (unfold MEMORY_LEN in *; lia).
    rewrite andb_true_l. destruct (v <? memory_ptr + MEMORY_LEN) eqn:Hhi; [zbool|done].
    unfold MEMORY_LEN, BASE_PADDR, u64_modulus in *.
    rewrite !usize_arith_in_range by (unfold u64_modulus; lia). done.
  - assert (memory_ptr + MEMORY_LEN = u64_modulus) as -> by lia.
    destruct overflow_checks eqn:Hc.
    + rewrite usize_arith_panics; [done|done|lia].
    + rewrite usize_arith_wraps by done. change (wrap64 u64_modulus) with 0.
      by rewrite (proj2 (Z.ltb_ge _ _)) by lia.
Qed.

(** C36. The two address conversions of the simulated platform are inverse to
    each other on the simulated memory, and panic on every address outside.
    One placement of the memory is special: when it ends at the very end of
    the address space, [mock_virt_to_phys] computes its end with an overflow
    and panics on every address, in every build. *)
Theorem mock_address_roundtrip p v :
  0 <= memory_ptr -> memory_ptr + MEMORY_LEN <= u64_modulus ->
  (BASE_PADDR <= p < BASE_PADDR + MEMORY_LEN ->
     mock_phys_to_virt p ≫= mock_virt_to_phys =
       if memory_ptr + MEMORY_LEN <? u64_modulus then Done p else Panic) /\
  (memory_ptr <= v < memory_ptr + MEMORY_LEN ->
     mock_virt_to_phys v ≫= mock_phys_to_virt =
       if memory_ptr + MEMORY_LEN <? u64_modulus then Done v else Panic) /\
  (~ BASE_PADDR <= p < BASE_PADDR + MEMORY_LEN -> mock_phys_to_virt p = Panic) /\
  (~ memory_ptr <= v < memory_ptr + MEMORY_LEN -> mock_virt_to_phys v = Panic).
Proof.
  intros Hp0 Hp1. split; [|split; [|split]].
  - intros Hp. rewrite mock_phys_to_virt_in by done. simpl. rewrite mock_virt_to_phys_spec by done.
    rewrite (proj2 (Z.leb_le _ _)), (proj2 (Z.ltb_lt _ (memory_ptr + MEMORY_LEN))) by lia.
    rewrite andb_true_r. case_match; [|done]. f_equal. lia.
  - intros Hx. rewrite mock_virt_to_phys_spec by done.
    rewrite (proj2 (Z.leb_le _ _)), (proj2 (Z.ltb_lt v _)) by lia. rewrite andb_true_r.
    case_match; [|done]. simpl.
    rewrite mock_phys_to_virt_in by (unfold BASE_PADDR, MEMORY_LEN in *; lia). f_equal. lia.
  - intros Hp. unfold mock_phys_to_virt. case_match eqn:E; [|done]. zbool. lia.
  - intros Hx. rewrite mock_virt_to_phys_spec by done. case_match eqn:E; [|done]. zbool. lia.
Qed.

(** Frames of the simulated platform are frames in the sense of
    [PhysFrame]. *)
Lemma mock_frame_mapped s p s' (m : mem) :
  0 <= memory_ptr -> memory_ptr + MEMORY_LEN <= u64_modulus ->
  allocated m memory_ptr (Z.to_nat MEMORY_LEN) ->
  mock_ok s = true -> BASE_PADDR <= NEXT_PADDR s ->
  mock_alloc_frame s = (Some p, s') -> PhysFrame.frame_mapped m p.
Proof.
  intros Hp0 Hp1 Hall Hok Hb Ha.
  destruct (mock_alloc_frame_granted _ _ _ Ha) as (-> & Hlt & _).
  unfold mock_ok in Hok. zbool.
  unfold BASE_PADDR, MEMORY_LEN, PAGE_SIZE in *.
  split; [lia|]. eexists. split; [apply mock_phys_to_virt_in; done|].
  intros i Hi. rewrite <- Z.add_assoc. apply Hall.
  unfold BASE_PADDR, MEMORY_LEN, PAGE_SIZE in *. zpage.
Qed.
End mock_props.

(** A concrete platform for the witnesses: a build with overflow checks, and
    [MEMORY] at 1 MiB. *)
Definition checked_build : BuildProfile := true.
Definition release_build : BuildProfile := false.
Definition demo_env : MockEnv := 0x100000.
Definition demo_mem : mem := mem_region demo_env (Z.to_nat MEMORY_LEN).
Definition demo_mock : MockState := mkMock BASE_PADDR 0 0 false.
Definition demo_hal : mock_statics := demo_mock ↾ eq_refl.

Section demo.
#[local] Existing Instances checked_build demo_env.
#[local] Abbreviation Mock := MockHal_AxMmHal (only parsing).

Lemma demo_frame_mapped p s' :
  mock_alloc_frame demo_mock = (Some p, s') -> PhysFrame.frame_mapped demo_mem p.
Proof.
  apply mock_frame_mapped; [done|done|apply allocated_mem_region|done|done].
Defined.

Lemma mock_address_roundtrip_witness :
  mock_phys_to_virt 0x3008 ≫= mock_virt_to_phys = Done 0x3008 /\
  mock_phys_to_virt 0x11000 = Panic.
Proof.
  destruct (mock_address_roundtrip 0x3008 0x100000) as (Hp & _); [done|done|].
  destruct (mock_address_roundtrip 0x11000 0x100000) as (_ & _ & Hq & _); [done|done|].
  split; [apply Hp|apply Hq]; unfold BASE_PADDR, MEMORY_LEN; lia.
Defined.

Lemma alloc_zero_spec_witness :
  exists m', PhysFrame.alloc_zero (HAL:=Mock) (demo_mock, demo_mem) =
    Done (Ok (PhysFrame.mkFrame (Some 0x1000)), (mkMock 0x2000 1 0 false, m')) /\
    m' !! 0x100fff = Some 0.
Proof.
  destruct (PhysFrame.alloc_zero_spec (HAL:=Mock) demo_mock demo_mem) as (va & m' & Hva & ? & Hm').
  { intros p h' Ha. by apply (demo_frame_mapped p h'). }
  exists m'. split; [done|]. rewrite Hm'. injection Hva as <-.
  by rewrite decide_True by (unfold memory_ptr, demo_env, PAGE_SIZE; lia).
Defined.

Lemma frame_returned_once_witness :
  exists m', (r ← PhysFrame.alloc (HAL:=Mock);
     match r with
     | Ok f => mapM (PhysFrame.fill f) [1; 2];; PhysFrame.drop f
     | Err _ => mret tt
     end) (demo_mock, demo_mem) = Done (tt, (mkMock 0x2000 1 1 false, m')).
Proof.
  destruct (PhysFrame.frame_returned_once (HAL:=Mock) demo_mock demo_mem 0x1000 (mkMock 0x2000 1 0 false)
    [1; 2]) as (m' & ? & _); [done|by eapply demo_frame_mapped|].
  by exists m'.
Defined.
End demo.
