(* ===== verification/PageTable.v ===== *)
(** What the page table's laws give for whole lists of pages: the lemmas the
    backends and the address space share. *)
From S2P Require Import Prelude Crates.
Local Open Scope Z_scope.

Section page_table.
Context `{PH : PagingHandler} `{PT : !PageTable64} `{PV : !PageTableView}.
Context `{PTE : GenericPTE} `{MD : PagingMetaData}.
Context `{PTEL : !GenericPTELaws} `{PTL : !PageTableLaws}.
Implicit Types (pt : PageTable) (h : hal) (v p : Z).

Definition va_ok v : Prop := 0 <= v < va_limit.

(** A list of page addresses as the loops visit them. *)
Definition page_list (ps : list Z) : Prop :=
  NoDup ps /\ Forall (fun p => p mod PAGE_SIZE = 0 /\ va_ok p) ps.

Lemma page_list_cons p ps :
  page_list (p :: ps) <->
    p mod PAGE_SIZE = 0 /\ va_ok p /\ (p ∉ ps) /\ page_list ps.
Proof. unfold page_list. rewrite NoDup_cons, Forall_cons. tauto. Qed.

Lemma page_list_region start size :
  start mod PAGE_SIZE = 0 -> size mod PAGE_SIZE = 0 -> 0 <= start -> 0 <= size ->
  start + size <= va_limit -> page_list (pages start (page_count size)).
Proof.
  intros Ha Hs H0 H1 Hl. split; [apply NoDup_pages|]. apply Forall_forall.
  intros p Hp%elem_of_pages_region; [|done..]. unfold va_ok. lia.
Qed.

(** [v] lies in none of the pages. *)
Lemma page_of_not_elem ps p v :
  page_list (p :: ps) -> page_of v ∉ p :: ps -> page_of v <> page_of p /\ page_of v ∉ ps.
Proof.
  intros (Ha & _)%page_list_cons [Hne Hv]%not_elem_of_cons.
  split; [|done]. by rewrite (page_of_aligned p Ha).
Qed.

Lemma page_elem_aligned p q ps :
  page_list (p :: ps) -> q ∈ ps -> q mod PAGE_SIZE = 0.
Proof.
  intros (_ & _ & _ & [_ Hl])%page_list_cons Hq. rewrite Forall_forall in Hl.
  by apply Hl.
Qed.

Lemma page_elem_ne p q ps :
  page_list (p :: ps) -> q ∈ ps -> page_of q <> page_of p /\ va_ok q.
Proof.
  intros (Ha & _ & Hni & Hl)%page_list_cons Hq.
  destruct Hl as [_ Hl]. rewrite Forall_forall in Hl. destruct (Hl _ Hq) as [Hqa ?].
  rewrite !page_of_aligned by done. split; [by intros ->|done].
Qed.

(** ** The growth of a page table *)

Lemma pte_zero_not_present : pte_is_present 0 = false.
Proof.
  destruct (pte_is_present 0) eqn:E; [|done].
  apply pte_present_used in E. by rewrite pte_zero_unused in E.
Qed.

Lemma unused_not_present e : pte_is_unused e = true -> pte_is_present e = false.
Proof.
  intros Hu. destruct (pte_is_present e) eqn:E; [|done].
  apply pte_present_used in E. congruence.
Qed.

Lemma grows_refl pt v : grows pt pt v.
Proof. by left. Qed.

Lemma grows_eq pt pt' v : pt_entry pt' v = pt_entry pt v -> grows pt pt' v.
Proof. by left. Qed.

Lemma grows_entry pt pt' v x :
  grows pt pt' v -> pt_entry pt v = Some x -> pt_entry pt' v = Some x.
Proof. intros [->|[Hn _]]; congruence. Qed.

Lemma grows_trans pt1 pt2 pt3 v : grows pt1 pt2 v -> grows pt2 pt3 v -> grows pt1 pt3 v.
Proof.
  intros [He|(Hn & e & He & Hu)] H23.
  - destruct H23 as [He'|(Hn' & e' & He')]; [left; congruence|right].
    split; [congruence|eauto].
  - right. split; [done|]. exists e. split; [|done]. by eapply grows_entry.
Qed.

Lemma grows_vacant pt pt' v : grows pt pt' v -> vacant pt v <-> vacant pt' v.
Proof.
  unfold vacant. intros [->|(-> & e & -> & Hu)]; [done|]. by rewrite Hu.
Qed.

Lemma grows_page pt pt' v w : page_of v = page_of w -> grows pt pt' w -> grows pt pt' v.
Proof.
  intros Hvw. unfold grows.
  by rewrite <- (pt_entry_page pt v), <- (pt_entry_page pt' v), Hvw, !pt_entry_page.
Qed.

Lemma vacant_page pt v w : page_of v = page_of w -> vacant pt v <-> vacant pt w.
Proof.
  intros Hvw. unfold vacant. by rewrite <- (pt_entry_page pt v), Hvw, pt_entry_page.
Qed.

(** ** Mapping a list of pages *)

Lemma map_pages_spec ps get g fl h pt :
  page_list ps -> (forall p, p ∈ ps -> get p = Done (g p)) ->
  exists r h' pt',
    map_pages ps get fl (h, pt) = Done (r, (h', pt')) /\
    pt_root_paddr pt' = pt_root_paddr pt /\
    (exists fs, allocs h fs h') /\
    (forall v, va_ok v -> page_of v ∉ ps -> grows pt pt' v) /\
    match r with
    | Ok _ => forall p, p ∈ ps ->
        vacant pt p /\ pt_entry pt' p = Some (pte_new_page (page_of (g p)) fl false, Size4K)
    | Err e => (forall p, p ∈ ps -> vacant pt p) -> e = PgNoMemory /\ exhausted h
    end.
Proof.
  revert h pt. induction ps as [|p ps IH]; intros h pt Hl Hget.
  { exists (Ok tt), h, pt. split; [done|]. split; [done|]. split; [exists []; constructor|].
    split; [intros; apply grows_refl|]. by intros p ?%elem_of_nil. }
  pose proof (page_list_cons p ps) as [Hc _]. destruct (Hc Hl) as (Ha & Hv & Hni & Hl').
  destruct (pt_map_spec h pt p (g p) fl Hv) as (r & h1 & pt1 & Hm & Hr & [fs Hfs] & Hg & Hcase).
  cbn [map_pages]. unfold mbind, M_bind. rewrite Hget by left. cbn [lift].
  rewrite Hm. destruct r as [[]|e].
  - destruct Hcase as [Hvac Hent].
    destruct (IH h1 pt1 Hl') as (r & h2 & pt2 & Hm2 & Hr2 & [fs2 Hfs2] & Hg2 & Hcase2).
    { intros q Hq. apply Hget. by right. }
    exists r, h2, pt2. split; [exact Hm2|]. split; [congruence|].
    split; [exists (fs ++ fs2); by eapply allocs_app|]. split.
    + intros v Hvo Hn. destruct (page_of_not_elem _ _ _ Hl Hn) as [Hne Hn'].
      eapply grows_trans; [by apply Hg|by apply Hg2].
    + destruct r as [[]|e].
      * intros q [->|Hq]%elem_of_cons.
        -- split; [done|]. eapply grows_entry; [|exact Hent].
           apply Hg2; [done|]. by rewrite page_of_aligned.
        -- destruct (page_elem_ne _ _ _ Hl Hq) as [Hne Hqo].
           destruct (Hcase2 q Hq) as [Hq1 Hq2]. split; [|done].
           by apply (grows_vacant pt pt1 q (Hg q Hqo Hne)).
      * intros Hall. destruct Hcase2 as [-> Hex]; [|by split; [|eapply exhausted_after]].
        intros q Hq. destruct (page_elem_ne _ _ _ Hl Hq) as [Hne Hqo].
        apply (grows_vacant pt pt1 q (Hg q Hqo Hne)). apply Hall. by right.
  - destruct Hcase as [Hgp Hnm].
    exists (Err e), h1, pt1. split; [done|]. split; [done|]. split; [eauto|]. split.
    + intros v Hvo Hn. destruct (page_of_not_elem _ _ _ Hl Hn) as [Hne _]. by apply Hg.
    + intros Hall. destruct Hnm as (? & _ & ?); [apply Hall; by left|done].
Qed.

(** A mapping of consecutive pages that fails has mapped the first [k] of them
    and nothing else. *)
Lemma map_pages_failed n start get g fl h pt e h' pt' :
  page_list (pages start n) -> (forall p, p ∈ pages start n -> get p = Done (g p)) ->
  map_pages (pages start n) get fl (h, pt) = Done (Err e, (h', pt')) ->
  exists k, (k < n)%nat /\
    (forall q, q ∈ pages start k ->
       pt_entry pt' q = Some (pte_new_page (page_of (g q)) fl false, Size4K)) /\
    (forall v, va_ok v -> page_of v ∉ pages start k -> grows pt pt' v).
Proof.
  revert start h pt. induction n as [|n IH]; intros start h pt Hl Hget Hrun; [done|].
  destruct (proj1 (page_list_cons _ _) Hl) as (Ha & Hv & Hni & Hl').
  destruct (pt_map_spec h pt start (g start) fl Hv) as (r & h1 & pt1 & Hm & _ & _ & Hg & Hcase).
  cbn [pages map_pages] in Hrun. unfold mbind, M_bind in Hrun.
  rewrite Hget in Hrun by left. cbn [lift] in Hrun. rewrite Hm in Hrun.
  destruct r as [[]|e1].
  - destruct (IH _ h1 pt1 Hl') as (k & Hk & Hb & Hg2);
      [by intros p Hp; apply Hget; right|exact Hrun|].
    exists (S k). split; [lia|]. destruct Hcase as [_ Hent].
    assert (start ∉ pages (start + PAGE_SIZE) k) as Hns.
    { intros (i & ? & ?)%elem_of_pages. unfold PAGE_SIZE in *. lia. }
    split.
    + intros q [->|Hq]%elem_of_cons; [|by apply Hb].
      eapply grows_entry; [|exact Hent]. apply Hg2; [done|]. by rewrite page_of_aligned.
    + intros v Hvo [Hne Hn]%not_elem_of_cons.
      eapply grows_trans; [apply Hg; [done|by rewrite (page_of_aligned start)]|by apply Hg2].
  - injection Hrun as _ <- <-. exists 0%nat. split; [lia|].
    split; [by intros q ?%elem_of_nil|]. intros v Hvo _.
    destruct (decide (page_of v = page_of start)) as [Hvs|Hvs]; [|by apply Hg].
    by eapply grows_page; [|apply Hcase].
Qed.

(** ** Unmapping a list of pages *)

(** Only the pages of the list change. *)
Definition same_outside pt pt' (ps : list Z) : Prop :=
  forall v, va_ok v -> page_of v ∉ ps -> pt_entry pt' v = pt_entry pt v.

Lemma unmap_pages_spec ps h pt :
  page_list ps ->
  (forall p, p ∈ ps -> exists e, pt_entry pt p = Some (e, Size4K) /\ pte_is_present e = true) ->
  exists pt',
    unmap_pages ps (h, pt) = Done (Ok tt, (h, pt')) /\
    pt_root_paddr pt' = pt_root_paddr pt /\
    (forall p, p ∈ ps -> present pt' p = false) /\
    same_outside pt pt' ps.
Proof.
  revert pt. induction ps as [|p ps IH]; intros pt Hl Hall.
  { exists pt. split; [done|]. split; [done|]. split; [by intros p ?%elem_of_nil|]. by intros v. }
  pose proof (page_list_cons p ps) as [Hc _]. destruct (Hc Hl) as (Ha & Hv & Hni & Hl').
  destruct (Hall p) as (e & He & Hp); [by left|].
  destruct (pt_unmap_present h pt p e Hv He Hp) as (pt1 & Hu & Hr & He1 & Hs).
  destruct (IH pt1 Hl') as (pt2 & Hu2 & Hr2 & Hp2 & Hs2).
  { intros q Hq. destruct (page_elem_ne _ _ _ Hl Hq) as [Hne Hqo].
    rewrite Hs by done. apply Hall. by right. }
  exists pt2. cbn [unmap_pages]. unfold mbind, M_bind. rewrite Hu.
  split; [done|]. split; [congruence|]. split.
  - intros q [->|Hq]%elem_of_cons; [|by apply Hp2].
    unfold present. rewrite Hs2; [|done|by rewrite page_of_aligned].
    rewrite He1, pte_clear_zero. apply pte_zero_not_present.
  - intros v Hvo Hn. destruct (page_of_not_elem _ _ _ Hl Hn) as [Hne Hn'].
    rewrite Hs2, Hs; done.
Qed.
End page_table.

#[export] Hint Resolve grows_refl grows_eq : addr.
