(* ===== verification/Backend.v ===== *)
(** [src/address_space/backend]: the two mapping backends, what they do to
    the page table and to the frame allocator, and what they promise to the
    memory set that calls them. *)
From S2P Require Import Prelude Crates RefCrates PageTable.
Local Open Scope Z_scope.

(** [Backend<H>] without its phantom field. *)
Inductive Backend :=
  | Linear (pa_va_offset : Z)
  | Alloc (populate : bool).

#[export] Instance Backend_eq_dec : EqDecision Backend.
Proof. solve_decision. Defined.

Module BackendOps.
Section ops.
Context `{BuildProfile} `{MemoryAddr} `{PT : PageTable64}.

(** [H::alloc_frame()] and [H::dealloc_frame()] beside a page table. *)
Definition h_alloc_frame : M world (option Z) := fun '(h, pt) =>
  let '(f, h) := alloc_frame h in Done (f, (h, pt)).

Definition h_dealloc_frame (f : Z) : M world unit := fun '(h, pt) =>
  Done (tt, (dealloc_frame f h, pt)).

(** ** linear.rs *)

Definition new_linear (pa_va_offset : Z) : Backend := Linear pa_va_offset.

Definition map_linear (start size : Z) (flags : MappingFlags) (pa_va_offset : Z) :
    M world bool :=
  pa_start ← lift (usize_sub start pa_va_offset);
  r ← pt_map_region start (fun va => usize_sub va pa_va_offset) size flags false false;
  mret (is_ok r).

Definition unmap_linear (start size : Z) (_pa_va_offset : Z) : M world bool :=
  r ← pt_unmap_region start size true;
  mret (is_ok r).

(** ** alloc.rs *)

Definition new_alloc (populate : bool) : Backend := Alloc populate.

(** The loop of a populated mapping: a frame per page, until one fails. *)
Fixpoint map_alloc_loop (addrs : list Z) (flags : MappingFlags) : M world bool :=
  match addrs with
  | [] => mret true
  | addr :: addrs =>
      frame ← h_alloc_frame;
      mapped ← match frame with
               | Some frame => r ← pt_map addr frame Size4K flags; mret (ok r)
               | None => mret None
               end;
      match mapped with
      | None => mret false
      | Some _ => map_alloc_loop addrs flags
      end
  end.

Definition map_alloc (start size : Z) (flags : MappingFlags) (populate : bool) :
    M world bool :=
  if populate then
    end_ ← lift (addr_add start size);
    addrs ← lift (unwrap (page_iter_4k start end_));
    map_alloc_loop addrs flags
  else
    r ← pt_map_region start (fun _va => Done 0) size no_flags false false;
    mret (is_ok r).

Fixpoint unmap_alloc_loop (addrs : list Z) : M world bool :=
  match addrs with
  | [] => mret true
  | addr :: addrs =>
      r ← pt_unmap addr;
      match r with
      | Ok (frame, page_size) =>
          if page_is_huge page_size then mret false
          else h_dealloc_frame frame;; unmap_alloc_loop addrs
      | Err _ => unmap_alloc_loop addrs
      end
  end.

Definition unmap_alloc (start size : Z) (_populate : bool) : M world bool :=
  end_ ← lift (addr_add start size);
  addrs ← lift (unwrap (page_iter_4k start end_));
  unmap_alloc_loop addrs.

Definition handle_page_fault_alloc (vaddr : Z) (orig_flags : MappingFlags)
    (populate : bool) : M world bool :=
  if populate then mret false
  else
    frame ← h_alloc_frame;
    mapped ← match frame with
             | Some frame => r ← pt_remap vaddr frame orig_flags; mret (ok r)
             | None => mret None
             end;
    mret (bool_decide (is_Some mapped)).

(** ** mod.rs *)

Definition clone (b : Backend) : Backend :=
  match b with
  | Linear pa_va_offset => Linear pa_va_offset
  | Alloc pop => Alloc pop
  end.

Definition map (b : Backend) (start size : Z) (flags : MappingFlags) : M world bool :=
  match b with
  | Linear pa_va_offset => map_linear start size flags pa_va_offset
  | Alloc pop => map_alloc start size flags pop
  end.

Definition unmap (b : Backend) (start size : Z) : M world bool :=
  match b with
  | Linear pa_va_offset => unmap_linear start size pa_va_offset
  | Alloc pop => unmap_alloc start size pop
  end.

Definition protect (b : Backend) (start size : Z) (new_flags : MappingFlags) :
    M world bool :=
  r ← pt_protect_region start size new_flags true;
  mret (is_ok r).

#[global] Instance Backend_MappingBackend : MappingBackend world Backend := {
  be_map := map;
  be_unmap := unmap;
  be_protect := protect
}.

Definition handle_page_fault (b : Backend) (vaddr : Z) (orig_flags : MappingFlags) :
    M world bool :=
  match b with
  | Linear _ => mret false
  | Alloc pop => handle_page_fault_alloc vaddr orig_flags pop
  end.
End ops.

Section specs.
Context {BP : BuildProfile} `{MA : MemoryAddr} `{MAL : !MemoryAddrLaws}.
Context `{PH : PagingHandler} `{PT : !PageTable64} `{PV : !PageTableView}.
Context `{PTE : GenericPTE} `{MD : PagingMetaData}.
Context `{PTEL : !GenericPTELaws} `{PTL : !PageTableLaws} `{PHL : !PagingHandlerLaws}.
Implicit Types (pt : PageTable) (h : hal) (b : Backend).

Definition frame_ok (f : Z) : Prop := f mod PAGE_SIZE = 0 /\ 0 <= f < pa_limit.

(** The entry a backend keeps for a page of one of its areas. *)
Definition page_entry b (fl : MappingFlags) (p e : Z) : Prop :=
  match b with
  | Linear off => e = pte_new_page (wrap64 (p - off)) fl false
  | Alloc true => exists f, frame_ok f /\ e = pte_new_page f fl false
  | Alloc false =>
      e = pte_new_page 0 no_flags false \/ exists f, frame_ok f /\ e = pte_new_page f fl false
  end.

Definition backed b (fl : MappingFlags) pt (p : Z) : Prop :=
  exists e, pt_entry pt p = Some (e, Size4K) /\ page_entry b fl p e.

(** A backend that may be used from [start] on: the offset of a linear one is
    a multiple of the page size, and subtracting it does not overflow in a
    build that checks. *)
Definition backend_ok b (start : Z) : Prop :=
  match b with
  | Linear off =>
      0 <= off < u64_modulus /\ off mod PAGE_SIZE = 0 /\
      (overflow_checks = false \/ off <= start)
  | Alloc _ => True
  end.

(** A region the page table can hold. *)
Definition region_ok (start size : Z) : Prop :=
  start mod PAGE_SIZE = 0 /\ size mod PAGE_SIZE = 0 /\ 0 <= start /\ 0 <= size /\
  start + size <= va_limit /\ start + size < u64_modulus.

Lemma region_pages start size :
  region_ok start size -> page_list (pages start (page_count size)).
Proof. intros (? & ? & ? & ? & ? & _). by apply page_list_region. Qed.

Lemma region_elem start size p :
  region_ok start size -> p ∈ pages start (page_count size) ->
  p mod PAGE_SIZE = 0 /\ start <= p < start + size.
Proof.
  intros (? & ? & ? & ? & ? & _) Hp. apply elem_of_pages_region in Hp; tauto.
Qed.

Lemma linear_target start size off p :
  region_ok start size -> backend_ok (Linear off) start ->
  p ∈ pages start (page_count size) \/ p = start ->
  usize_sub p off = Done (wrap64 (p - off)).
Proof.
  intros Hr (Ho & _ & Hc) Hp. pose proof Hr as (? & ? & ? & ? & ? & ?).
  assert (start <= p < u64_modulus).
  { destruct Hp as [Hp| ->]; [|lia].
    destruct (region_elem _ _ _ Hr Hp) as [_ ?]. lia. }
  unfold usize_sub. destruct Hc as [Hc|Hc]; [by apply usize_arith_wraps|].
  rewrite usize_arith_in_range, wrap64_small by lia. done.
Qed.

Lemma wrap64_sub_aligned p off :
  p mod PAGE_SIZE = 0 -> off mod PAGE_SIZE = 0 -> page_of (wrap64 (p - off)) = wrap64 (p - off).
Proof. intros. apply page_of_aligned. unfold wrap64. zpage. Qed.

(** The loop of a populated mapping. *)
Lemma map_alloc_loop_spec ps fl h pt :
  page_list ps ->
  exists ok h' pt',
    map_alloc_loop ps fl (h, pt) = Done (ok, (h', pt')) /\
    pt_root_paddr pt' = pt_root_paddr pt /\
    (exists fs, allocs h fs h') /\
    (forall v, va_ok v -> page_of v ∉ ps -> grows pt pt' v) /\
    (ok = true -> forall p, p ∈ ps -> vacant pt p /\ backed (Alloc true) fl pt' p).
Proof.
  revert h pt. induction ps as [|p ps IH]; intros h pt Hl.
  { exists true, h, pt. split; [done|]. split; [done|]. split; [exists []; constructor|].
    split; [auto with addr|]. by intros _ p ?%elem_of_nil. }
  pose proof (page_list_cons p ps) as [Hc _]. destruct (Hc Hl) as (Ha & Hv & Hni & Hl').
  cbn [map_alloc_loop]. unfold mbind, M_bind. unfold h_alloc_frame at 1.
  destruct (alloc_frame h) as [[f|] h0] eqn:Hf.
  2:{ exists false, h0, pt. split; [done|]. split; [done|].
      split; [exists []; eapply allocs_none; [done|constructor]|].
      split; [auto with addr|done]. }
  destruct (alloc_frame_spec _ _ _ Hf) as [Hfa Hfb].
  destruct (pt_map_spec h0 pt p f fl Hv) as (r & h1 & pt1 & Hm & Hr & [fs Hfs] & Hg & Hcase).
  rewrite Hm. destruct r as [[]|e]; simpl.
  - destruct Hcase as [Hvac Hent].
    destruct (IH h1 pt1 Hl') as (ok & h2 & pt2 & Hm2 & Hr2 & [fs2 Hfs2] & Hg2 & Hok).
    exists ok, h2, pt2. split; [exact Hm2|]. split; [congruence|].
    split; [exists (f :: fs ++ fs2); econstructor; [done|by eapply allocs_app]|]. split.
    + intros v Hvo Hn. destruct (page_of_not_elem _ _ _ Hl Hn) as [Hne Hn'].
      eapply grows_trans; [by apply Hg|by apply Hg2].
    + intros -> q [->|Hq]%elem_of_cons.
      * split; [done|]. exists (pte_new_page f fl false). split.
        -- rewrite page_of_aligned in Hent by done. eapply grows_entry; [|exact Hent].
           apply Hg2; [done|]. by rewrite page_of_aligned.
        -- exists f. done.
      * destruct (page_elem_ne _ _ _ Hl Hq) as [Hne Hqo].
        destruct (Hok eq_refl q Hq) as [Hq1 Hq2]. split; [|done].
        by apply (grows_vacant pt pt1 q (Hg q Hqo Hne)).
  - destruct Hcase as [Hgp _].
    exists false, h1, pt1. split; [done|]. split; [done|].
    split; [exists (f :: fs); by econstructor|]. split; [|done].
    intros v Hvo Hn. destruct (page_of_not_elem _ _ _ Hl Hn) as [Hne _]. by apply Hg.
Qed.

(** The contract of [MappingBackend::map]: it touches the pages of the region
    only, and when it reports success every page of the region was vacant and
    is now backed. *)
Lemma map_spec b start size fl h pt :
  region_ok start size -> backend_ok b start ->
  exists ok h' pt',
    map b start size fl (h, pt) = Done (ok, (h', pt')) /\
    pt_root_paddr pt' = pt_root_paddr pt /\
    (exists fs, allocs h fs h') /\
    (forall v, va_ok v -> ~ start <= v < start + size -> grows pt pt' v) /\
    (ok = true -> forall p, p ∈ pages start (page_count size) ->
       vacant pt p /\ backed b fl pt' p).
Proof.
  intros Hr Hb. pose proof (region_pages _ _ Hr) as Hl.
  pose proof Hr as (Ha & Hs & H0 & H1 & Hlim & Hmod).
  assert (forall v, ~ start <= v < start + size ->
    page_of v ∉ pages start (page_count size)) as Hout.
  { intros v Hv. by rewrite page_of_elem_of_pages. }
  destruct b as [off|[]]; simpl.
  - unfold map_linear, mbind, M_bind. rewrite (linear_target start size off) by auto.
    cbn [lift]. rewrite pt_map_region_spec by done.
    destruct (map_pages_spec _ (fun va => usize_sub va off) (fun va => wrap64 (va - off)) fl h pt Hl)
      as (r & h' & pt' & Hm & Hroot & Hfs & Hg & Hcase).
    { intros p Hp. apply (linear_target start size); auto. }
    rewrite Hm. eexists _, h', pt'. split; [done|]. split; [done|]. split; [done|].
    split; [auto|]. destruct r as [[]|]; [|done]. intros _ p Hp.
    destruct (Hcase p Hp) as [Hv He]. split; [done|].
    destruct Hb as (_ & Hoff & _). destruct (region_elem _ _ _ Hr Hp) as [Hpa _].
    rewrite wrap64_sub_aligned in He by done. by eexists.
  - unfold map_alloc, mbind, M_bind. rewrite addr_add_spec by done. cbn [lift].
    rewrite page_iter_4k_spec by done. cbn [unwrap lift].
    destruct (map_alloc_loop_spec _ fl h pt Hl) as (ok & h' & pt' & Hm & Hroot & Hfs & Hg & Hok).
    exists ok, h', pt'. auto 10.
  - unfold map_alloc, mbind, M_bind. rewrite pt_map_region_spec by done.
    destruct (map_pages_spec _ (fun _ => Done 0) (fun _ => 0) no_flags h pt Hl)
      as (r & h' & pt' & Hm & Hroot & Hfs & Hg & Hcase); [done|].
    rewrite Hm. eexists _, h', pt'. split; [done|]. split; [done|]. split; [done|].
    split; [auto|]. destruct r as [[]|]; [|done]. intros _ p Hp.
    destruct (Hcase p Hp) as [Hv He]. split; [done|]. eexists. split; [done|]. by left.
Qed.

(** A populated mapping that gives up has mapped the first [k] of its pages and
    nothing else; when all pages were vacant, for want of a frame. *)
Lemma map_alloc_loop_failed n start fl h pt h' pt' :
  page_list (pages start n) ->
  map_alloc_loop (pages start n) fl (h, pt) = Done (false, (h', pt')) ->
  exists k, (k < n)%nat /\
    (forall q, q ∈ pages start k -> backed (Alloc true) fl pt' q) /\
    (forall v, va_ok v -> page_of v ∉ pages start k -> grows pt pt' v) /\
    ((forall q, q ∈ pages start n -> vacant pt q) -> exhausted h).
Proof.
  revert start h pt. induction n as [|n IH]; intros start h pt Hl Hrun; [done|].
  destruct (proj1 (page_list_cons _ _) Hl) as (Ha & Hv & Hni & Hl').
  cbn [pages map_alloc_loop] in Hrun. unfold mbind, M_bind in Hrun.
  unfold h_alloc_frame at 1 in Hrun.
  destruct (alloc_frame h) as [[f|] h0] eqn:Hf.
  2:{ injection Hrun as <- <-. exists 0%nat. split; [lia|].
      split; [by intros q ?%elem_of_nil|]. split; [auto with addr|]. intros _.
      exists [], h. rewrite Hf. split; [constructor|done]. }
  assert (allocs h [f] h0) as Hf1 by (econstructor; [done|constructor]).
  destruct (pt_map_spec h0 pt start f fl Hv) as (r & h1 & pt1 & Hm & _ & [fs Hfs] & Hg & Hcase).
  rewrite Hm in Hrun. destruct r as [[]|e]; simpl in Hrun.
  - destruct (alloc_frame_spec _ _ _ Hf) as [Hfa Hfb].
    destruct (IH _ h1 pt1 Hl' Hrun) as (k & Hk & Hb & Hg2 & Hex). exists (S k). split; [lia|].
    assert (start ∉ pages (start + PAGE_SIZE) k) as Hns.
    { intros (i & ? & ?)%elem_of_pages. unfold PAGE_SIZE in *. lia. }
    destruct Hcase as [_ Hent]. rewrite (page_of_aligned f) in Hent by done. split; [|split].
    + intros q [->|Hq]%elem_of_cons; [|by apply Hb].
      exists (pte_new_page f fl false). split; [|by exists f].
      eapply grows_entry; [|exact Hent]. apply Hg2; [done|]. by rewrite page_of_aligned.
    + intros v Hvo [Hne Hn]%not_elem_of_cons.
      eapply grows_trans; [apply Hg; [done|by rewrite (page_of_aligned start)]|by apply Hg2].
    + intros Hall. apply (exhausted_after h ([f] ++ fs) h1); [by eapply allocs_app|].
      apply Hex. intros q Hq. destruct (page_elem_ne _ _ _ Hl Hq) as [Hne Hqo].
      apply (grows_vacant pt pt1 q (Hg q Hqo Hne)). apply Hall. by right.
  - injection Hrun as <- <-. exists 0%nat. split; [lia|].
    split; [by intros q ?%elem_of_nil|]. destruct Hcase as [Hgp Hnm]. split.
    + intros v Hvo _. destruct (decide (page_of v = page_of start)) as [Hvs|Hvs]; [|by apply Hg].
      by eapply grows_page.
    + intros Hall. apply (exhausted_after h [f] h0); [done|]. apply Hnm, Hall. by left.
Qed.

(** What a backend leaves that gives up on a region: its first [kept] bytes are
    backed, nothing else changed, and if the whole region was vacant the
    allocator had run out of frames. *)
Definition stopped b fl start size h pt pt' (kept : Z) : Prop :=
  0 <= kept < size /\ kept mod PAGE_SIZE = 0 /\
  (forall v, start <= v < start + kept -> backed b fl pt' (page_of v)) /\
  (forall v, va_ok v -> ~ start <= v < start + kept -> grows pt pt' v) /\
  ((forall v, start <= v < start + size -> vacant pt v) -> exhausted h).

(** From a count of pages to a count of bytes. *)
Lemma stopped_pages b fl start size h pt pt' k :
  region_ok start size -> (k < page_count size)%nat ->
  (forall q, q ∈ pages start k -> backed b fl pt' q) ->
  (forall v, va_ok v -> page_of v ∉ pages start k -> grows pt pt' v) ->
  ((forall q, q ∈ pages start (page_count size) -> vacant pt q) -> exhausted h) ->
  stopped b fl start size h pt pt' (PAGE_SIZE * Z.of_nat k).
Proof.
  intros Hr Hk Hb Hg Hex. pose proof Hr as (Ha & Hs & H0 & H1 & _).
  assert (page_count (PAGE_SIZE * Z.of_nat k) = k) as Hpc.
  { unfold page_count, PAGE_SIZE. Z.div_mod_to_equations. lia. }
  assert ((PAGE_SIZE * Z.of_nat k) mod PAGE_SIZE = 0) as Hkm.
  { unfold PAGE_SIZE. Z.div_mod_to_equations. lia. }
  assert (0 <= PAGE_SIZE * Z.of_nat k) as Hk0 by (unfold PAGE_SIZE; lia).
  split; [|split; [done|]].
  { unfold page_count, PAGE_SIZE in *. Z.div_mod_to_equations. lia. }
  rewrite <- Hpc in Hb, Hg. split; [|split].
  - intros v Hv. apply Hb. by apply page_of_elem_of_pages.
  - intros v Hvo Hv. apply Hg; [done|]. by rewrite page_of_elem_of_pages.
  - intros Hall. apply Hex. intros q Hq. apply Hall. by apply region_elem in Hq as [_ ?].
Qed.

(** The contract of [MappingBackend::map] when it reports a failure. *)
Lemma map_failed b start size fl h pt h' pt' :
  region_ok start size -> backend_ok b start ->
  map b start size fl (h, pt) = Done (false, (h', pt')) ->
  exists kept, stopped b fl start size h pt pt' kept.
Proof.
  intros Hr Hb Hrun. pose proof (region_pages _ _ Hr) as Hl.
  pose proof Hr as (Ha & Hs & H0 & H1 & Hlim & Hmod).
  assert (forall get g fl', (forall p, p ∈ pages start (page_count size) -> get p = Done (g p)) ->
    (forall q, q mod PAGE_SIZE = 0 -> page_entry b fl q (pte_new_page (page_of (g q)) fl' false)) ->
    (r ← map_pages (pages start (page_count size)) get fl'; mret (is_ok r)) (h, pt)
      = Done (false, (h', pt')) -> exists kept, stopped b fl start size h pt pt' kept) as Hregion.
  { intros get g fl' Hget Hent Hm. unfold mbind, M_bind in Hm.
    destruct (map_pages_spec _ get g fl' h pt Hl Hget) as (r & h1 & pt1 & Hm1 & _ & _ & _ & Hex).
    rewrite Hm1 in Hm. destruct r as [[]|e]; [done|]. injection Hm as -> ->.
    destruct (map_pages_failed _ _ _ _ _ _ _ _ _ _ Hl Hget Hm1) as (k & Hk & Hp & Hg).
    eexists. apply (stopped_pages _ _ _ _ _ _ _ k); [done|done| |done|by apply Hex].
    intros q Hq. eexists. split; [by apply Hp|]. apply Hent.
    apply elem_of_pages in Hq as (i & _ & ->). unfold PAGE_SIZE in *. zpage. }
  destruct b as [off|[]]; simpl in Hrun.
  - unfold map_linear in Hrun. unfold mbind at 1, M_bind at 1 in Hrun.
    rewrite (linear_target start size off) in Hrun by auto. cbn [lift] in Hrun.
    unfold mbind, M_bind in Hrun. rewrite pt_map_region_spec in Hrun by done.
    apply (Hregion (fun va => usize_sub va off) (fun va => wrap64 (va - off)) fl); [|..|exact Hrun].
    + intros p Hp. apply (linear_target start size); auto.
    + intros q Hq. destruct Hb as (_ & Hoff & _). simpl. by rewrite wrap64_sub_aligned.
  - unfold map_alloc, mbind, M_bind in Hrun. rewrite addr_add_spec in Hrun by done.
    cbn [lift] in Hrun. rewrite page_iter_4k_spec in Hrun by done. cbn [unwrap lift] in Hrun.
    destruct (map_alloc_loop_failed _ _ _ _ _ _ _ Hl Hrun) as (k & Hk & Hp & Hg & Hex).
    eexists. by apply (stopped_pages _ _ _ _ _ _ _ k).
  - unfold map_alloc, mbind, M_bind in Hrun. rewrite pt_map_region_spec in Hrun by done.
    apply (Hregion (fun _ => Done 0) (fun _ => 0) no_flags); [done| |exact Hrun].
    intros q _. by left.
Qed.

(** A lazy mapping only reserves its pages: their entries are not present. *)
Lemma lazy_map_spec start size fl h pt :
  region_ok start size ->
  exists ok h' pt',
    map (Alloc false) start size fl (h, pt) = Done (ok, (h', pt')) /\
    (ok = true -> forall p, p ∈ pages start (page_count size) ->
       pt_entry pt' p = Some (pte_new_page 0 no_flags false, Size4K)).
Proof.
  intros Hr. pose proof (region_pages _ _ Hr) as Hl.
  pose proof Hr as (Ha & Hs & H0 & H1 & Hlim & Hmod).
  simpl. unfold map_alloc, mbind, M_bind. rewrite pt_map_region_spec by done.
  destruct (map_pages_spec _ (fun _ => Done 0) (fun _ => 0) no_flags h pt Hl)
    as (r & h' & pt' & Hm & Hroot & Hfs & Hg & Hcase); [done|].
  rewrite Hm. eexists _, h', pt'. split; [done|]. destruct r as [[]|]; [|done].
  intros _ p Hp. by apply Hcase.
Qed.

(** The frames that are mapped at the pages [ps]. *)
Definition frame_at pt (p : Z) : option Z :=
  match pt_entry pt p with
  | Some (e, _) => if pte_is_present e then Some (pte_paddr e) else None
  | None => None
  end.

Fixpoint frames_at pt (ps : list Z) : list Z :=
  match ps with
  | [] => []
  | p :: ps => option_list (frame_at pt p) ++ frames_at pt ps
  end.

Definition dealloc_all (fs : list Z) (h : hal) : hal := foldl (fun h f => dealloc_frame f h) h fs.

Lemma frames_at_same pt pt' ps :
  (forall p, p ∈ ps -> frame_at pt' p = frame_at pt p) -> frames_at pt' ps = frames_at pt ps.
Proof.
  induction ps as [|p ps IH]; intros He; [done|]. simpl. rewrite He by left. f_equal.
  apply IH. intros q Hq. apply He. by right.
Qed.

Lemma frames_at_ext pt pt' ps :
  (forall p, p ∈ ps -> pt_entry pt' p = pt_entry pt p) -> frames_at pt' ps = frames_at pt ps.
Proof. intros He. apply frames_at_same. intros p Hp. unfold frame_at. by rewrite He. Qed.

Lemma unmap_alloc_loop_spec (ps : list Z) h pt :
  page_list ps ->
  (forall p, p ∈ ps -> exists e, pt_entry pt p = Some (e, Size4K)) ->
  exists pt',
    unmap_alloc_loop ps (h, pt) = Done (true, (dealloc_all (frames_at pt ps) h, pt')) /\
    pt_root_paddr pt' = pt_root_paddr pt /\
    (forall p, p ∈ ps -> present pt' p = false) /\
    same_outside pt pt' ps.
Proof.
  revert h pt. induction ps as [|p ps IH]; intros h pt Hl Hall.
  { exists pt. split; [done|]. split; [done|]. split; [by intros p ?%elem_of_nil|]. by intros v. }
  pose proof (page_list_cons p ps) as [Hc _]. destruct (Hc Hl) as (Ha & Hv & Hni & Hl').
  destruct (Hall p) as (e & He); [by left|].
  assert (exists r err pt1, pt_unmap p (h, pt) = Done (r, (h, pt1)) /\
    pt_root_paddr pt1 = pt_root_paddr pt /\ present pt1 p = false /\
    same_outside pt pt1 [p] /\
    r = match frame_at pt p with Some f => Ok (f, Size4K) | None => Err err end)
    as (r & err & pt1 & Hu & Hr & Hp1 & Hs & Hrf).
  { unfold frame_at. rewrite He. destruct (pte_is_present e) eqn:Hp.
    - destruct (pt_unmap_present h pt p e Hv He Hp) as (pt1 & Hu & Hr & He1 & Hs).
      exists (Ok (pte_paddr e, Size4K)), PgNotMapped, pt1. split; [done|]. split; [done|].
      unfold present. rewrite He1, pte_clear_zero. split; [apply pte_zero_not_present|].
      split; [|done]. intros v Hvo Hn. apply Hs; [done|].
      rewrite (page_of_aligned p Ha). by apply not_elem_of_single.
    - destruct (pt_unmap_absent h pt p Hv) as (err & pt1 & Hu & Hr & Hp1 & Hs).
      { unfold present. by rewrite He. }
      exists (Err err), err, pt1. split; [done|]. split; [done|]. split; [done|].
      split; [|done]. intros v Hvo Hn. apply Hs; [done|].
      rewrite (page_of_aligned p Ha). by apply not_elem_of_single. }
  assert (forall q, q ∈ ps -> pt_entry pt1 q = pt_entry pt q) as Hq.
  { intros q Hq. destruct (page_elem_ne _ _ _ Hl Hq) as [Hne Hqo]. apply Hs; [done|].
    rewrite (page_of_aligned p Ha) in Hne. apply not_elem_of_single.
    rewrite page_of_aligned; [|by eapply page_elem_aligned]. rewrite page_of_aligned in Hne; [done|].
    by eapply page_elem_aligned. }
  destruct (IH (dealloc_all (option_list (frame_at pt p)) h) pt1 Hl')
    as (pt2 & Hu2 & Hr2 & Hp2 & Hs2).
  { intros q Hqi. rewrite Hq by done. apply Hall. by right. }
  exists pt2. split; [|split; [congruence|split]].
  - cbn [unmap_alloc_loop]. unfold mbind, M_bind. rewrite Hu, Hrf. cbn [frames_at].
    rewrite (frames_at_ext _ _ _ Hq) in Hu2.
    destruct (frame_at pt p); exact Hu2.
  - intros q [->|Hqi]%elem_of_cons; [|by apply Hp2].
    unfold present. rewrite Hs2; [done|done|by rewrite page_of_aligned].
  - intros v Hvo [Hne Hn]%not_elem_of_cons. rewrite Hs2, Hs; try done. by apply not_elem_of_single.
Qed.

(** Reading the flags [fl] never makes an entry absent. *)
Definition mapping_flags (fl : MappingFlags) : Prop :=
  pte_is_present (pte_new_page 0 fl false) = true.

(** The flags a backend needs to find its pages again. *)
Definition flags_ok b (fl : MappingFlags) : Prop :=
  match b with Linear _ => mapping_flags fl | Alloc _ => True end.

(** The contract of [MappingBackend::unmap] on a region the backend backs: it
    succeeds, nothing is mapped in the region any more, nothing else changes,
    and an allocating backend gives back the frames that were mapped, in
    increasing order of their pages. *)
Lemma unmap_spec b fl start size h pt :
  region_ok start size -> flags_ok b fl ->
  (forall p, p ∈ pages start (page_count size) -> backed b fl pt p) ->
  exists pt',
    unmap b start size (h, pt) =
      Done (true, (match b with
                   | Linear _ => h
                   | Alloc _ =>
                       dealloc_all (frames_at pt (pages start (page_count size))) h
                   end, pt')) /\
    pt_root_paddr pt' = pt_root_paddr pt /\
    (forall p, p ∈ pages start (page_count size) -> present pt' p = false) /\
    same_outside pt pt' (pages start (page_count size)).
Proof.
  intros Hr Hf Hb. pose proof (region_pages _ _ Hr) as Hl.
  pose proof Hr as (Ha & Hs & H0 & H1 & Hlim & Hmod).
  assert (forall p, p ∈ pages start (page_count size) ->
    exists e, pt_entry pt p = Some (e, Size4K)) as He.
  { intros p Hp. destruct (Hb p Hp) as (e & He & _). eauto. }
  destruct b as [off|pop]; simpl.
  - unfold unmap_linear, mbind, M_bind. rewrite pt_unmap_region_spec by done.
    destruct (unmap_pages_spec _ h pt Hl) as (pt' & Hu & ?).
    { intros p Hp. destruct (Hb p Hp) as (e & Hpe & ->). eexists. split; [done|].
      by rewrite pte_present_flags. }
    rewrite Hu. by exists pt'.
  - unfold unmap_alloc, mbind, M_bind. rewrite addr_add_spec by done. cbn [lift].
    rewrite page_iter_4k_spec by done. cbn [unwrap lift].
    by apply unmap_alloc_loop_spec.
Qed.

(** The contract of a page fault in a lazy area: the allocator's answer
    decides, and the fault address gets the new frame with the flags of the
    area. *)
Lemma handle_page_fault_spec fl v h pt :
  va_ok v -> backed (Alloc false) fl pt (page_of v) ->
  match alloc_frame h with
  | (None, h') => handle_page_fault (Alloc false) v fl (h, pt) = Done (false, (h', pt))
  | (Some f, h') => exists pt',
      handle_page_fault (Alloc false) v fl (h, pt) = Done (true, (h', pt')) /\
      pt_root_paddr pt' = pt_root_paddr pt /\ frame_ok f /\
      pt_entry pt' v = Some (pte_new_page f fl false, Size4K) /\
      same_outside pt pt' [page_of v]
  end.
Proof.
  intros Hv (e & He & _). rewrite pt_entry_page in He.
  simpl. unfold handle_page_fault_alloc, mbind, M_bind, h_alloc_frame.
  destruct (alloc_frame h) as [[f|] h'] eqn:Hf; [|done].
  destruct (pt_remap_spec h' pt v f fl e Hv He) as (pt' & Hm & Hr & He' & Hs).
  rewrite Hm, pte_reset in *. exists pt'. split; [done|]. split; [done|].
  split; [by eapply alloc_frame_spec|]. split; [done|].
  intros w Hw Hn. apply Hs; [done|]. by apply not_elem_of_single.
Qed.
End specs.
End BackendOps.
