(* ===== verification/AddrSpace.v ===== *)
(** [src/address_space/mod.rs] and the error conversion of [src/lib.rs]: the
    address space of a guest, its operations, its invariant and what the
    operations do to the translation of guest addresses. *)
From S2P Require Import Prelude Crates RefCrates PageTable Backend.
Local Open Scope Z_scope.

Definition mapping_err_to_ax_err (err : MappingError) : AxError :=
  match err with
  | MsInvalidParam => InvalidInput
  | MsAlreadyExists => AlreadyExists
  | MsBadState => BadState
  end.

(** What a hypervisor reports of a nested page fault. *)
Record NestedPageFaultInfo := mkFaultInfo {
  access_flags : MappingFlags;
  fault_guest_paddr : Z
}.

Module AddrSpace.
Section ops.
Context {BP : BuildProfile} `{BF : Bitflags} `{MA : MemoryAddr}.
Context `{PH : PagingHandler} `{PT : !PageTable64}.
Context `{MS : !MemorySetOps world Backend}.

Record AddrSpace := mkAddrSpace {
  va_range : AddrRange;
  areas : MemorySet;
  pt : PageTable
}.

Implicit Types (s : AddrSpace).

(** Calls that borrow [self.areas] and [self.pt], or [self.pt] alone. *)
Definition on_areas {A} (m : M (MemorySet * world) A) : M (AddrSpace * hal) A :=
  fun '(s, h) =>
  '(r, (ars, (h, p))) ← m (areas s, (h, pt s));
  Done (r, (mkAddrSpace (va_range s) ars p, h)).

Definition on_pt {A} (m : M world A) : M (AddrSpace * hal) A := fun '(s, h) =>
  '(r, (h, p)) ← m (h, pt s);
  Done (r, (mkAddrSpace (va_range s) (areas s) p, h)).

(** A method that only reads [self]. *)
Definition on_self {A} (f : AddrSpace -> outcome A) : M (AddrSpace * hal) A := fun '(s, h) =>
  r ← f s; Done (r, (s, h)).

Definition base s : Z := range_start (va_range s).
Definition end_ s : Z := range_end (va_range s).
Definition size s : Z := range_size (va_range s).
Definition page_table s : PageTable := pt s.
Definition page_table_root s : Z := pt_root_paddr (pt s).

Definition contains_range s (start size : Z) : outcome bool :=
  r ← from_start_size start size;
  Done (range_contains_range (va_range s) r).

Definition new_empty (base size : Z) : M hal (AxResult AddrSpace) :=
  va_range ← lift (from_start_size base size);
  r ← pt_try_new;
  mret (match r with
        | Ok p => Ok (mkAddrSpace va_range ms_new p)
        | Err _ => Err NoMemory
        end).

Definition map_linear (start_vaddr start_paddr size : Z) (flags : MappingFlags) :
    M (AddrSpace * hal) (AxResult unit) :=
  inside ← on_self (fun s => contains_range s start_vaddr size);
  if negb inside then mret (Err InvalidInput) else
  if negb (is_aligned_4k start_vaddr) || negb (is_aligned_4k start_paddr)
     || negb (is_aligned_4k size)
  then mret (Err InvalidInput) else
  offset ← lift (usize_sub start_vaddr start_paddr);
  let area := mkArea start_vaddr size flags (BackendOps.new_linear offset) in
  r ← on_areas (ms_map area false);
  mret (map_err mapping_err_to_ax_err r).

Definition map_alloc (start size : Z) (flags : MappingFlags) (pop : bool) :
    M (AddrSpace * hal) (AxResult unit) :=
  inside ← on_self (fun s => contains_range s start size);
  if negb inside then
    end_ ← lift (addr_add start size);  (* for the message *)
    mret (Err InvalidInput) else
  if negb (is_aligned_4k start) || negb (is_aligned_4k size)
  then mret (Err InvalidInput) else
  let area := mkArea start size flags (BackendOps.new_alloc pop) in
  r ← on_areas (ms_map area false);
  mret (map_err mapping_err_to_ax_err r).

Definition unmap (start size : Z) : M (AddrSpace * hal) (AxResult unit) :=
  inside ← on_self (fun s => contains_range s start size);
  if negb inside then mret (Err InvalidInput) else
  if negb (is_aligned_4k start) || negb (is_aligned_4k size)
  then mret (Err InvalidInput) else
  r ← on_areas (ms_unmap start size);
  mret (map_err mapping_err_to_ax_err r).

Definition clear : M (AddrSpace * hal) unit :=
  r ← on_areas ms_clear;
  lift (unwrap_ok r).

Definition handle_page_fault (vaddr : Z) (access_flags : MappingFlags) :
    M (AddrSpace * hal) bool := fun '(s, h) =>
  if negb (range_contains (va_range s) vaddr) then Done (false, (s, h)) else
  match ms_find (areas s) vaddr with
  | Some area =>
      let orig_flags := area_flags area in
      if negb (bf_contains orig_flags access_flags) then Done (false, (s, h)) else
      on_pt (BackendOps.handle_page_fault (area_backend area) vaddr orig_flags) (s, h)
  | None => Done (false, (s, h))
  end.

Definition translate s (vaddr : Z) : outcome (option Z) :=
  if negb (range_contains (va_range s) vaddr) then Done None else
  r ← pt_query (pt s) vaddr;
  Done (match r with
        | Ok (phys_addr, _, _) => Some phys_addr
        | Err _ => None
        end).

(** The loop of [translated_byte_buffer]; a slice is its address and its
    length. *)
Fixpoint translate_loop (fuel : nat) s (start end_ : Z) : outcome (list (Z * Z)) :=
  if negb (start <? end_) then Done [] else
  match fuel with
  | O => OutOfFuel
  | S fuel =>
      r ← pt_query (pt s) start;
      '(start_paddr, _, page_size) ← unwrap_ok r;
      page_end ← addr_add (align_down start (page_bytes page_size)) (page_bytes page_size);
      let end_va := Z.min page_end end_ in
      ptr ← phys_to_virt start_paddr;
      len ← addr_sub end_va start;
      v ← translate_loop fuel s end_va end_;
      Done ((ptr, len) :: v)
  end.

Definition translated_byte_buffer s (vaddr len : Z) : outcome (option (list (Z * Z))) :=
  if negb (range_contains (va_range s) vaddr) then Done None else
  match ms_find (areas s) vaddr with
  | Some area =>
      if area_size area <? len then Done None else
      end_ ← addr_add vaddr len;
      v ← translate_loop (Z.to_nat len) s vaddr end_;
      Done (Some v)
  | None => Done None
  end.

Definition translate_and_get_limit s (vaddr : Z) : outcome (option (Z * Z)) :=
  if negb (range_contains (va_range s) vaddr) then Done None else
  match ms_find (areas s) vaddr with
  | Some area =>
      r ← pt_query (pt s) vaddr;
      Done (match r with
            | Ok (phys_addr, _, _) => Some (phys_addr, area_size area)
            | Err _ => None
            end)
  | None => Done None
  end.

(** [Drop for AddrSpace]: [clear], and then the page table is dropped. *)
Definition drop_pt : M (AddrSpace * hal) unit := fun '(s, h) =>
  Done (tt, (s, pt_drop (pt s) h)).

Definition drop : M (AddrSpace * hal) unit := clear;; drop_pt.
End ops.
End AddrSpace.
