(* ===== verification/AddrSpaceInv.v ===== *)
(** The invariant of the address space, and the lemmas on lists of memory
    areas it needs. *)
From S2P Require Import Prelude Crates PageTable Backend AddrSpace.
Import BackendOps(region_ok, backend_ok, flags_ok, backed, frame_at, frames_at, dealloc_all).
Local Open Scope Z_scope.

(** * Lists of areas *)

Section areas.
Context {B : Type}.
Implicit Types (a b : MemoryArea B) (l : list (MemoryArea B)).

Fixpoint disjoint_areas l : Prop :=
  match l with
  | [] => True
  | a :: l => Forall (fun b => ~ areas_overlap a b) l /\ disjoint_areas l
  end.

Lemma areas_overlap_comm a b : areas_overlap a b <-> areas_overlap b a.
Proof. unfold areas_overlap. tauto. Qed.

#[export] Instance disjoint_areas_proper : Proper ((≡ₚ) ==> iff) disjoint_areas.
Proof.
  intros l l' Hp. induction Hp as [|a l l' Hp IH|a b l|l1 l2 l3 H1 IH1 H2 IH2]; simpl.
  - done.
  - by rewrite IH, Hp.
  - rewrite !Forall_cons, (areas_overlap_comm a b). tauto.
  - tauto.
Qed.

(** [b] is a part of [a]. *)
Definition part_of b a : Prop :=
  area_start a <= area_start b /\ area_end b <= area_end a.

Lemma parts_no_overlap a a' b b' :
  part_of b a -> part_of b' a' -> ~ areas_overlap a a' -> ~ areas_overlap b b'.
Proof. unfold part_of, areas_overlap. lia. Qed.

Lemma disjoint_areas_app l1 l2 :
  disjoint_areas l1 -> disjoint_areas l2 ->
  (forall a b, a ∈ l1 -> b ∈ l2 -> ~ areas_overlap a b) -> disjoint_areas (l1 ++ l2).
Proof.
  induction l1 as [|a l1 IH]; simpl; [done|]. intros [Ha H1] H2 Hx.
  split; [|apply IH; [done|done|]; intros; apply Hx; [by right|done]].
  apply Forall_app. split; [done|]. apply Forall_forall. intros b Hb. apply Hx; [by left|done].
Qed.

Lemma disjoint_areas_prefix l1 l2 : disjoint_areas (l1 ++ l2) -> disjoint_areas l1.
Proof.
  induction l1 as [|a l1 IH]; simpl; [done|]. intros [[? _]%Forall_app ?]. by split; [|apply IH].
Qed.

(** Replacing every area by disjoint parts of it keeps areas disjoint. *)
Lemma disjoint_areas_bind l (f : MemoryArea B -> list (MemoryArea B)) :
  (forall a, a ∈ l -> Forall (fun b => part_of b a) (f a) /\ disjoint_areas (f a)) ->
  disjoint_areas l -> disjoint_areas (l ≫= f).
Proof.
  intros Hf. induction l as [|a l IH]; [done|]. intros [Ha Hl].
  destruct (Hf a) as [Hfa Hda]; [by left|].
  rewrite bind_cons. apply disjoint_areas_app; [done| |].
  { apply IH; [|done]. intros a' Ha'. apply Hf. by right. }
  intros b c Hb (a' & Hc & Ha')%list_elem_of_bind.
  destruct (Hf a') as [Hfa' _]; [by right|].
  rewrite Forall_forall in Hfa, Hfa', Ha.
  eapply parts_no_overlap; [by apply Hfa|by apply Hfa'|by apply Ha].
Qed.

Lemma no_overlap_contains a b v :
  ~ areas_overlap a b -> area_contains a v -> area_contains b v -> False.
Proof. unfold areas_overlap, area_contains. lia. Qed.

(** ** Cutting a range out of an area *)

Lemma area_cut_elem a b s e :
  b ∈ area_cut a s e ->
  area_flags b = area_flags a /\ area_backend b = area_backend a /\ 0 < area_size b /\
  area_start b = Z.max s (area_start a) /\ area_end b = Z.min e (area_end a).
Proof.
  unfold area_cut. case_match eqn:E; [|by intros ?%elem_of_nil].
  intros ->%list_elem_of_singleton. zbool. unfold area_end in *. simpl in *.
  split; [done|]. split; [done|]. lia.
Qed.

Lemma area_cut_contains a s e v :
  (exists b, b ∈ area_cut a s e /\ area_contains b v) <-> area_contains a v /\ s <= v < e.
Proof.
  split.
  - intros (b & Hb & Hv). apply area_cut_elem in Hb. unfold area_contains in *. lia.
  - unfold area_contains. intros [Hv Hr].
    unfold area_cut. rewrite (proj2 (Z.ltb_lt _ _)) by lia.
    eexists. split; [by apply list_elem_of_singleton|]. unfold area_end in *. simpl in *. lia.
Qed.

Lemma area_cut_parts a s e :
  Forall (fun b => part_of b a) (area_cut a s e) /\ disjoint_areas (area_cut a s e).
Proof.
  split.
  - apply Forall_forall. intros b Hb%area_cut_elem. unfold part_of. lia.
  - unfold area_cut. case_match; simpl; auto.
Qed.

Lemma area_rest_elem a b s e :
  0 < area_size a -> b ∈ area_rest a s e ->
  area_flags b = area_flags a /\ area_backend b = area_backend a /\ 0 < area_size b /\
  part_of b a /\
  (area_start b = area_start a \/ area_start b = e) /\
  (area_end b = area_end a \/ area_end b = s).
Proof.
  unfold area_rest, part_of. intros Hs. case_match eqn:E.
  - intros [Hb|Hb]%elem_of_app; case_match eqn:E'; try by apply elem_of_nil in Hb.
    all: apply list_elem_of_singleton in Hb as ->; zbool; unfold area_end in *; simpl in *.
    all: split; [done|]; split; [done|]; lia.
  - intros ->%list_elem_of_singleton. split; [done|]. split; [done|]. lia.
Qed.

Lemma area_rest_contains a s e v :
  s <= e ->
  (exists b, b ∈ area_rest a s e /\ area_contains b v) <->
    area_contains a v /\ ~ s <= v < e.
Proof.
  intros Hse. unfold area_rest, area_contains, area_end. case_match eqn:E; zbool.
  - unfold area_end in E. setoid_rewrite elem_of_app. split.
    + intros (b & [Hb|Hb] & Hv); case_match eqn:E'; try by apply elem_of_nil in Hb.
      all: apply list_elem_of_singleton in Hb as ->; zbool; simpl in *; lia.
    + intros [Hv Hr]. destruct (decide (v < s)).
      * eexists. split; [left; rewrite (proj2 (Z.ltb_lt _ _)) by lia;
          by apply list_elem_of_singleton|]. simpl. lia.
      * eexists. split; [right; rewrite (proj2 (Z.ltb_lt _ _)) by (unfold area_end; lia);
          by apply list_elem_of_singleton|]. simpl. unfold area_end. lia.
  - unfold area_end in E. setoid_rewrite list_elem_of_singleton. split.
    + intros (b & -> & Hv). lia.
    + intros [Hv Hr]. exists a. split; [done|lia].
Qed.

Lemma area_rest_parts a s e :
  0 < area_size a -> s <= e ->
  Forall (fun b => part_of b a) (area_rest a s e) /\ disjoint_areas (area_rest a s e).
Proof.
  intros Ha Hse. split.
  - apply Forall_forall. intros b Hb%area_rest_elem; tauto.
  - unfold area_rest. repeat case_match; simpl; auto.
    split; [|auto]. constructor; [|constructor].
    unfold areas_overlap, area_end. simpl. lia.
Qed.
End areas.

(** * The invariant *)

Section inv.
Context {BP : BuildProfile} `{MA : MemoryAddr} `{MAL : !MemoryAddrLaws}.
Context `{PH : PagingHandler} `{PT : !PageTable64} `{PV : !PageTableView}.
Context `{PTE : GenericPTE} `{MD : PagingMetaData}.
Context `{PTEL : !GenericPTELaws} `{PTL : !PageTableLaws} `{PHL : !PagingHandlerLaws}.
Context `{MS : !MemorySetOps world Backend} `{MSL : !MemorySetLaws world Backend}.
Implicit Types (p : PageTable) (h : hal) (a b : MemoryArea Backend).
Implicit Types (l : list (MemoryArea Backend)) (s : AddrSpace.AddrSpace) (r : AddrRange).

Definition range_ok r : Prop :=
  0 <= range_start r <= range_end r /\ range_end r <= va_limit /\ range_end r < u64_modulus.

Definition area_ok r a : Prop :=
  0 < area_size a /\ area_start a mod PAGE_SIZE = 0 /\ area_size a mod PAGE_SIZE = 0 /\
  range_start r <= area_start a /\ area_end a <= range_end r /\
  backend_ok (area_backend a) (area_start a) /\ flags_ok (area_backend a) (area_flags a).

(** Every page of the area has the entry its backend keeps for it. *)
Definition area_backed p a : Prop :=
  forall v, area_contains a v -> v mod PAGE_SIZE = 0 ->
    backed (area_backend a) (area_flags a) p v.

Definition areas_ok r p l : Prop :=
  Forall (area_ok r) l /\ disjoint_areas l /\ Forall (area_backed p) l.

(** The invariant of an address space: its range is one the page table can
    hold, the areas are nonempty, aligned, inside the range and pairwise
    disjoint, and every page of an area is backed. *)
Definition wf s : Prop :=
  range_ok (AddrSpace.va_range s) /\
  areas_ok (AddrSpace.va_range s) (AddrSpace.pt s) (ms_iter (AddrSpace.areas s)).

#[export] Instance areas_ok_proper r p : Proper ((≡ₚ) ==> iff) (areas_ok r p).
Proof. intros l l' Hp. unfold areas_ok. by rewrite Hp. Qed.

Lemma areas_ok_cons r p a l :
  areas_ok r p (a :: l) <->
    area_ok r a /\ area_backed p a /\ Forall (fun b => ~ areas_overlap a b) l /\
    areas_ok r p l.
Proof. unfold areas_ok. simpl. rewrite !Forall_cons. tauto. Qed.

Lemma area_region r a : range_ok r -> area_ok r a -> region_ok (area_start a) (area_size a).
Proof.
  unfold range_ok, area_ok, region_ok, area_end. intros (? & ? & ?) (? & ? & ? & ? & ? & _).
  repeat split; (done || lia).
Qed.

Lemma area_pages r a q :
  range_ok r -> area_ok r a ->
  q ∈ pages (area_start a) (page_count (area_size a)) <->
    area_contains a q /\ q mod PAGE_SIZE = 0.
Proof.
  intros Hr Ha. pose proof (area_region _ _ Hr Ha) as (? & ? & ? & ? & _).
  by rewrite elem_of_pages_region.
Qed.

Lemma area_page_of r a v :
  range_ok r -> area_ok r a ->
  page_of v ∈ pages (area_start a) (page_count (area_size a)) <-> area_contains a v.
Proof.
  intros Hr Ha. pose proof (area_region _ _ Hr Ha) as (? & ? & ? & ? & _).
  by rewrite page_of_elem_of_pages.
Qed.

Lemma area_va_ok r a v : range_ok r -> area_ok r a -> area_contains a v -> va_ok v.
Proof. unfold range_ok, area_ok, area_contains, va_ok. lia. Qed.

Lemma area_contains_page r a v :
  area_ok r a -> area_contains a v -> area_contains a (page_of v).
Proof.
  unfold area_ok, area_contains, area_end. intros (_ & Ha & Hs & _) Hv.
  unfold page_of, PAGE_SIZE in *. Z.div_mod_to_equations. lia.
Qed.

Lemma present_page p v : present p (page_of v) = present p v.
Proof. unfold present. by rewrite pt_entry_page. Qed.

(** An area stays backed when the entries of its pages do not change (or only
    new tables appear). *)
Lemma area_backed_grows r p p' a :
  range_ok r -> area_ok r a ->
  (forall v, va_ok v -> area_contains a v -> grows p p' v) ->
  area_backed p a -> area_backed p' a.
Proof.
  intros Hr Ha Hg Hb v Hv Hal. destruct (Hb v Hv Hal) as (e & He & Hpe).
  exists e. split; [|done]. eapply grows_entry; [|exact He].
  apply Hg; [by eapply area_va_ok|done].
Qed.

Lemma areas_backed_grows r p p' l (P : Z -> Prop) :
  range_ok r -> Forall (area_ok r) l ->
  (forall v, va_ok v -> ~ P v -> grows p p' v) ->
  (forall a v, a ∈ l -> area_contains a v -> ~ P v) ->
  Forall (area_backed p) l -> Forall (area_backed p') l.
Proof.
  rewrite !Forall_forall. intros Hr Hok Hg Hn Hb a Ha.
  eapply area_backed_grows; [done|by apply Hok| |by apply Hb].
  intros v Hv Hc. apply Hg; [done|]. by eapply Hn.
Qed.

(** ** Unmapping a list of areas *)

(** The frames the backend of an area gives back when it is unmapped. *)
Definition area_frames p a : list Z :=
  match area_backend a with
  | Linear _ => []
  | Alloc _ => frames_at p (pages (area_start a) (page_count (area_size a)))
  end.

Lemma area_frames_ext r p p' a :
  range_ok r -> area_ok r a ->
  (forall v, va_ok v -> area_contains a v -> pt_entry p' v = pt_entry p v) ->
  area_frames p' a = area_frames p a.
Proof.
  intros Hr Ha He. unfold area_frames. case_match; [done|].
  apply BackendOps.frames_at_ext. intros q [Hq _]%(area_pages r); [|done..].
  apply He; [by eapply area_va_ok|done].
Qed.

Lemma bind_area_frames_ext r p p' l :
  range_ok r -> Forall (area_ok r) l ->
  (forall a v, a ∈ l -> va_ok v -> area_contains a v -> pt_entry p' v = pt_entry p v) ->
  l ≫= area_frames p' = l ≫= area_frames p.
Proof.
  intros Hr Hok He. induction l as [|a l IH]; [done|].
  apply Forall_cons in Hok as [Ha Hok]. rewrite !bind_cons. f_equal.
  - eapply area_frames_ext; [done|done|]. intros. by apply (He a); [left|..].
  - apply IH; [done|]. intros. by eapply He; [right|..].
Qed.

Lemma dealloc_all_app fs fs' h : dealloc_all (fs ++ fs') h = dealloc_all fs' (dealloc_all fs h).
Proof. apply foldl_app. Qed.

Lemma unmap_areas_spec r l h p :
  range_ok r -> areas_ok r p l ->
  exists p',
    unmap_areas l (h, p) = Done (true, (dealloc_all (l ≫= area_frames p) h, p')) /\
    pt_root_paddr p' = pt_root_paddr p /\
    (forall a v, a ∈ l -> area_contains a v -> present p' v = false) /\
    (forall v, va_ok v -> (forall a, a ∈ l -> ~ area_contains a v) ->
       pt_entry p' v = pt_entry p v).
Proof.
  intros Hr. revert h p. induction l as [|a l IH]; intros h p Hok.
  { exists p. split; [done|]. split; [done|]. split; [by intros a v ?%elem_of_nil|done]. }
  apply areas_ok_cons in Hok as (Ha & Hb & Hd & Hok).
  destruct (BackendOps.unmap_spec (area_backend a) (area_flags a) (area_start a) (area_size a) h p)
    as (p1 & Hu & Hroot & Hp1 & Hs).
  { by eapply area_region. }
  { apply Ha. }
  { intros q [Hq Hqa]%(area_pages r); [|done..]. by apply Hb. }
  assert (forall v, va_ok v -> ~ area_contains a v -> pt_entry p1 v = pt_entry p v) as Hs1.
  { intros v Hv Hn. apply Hs; [done|]. by rewrite (area_page_of r). }
  assert (forall b v, b ∈ l -> area_contains b v -> ~ area_contains a v) as Hab.
  { intros b v Hbl Hbv Hav. rewrite Forall_forall in Hd.
    by eapply no_overlap_contains; [apply Hd|..]. }
  pose proof Hok as (Hfa & Hdl & Hbl).
  destruct (IH (match area_backend a with
                | Linear _ => h
                | Alloc _ => dealloc_all
                    (frames_at p (pages (area_start a) (page_count (area_size a)))) h
                end) p1) as (p2 & Hu2 & Hroot2 & Hp2 & Hs2).
  { split; [done|]. split; [done|].
    eapply (areas_backed_grows r p p1 l (area_contains a)); [done|done| |done|done].
    intros v Hv Hn. left. by apply Hs1. }
  exists p2. split; [|split; [congruence|split]].
  - cbn [unmap_areas]. unfold mbind at 1, M_bind at 1. simpl be_unmap. rewrite Hu, Hu2.
    rewrite bind_cons, dealloc_all_app.
    rewrite (bind_area_frames_ext r p p1) by (try done; intros; apply Hs1; eauto).
    unfold area_frames. by destruct (area_backend a).
  - intros b v [->|Hb2]%elem_of_cons Hv; [|by eapply Hp2].
    unfold present.
    rewrite Hs2; [|by eapply area_va_ok|intros b' Hb' Hv'; by apply (Hab b' v)].
    fold (present p1 v). rewrite <- present_page. apply Hp1. by apply (area_page_of r).
  - intros v Hv Hn. rewrite Hs2, Hs1; [done|done| |done|].
    + apply Hn. by left.
    + intros b Hb2. apply Hn. by right.
Qed.
End inv.
