(* ===== verification/AddrSpaceSpec.v ===== *)
(** What each operation of the address space does, on every branch: the
    lemmas behind the properties of [AddrSpaceProps]. *)
From S2P Require Import Prelude Crates PageTable Backend AddrSpace AddrSpaceInv.
Import BackendOps(region_ok, backend_ok, flags_ok, backed, frame_at, frames_at, dealloc_all,
  mapping_flags, frame_ok).
Import AddrSpace(va_range, areas, pt).
Local Open Scope Z_scope.

(** Arguments are [usize] values. *)
Definition usize (z : Z) : Prop := 0 <= z < u64_modulus.

(** The address range of a request, when its end does not overflow. *)
Definition fits (start size : Z) : Prop :=
  usize start /\ usize size /\ start + size < u64_modulus.

(** Side conditions on the area of a request. *)
Ltac area_side := simpl; first [done | unfold usize, fits, area_end in *; simpl; lia].

Section spec.
Context {BP : BuildProfile} `{BF : Bitflags} `{MA : MemoryAddr} `{MAL : !MemoryAddrLaws}.
Context `{PH : PagingHandler} `{PT : !PageTable64} `{PV : !PageTableView}.
Context `{PTE : GenericPTE} `{MD : PagingMetaData}.
Context `{PTEL : !GenericPTELaws} `{PTL : !PageTableLaws} `{PHL : !PagingHandlerLaws}.
Context `{MS : !MemorySetOps world Backend} `{MSL : !MemorySetLaws world Backend}.
Implicit Types (p : PageTable) (h : hal) (a b : MemoryArea Backend) (s : AddrSpace.AddrSpace).
Implicit Types (r : AddrRange).

Definition in_range s (start size : Z) : bool :=
  (range_start (va_range s) <=? start) && (start + size <=? range_end (va_range s)).

Definition aligned (z : Z) : bool := z mod PAGE_SIZE =? 0.

Lemma contains_range_spec s start size :
  usize start -> usize size ->
  AddrSpace.contains_range s start size =
    if start + size <? u64_modulus then Done (in_range s start size) else Panic.
Proof.
  intros Hs Hz. unfold AddrSpace.contains_range. rewrite from_start_size_spec by done.
  case_match; [|done]. simpl. by rewrite range_contains_range_spec.
Qed.

(** ** Adding an area *)

(** The memory set asks the backend only for areas that are not empty and
    overlap no other, and keeps those the backend mapped. *)
Lemma map_area_cases s h a :
  0 <= area_size a ->
  (area_size a = 0 ->
   AddrSpace.on_areas (ms_map a false) (s, h) = Done (Err MsInvalidParam, (s, h))) /\
  (0 < area_size a -> Exists (areas_overlap a) (ms_iter (areas s)) ->
   AddrSpace.on_areas (ms_map a false) (s, h) = Done (Err MsAlreadyExists, (s, h))) /\
  (0 < area_size a -> ~ Exists (areas_overlap a) (ms_iter (areas s)) ->
   match BackendOps.map (area_backend a) (area_start a) (area_size a) (area_flags a) (h, pt s) with
   | Done (true, (h', p')) => exists ars,
       AddrSpace.on_areas (ms_map a false) (s, h) =
         Done (Ok tt, (AddrSpace.mkAddrSpace (va_range s) ars p', h')) /\
       ms_iter ars ≡ₚ a :: ms_iter (areas s)
   | Done (false, (h', p')) =>
       AddrSpace.on_areas (ms_map a false) (s, h) =
         Done (Err MsBadState, (AddrSpace.mkAddrSpace (va_range s) (areas s) p', h'))
   | _ => True
   end).
Proof.
  intros Hsz. unfold AddrSpace.on_areas.
  assert (AddrSpace.mkAddrSpace (va_range s) (areas s) (pt s) = s) as Hself by by destruct s.
  split; [|split].
  - intros Hz. rewrite ms_map_empty by done. simpl. by rewrite Hself.
  - intros Hpos Ho. rewrite ms_map_overlap by done. simpl. by rewrite Hself.
  - intros Hpos Hno. pose proof (ms_map_fresh a (areas s) (h, pt s) Hpos Hno) as Hfresh.
    simpl be_map in Hfresh.
    destruct (BackendOps.map _ _ _ _ _) as [[[] [h' p']]| | |]; [|by rewrite Hfresh|done..].
    destruct Hfresh as (ars & Hms & Hit). exists ars. by rewrite Hms.
Qed.

(** The answer of the memory set to a new area, and what goes with it: an area
    is added where everything was vacant, and a backend that gave up has
    stopped half way. *)
Definition map_reply a (res : result unit MappingError) s h s' h' : Prop :=
  match res with
  | Ok _ => 0 < area_size a /\ ~ Exists (areas_overlap a) (ms_iter (areas s)) /\
      ms_iter (areas s') ≡ₚ a :: ms_iter (areas s) /\
      forall v, area_contains a v -> vacant (pt s) v
  | Err MsInvalidParam => area_size a = 0 /\ s' = s /\ h' = h
  | Err MsAlreadyExists =>
      0 < area_size a /\ Exists (areas_overlap a) (ms_iter (areas s)) /\ s' = s /\ h' = h
  | Err MsBadState =>
      0 < area_size a /\ ~ Exists (areas_overlap a) (ms_iter (areas s)) /\
      areas s' = areas s /\
      exists kept, BackendOps.stopped (area_backend a) (area_flags a) (area_start a)
        (area_size a) h (pt s) (pt s') kept
  end.

Lemma map_area_spec s h a :
  wf s -> 0 <= area_size a -> area_start a mod PAGE_SIZE = 0 ->
  area_size a mod PAGE_SIZE = 0 ->
  range_start (va_range s) <= area_start a -> area_end a <= range_end (va_range s) ->
  backend_ok (area_backend a) (area_start a) -> flags_ok (area_backend a) (area_flags a) ->
  exists res s' h',
    AddrSpace.on_areas (ms_map a false) (s, h) = Done (res, (s', h')) /\
    wf s' /\ va_range s' = va_range s /\
    AddrSpace.page_table_root s' = AddrSpace.page_table_root s /\
    (exists fs, allocs h fs h') /\
    (forall v, va_ok v -> ~ area_contains a v -> grows (pt s) (pt s') v) /\
    map_reply a res s h s' h'.
Proof.
  intros Hwf Hsz Has Hss Hlo Hhi Hb Hf. pose proof Hwf as [Hr (Hoks & Hdis & Hbk)].
  destruct (map_area_cases s h a Hsz) as (Hempty & Hover & Hfresh).
  destruct (decide (area_size a = 0)) as [Hz|Hnz].
  { rewrite Hempty by done. exists (Err MsInvalidParam), s, h. do 4 (split; [done|]).
    split; [exists []; constructor|]. split; [auto with addr|done]. }
  destruct (decide (Exists (areas_overlap a) (ms_iter (areas s)))) as [Ho|Ho].
  { rewrite Hover by (done || lia). exists (Err MsAlreadyExists), s, h. do 4 (split; [done|]).
    split; [exists []; constructor|]. split; [auto with addr|]. split; [lia|done]. }
  specialize (Hfresh ltac:(lia) Ho).
  assert (area_ok (va_range s) a) as Ha by (unfold area_ok; repeat split; (done || lia)).
  assert (Forall (fun b => ~ areas_overlap a b) (ms_iter (areas s))) as Hno.
  { by apply not_Exists_Forall in Ho; [|apply _]. }
  destruct (BackendOps.map_spec (area_backend a) (area_start a) (area_size a) (area_flags a)
    h (pt s)) as (ok & h' & p' & Hm & Hroot & Hfs & Hg & Hback); [by eapply area_region|done|].
  pose proof Hm as Hm'. rewrite Hm in Hfresh.
  assert (Forall (area_backed p') (ms_iter (areas s))) as Hbk'.
  { eapply (areas_backed_grows (va_range s) (pt s) p' _ (area_contains a)); [done|done| | |done].
    - intros v Hv Hn. by apply Hg.
    - intros b v Hbin Hbv Hav. rewrite Forall_forall in Hno.
      by eapply no_overlap_contains; [apply Hno|..]. }
  destruct ok; [destruct Hfresh as (ars & Hrun & Hit)|]; (eexists _, _, h'; split; [eassumption|]).
  - split.
    { split; [done|]. simpl. rewrite Hit. apply areas_ok_cons. split; [done|].
      split; [|by split]. intros v Hv Hva. apply Hback; [done|]. by apply (area_pages (va_range s)). }
    do 4 (split; [done|]). split; [lia|]. split; [done|]. split; [done|]. intros v Hv.
    apply (vacant_page (pt s) v (page_of v)); [by rewrite (page_of_aligned (page_of v)) by apply page_of_mod|].
    apply Hback; [done|]. by apply page_of_elem_of_pages.
  - split; [by split|]. do 4 (split; [done|]). split; [lia|]. split; [done|]. split; [done|].
    eapply BackendOps.map_failed; [by eapply area_region|done|exact Hm'].
Qed.

(** ** Removing areas *)

Lemma area_ok_rest r a b start size :
  start mod PAGE_SIZE = 0 -> size mod PAGE_SIZE = 0 -> 0 <= size ->
  area_ok r a -> b ∈ area_rest a start (start + size) -> area_ok r b.
Proof.
  intros Hs Hz Hn (H0 & Ha1 & Ha2 & Hlo & Hhi & Hb & Hf) Hin.
  apply area_rest_elem in Hin as (Hfl & Hbe & Hpos & [Hp1 Hp2] & Hst & Hen); [|done].
  unfold area_ok. rewrite Hfl, Hbe. unfold area_end in *.
  assert (area_start b mod PAGE_SIZE = 0) as Hbs by (destruct Hst as [-> | ->]; zpage).
  split; [done|]. split; [done|].
  split; [destruct Hen; zpage|]. split; [lia|]. split; [lia|]. split; [|done].
  destruct (area_backend a); [|done]. destruct Hb as (? & ? & Hc).
  split; [done|]. split; [done|]. destruct Hc; [by left|right; lia].
Qed.

Lemma area_ok_cut r a b start size :
  start mod PAGE_SIZE = 0 -> size mod PAGE_SIZE = 0 -> 0 <= size ->
  area_ok r a -> b ∈ area_cut a start (start + size) -> area_ok r b.
Proof.
  intros Hs Hz Hn (H0 & Ha1 & Ha2 & Hlo & Hhi & Hb & Hf) Hin.
  apply area_cut_elem in Hin as (Hfl & Hbe & Hpos & Hst & Hen).
  unfold area_ok. rewrite Hfl, Hbe. unfold area_end in *.
  assert (area_start b mod PAGE_SIZE = 0) as Hbs
    by (destruct (Z.max_spec start (area_start a)) as [[_ E]|[_ E]]; rewrite Hst, E; done).
  split; [done|]. split; [done|].
  split; [destruct (Z.min_spec (start + size) (area_start a + area_size a)); zpage|].
  split; [lia|]. split; [lia|]. split; [|done].
  destruct (area_backend a); [|done]. destruct Hb as (? & ? & Hc).
  split; [done|]. split; [done|]. destruct Hc; [by left|right; lia].
Qed.

Lemma area_backed_part p a b :
  area_backend b = area_backend a -> area_flags b = area_flags a ->
  (forall v, area_contains b v -> area_contains a v) -> area_backed p a -> area_backed p b.
Proof. intros Hbe Hfl Hc Ha v Hv Hva. rewrite Hbe, Hfl. by apply Ha; [apply Hc|]. Qed.

Lemma areas_ok_cut r p l start size :
  start mod PAGE_SIZE = 0 -> size mod PAGE_SIZE = 0 -> 0 <= size ->
  areas_ok r p l -> areas_ok r p (l ≫= fun a => area_cut a start (start + size)).
Proof.
  intros Hs Hz Hn (Hok & Hd & Hb). rewrite Forall_forall in Hok, Hb. split; [|split].
  - apply Forall_forall. intros b (a & Hin & Ha)%list_elem_of_bind.
    apply (area_ok_cut r a b start size); auto.
  - apply disjoint_areas_bind; [|done]. intros a _. apply area_cut_parts.
  - apply Forall_forall. intros b (a & Hin & Ha)%list_elem_of_bind.
    pose proof (area_cut_elem _ _ _ _ Hin) as (Hfl & Hbe & _).
    eapply area_backed_part; [done|done| |by apply Hb].
    intros v Hv. by apply (area_cut_contains a start (start + size)); eauto.
Qed.

Lemma areas_ok_rest r p p' l start size :
  start mod PAGE_SIZE = 0 -> size mod PAGE_SIZE = 0 -> 0 <= size -> range_ok r ->
  areas_ok r p l ->
  (forall v, va_ok v -> ~ start <= v < start + size -> pt_entry p' v = pt_entry p v) ->
  areas_ok r p' (l ≫= fun a => area_rest a start (start + size)).
Proof.
  intros Hs Hz Hn Hr (Hok & Hd & Hb) He. rewrite Forall_forall in Hok, Hb. split; [|split].
  - apply Forall_forall. intros b (a & Hin & Ha)%list_elem_of_bind.
    apply (area_ok_rest r a b start size); auto.
  - apply disjoint_areas_bind; [|done]. intros a Ha. apply area_rest_parts; [|lia].
    by apply Hok.
  - apply Forall_forall. intros b (a & Hin & Ha)%list_elem_of_bind.
    pose proof (Hok a Ha) as Hoka. pose proof Hoka as [Hpos _].
    pose proof (area_rest_elem _ _ _ _ Hpos Hin) as (Hfl & Hbe & _).
    assert (forall v, area_contains b v -> area_contains a v /\ ~ start <= v < start + size) as Hc.
    { intros v Hv. apply (area_rest_contains a start (start + size)); [lia|eauto]. }
    eapply (area_backed_grows r p p' b); [done|by apply (area_ok_rest r a b start size)| |].
    + intros v Hv Hbv. left. apply He; [done|]. by apply Hc.
    + eapply area_backed_part; [done|done| |by apply Hb]. intros v Hv. by apply Hc.
Qed.

Lemma remove_range_spec s h start size :
  wf s -> start mod PAGE_SIZE = 0 -> size mod PAGE_SIZE = 0 ->
  0 <= start -> 0 <= size -> start + size < u64_modulus ->
  exists s' h' cut,
    AddrSpace.on_areas (ms_unmap start size) (s, h) = Done (Ok tt, (s', h')) /\
    wf s' /\ va_range s' = va_range s /\
    AddrSpace.page_table_root s' = AddrSpace.page_table_root s /\
    ms_iter (areas s') ≡ₚ (ms_iter (areas s) ≫= fun a => area_rest a start (start + size)) /\
    cut ≡ₚ (ms_iter (areas s) ≫= fun a => area_cut a start (start + size)) /\
    h' = dealloc_all (cut ≫= area_frames (pt s)) h /\
    (forall a v, a ∈ ms_iter (areas s) -> area_contains a v -> start <= v < start + size ->
       present (pt s') v = false) /\
    (forall v, va_ok v ->
       (forall a, a ∈ ms_iter (areas s) -> area_contains a v -> ~ start <= v < start + size) ->
       pt_entry (pt s') v = pt_entry (pt s) v).
Proof.
  intros [Hr Hok] Hs Hz H0 Hn Hm.
  destruct (ms_unmap_spec start size (areas s) (h, pt s) H0 Hn Hm) as (cut & Hcut & Hcase).
  assert (areas_ok (va_range s) (pt s) cut) as Hokc.
  { rewrite Hcut. by apply areas_ok_cut. }
  destruct (unmap_areas_spec (va_range s) cut h (pt s) Hr Hokc) as (p' & Hu & Hroot & Hp & He).
  rewrite Hu in Hcase. destruct Hcase as (ars & Hms & Hit).
  assert (forall v, (exists b, b ∈ cut /\ area_contains b v) <->
    exists a, a ∈ ms_iter (areas s) /\ area_contains a v /\ start <= v < start + size) as Hcv.
  { intros v. setoid_rewrite Hcut. setoid_rewrite list_elem_of_bind. split.
    - intros (b & (a & Hb & Ha) & Hv). exists a. split; [done|].
      apply (area_cut_contains a start (start + size)). eauto.
    - intros (a & Ha & Hv). apply area_cut_contains in Hv as (b & Hb & Hv). eauto. }
  assert (forall v, va_ok v ->
    (forall a, a ∈ ms_iter (areas s) -> area_contains a v -> ~ start <= v < start + size) ->
    pt_entry p' v = pt_entry (pt s) v) as He'.
  { intros v Hv Hna. apply He; [done|]. intros b Hb Hbv.
    destruct (proj1 (Hcv v)) as (a & Ha & Hav & Hvr); [eauto|]. by eapply Hna. }
  exists (AddrSpace.mkAddrSpace (va_range s) ars p'), (dealloc_all (cut ≫= area_frames (pt s)) h), cut.
  unfold AddrSpace.on_areas. rewrite Hms. simpl.
  split; [done|]. split.
  { split; [done|]. simpl. rewrite Hit. eapply areas_ok_rest; [done..|].
    intros v Hv Hnr. apply He'; [done|]. by intros. }
  repeat (split; [done|]). split; [|done].
  intros a v Ha Hav Hvr. destruct (proj2 (Hcv v)) as (b & Hb & Hbv); [eauto|].
  by eapply Hp.
Qed.

Lemma clear_spec s h :
  wf s ->
  exists s' l,
    AddrSpace.clear (s, h) = Done (tt, (s', dealloc_all (l ≫= area_frames (pt s)) h)) /\
    wf s' /\ va_range s' = va_range s /\
    AddrSpace.page_table_root s' = AddrSpace.page_table_root s /\
    ms_iter (areas s') = [] /\ l ≡ₚ ms_iter (areas s) /\
    (forall a v, a ∈ ms_iter (areas s) -> area_contains a v -> present (pt s') v = false) /\
    (forall v, va_ok v -> (forall a, a ∈ ms_iter (areas s) -> ~ area_contains a v) ->
       pt_entry (pt s') v = pt_entry (pt s) v).
Proof.
  intros [Hr Hok].
  destruct (ms_clear_spec (areas s) (h, pt s)) as (l & Hl & Hcase).
  assert (areas_ok (va_range s) (pt s) l) as Hokl by by rewrite Hl.
  destruct (unmap_areas_spec (va_range s) l h (pt s) Hr Hokl) as (p' & Hu & Hroot & Hp & He).
  rewrite Hu in Hcase. destruct Hcase as (ars & Hms & Hit).
  exists (AddrSpace.mkAddrSpace (va_range s) ars p'), l.
  unfold AddrSpace.clear, AddrSpace.on_areas, mbind, M_bind. rewrite Hms. simpl.
  split; [done|]. split; [split; [done|]; simpl; rewrite Hit; by repeat split|].
  setoid_rewrite Hl in Hp. setoid_rewrite Hl in He. done.
Qed.

(** ** Translation *)

(** Reading the flags of an entry made for [fl] does not panic. *)
Definition flags_readable (fl : MappingFlags) : Prop :=
  forall pa, exists g, pte_flags (pte_new_page pa fl false) = Done g.

Definition in_space s (v : Z) : Prop :=
  range_start (va_range s) <= v < range_end (va_range s).

Lemma in_space_va_ok s v : wf s -> in_space s v -> va_ok v.
Proof. unfold in_space, va_ok. intros [(? & ? & ?) _]. lia. Qed.

Lemma in_space_test s v :
  range_contains (va_range s) v = bool_decide (in_space s v).
Proof.
  rewrite range_contains_spec. unfold in_space.
  case_bool_decide; [apply andb_true_iff; lia|apply andb_false_iff; lia].
Qed.

Lemma translate_outside s v : ~ in_space s v -> AddrSpace.translate s v = Done None.
Proof.
  intros Hn. unfold AddrSpace.translate. by rewrite in_space_test, bool_decide_false.
Qed.

Lemma translate_entry s v :
  wf s -> in_space s v ->
  AddrSpace.translate s v =
    match pt_entry (pt s) v with
    | Some (e, sz) =>
        if pte_is_present e
        then fl ← pte_flags e; Done (Some (pte_paddr e + v mod page_bytes sz))
        else Done None
    | None => Done None
    end.
Proof.
  intros Hwf Hv. unfold AddrSpace.translate.
  rewrite in_space_test, bool_decide_true by done. simpl.
  rewrite pt_query_spec by by eapply in_space_va_ok.
  destruct (pt_entry (pt s) v) as [[e sz]|]; [|done].
  destruct (pte_is_present e); [|done]. by destruct (pte_flags e).
Qed.

(** Growth of the page table does not change a translation. *)
Lemma translate_grows s s' v :
  wf s -> wf s' -> va_range s' = va_range s ->
  (in_space s v -> grows (pt s) (pt s') v) ->
  AddrSpace.translate s' v = AddrSpace.translate s v.
Proof.
  intros Hwf Hwf' Hr Hg. destruct (decide (in_space s v)) as [Hv|Hv].
  - rewrite !translate_entry; [|done..|by unfold in_space in *; rewrite Hr].
    destruct (Hg Hv) as [->|(-> & e & -> & Hu)]; [done|].
    by rewrite (unused_not_present e Hu).
  - rewrite !translate_outside; [done|done|]. unfold in_space in *. by rewrite Hr.
Qed.

Lemma translate_absent s v :
  wf s -> present (pt s) v = false -> AddrSpace.translate s v = Done None.
Proof.
  intros Hwf Hp. destruct (decide (in_space s v)) as [Hv|Hv]; [|by apply translate_outside].
  rewrite translate_entry by done. unfold present in Hp.
  destruct (pt_entry (pt s) v) as [[e sz]|]; [|done]. by rewrite Hp.
Qed.

(** The translation of an address whose page has an entry for a frame. *)
Lemma translate_new_page s v f fl :
  wf s -> in_space s v -> frame_ok f -> mapping_flags fl -> flags_readable fl ->
  pt_entry (pt s) v = Some (pte_new_page f fl false, Size4K) ->
  AddrSpace.translate s v = Done (Some (f + v mod PAGE_SIZE)).
Proof.
  intros Hwf Hv [Hfa Hf] Hm Hrd He. rewrite translate_entry, He by done.
  rewrite pte_present_flags, Hm. destruct (Hrd f) as [g ->]. simpl.
  by rewrite pte_new_page_paddr.
Qed.

(** The areas of an address space, by address. *)
Lemma find_area s a v :
  wf s -> a ∈ ms_iter (areas s) -> area_contains a v -> ms_find (areas s) v = Some a.
Proof.
  intros [Hr (Hok & Hd & _)] Ha Hv.
  destruct (ms_find (areas s) v) as [b|] eqn:Hf.
  - apply ms_find_Some in Hf as [Hb Hbv]. f_equal.
    clear Hok. revert Hd Ha Hb. generalize (ms_iter (areas s)). intros l. clear Hr s.
    induction l as [|c l IH]; [by intros _ ?%elem_of_nil|]. simpl. intros [Hc Hd].
    rewrite Forall_forall in Hc.
    intros [->|Ha]%elem_of_cons [->|Hb]%elem_of_cons; [done| | |by apply IH].
    + by destruct (no_overlap_contains _ _ v (Hc b Hb)).
    + by destruct (no_overlap_contains _ _ v (Hc a Ha)).
  - by destruct (ms_find_None _ _ _ Hf Ha).
Qed.

Lemma area_in_space s a v :
  wf s -> a ∈ ms_iter (areas s) -> area_contains a v -> in_space s v.
Proof.
  intros [_ (Hok & _)] Ha Hv. rewrite Forall_forall in Hok.
  destruct (Hok a Ha) as (_ & _ & _ & ? & ? & _). unfold in_space, area_contains in *. lia.
Qed.

Lemma wf_area_ok s a : wf s -> a ∈ ms_iter (areas s) -> area_ok (va_range s) a.
Proof. intros [_ (Hok & _)] Ha. rewrite Forall_forall in Hok. by apply Hok. Qed.

(** The entry of an address in an area. *)
Lemma wf_entry s a v :
  wf s -> a ∈ ms_iter (areas s) -> area_contains a v ->
  exists e, pt_entry (pt s) v = Some (e, Size4K) /\
    BackendOps.page_entry (area_backend a) (area_flags a) (page_of v) e.
Proof.
  intros Hwf Ha Hv. pose proof Hwf as [Hr (Hok & _ & Hb)].
  rewrite Forall_forall in Hok, Hb.
  destruct (Hb a Ha (page_of v)) as (e & He & Hpe).
  - by eapply area_contains_page; [apply Hok|].
  - apply page_of_mod.
  - rewrite pt_entry_page in He. eauto.
Qed.

(** ** The operations, guard by guard *)

(** The guards of [map_linear] and [map_alloc]. *)
Definition linear_request_ok s (va pa size : Z) : bool :=
  in_range s va size && (aligned va && aligned pa && aligned size).

Lemma map_linear_unfold s h va pa size fl :
  fits va size ->
  AddrSpace.map_linear va pa size fl (s, h) =
    if linear_request_ok s va pa size then
      match usize_sub va pa with
      | Done off =>
          (r ← AddrSpace.on_areas (ms_map (mkArea va size fl (Linear off)) false);
           mret (map_err mapping_err_to_ax_err r)) (s, h)
      | _ => Panic
      end
    else Done (Err InvalidInput, (s, h)).
Proof.
  intros (Hv & Hs & Hf). unfold AddrSpace.map_linear, linear_request_ok.
  unfold mbind at 1, M_bind at 1, AddrSpace.on_self at 1.
  rewrite contains_range_spec, (proj2 (Z.ltb_lt _ _) Hf) by done. simpl.
  destruct (in_range s va size); [|done]. simpl. rewrite !is_aligned_4k_spec.
  unfold aligned. destruct (va mod PAGE_SIZE =? 0), (pa mod PAGE_SIZE =? 0),
    (size mod PAGE_SIZE =? 0); try done. simpl.
  unfold mbind at 1, M_bind at 1.
  destruct (usize_sub va pa) eqn:E; try done.
  all: unfold usize_sub, usize_arith in E; by repeat case_match.
Qed.

Lemma linear_offset_ok va pa :
  usize va -> usize pa -> va mod PAGE_SIZE = 0 -> pa mod PAGE_SIZE = 0 ->
  overflow_checks = false \/ pa <= va ->
  usize_sub va pa = Done (wrap64 (va - pa)) /\ backend_ok (Linear (wrap64 (va - pa))) va.
Proof.
  unfold usize. intros Hv Hp Hva Hpa Hc.
  assert (wrap64 (va - pa) mod PAGE_SIZE = 0) as Ha by (unfold wrap64; zpage).
  pose proof (wrap64_range (va - pa)).
  destruct Hc as [Hc|Hc].
  - split; [by apply usize_arith_wraps|]. split; [done|]. split; [done|]. by left.
  - unfold usize_sub. rewrite usize_arith_in_range, wrap64_small in * by lia.
    split; [done|]. split; [lia|]. split; [done|]. right. lia.
Qed.

Definition alloc_request_ok s (start size : Z) : bool :=
  in_range s start size && (aligned start && aligned size).

Lemma map_alloc_unfold s h start size fl pop :
  fits start size ->
  AddrSpace.map_alloc start size fl pop (s, h) =
    if alloc_request_ok s start size then
      (r ← AddrSpace.on_areas (ms_map (mkArea start size fl (Alloc pop)) false);
       mret (map_err mapping_err_to_ax_err r)) (s, h)
    else Done (Err InvalidInput, (s, h)).
Proof.
  intros (Hv & Hs & Hf). unfold AddrSpace.map_alloc, alloc_request_ok.
  unfold mbind at 1, M_bind at 1, AddrSpace.on_self at 1.
  rewrite contains_range_spec, (proj2 (Z.ltb_lt _ _) Hf) by done. simpl.
  destruct (in_range s start size); simpl.
  - rewrite !is_aligned_4k_spec. unfold aligned.
    by destruct (start mod PAGE_SIZE =? 0), (size mod PAGE_SIZE =? 0).
  - unfold usize in *. unfold mbind, M_bind. by rewrite addr_add_spec by lia.
Qed.

Lemma unmap_unfold s h start size :
  fits start size ->
  AddrSpace.unmap start size (s, h) =
    if alloc_request_ok s start size then
      (r ← AddrSpace.on_areas (ms_unmap start size);
       mret (map_err mapping_err_to_ax_err r)) (s, h)
    else Done (Err InvalidInput, (s, h)).
Proof.
  intros (Hv & Hs & Hf). unfold AddrSpace.unmap, alloc_request_ok.
  unfold mbind at 1, M_bind at 1, AddrSpace.on_self at 1.
  rewrite contains_range_spec, (proj2 (Z.ltb_lt _ _) Hf) by done. simpl.
  destruct (in_range s start size); [|done]. simpl. rewrite !is_aligned_4k_spec.
  unfold aligned. by destruct (start mod PAGE_SIZE =? 0), (size mod PAGE_SIZE =? 0).
Qed.

(** A request whose end overflows panics, whatever the operation. *)
Lemma overflow_panics s h va pa size fl pop :
  usize va -> usize size -> u64_modulus <= va + size ->
  AddrSpace.map_linear va pa size fl (s, h) = Panic /\
  AddrSpace.map_alloc va size fl pop (s, h) = Panic /\
  AddrSpace.unmap va size (s, h) = Panic.
Proof.
  intros Hv Hs Ho. unfold AddrSpace.map_linear, AddrSpace.map_alloc, AddrSpace.unmap.
  unfold mbind, M_bind, AddrSpace.on_self.
  by rewrite contains_range_spec, (proj2 (Z.ltb_ge _ _) Ho).
Qed.

(** ** Page faults *)

(** A fault is for the lazy backend: an area covers the address, allows the
    access and allocates on demand. *)
Definition lazy_fault s (v : Z) (access : MappingFlags) a : Prop :=
  a ∈ ms_iter (areas s) /\ area_contains a v /\
  bf_contains (area_flags a) access = true /\ area_backend a = Alloc false.

Lemma fault_refused s h v access :
  wf s -> (forall a, ~ lazy_fault s v access a) ->
  AddrSpace.handle_page_fault v access (s, h) = Done (false, (s, h)).
Proof.
  intros Hwf Hno. unfold AddrSpace.handle_page_fault.
  destruct (range_contains (va_range s) v); [|done]. simpl.
  destruct (ms_find (areas s) v) as [a|] eqn:Hf; [|done].
  apply ms_find_Some in Hf as [Ha Hv].
  destruct (bf_contains (area_flags a) access) eqn:Hc; [|done].
  destruct (area_backend a) as [off|[]] eqn:Hb; simpl.
  1,2: by destruct s.
  by destruct (Hno a).
Qed.

Lemma fault_served s h v access a :
  wf s -> lazy_fault s v access a ->
  match alloc_frame h with
  | (None, h') => AddrSpace.handle_page_fault v access (s, h) = Done (false, (s, h'))
  | (Some f, h') => exists p',
      let s' := AddrSpace.mkAddrSpace (va_range s) (areas s) p' in
      AddrSpace.handle_page_fault v access (s, h) = Done (true, (s', h')) /\
      wf s' /\ pt_root_paddr p' = pt_root_paddr (pt s) /\ frame_ok f /\
      pt_entry p' v = Some (pte_new_page f (area_flags a) false, Size4K) /\
      same_outside (pt s) p' [page_of v]
  end.
Proof.
  intros Hwf (Ha & Hv & Hc & Hb). pose proof Hwf as [Hr (Hok & Hd & Hbk)].
  assert (in_space s v) as Hin by by apply (area_in_space s a).
  pose proof (in_space_va_ok s v Hwf Hin) as Hvo.
  destruct (wf_entry s a v Hwf Ha Hv) as (e & He & Hpe). rewrite Hb in Hpe.
  pose proof (BackendOps.handle_page_fault_spec (area_flags a) v h (pt s) Hvo) as Hspec.
  unfold AddrSpace.handle_page_fault. rewrite in_space_test, bool_decide_true by done. simpl.
  rewrite (find_area s a v), Hc, Hb by done. cbn [negb]. unfold AddrSpace.on_pt.
  destruct (alloc_frame h) as [[f|] h'].
  - destruct Hspec as (p' & Hrun & Hroot & Hf & He' & Hs).
    { exists e. by rewrite pt_entry_page. }
    exists p'. rewrite Hrun. simpl. split; [done|]. split; [|done].
    split; [done|]. split; [done|]. split; [done|]. simpl.
    rewrite Forall_forall in *. intros b Hb' q Hq Hqa.
    destruct (decide (q = page_of v)) as [->|Hne].
    + assert (b = a) as ->.
      { assert (area_contains a (page_of v)) as Hap
          by (eapply area_contains_page; [by apply Hok|done]).
        pose proof (find_area s a _ Hwf Ha Hap). pose proof (find_area s b _ Hwf Hb' Hq). congruence. }
      exists (pte_new_page f (area_flags a) false). rewrite pt_entry_page. split; [done|].
      rewrite Hb. simpl. eauto.
    + destruct (Hbk b Hb' q Hq Hqa) as (e1 & He1 & Hpe1). exists e1. split; [|done].
      rewrite Hs; [done|by eapply area_va_ok; [| |done]; [done|apply Hok]|].
      apply not_elem_of_single. by rewrite (page_of_aligned q).
  - rewrite Hspec by (exists e; by rewrite pt_entry_page). by destruct s.
Qed.

Lemma fault_cases s v access :
  wf s -> (exists a, lazy_fault s v access a) \/ forall a, ~ lazy_fault s v access a.
Proof.
  intros Hwf. destruct (ms_find (areas s) v) as [a|] eqn:Hf.
  - pose proof Hf as Hf'. apply ms_find_Some in Hf' as [Ha Hv].
    destruct (decide (bf_contains (area_flags a) access = true /\ area_backend a = Alloc false))
      as [[]|Hn]; [left; by exists a|].
    right. intros b (Hb & Hbv & Hc & Hk). apply Hn.
    rewrite (find_area s b v Hwf Hb Hbv) in Hf. by injection Hf as ->.
  - right. intros b (Hb & Hbv & _). by rewrite (find_area s b v Hwf Hb Hbv) in Hf.
Qed.

(** ** A new address space *)

Lemma new_empty_spec h base size :
  usize base -> usize size ->
  if base + size <? u64_modulus then
    match alloc_frame h with
    | (None, h') => AddrSpace.new_empty base size h = Done (Err NoMemory, h')
    | (Some f, h') => exists s,
        AddrSpace.new_empty base size h = Done (Ok s, h') /\
        va_range s = mkRange base (base + size) /\ ms_iter (areas s) = [] /\
        AddrSpace.page_table_root s = f /\
        (base + size <= va_limit -> wf s) /\ (forall v, va_ok v -> present (pt s) v = false)
    end
  else AddrSpace.new_empty base size h = Panic.
Proof.
  intros Hb Hs. unfold AddrSpace.new_empty, mbind, M_bind, lift.
  rewrite from_start_size_spec by done. case_match eqn:Hf; [|done]. zbool.
  pose proof (pt_try_new_spec h) as Hn. destruct (alloc_frame h) as [[f|] h'].
  - destruct Hn as (p & Hn & Hroot & Hvac). rewrite Hn.
    eexists. split; [done|]. split; [done|]. split; [apply ms_new_spec|]. split; [done|].
    unfold usize in *. split.
    + intros Hl. split; [unfold range_ok; simpl; lia|]. simpl. rewrite ms_new_spec. by repeat split.
    + intros v Hv. specialize (Hvac v Hv). unfold vacant, present in *.
      destruct (pt_entry _ v) as [[e []]|]; [by apply unused_not_present|done..].
  - by rewrite Hn.
Qed.

(** ** Translations of the areas *)

(** Nothing is mapped outside the areas. *)
Definition tight s : Prop :=
  forall v, in_space s v -> present (pt s) v = true ->
    exists a, a ∈ ms_iter (areas s) /\ area_contains a v.

Lemma tight_translate s v :
  wf s -> tight s -> (forall a, a ∈ ms_iter (areas s) -> ~ area_contains a v) ->
  AddrSpace.translate s v = Done None.
Proof.
  intros Hwf Ht Hno. destruct (decide (in_space s v)) as [Hv|Hv]; [|by apply translate_outside].
  apply translate_absent; [done|]. destruct (present (pt s) v) eqn:Hp; [|done].
  destruct (Ht v Hv Hp) as (a & Ha & Hav). by destruct (Hno a Ha).
Qed.

(** Adding an area, seen through translations. *)
Lemma map_area_translate s h a :
  wf s -> 0 <= area_size a -> area_start a mod PAGE_SIZE = 0 ->
  area_size a mod PAGE_SIZE = 0 ->
  range_start (va_range s) <= area_start a -> area_end a <= range_end (va_range s) ->
  backend_ok (area_backend a) (area_start a) -> flags_ok (area_backend a) (area_flags a) ->
  exists res s' h',
    AddrSpace.on_areas (ms_map a false) (s, h) = Done (res, (s', h')) /\
    wf s' /\ va_range s' = va_range s /\
    AddrSpace.page_table_root s' = AddrSpace.page_table_root s /\
    (exists fs, allocs h fs h') /\
    (forall v, ~ area_contains a v -> AddrSpace.translate s' v = AddrSpace.translate s v) /\
    (res <> Err MsBadState -> tight s -> tight s') /\
    map_reply a res s h s' h'.
Proof.
  intros Hwf Hsz Has Hss Hlo Hhi Hb Hf.
  destruct (map_area_spec s h a) as (res & s' & h' & Hrun & Hwf' & Hr & Hroot & Hfs & Hg & Hcase);
    [done..|].
  exists res, s', h'. do 5 (split; [done|]). split; [|split].
  - intros v Hv. apply translate_grows; [done..|]. intros Hin. apply Hg; [|done].
    by apply (in_space_va_ok s).
  - intros Hnb Ht. destruct res as [[]|[]]; [|by destruct Hcase as (_ & -> & _)|
      by destruct Hcase as (_ & _ & -> & _)|done].
    destruct Hcase as (_ & _ & Hit & _). intros v Hv Hp. setoid_rewrite Hit.
    unfold in_space in Hv. rewrite Hr in Hv.
    destruct (decide (area_start a <= v < area_end a)) as [Hav|Hav]; [exists a; by split; [left|]|].
    destruct (Ht v Hv) as (b & Hb' & Hbv); [|exists b; by split; [right|]].
    destruct (Hg v (in_space_va_ok s v Hwf Hv) Hav) as [He|(He & e & He' & Hu)].
    + unfold present in *. by rewrite He in Hp.
    + unfold present in Hp. rewrite He', (unused_not_present e Hu) in Hp. done.
  - done.
Qed.

(** The host address a linear area gives to [v]. *)
Definition linear_target (off v : Z) : Z := wrap64 (page_of v - off) + v mod PAGE_SIZE.

Lemma linear_target_spec va pa size v :
  usize va -> usize pa -> va mod PAGE_SIZE = 0 -> pa mod PAGE_SIZE = 0 ->
  size mod PAGE_SIZE = 0 -> pa + size <= u64_modulus -> va <= v < va + size ->
  linear_target (wrap64 (va - pa)) v = pa + (v - va) /\
  wrap64 (page_of v - wrap64 (va - pa)) = pa + (page_of v - va) /\
  va <= page_of v < va + size.
Proof.
  unfold linear_target, usize. intros Hva Hpa Hv Hp Hs Hl Hr.
  assert (va <= page_of v < va + size) as Hpv by zpage.
  assert (wrap64 (page_of v - wrap64 (va - pa)) = pa + (page_of v - va)) as E.
  { unfold wrap64. rewrite Zminus_mod_idemp_r.
    replace (page_of v - (va - pa)) with (pa + (page_of v - va)) by lia.
    apply Z.mod_small. lia. }
  split; [rewrite E; unfold page_of; lia|]. split; done.
Qed.

Lemma translate_linear_page s va pa size fl v :
  wf s -> usize va -> usize pa -> va mod PAGE_SIZE = 0 -> pa mod PAGE_SIZE = 0 ->
  size mod PAGE_SIZE = 0 -> pa + size <= pa_limit -> mapping_flags fl -> flags_readable fl ->
  in_space s v -> va <= v < va + size ->
  backed (Linear (wrap64 (va - pa))) fl (pt s) (page_of v) ->
  AddrSpace.translate s v = Done (Some (pa + (v - va))).
Proof.
  intros Hwf Hva Hpa Hvm Hpm Hsm Hlim Hm Hrd Hin Hv (e & He & Hpe). simpl in Hpe. subst e.
  pose proof pa_limit_bound as Hpl. rewrite pt_entry_page in He.
  destruct (linear_target_spec va pa size v) as (Ht & Hw & Hpv); [done..|lia|done|].
  rewrite (translate_new_page s v (wrap64 (page_of v - wrap64 (va - pa))) fl);
    [by rewrite <- Ht|done|done| |done|done|done].
  unfold usize in *. rewrite Hw. split; zpage.
Qed.

Lemma translate_linear_area s va pa size fl v :
  wf s -> usize va -> usize pa -> pa mod PAGE_SIZE = 0 -> pa + size <= pa_limit ->
  mapping_flags fl -> flags_readable fl ->
  mkArea va size fl (Linear (wrap64 (va - pa))) ∈ ms_iter (areas s) ->
  va <= v < va + size -> AddrSpace.translate s v = Done (Some (pa + (v - va))).
Proof.
  intros Hwf Hva Hpa Hpm Hlim Hm Hrd Ha Hv.
  pose proof (wf_area_ok _ _ Hwf Ha) as (_ & Has & Hss & _). simpl in Has, Hss.
  destruct (wf_entry s _ v Hwf Ha Hv) as (e & He & Hpe).
  apply (translate_linear_page s va pa size fl v); [done..| |done|].
  - by apply (area_in_space s _ v Hwf Ha).
  - exists e. by rewrite pt_entry_page.
Qed.

Lemma translate_populated_area s a :
  wf s -> a ∈ ms_iter (areas s) -> area_backend a = Alloc true ->
  mapping_flags (area_flags a) -> flags_readable (area_flags a) ->
  forall q, area_contains a q -> exists f, frame_ok f /\
    forall v, page_of v = page_of q -> AddrSpace.translate s v = Done (Some (f + v mod PAGE_SIZE)).
Proof.
  intros Hwf Ha Hb Hm Hrd q Hq.
  destruct (wf_entry s a q Hwf Ha Hq) as (e & He & Hpe). rewrite Hb in Hpe.
  destruct Hpe as (f & Hf & ->). exists f. split; [done|]. intros v Hv.
  assert (area_contains a v) as Hav.
  { pose proof (wf_area_ok _ _ Hwf Ha) as (_ & Has & Hss & _).
    unfold area_contains, area_end in *. zpage. }
  apply (translate_new_page s v f (area_flags a)); [done|by apply (area_in_space s a)|done..|].
  rewrite <- pt_entry_page, Hv, pt_entry_page. done.
Qed.
End spec.
