(* ===== verification/AddrSpaceRun.v ===== *)
(** The public operations of the address space on every branch, seen through
    the translation of guest addresses: the lemmas that the properties and the
    refinement share. *)
From S2P Require Import Prelude Crates PageTable Backend AddrSpace AddrSpaceInv AddrSpaceSpec.
Import BackendOps(region_ok, backend_ok, flags_ok, backed, frame_at, frames_at, dealloc_all,
  mapping_flags, frame_ok).
Import AddrSpace(va_range, areas, pt).
Local Open Scope Z_scope.

Section run.
Context {BP : BuildProfile} `{BF : Bitflags} `{MA : MemoryAddr} `{MAL : !MemoryAddrLaws}.
Context `{PH : PagingHandler} `{PT : !PageTable64} `{PV : !PageTableView}.
Context `{PTE : GenericPTE} `{MD : PagingMetaData}.
Context `{PTEL : !GenericPTELaws} `{PTL : !PageTableLaws} `{PHL : !PagingHandlerLaws}.
Context `{MS : !MemorySetOps world Backend} `{MSL : !MemorySetLaws world Backend}.
Implicit Types (h : hal) (a b : MemoryArea Backend) (s : AddrSpace.AddrSpace).

(** What a call that adds the area [a] may do: the answer follows from the
    request, whose guards are [ok], and from the areas there are; what is
    outside [a] translates as before; a refused call changes nothing, apart
    from a backend that gave up half way ([BadState]), which has mapped a part
    of [a] from its start on. *)
Definition map_effect (ok : bool) a (res : AxResult unit) s h s' h' : Prop :=
  wf s' /\ va_range s' = va_range s /\
  AddrSpace.page_table_root s' = AddrSpace.page_table_root s /\
  (exists fs, allocs h fs h') /\
  (forall v, ~ area_contains a v -> AddrSpace.translate s' v = AddrSpace.translate s v) /\
  (res <> Err BadState -> tight s -> tight s') /\
  match res with
  | Ok _ => ok = true /\ 0 < area_size a /\
      ~ Exists (areas_overlap a) (ms_iter (areas s)) /\
      ms_iter (areas s') ≡ₚ a :: ms_iter (areas s) /\
      forall v, area_contains a v -> vacant (pt s) v
  | Err InvalidInput => (ok = false \/ area_size a = 0) /\ s' = s /\ h' = h
  | Err AlreadyExists => ok = true /\ 0 < area_size a /\
      Exists (areas_overlap a) (ms_iter (areas s)) /\ s' = s /\ h' = h
  | Err BadState => ok = true /\ 0 < area_size a /\
      ~ Exists (areas_overlap a) (ms_iter (areas s)) /\ areas s' = areas s /\
      exists kept, BackendOps.stopped (area_backend a) (area_flags a) (area_start a)
        (area_size a) h (pt s) (pt s') kept
  | Err NoMemory => False
  end.

(** Consequences used by all clients. *)
Lemma effect_refused ok a e s h s' h' :
  map_effect ok a (Err e) s h s' h' -> e <> BadState -> s' = s /\ h' = h.
Proof. intros (_ & _ & _ & _ & _ & _ & Hc). destruct e; tauto. Qed.

Lemma effect_added ok a u s h s' h' :
  map_effect ok a (Ok u) s h s' h' -> wf s' /\ a ∈ ms_iter (areas s') /\ ok = true.
Proof.
  intros (? & _ & _ & _ & _ & _ & ? & _ & _ & Hit & _). split; [done|]. split; [|done].
  rewrite Hit. by left.
Qed.

Lemma effect_outside ok a res s h s' h' v :
  map_effect ok a res s h s' h' -> ~ area_contains a v ->
  AddrSpace.translate s' v = AddrSpace.translate s v.
Proof. intros (_ & _ & _ & _ & Ht & _). apply Ht. Qed.

Lemma effect_errors ok a res s h s' h' :
  map_effect ok a res s h s' h' ->
  let bad := ok = false \/ area_size a = 0 in
  let overlap := exists b, b ∈ ms_iter (areas s) /\
    area_start a < area_end b /\ area_start b < area_end a in
  let occupied := exists v, area_start a <= v < area_end a /\ ~ vacant (pt s) v in
  (res = Err InvalidInput <-> bad) /\ (res = Err AlreadyExists <-> ~ bad /\ overlap) /\
  (res = Err BadState ->
     (forall v, area_start a <= v < area_end a -> vacant (pt s) v) -> exhausted h) /\
  (~ bad -> ~ overlap -> occupied -> res = Err BadState) /\
  res <> Err NoMemory.
Proof.
  intros (_ & _ & _ & _ & _ & _ & Hc) bad overlap occupied.
  assert (overlap <-> Exists (areas_overlap a) (ms_iter (areas s))) as Ho
    by by rewrite Exists_exists.
  rewrite Ho. unfold bad. split; [|split; [|split; [|split]]].
  - destruct res as [u|[]]; destruct ok; intuition (congruence || lia).
  - destruct res as [u|[]]; destruct ok; intuition (congruence || lia).
  - intros ->. by destruct Hc as (_ & _ & _ & _ & kept & _ & _ & _ & _ & Hex).
  - intros Hb Hno (v & Hv & Hnv). destruct res as [u|[]]; [|tauto..|done].
    destruct Hc as (_ & _ & _ & _ & Hvac). by destruct Hnv; apply Hvac.
  - by intros ->.
Qed.

Lemma effect_stopped ok a s h s' h' :
  map_effect ok a (Err BadState) s h s' h' ->
  ok = true /\ areas s' = areas s /\
  (forall v b, area_contains a v -> b ∈ ms_iter (areas s') -> ~ area_contains b v) /\
  exists kept, BackendOps.stopped (area_backend a) (area_flags a) (area_start a)
    (area_size a) h (pt s) (pt s') kept.
Proof.
  intros (_ & _ & _ & _ & _ & _ & Hok & _ & Hno & Har & Hkept).
  split; [done|]. split; [done|]. split; [|done]. intros v b Hv Hb Hbv. rewrite Har in Hb.
  apply Hno, Exists_exists. exists b. split; [done|].
  unfold areas_overlap, area_contains in *. lia.
Qed.

Lemma refused_effect a s h : wf s -> map_effect false a (Err InvalidInput) s h s h.
Proof.
  intros Hwf. do 3 (split; [done|]). split; [exists []; constructor|].
  split; [done|]. split; [done|]. by split; [left|].
Qed.

Lemma map_area_effect s h a :
  wf s -> 0 <= area_size a -> area_start a mod PAGE_SIZE = 0 ->
  area_size a mod PAGE_SIZE = 0 ->
  range_start (va_range s) <= area_start a -> area_end a <= range_end (va_range s) ->
  backend_ok (area_backend a) (area_start a) -> flags_ok (area_backend a) (area_flags a) ->
  exists res s' h',
    (r ← AddrSpace.on_areas (ms_map a false); mret (map_err mapping_err_to_ax_err r)) (s, h)
      = Done (res, (s', h')) /\ map_effect true a res s h s' h'.
Proof.
  intros Hwf Hsz Has Hss Hlo Hhi Hb Hf.
  destruct (map_area_translate s h a)
    as (res & s' & h' & Hrun & Hwf' & Hr & Hroot & Hfs & Ht & Htt & Hcase); [done..|].
  exists (map_err mapping_err_to_ax_err res), s', h'.
  unfold mbind, M_bind. rewrite Hrun. split; [done|].
  do 5 (split; [done|]). destruct res as [[]|[]]; simpl in *; (split; [intros; by apply Htt|]); auto;
    tauto.
Qed.

Definition linear_area (va pa size : Z) (fl : MappingFlags) : MemoryArea Backend :=
  mkArea va size fl (Linear (wrap64 (va - pa))).

Lemma map_linear_run s h va pa size fl :
  wf s -> fits va size -> usize pa -> mapping_flags fl ->
  overflow_checks = false \/ pa <= va ->
  exists res s' h',
    AddrSpace.map_linear va pa size fl (s, h) = Done (res, (s', h')) /\
    map_effect (linear_request_ok s va pa size) (linear_area va pa size fl) res s h s' h'.
Proof.
  intros Hwf Hfit Hpa Hm Hc. rewrite map_linear_unfold by done.
  destruct (linear_request_ok s va pa size) eqn:Hok.
  2:{ exists (Err InvalidInput), s, h. split; [done|]. by apply refused_effect. }
  unfold linear_request_ok, in_range, aligned in Hok. zbool.
  pose proof Hfit as (Hva & Hsz & Hend).
  destruct (linear_offset_ok va pa) as [Hoff Hback]; [done..|]. rewrite Hoff.
  apply (map_area_effect s h (linear_area va pa size fl)); [done|area_side..].
Qed.

Lemma map_alloc_run s h start size fl pop :
  wf s -> fits start size ->
  exists res s' h',
    AddrSpace.map_alloc start size fl pop (s, h) = Done (res, (s', h')) /\
    map_effect (alloc_request_ok s start size) (mkArea start size fl (Alloc pop)) res s h s' h'.
Proof.
  intros Hwf Hfit. rewrite map_alloc_unfold by done.
  destruct (alloc_request_ok s start size) eqn:Hok.
  2:{ exists (Err InvalidInput), s, h. split; [done|]. by apply refused_effect. }
  unfold alloc_request_ok, in_range, aligned in Hok. zbool.
  pose proof Hfit as (Hva & Hsz & Hend).
  apply (map_area_effect s h (mkArea start size fl (Alloc pop))); [done|area_side..].
Qed.

(** The pages of a lazy area, before any of them faults. *)
Lemma lazy_area_unmapped s h start size fl s' h' :
  wf s -> fits start size ->
  AddrSpace.map_alloc start size fl false (s, h) = Done (Ok tt, (s', h')) ->
  forall v, start <= v < start + size -> AddrSpace.translate s' v = Done None.
Proof.
  intros Hwf Hfit Hrun v Hv. rewrite map_alloc_unfold in Hrun by done.
  destruct (alloc_request_ok s start size) eqn:Hok; [|done].
  unfold alloc_request_ok, in_range, aligned in Hok. zbool.
  pose proof Hfit as (Hva & Hsz & Hend).
  apply M_bind_inv in Hrun as (res & [s1 h1] & Hma & Hret).
  unfold mret, M_ret in Hret. injection Hret as Hres -> ->.
  destruct res as [[]|]; [|done].
  set (a := mkArea start size fl (Alloc false)) in *. unfold usize in Hsz.
  destruct (map_area_cases s h a) as (Hempty & Hover & Hfresh); [simpl; lia|].
  destruct (decide (size = 0)) as [->|Hnz]; [lia|].
  destruct (decide (Exists (areas_overlap a) (ms_iter (areas s)))) as [Ho|Ho].
  { by rewrite Hover in Hma by (done || (simpl; lia)). }
  specialize (Hfresh ltac:(simpl; lia) Ho).
  assert (region_ok start size) as Hreg.
  { destruct Hwf as [(? & ? & ?) _]. unfold region_ok. repeat split; (done || lia). }
  destruct (BackendOps.lazy_map_spec start size fl h (pt s) Hreg)
    as (ok & h2 & p2 & Hm2 & Hent).
  change (BackendOps.map (area_backend a) (area_start a) (area_size a) (area_flags a) (h, pt s))
    with (BackendOps.map (Alloc false) start size fl (h, pt s)) in Hfresh. rewrite Hm2 in Hfresh.
  destruct ok; [destruct Hfresh as (ars & Hms & _)|by rewrite Hfresh in Hma].
  rewrite Hms in Hma. injection Hma as <- <-.
  assert (in_space s v) as Hin by (unfold in_space; lia).
  pose proof (in_space_va_ok s v Hwf Hin) as Hvo.
  unfold AddrSpace.translate. simpl.
  rewrite in_space_test, bool_decide_true by done. simpl.
  rewrite pt_query_spec by exact Hvo. rewrite <- pt_entry_page, Hent.
  - by rewrite pte_empty_not_present.
  - done.
  - apply page_of_elem_of_pages; (done || lia).
Qed.
(** ** Unmapping *)

(** What is left of the areas when a range is taken out, and the frames that
    go back to the allocator. *)
Definition areas_without s (start size : Z) : list (MemoryArea Backend) :=
  ms_iter (areas s) ≫= fun a => area_rest a start (start + size).

Definition areas_within s (start size : Z) : list (MemoryArea Backend) :=
  ms_iter (areas s) ≫= fun a => area_cut a start (start + size).

Lemma entry_translate s s' v :
  wf s -> wf s' -> va_range s' = va_range s ->
  (va_ok v -> pt_entry (pt s') v = pt_entry (pt s) v) ->
  AddrSpace.translate s' v = AddrSpace.translate s v.
Proof.
  intros Hwf Hwf' Hr He. apply translate_grows; [done..|]. intros Hin. left.
  apply He. by apply (in_space_va_ok s).
Qed.

Lemma unmap_run s h start size :
  wf s -> fits start size -> alloc_request_ok s start size = true ->
  exists s' cut,
    AddrSpace.unmap start size (s, h)
      = Done (Ok tt, (s', dealloc_all (cut ≫= area_frames (pt s)) h)) /\
    cut ≡ₚ areas_within s start size /\
    wf s' /\ va_range s' = va_range s /\
    AddrSpace.page_table_root s' = AddrSpace.page_table_root s /\
    ms_iter (areas s') ≡ₚ areas_without s start size /\
    (forall v, ~ start <= v < start + size ->
       AddrSpace.translate s' v = AddrSpace.translate s v) /\
    (forall a v, a ∈ ms_iter (areas s) -> area_contains a v -> start <= v < start + size ->
       AddrSpace.translate s' v = Done None) /\
    (tight s -> tight s').
Proof.
  intros Hwf Hfit Hok. rewrite unmap_unfold, Hok by done.
  unfold alloc_request_ok, in_range, aligned in Hok. zbool.
  pose proof Hfit as (Hva & Hsz & Hend). unfold usize in *.
  destruct (remove_range_spec s h start size)
    as (s' & h' & cut & Hrun & Hwf' & Hr & Hroot & Hit & Hcut & Hh & Hp & He);
    [done|done|done|lia|lia|done|].
  exists s', cut. unfold mbind, M_bind at 1. rewrite Hrun, Hh. do 5 (split; [done|]).
  split; [done|]. split; [|split].
  - intros v Hv. apply entry_translate; [done..|]. intros Hvo. apply He; [done|]. by intros.
  - intros a v Ha Hav Hv. apply translate_absent; [done|]. by eapply Hp.
  - intros Ht v Hv Hpr. unfold in_space in Hv. rewrite Hr in Hv. setoid_rewrite Hit.
    destruct (decide (present (pt s) v = true)) as [Hps|Hps].
    + destruct (Ht v Hv Hps) as (a & Ha & Hav).
      destruct (decide (start <= v < start + size)) as [Hin|Hout].
      { by rewrite (Hp a v Ha Hav Hin) in Hpr. }
      destruct (proj2 (area_rest_contains a start (start + size) v ltac:(lia))) as (b & Hb & Hbv);
        [done|]. exists b. split; [|done]. apply list_elem_of_bind. eauto.
    + destruct Hps. destruct (present (pt s) v) eqn:E; [done|].
      rewrite <- Hpr. symmetry. unfold present. rewrite He; [done|by apply (in_space_va_ok s)|].
      intros a Ha Hav Hin. by rewrite (Hp a v Ha Hav Hin) in Hpr.
Qed.

Lemma clear_run s h :
  wf s ->
  exists s' l,
    AddrSpace.clear (s, h) = Done (tt, (s', dealloc_all (l ≫= area_frames (pt s)) h)) /\
    l ≡ₚ ms_iter (areas s) /\ wf s' /\ va_range s' = va_range s /\
    AddrSpace.page_table_root s' = AddrSpace.page_table_root s /\
    ms_iter (areas s') = [] /\
    (forall v, (forall a, a ∈ ms_iter (areas s) -> ~ area_contains a v) ->
       AddrSpace.translate s' v = AddrSpace.translate s v) /\
    (forall a v, a ∈ ms_iter (areas s) -> area_contains a v ->
       AddrSpace.translate s' v = Done None) /\
    (tight s -> tight s').
Proof.
  intros Hwf. destruct (clear_spec s h Hwf)
    as (s' & l & Hrun & Hwf' & Hr & Hroot & Hit & Hl & Hp & He).
  exists s', l. do 6 (split; [done|]). split; [|split].
  - intros v Hv. by apply entry_translate; auto.
  - intros a v Ha Hav. apply translate_absent; [done|]. by eapply Hp.
  - intros Ht v Hv Hpr. exfalso. unfold in_space in Hv. rewrite Hr in Hv.
    destruct (present (pt s) v) eqn:Hps.
    + destruct (Ht v Hv Hps) as (a & Ha & Hav). by rewrite (Hp a v Ha Hav) in Hpr.
    + assert (present (pt s') v = present (pt s) v) as E; [|congruence].
      unfold present. rewrite He; [done|by apply (in_space_va_ok s)|].
      intros a Ha Hav. by rewrite (Hp a v Ha Hav) in Hpr.
Qed.

(** ** Page faults *)

Lemma fault_run s h v access a :
  wf s -> lazy_fault s v access a ->
  match alloc_frame h with
  | (None, h') => AddrSpace.handle_page_fault v access (s, h) = Done (false, (s, h'))
  | (Some f, h') => exists s',
      AddrSpace.handle_page_fault v access (s, h) = Done (true, (s', h')) /\
      wf s' /\ va_range s' = va_range s /\ areas s' = areas s /\
      AddrSpace.page_table_root s' = AddrSpace.page_table_root s /\ frame_ok f /\
      pt_entry (pt s') v = Some (pte_new_page f (area_flags a) false, Size4K) /\
      (mapping_flags (area_flags a) -> flags_readable (area_flags a) ->
       forall w, page_of w = page_of v ->
         AddrSpace.translate s' w = Done (Some (f + w mod PAGE_SIZE))) /\
      (forall w, page_of w <> page_of v ->
         AddrSpace.translate s' w = AddrSpace.translate s w) /\
      (tight s -> tight s')
  end.
Proof.
  intros Hwf Hlf. pose proof (fault_served s h v access a Hwf Hlf) as Hs.
  pose proof Hlf as (Ha & Hav & _ & _).
  destruct (alloc_frame h) as [[f|] h']; [|done].
  destruct Hs as (p' & Hrun & Hwf' & Hroot & Hf & He & Hso).
  assert (forall w, page_of w = page_of v -> area_contains a w) as Hpw.
  { pose proof (wf_area_ok _ _ Hwf Ha) as (_ & Has & Hss & _).
    unfold area_contains, area_end in *. zpage. }
  eexists. split; [exact Hrun|]. do 6 (split; [done|]). split; [|split].
  - intros Hm Hrd w Hw. apply (translate_new_page _ w f (area_flags a)); [done| |done..|].
    + by apply (area_in_space s a w); [| |apply Hpw].
    + simpl. by rewrite <- pt_entry_page, Hw, pt_entry_page.
  - intros w Hw. apply entry_translate; [done..|]. intros Hwo. simpl. apply Hso; [done|].
    by apply not_elem_of_single.
  - intros Ht w Hw Hp. simpl in *. destruct (decide (page_of w = page_of v)) as [E|E].
    + exists a. split; [done|]. by apply Hpw.
    + apply Ht; [done|]. unfold present in *. rewrite Hso in Hp; [done| |].
      * by apply (in_space_va_ok s).
      * by apply not_elem_of_single.
Qed.
End run.
