(* ===== verification/Demo.v ===== *)
(** A concrete instance of everything: the extended page table of x86_64 on
    the reference crates and the simulated platform, with the address spaces
    the witnesses use. *)
From S2P Require Import Prelude Crates RefCrates Ept Memory Frame MockHal PageTable.
From S2P Require Import Backend AddrSpace AddrSpaceInv AddrSpaceSpec.
Import EPTEntry.
Local Open Scope Z_scope.

Section demo.
#[local] Existing Instances release_build demo_env.

#[export] Instance demo_hal_laws : PagingHandlerLaws.
Proof. apply MockHal_laws. done. Defined.

Definition demo_flags : MappingFlags := Z.lor READ WRITE.

(** [AddrSpace::new_empty(0x10000, 0x10000)]. *)
Definition demo_new : outcome (AxResult AddrSpace.AddrSpace * hal) :=
  AddrSpace.new_empty 0x10000 0x10000 (demo_hal : hal).

Definition demo_as : AddrSpace.AddrSpace * hal :=
  match demo_new with
  | Done (Ok s, h) => (s, h)
  | _ => (AddrSpace.mkAddrSpace (mkRange 0 0) ms_new (mkRefPT 0 ∅ ∅ []), demo_hal : hal)
  end.

(** The state after a run. *)
Definition after {A} (o : outcome (A * (AddrSpace.AddrSpace * hal))) : AddrSpace.AddrSpace * hal :=
  match o with Done (_, sh) => sh | _ => demo_as end.

Definition succeeds (o : outcome (AxResult unit * (AddrSpace.AddrSpace * hal))) : bool :=
  match o with Done (Ok _, _) => true | _ => false end.

Lemma after_ok o : succeeds o = true -> o = Done (Ok tt, after o).
Proof. by destruct o as [[[[]|] ?]| | |]. Defined.

Lemma demo_new_run :
  AddrSpace.new_empty 0x10000 0x10000 (demo_hal : hal) = Done (Ok demo_as.1, demo_as.2).
Proof.
  pose proof (new_empty_spec (demo_hal : hal) 0x10000 0x10000) as Hn.
  destruct Hn as (s & Hs & _); [done|done|].
  unfold demo_as, demo_new. by rewrite Hs.
Defined.

Lemma demo_as_wf : wf demo_as.1.
Proof.
  pose proof (new_empty_spec (demo_hal : hal) 0x10000 0x10000) as Hn.
  destruct Hn as (s & Hs & _ & _ & _ & Hwf & _); [done|done|].
  replace demo_as.1 with s; [by apply Hwf|].
  unfold demo_as, demo_new. by rewrite Hs.
Defined.

Lemma demo_flags_ok : BackendOps.mapping_flags demo_flags.
Proof. reflexivity. Defined.

Lemma demo_flags_readable : flags_readable demo_flags.
Proof. intros pa. eexists. reflexivity. Defined.
End demo.
