(* ===== verification/BackendProps.v ===== *)
(** Properties of the mapping backends, with witnesses on the simulated
    platform. *)
From S2P Require Import Prelude Crates RefCrates Ept Memory Frame MockHal PageTable.
From S2P Require Import Backend AddrSpace AddrSpaceInv AddrSpaceSpec Demo.
Import BackendOps(region_ok, backend_ok, flags_ok, backed, frame_at, frames_at, dealloc_all,
  mapping_flags, frame_ok).
Local Open Scope Z_scope.

Section props.
Context {BP : BuildProfile} `{MA : MemoryAddr} `{MAL : !MemoryAddrLaws}.
Context `{PH : PagingHandler} `{PT : !PageTable64} `{PV : !PageTableView}.
Context `{PTE : GenericPTE} `{MD : PagingMetaData}.
Context `{PTEL : !GenericPTELaws} `{PTL : !PageTableLaws} `{PHL : !PagingHandlerLaws}.
Implicit Types (p : PageTable) (h : hal) (b : Backend).

(** C17. [map] by a backend and then [unmap] of the same region by a clone of
    it (the memory set clones the backend of an area it splits), when [map]
    reports success: [unmap] succeeds, nothing of the region is mapped
    any more, pages outside have the entries they had (or fresh unused ones),
    and an allocating backend gives back the frames that are mapped, once
    each and in the order of their pages, a linear one nothing. *)
Theorem map_unmap_roundtrip b start size fl h p h1 p1 :
  region_ok start size -> backend_ok b start -> flags_ok b fl ->
  BackendOps.map b start size fl (h, p) = Done (true, (h1, p1)) ->
  exists p2,
    BackendOps.unmap (BackendOps.clone b) start size (h1, p1) =
      Done (true, (dealloc_all (match b with
                                | Linear _ => []
                                | Alloc _ => frames_at p1 (pages start (page_count size))
                                end) h1, p2)) /\
    (forall v, start <= v < start + size -> present p2 v = false) /\
    (forall v, va_ok v -> ~ start <= v < start + size -> grows p p2 v).
Proof.
  intros Hr Hb Hf Hm.
  destruct (BackendOps.map_spec b start size fl h p Hr Hb)
    as (ok & h' & p' & Hm' & _ & _ & Hg & Hok).
  rewrite Hm in Hm'. injection Hm' as <- <- <-.
  destruct (BackendOps.unmap_spec b fl start size h1 p1 Hr Hf) as (p2 & Hu & _ & Hp & Hs).
  { intros q Hq. by apply (Hok eq_refl). }
  pose proof Hr as (Ha & Hsz & _ & Hn & _).
  exists p2. assert (BackendOps.clone b = b) as -> by by destruct b.
  split; [rewrite Hu; by destruct b|]. split.
  - intros v Hv. rewrite <- present_page. apply Hp. by apply page_of_elem_of_pages.
  - intros v Hv Hout. eapply grows_trans; [by apply Hg|]. left. apply Hs; [done|].
    by rewrite page_of_elem_of_pages.
Qed.

(** Setting the flags of a page's entry gives the entry the backend would have
    made with these flags. *)
Lemma new_page_reset pa fl fl' :
  pte_set_flags (pte_new_page pa fl false) fl' false = pte_new_page pa fl' false.
Proof.
  rewrite <- (pte_reset (pte_new_page pa fl false) pa fl false), pte_set_flags_again.
  apply pte_reset.
Qed.

(** A page that is backed and present has an entry with the flags of its area,
    and with other flags at the same host address it would still be backed. *)
Lemma backed_present b fl p q :
  backed b fl p q -> present p q = true ->
  exists pa, pt_entry p q = Some (pte_new_page pa fl false, Size4K) /\
    forall fl', BackendOps.page_entry b fl' q (pte_new_page pa fl' false).
Proof.
  intros (e & He & Hb) Hp. unfold present in Hp. rewrite He in Hp.
  destruct b as [off|[]]; simpl in Hb |- *.
  - subst e. eauto.
  - destruct Hb as (f & Hf & ->). eauto.
  - destruct Hb as [->|(f & Hf & ->)]; [by rewrite pte_empty_not_present in Hp|]. eauto 6.
Qed.

(** C24. [protect] of a region that a backend backs and whose pages are all
    present, to flags whose entries are present: it reports success, every
    page of the region is now backed with the new flags (as if it had been
    mapped with them) by the frame it had, and no other entry changes; a later
    [unmap] by a clone of the backend then succeeds, leaves nothing of the
    region mapped, changes no other entry, and gives back exactly the frames
    that were mapped before [protect], once each and in order (a linear
    backend none). *)
Theorem protect_keeps_backing b start size fl fl' h p :
  region_ok start size -> mapping_flags fl' ->
  (forall q, q ∈ pages start (page_count size) -> backed b fl p q /\ present p q = true) ->
  exists p' p'',
    BackendOps.protect b start size fl' (h, p) = Done (true, (h, p')) /\
    (forall q, q ∈ pages start (page_count size) ->
       backed b fl' p' q /\ present p' q = true /\ frame_at p' q = frame_at p q) /\
    (forall v, va_ok v -> ~ start <= v < start + size -> pt_entry p' v = pt_entry p v) /\
    BackendOps.unmap (BackendOps.clone b) start size (h, p') =
      Done (true, (dealloc_all (match b with
                                | Linear _ => []
                                | Alloc _ => frames_at p (pages start (page_count size))
                                end) h, p'')) /\
    (forall v, start <= v < start + size -> present p'' v = false) /\
    (forall v, va_ok v -> ~ start <= v < start + size -> pt_entry p'' v = pt_entry p v).
Proof.
  intros Hr Hfl Hall. pose proof Hr as (Ha & Hs & H0 & Hn & Hl & Hm).
  destruct (pt_protect_region_spec start size fl' true h p) as (p' & Hrun & _ & He); [done..| |].
  { intros q Hq. destruct (Hall q Hq) as [Hb Hp].
    destruct (backed_present _ _ _ _ Hb Hp) as (pa & Hpa & _). exists (pte_new_page pa fl false).
    unfold present in Hp. by rewrite Hpa in Hp. }
  assert (forall q, q ∈ pages start (page_count size) ->
    backed b fl' p' q /\ present p' q = true /\ frame_at p' q = frame_at p q) as Hnew.
  { intros q Hq. destruct (Hall q Hq) as [Hb Hp].
    destruct (backed_present _ _ _ _ Hb Hp) as (pa & Hpa & Hpe).
    destruct (BackendOps.region_elem _ _ _ Hr Hq) as [_ Hin].
    assert (pt_entry p' q = Some (pte_new_page pa fl' false, Size4K)) as Hq'.
    { rewrite He, decide_True, Hpa by lia. simpl. by rewrite new_page_reset. }
    assert (pte_is_present (pte_new_page pa fl' false) = true) as Hp' by by rewrite pte_present_flags.
    unfold present in Hp. rewrite Hpa in Hp.
    split; [by eexists|]. unfold present, BackendOps.frame_at. rewrite Hq', Hpa, Hp, Hp'.
    split; [done|]. f_equal. rewrite <- (new_page_reset pa fl fl'). apply pte_set_flags_paddr. }
  destruct (BackendOps.unmap_spec b fl' start size h p' Hr) as (p'' & Hu & _ & Hgone & Hsame).
  { by destruct b. }
  { intros q Hq. by apply Hnew. }
  exists p', p''. split; [unfold BackendOps.protect, mbind, M_bind; by rewrite Hrun|].
  split; [done|]. split; [intros v Hv Hout; by rewrite He, decide_False|].
  assert (frames_at p' (pages start (page_count size)) = frames_at p (pages start (page_count size)))
    as Hfr by (apply BackendOps.frames_at_same; intros q Hq; by apply Hnew).
  assert (BackendOps.clone b = b) as -> by by destruct b.
  split; [rewrite Hu, <- Hfr; by destruct b|]. split.
  - intros v Hv. rewrite <- present_page. apply Hgone. by apply page_of_elem_of_pages.
  - intros v Hv Hout. rewrite Hsame; [by rewrite He, decide_False|done|].
    by rewrite page_of_elem_of_pages.
Qed.
End props.

Section witnesses.
#[local] Existing Instances release_build demo_env.
Import EPTEntry.

Definition empty_table : RefPT := mkRefPT 0x1000 ∅ ∅ [].

Definition table_of (o : outcome (bool * (hal * RefPT))) : hal * RefPT :=
  match o with Done (_, w) => w | _ => (demo_hal, empty_table) end.

Definition map_ok (o : outcome (bool * (hal * RefPT))) : bool :=
  match o with Done (b, _) => b | _ => false end.

Definition two_pages : hal * RefPT :=
  table_of (BackendOps.map (Alloc true) 0x11000 0x2000 demo_flags (demo_hal, empty_table)).

Lemma two_pages_run :
  BackendOps.map (Alloc true) 0x11000 0x2000 demo_flags (demo_hal, empty_table) =
    Done (true, (two_pages.1, two_pages.2)).
Proof.
  assert (map_ok (BackendOps.map (Alloc true) 0x11000 0x2000 demo_flags (demo_hal, empty_table))
    = true) as Hok by (vm_compute; reflexivity).
  unfold two_pages. destruct (BackendOps.map _ _ _ _ _) as [[[] w]| | |]; try discriminate.
  by destruct w.
Defined.

Lemma map_unmap_roundtrip_witness :
  exists p2,
    BackendOps.unmap (BackendOps.clone (Alloc true)) 0x11000 0x2000 two_pages =
      Done (true, (dealloc_all [0x1000; 0x5000] two_pages.1, p2)) /\
    present p2 0x12345 = false.
Proof.
  destruct (map_unmap_roundtrip (PH:=MockHal_PagingHandler) (PT:=RefPageTable) (Alloc true) 0x11000 0x2000 demo_flags demo_hal empty_table
    two_pages.1 two_pages.2) as (p2 & Hu & Hp & _);
    [by repeat split|done|done|exact two_pages_run|].
  exists p2. rewrite <- surjective_pairing in Hu. split; [|apply Hp; lia].
  rewrite Hu.
  assert (frames_at two_pages.2 (pages 0x11000 (page_count 0x2000)) = [0x1000; 0x5000]) as ->
    by (vm_compute; reflexivity).
  reflexivity.
Defined.

Lemma protect_keeps_backing_witness :
  exists p' p'', BackendOps.protect (Alloc true) 0x11000 0x2000 READ two_pages =
      Done (true, (two_pages.1, p')) /\
    frame_at p' 0x12000 = Some 0x5000 /\
    BackendOps.unmap (Alloc true) 0x11000 0x2000 (two_pages.1, p') =
      Done (true, (dealloc_all [0x1000; 0x5000] two_pages.1, p'')).
Proof.
  destruct (protect_keeps_backing (PH:=MockHal_PagingHandler) (PT:=RefPageTable) (Alloc true)
    0x11000 0x2000 demo_flags READ two_pages.1 two_pages.2)
    as (p' & p'' & Hrun & Hnew & _ & Hu & _); [by repeat split|by vm_compute| |].
  { intros q. change (pages 0x11000 (page_count 0x2000)) with [0x11000; 0x12000].
    rewrite elem_of_cons, list_elem_of_singleton.
    intros [-> | ->]; (split; [|vm_compute; reflexivity]); eexists;
      (split; [vm_compute; reflexivity|]).
    - exists 0x1000. split; [by vm_compute|vm_compute; reflexivity].
    - exists 0x5000. split; [by vm_compute|vm_compute; reflexivity]. }
  rewrite <- surjective_pairing in Hrun. exists p', p''. split; [exact Hrun|]. split.
  - destruct (Hnew 0x12000) as (_ & _ & ->); [|vm_compute; reflexivity].
    change (pages 0x11000 (page_count 0x2000)) with [0x11000; 0x12000]. right. left.
  - assert (frames_at two_pages.2 (pages 0x11000 (page_count 0x2000)) = [0x1000; 0x5000]) as Hfr
      by (vm_compute; reflexivity).
    rewrite Hfr in Hu. exact Hu.
Defined.
End witnesses.
