(* ===== verification/AddrSpaceProps.v ===== *)
(** The properties of the address space's operations, each with a witness
    that runs it on the simulated platform. *)
From S2P Require Import Prelude Crates RefCrates Ept Memory Frame MockHal PageTable.
From S2P Require Import Backend AddrSpace AddrSpaceInv AddrSpaceSpec AddrSpaceRun Demo.
Import BackendOps(region_ok, backend_ok, flags_ok, backed, frame_at, frames_at, dealloc_all,
  mapping_flags, frame_ok).
Import AddrSpace(va_range, areas, pt).
Local Open Scope Z_scope.

Section props.
Context {BP : BuildProfile} `{BF : Bitflags} `{BFL : !BitflagsLaws}.
Context `{MA : MemoryAddr} `{MAL : !MemoryAddrLaws}.
Context `{PH : PagingHandler} `{PT : !PageTable64} `{PV : !PageTableView}.
Context `{PTE : GenericPTE} `{MD : PagingMetaData}.
Context `{PTEL : !GenericPTELaws} `{PTL : !PageTableLaws} `{PHL : !PagingHandlerLaws}.
Context `{MS : !MemorySetOps world Backend} `{MSL : !MemorySetLaws world Backend}.
Implicit Types (h : hal) (a b : MemoryArea Backend) (s : AddrSpace.AddrSpace).

(** C3. [map_linear], when it succeeds, makes exactly the requested linear
    mapping: every guest address of the region translates to the host address
    at the same distance from [start_paddr], and no other translation
    changes.  When it fails with [BadState], the backend gave up half way: no
    area was added, but the first [kept] bytes of the region are mapped as
    requested, and every other address translates as before.  After any other
    error nothing at all has changed.  It never panics on requests that do not
    overflow, and it preserves the invariant. *)
Theorem map_linear_correct s h va pa size fl :
  wf s -> fits va size -> usize pa -> pa + size <= pa_limit ->
  mapping_flags fl -> flags_readable fl -> overflow_checks = false \/ pa <= va ->
  exists res s' h',
    AddrSpace.map_linear va pa size fl (s, h) = Done (res, (s', h')) /\ wf s' /\
    (forall v, ~ va <= v < va + size -> AddrSpace.translate s' v = AddrSpace.translate s v) /\
    match res with
    | Ok _ => forall v, va <= v < va + size ->
        AddrSpace.translate s' v = Done (Some (pa + (v - va)))
    | Err BadState => areas s' = areas s /\ exists kept, 0 <= kept < size /\
        (forall v, va <= v < va + kept ->
           AddrSpace.translate s' v = Done (Some (pa + (v - va)))) /\
        (forall v, ~ va <= v < va + kept ->
           AddrSpace.translate s' v = AddrSpace.translate s v)
    | Err _ => s' = s /\ h' = h
    end.
Proof.
  intros Hwf Hfit Hpa Hlim Hm Hrd Hc. pose proof Hfit as (Hva & _).
  destruct (map_linear_run s h va pa size fl)
    as (res & s' & h' & Hrun & Heff); [done..|].
  exists res, s', h'. split; [done|]. split; [apply Heff|].
  split; [intros v; by apply (effect_outside _ _ _ _ _ _ _ v Heff)|].
  destruct res as [[]|[]]; [|by eapply effect_refused..|].
  - apply effect_added in Heff as (Hwf' & Ha & Hok). intros v Hv.
    unfold linear_request_ok, aligned in Hok. zbool. by eapply translate_linear_area.
  - pose proof Heff as (Hwf' & Hr & _).
    apply effect_stopped in Heff as (Hok & Har & _ & kept & Hk & Hkm & Hb & Hg & _).
    unfold linear_request_ok, in_range, aligned in Hok. zbool. simpl in Hk, Hb, Hg.
    split; [done|]. exists kept. split; [done|]. split.
    + intros v Hv. apply (translate_linear_page s' va pa size fl v); [done..| |lia|by apply Hb].
      unfold in_space. rewrite Hr. lia.
    + intros v Hv. apply translate_grows; [done..|]. intros Hin. apply Hg; [|done].
      by apply (in_space_va_ok s).
Qed.

(** C6. [map_alloc] with [populate], when it succeeds, backs every page of
    the region with a frame of its own: all addresses of a page translate
    into one aligned 4K frame below the physical address limit, at the same
    offset.  No other translation changes, and a refused request changes
    nothing unless the error is [BadState]. *)
Theorem map_alloc_populated_correct s h start size fl :
  wf s -> fits start size -> mapping_flags fl -> flags_readable fl ->
  exists res s' h',
    AddrSpace.map_alloc start size fl true (s, h) = Done (res, (s', h')) /\ wf s' /\
    (forall v, ~ start <= v < start + size ->
       AddrSpace.translate s' v = AddrSpace.translate s v) /\
    match res with
    | Ok _ => forall q, start <= q < start + size -> exists f, frame_ok f /\
        forall v, page_of v = page_of q ->
          AddrSpace.translate s' v = Done (Some (f + v mod PAGE_SIZE))
    | Err e => e <> BadState -> s' = s /\ h' = h
    end.
Proof.
  intros Hwf Hfit Hm Hrd. destruct (map_alloc_run s h start size fl true)
    as (res & s' & h' & Hrun & Heff); [done..|].
  exists res, s', h'. split; [done|]. split; [apply Heff|].
  split; [intros v; by apply (effect_outside _ _ _ _ _ _ _ v Heff)|].
  destruct res as [[]|e]; [|by eapply effect_refused].
  apply effect_added in Heff as (Hwf' & Ha & Hok).
  by apply (translate_populated_area s' (mkArea start size fl (Alloc true))).
Qed.

(** C12. [map_alloc] without [populate], when it succeeds, reserves the region
    without mapping anything: no address of it translates yet, and a page
    fault with an access the flags allow is for the lazy backend.  No other
    translation changes. *)
Theorem map_alloc_lazy_reserves s h start size fl :
  wf s -> fits start size ->
  exists res s' h',
    AddrSpace.map_alloc start size fl false (s, h) = Done (res, (s', h')) /\ wf s' /\
    (forall v, ~ start <= v < start + size ->
       AddrSpace.translate s' v = AddrSpace.translate s v) /\
    match res with
    | Ok _ => forall v, start <= v < start + size ->
        AddrSpace.translate s' v = Done None /\
        forall access, bf_contains fl access = true ->
          lazy_fault s' v access (mkArea start size fl (Alloc false))
    | Err e => e <> BadState -> s' = s /\ h' = h
    end.
Proof.
  intros Hwf Hfit. destruct (map_alloc_run s h start size fl false)
    as (res & s' & h' & Hrun & Heff); [done..|].
  exists res, s', h'. split; [done|]. split; [apply Heff|].
  split; [intros v; by apply (effect_outside _ _ _ _ _ _ _ v Heff)|].
  destruct res as [[]|e]; [|by eapply effect_refused].
  apply effect_added in Heff as (Hwf' & Ha & Hok). intros v Hv.
  split; [by apply (lazy_area_unmapped s h start size fl s' h')|]. intros access Hacc. by split.
Qed.

(** C5. A page fault in a lazy area, with an access the flags of the area
    allow: when the allocator has a frame, [handle_page_fault] returns [true]
    and the whole page, and no other address, now translates into that frame;
    when it has none, the answer is [false] and the address space is
    unchanged. *)
Theorem lazy_page_fault_correct s h v access a :
  wf s -> lazy_fault s v access a ->
  mapping_flags (area_flags a) -> flags_readable (area_flags a) ->
  match alloc_frame h with
  | (Some f, h') => exists s',
      AddrSpace.handle_page_fault v access (s, h) = Done (true, (s', h')) /\
      wf s' /\ frame_ok f /\ areas s' = areas s /\
      (forall w, page_of w = page_of v ->
         AddrSpace.translate s' w = Done (Some (f + w mod PAGE_SIZE))) /\
      (forall w, page_of w <> page_of v ->
         AddrSpace.translate s' w = AddrSpace.translate s w)
  | (None, h') => AddrSpace.handle_page_fault v access (s, h) = Done (false, (s, h'))
  end.
Proof.
  intros Hwf Hlf Hm Hrd. pose proof (fault_run s h v access a Hwf Hlf) as Hrun.
  destruct (alloc_frame h) as [[f|] h']; [|done].
  destruct Hrun as (s' & ? & ? & ? & ? & ? & ? & ? & Hin & Hout & _).
  exists s'. auto 10.
Qed.

(** C13. Every other page fault is refused without any effect: outside the
    address space, outside the areas, in a linear or populated area, or with
    an access that the flags of the area do not allow. *)
Theorem page_fault_refused s h v access :
  wf s ->
  ~ in_space s v \/
  (forall a, a ∈ ms_iter (areas s) -> ~ area_contains a v) \/
  (exists a, a ∈ ms_iter (areas s) /\ area_contains a v /\
     (bf_contains (area_flags a) access = false \/ area_backend a <> Alloc false)) ->
  AddrSpace.handle_page_fault v access (s, h) = Done (false, (s, h)).
Proof.
  intros Hwf Hcase. apply fault_refused; [done|]. intros b (Hb & Hbv & Hbf & Hbb).
  destruct Hcase as [Hn|[Hn|(a & Ha & Hav & Hca)]].
  - apply Hn. by apply (area_in_space s b).
  - by apply (Hn b).
  - assert (a = b) as ->; [|destruct Hca; congruence].
    pose proof (find_area s a v Hwf Ha Hav). pose proof (find_area s b v Hwf Hb Hbv). congruence.
Qed.

(** C4. [unmap] of an aligned range inside the address space always succeeds:
    no address of the range that an area covered translates any more, and
    none at all if nothing was mapped outside the areas; every other
    translation is unchanged; the areas that remain are the parts outside the
    range; and exactly the frames that were mapped in the allocating areas of
    the range go back to the allocator.  Any other range is refused with
    [InvalidInput] and no effect. *)
Theorem unmap_correct s h start size :
  wf s -> fits start size ->
  (alloc_request_ok s start size = false ->
     AddrSpace.unmap start size (s, h) = Done (Err InvalidInput, (s, h))) /\
  (alloc_request_ok s start size = true ->
   exists s' cut,
     AddrSpace.unmap start size (s, h)
       = Done (Ok tt, (s', dealloc_all (cut ≫= area_frames (pt s)) h)) /\
     cut ≡ₚ areas_within s start size /\ wf s' /\
     ms_iter (areas s') ≡ₚ areas_without s start size /\
     (forall v, ~ start <= v < start + size ->
        AddrSpace.translate s' v = AddrSpace.translate s v) /\
     (forall v, start <= v < start + size ->
        tight s \/ (exists a, a ∈ ms_iter (areas s) /\ area_contains a v) ->
        AddrSpace.translate s' v = Done None)).
Proof.
  intros Hwf Hfit. split; [intros Hok; by rewrite unmap_unfold, Hok|]. intros Hok.
  destruct (unmap_run s h start size) as
    (s' & cut & Hrun & Hcut & Hwf' & Hr & _ & Hit & Hout & Hin & Ht); [done..|].
  exists s', cut. do 5 (split; [done|]). intros v Hv [Hti|(a & Ha & Hav)]; [|by eapply Hin].
  apply tight_translate; [done|by apply Ht|]. intros b. rewrite Hit.
  intros (a & Hb & Ha)%list_elem_of_bind Hbv.
  apply (area_rest_contains a start (start + size) v); [lia|eauto|done].
Qed.

(** C7. [clear] never panics on a well-formed address space: its [unwrap]
    always finds a success.  It leaves no area, no address of an old area
    translates, every frame of the allocating areas goes back to the
    allocator, and nothing else changes.  Dropping the address space does
    this and then drops the page table. *)
Theorem clear_drop_correct s h :
  wf s ->
  exists s' l,
    AddrSpace.clear (s, h) = Done (tt, (s', dealloc_all (l ≫= area_frames (pt s)) h)) /\
    l ≡ₚ ms_iter (areas s) /\ wf s' /\ ms_iter (areas s') = [] /\
    (forall v, (exists a, a ∈ ms_iter (areas s) /\ area_contains a v) ->
       AddrSpace.translate s' v = Done None) /\
    (forall v, (forall a, a ∈ ms_iter (areas s) -> ~ area_contains a v) ->
       AddrSpace.translate s' v = AddrSpace.translate s v) /\
    AddrSpace.drop (s, h) =
      Done (tt, (s', pt_drop (pt s') (dealloc_all (l ≫= area_frames (pt s)) h))).
Proof.
  intros Hwf. destruct (clear_run s h Hwf) as (s' & l & Hrun & Hl & Hwf' & _ & _ & Hit & Hout & Hin & _).
  exists s', l. do 4 (split; [done|]). split; [intros v (a & Ha & Hav); by eapply Hin|].
  split; [done|]. unfold AddrSpace.drop. by rewrite (M_bind_Done _ _ _ _ _ Hrun).
Qed.


(** C15. A request whose end does not fit in a [usize] panics in every build,
    in all three operations, before any check; and in a build with overflow
    checks [map_linear] panics on every otherwise valid request whose host
    address is above the guest address, because it computes the offset as
    [start_vaddr - start_paddr]. *)
Theorem overflowing_requests_panic s h va pa size fl pop :
  usize va -> usize pa -> usize size ->
  (u64_modulus <= va + size ->
     AddrSpace.map_linear va pa size fl (s, h) = Panic /\
     AddrSpace.map_alloc va size fl pop (s, h) = Panic /\
     AddrSpace.unmap va size (s, h) = Panic) /\
  (va + size < u64_modulus -> overflow_checks = true -> va < pa ->
   linear_request_ok s va pa size = true ->
     AddrSpace.map_linear va pa size fl (s, h) = Panic).
Proof.
  intros Hva Hpa Hs. split; [intros Ho; by apply overflow_panics|].
  intros Hf Hc Hlt Hok. rewrite map_linear_unfold, Hok by done.
  unfold usize_sub. by rewrite usize_arith_panics by (done || lia).
Qed.

(** C16. [new_empty] panics exactly when the end of the range does not fit in a
    [usize].  Otherwise it takes one frame for the root table, and gives an
    address space of exactly the requested range without areas, or reports
    [NoMemory] when there is no frame.  When the page table reaches the whole
    range, the address space is well formed and nothing in it translates. *)
Theorem new_empty_correct h base size :
  usize base -> usize size ->
  if base + size <? u64_modulus then
    match alloc_frame h with
    | (Some f, h') => exists s,
        AddrSpace.new_empty base size h = Done (Ok s, h') /\
        AddrSpace.base s = base /\ AddrSpace.end_ s = base + size /\ AddrSpace.size s = size /\
        AddrSpace.page_table_root s = f /\ ms_iter (areas s) = [] /\
        (base + size <= va_limit ->
           wf s /\ tight s /\ forall v, AddrSpace.translate s v = Done None)
    | (None, h') => AddrSpace.new_empty base size h = Done (Err NoMemory, h')
    end
  else AddrSpace.new_empty base size h = Panic.
Proof.
  intros Hb Hs. pose proof (new_empty_spec h base size Hb Hs) as Hn.
  case_match; [|done]. destruct (alloc_frame h) as [[f|] h']; [|done].
  destruct Hn as (s & Hrun & Hr & Hit & Hroot & Hwf & Hp).
  exists s. unfold AddrSpace.base, AddrSpace.end_, AddrSpace.size. rewrite Hr. simpl.
  rewrite range_size_spec by (unfold usize in *; simpl; lia). simpl.
  do 3 (split; [done || lia|]). split; [lia|]. split; [done|]. split; [done|].
  intros Hl. specialize (Hwf Hl). assert (tight s) as Ht.
  { intros v Hv Hpr. rewrite Hp in Hpr; [done|by apply (in_space_va_ok s)]. }
  split; [done|]. split; [done|].
  intros v. apply tight_translate; [done..|]. rewrite Hit. by intros a ?%elem_of_nil.
Qed.
End props.

(** * Witnesses *)

Section witnesses.
#[local] Existing Instances release_build demo_env.
Import EPTEntry.

Definition lazy_area : MemoryArea Backend := mkArea 0x12000 0x2000 demo_flags (Alloc false).

(** [demo_as] with a lazy area of two pages, and the same with one of its
    pages touched. *)
Definition demo_lazy : AddrSpace.AddrSpace * hal :=
  after (AddrSpace.map_alloc 0x12000 0x2000 demo_flags false demo_as).
Definition demo_touched : AddrSpace.AddrSpace * hal :=
  after (AddrSpace.handle_page_fault 0x13123 WRITE demo_lazy).

Lemma demo_lazy_run :
  AddrSpace.map_alloc 0x12000 0x2000 demo_flags false demo_as = Done (Ok tt, demo_lazy).
Proof. apply after_ok. vm_compute. reflexivity. Defined.

Lemma demo_lazy_wf : wf demo_lazy.1 /\ lazy_area ∈ ms_iter (areas demo_lazy.1).
Proof.
  destruct (map_alloc_run demo_as.1 demo_as.2 0x12000 0x2000 demo_flags false)
    as (res & s' & h' & Hrun & Heff); [apply demo_as_wf|done|].
  rewrite <- surjective_pairing, demo_lazy_run in Hrun.
  assert (res = Ok tt /\ demo_lazy = (s', h')) as [-> ->] by (split; congruence).
  by apply effect_added in Heff as (? & ? & _).
Defined.

Lemma demo_lazy_fault : lazy_fault demo_lazy.1 0x13123 WRITE lazy_area.
Proof. split; [apply demo_lazy_wf|done]. Defined.

Lemma demo_touched_wf : wf demo_touched.1 /\ areas demo_touched.1 = areas demo_lazy.1.
Proof.
  pose proof (fault_run demo_lazy.1 demo_lazy.2 0x13123 WRITE lazy_area
    (proj1 demo_lazy_wf) demo_lazy_fault) as Hrun.
  assert ((alloc_frame demo_lazy.2).1 = Some 0x5000) as Hf by by vm_compute.
  destruct (alloc_frame demo_lazy.2) as [o h']. simpl in Hf. subst o.
  destruct Hrun as (s' & Hrun & Hwf & _ & Har & _).
  rewrite <- surjective_pairing in Hrun. unfold demo_touched. rewrite Hrun. exact (conj Hwf Har).
Defined.

Lemma map_linear_correct_witness :
  exists s' h', AddrSpace.map_linear 0x11000 0x3000 0x2000 demo_flags demo_as =
    Done (Ok tt, (s', h')) /\ AddrSpace.translate s' 0x12345 = Done (Some 0x4345).
Proof.
  destruct (map_linear_correct demo_as.1 demo_as.2 0x11000 0x3000 0x2000 demo_flags)
    as (res & s' & h' & Hrun & _ & _ & Hres);
    [apply demo_as_wf|done|done|done|done|apply demo_flags_readable|by left|].
  rewrite <- surjective_pairing in Hrun.
  assert (succeeds (AddrSpace.map_linear 0x11000 0x3000 0x2000 demo_flags demo_as) = true)
    as Hs by by vm_compute.
  rewrite Hrun in Hs. destruct res as [[]|]; [|done].
  exists s', h'. split; [done|]. by rewrite Hres by lia.
Defined.

Lemma map_alloc_populated_correct_witness :
  exists s' h' f, AddrSpace.map_alloc 0x11000 0x2000 demo_flags true demo_as =
    Done (Ok tt, (s', h')) /\ AddrSpace.translate s' 0x12345 = Done (Some (f + 0x345)).
Proof.
  destruct (map_alloc_populated_correct demo_as.1 demo_as.2 0x11000 0x2000 demo_flags)
    as (res & s' & h' & Hrun & _ & _ & Hres);
    [apply demo_as_wf|done|done|apply demo_flags_readable|].
  rewrite <- surjective_pairing in Hrun.
  assert (succeeds (AddrSpace.map_alloc 0x11000 0x2000 demo_flags true demo_as) = true)
    as Hs by by vm_compute.
  rewrite Hrun in Hs. destruct res as [[]|]; [|done].
  destruct (Hres 0x12000) as (f & _ & Hf); [lia|].
  exists s', h', f. split; [done|]. by rewrite Hf.
Defined.

Lemma map_alloc_lazy_reserves_witness :
  AddrSpace.translate demo_lazy.1 0x13123 = Done None.
Proof.
  destruct (map_alloc_lazy_reserves demo_as.1 demo_as.2 0x12000 0x2000 demo_flags)
    as (res & s' & h' & Hrun & _ & _ & Hres); [apply demo_as_wf|done|].
  rewrite <- surjective_pairing, demo_lazy_run in Hrun.
  assert (res = Ok tt /\ demo_lazy = (s', h')) as [-> ->] by (split; congruence).
  by apply Hres; lia.
Defined.

Lemma lazy_page_fault_correct_witness :
  AddrSpace.translate demo_touched.1 0x13fff = Done (Some 0x5fff) /\
  AddrSpace.translate demo_touched.1 0x12fff = Done None.
Proof.
  pose proof (lazy_page_fault_correct demo_lazy.1 demo_lazy.2 0x13123 WRITE lazy_area
    (proj1 demo_lazy_wf) demo_lazy_fault demo_flags_ok demo_flags_readable) as Hrun.
  assert ((alloc_frame demo_lazy.2).1 = Some 0x5000) as Hf by by vm_compute.
  destruct (alloc_frame demo_lazy.2) as [o h']. simpl in Hf. subst o.
  destruct Hrun as (s' & Hrun & _ & _ & _ & Hin & Hout).
  rewrite <- surjective_pairing in Hrun. unfold demo_touched. rewrite Hrun. simpl.
  rewrite Hin, Hout by done. split; [done|]. by vm_compute.
Defined.

Lemma page_fault_refused_witness :
  AddrSpace.handle_page_fault 0x12000 EXECUTE demo_lazy = Done (false, demo_lazy) /\
  AddrSpace.handle_page_fault 0x15000 READ demo_lazy = Done (false, demo_lazy) /\
  AddrSpace.handle_page_fault 0x20000 READ demo_lazy = Done (false, demo_lazy).
Proof.
  destruct demo_lazy_wf as [Hwf Ha]. rewrite (surjective_pairing demo_lazy).
  split; [|split]; apply (page_fault_refused demo_lazy.1 demo_lazy.2); try exact Hwf.
  - right; right. exists lazy_area. split; [done|]. split; [done|]. by left.
  - right; left.
    assert (ms_iter (areas demo_lazy.1) = [lazy_area]) as -> by by vm_compute.
    intros a ->%list_elem_of_singleton. unfold area_contains, area_end. simpl. lia.
  - left. unfold in_space.
    assert (va_range demo_lazy.1 = mkRange 0x10000 0x20000) as -> by by vm_compute. simpl. lia.
Defined.

Lemma unmap_correct_witness :
  exists s' h', AddrSpace.unmap 0x13000 0x1000 demo_touched = Done (Ok tt, (s', h')) /\
    AddrSpace.translate s' 0x13fff = Done None /\
    AddrSpace.unmap 0x13000 0x800 demo_touched = Done (Err InvalidInput, demo_touched).
Proof.
  destruct demo_touched_wf as [Hwf Har].
  destruct (unmap_correct demo_touched.1 demo_touched.2 0x13000 0x1000) as [_ Hu];
    [exact Hwf|by repeat split|].
  destruct Hu as (s' & cut & Hrun & _ & _ & _ & _ & Hin); [by vm_compute|].
  destruct (unmap_correct demo_touched.1 demo_touched.2 0x13000 0x800) as [He _];
    [exact Hwf|by repeat split|].
  rewrite <- surjective_pairing in Hrun, He. eexists _, _. split; [exact Hrun|]. split.
  - apply Hin; [lia|]. right. exists lazy_area. rewrite Har. split; [apply demo_lazy_wf|].
    unfold area_contains, area_end. simpl. lia.
  - apply He. by vm_compute.
Defined.

Lemma clear_drop_correct_witness :
  exists s' h', AddrSpace.clear demo_touched = Done (tt, (s', h')) /\
    AddrSpace.translate s' 0x13fff = Done None /\ ms_iter (areas s') = [].
Proof.
  destruct demo_touched_wf as [Hwf Har].
  destruct (clear_drop_correct demo_touched.1 demo_touched.2 Hwf)
    as (s' & l & Hrun & _ & _ & Hit & Hin & _).
  rewrite <- surjective_pairing in Hrun. eexists _, _. split; [exact Hrun|]. split; [|done].
  apply Hin. exists lazy_area. rewrite Har. split; [apply demo_lazy_wf|].
    unfold area_contains, area_end. simpl. lia.
Defined.


Lemma new_empty_correct_witness :
  AddrSpace.translate demo_as.1 0x10000 = Done None /\
  AddrSpace.page_table_root demo_as.1 = 0x1000 /\
  AddrSpace.new_empty 0xfffffffffffff000 0x1000 (demo_hal : hal) = Panic.
Proof.
  pose proof (new_empty_correct (demo_hal : hal) 0x10000 0x10000) as Hn.
  pose proof (new_empty_correct (demo_hal : hal) 0xfffffffffffff000 0x1000) as Hp.
  destruct Hn as (s & Hs & _ & _ & _ & Hroot & _ & Hv); [done|done|].
  destruct Hv as (_ & _ & Ht); [done|].
  unfold demo_as, demo_new. rewrite Hs. split; [apply Ht|]. split; [exact Hroot|].
  apply Hp; by repeat split.
Defined.
End witnesses.

Section checked_witness.
#[local] Existing Instances checked_build demo_env.
Import EPTEntry.

(** The example of the README: 1 MiB at the guest address 0x10000000, mapped
    to the host address 0x80000000. *)
Lemma overflowing_requests_panic_witness :
  let s := AddrSpace.mkAddrSpace (mkRange 0x10000000 0x20000000) ms_new (mkRefPT 0x1000 ∅ ∅ []) in
  AddrSpace.map_linear 0x10000000 0x80000000 0x100000 demo_flags (s, (demo_hal : hal)) = Panic /\
  AddrSpace.unmap 0xfffffffffffff000 0x1000 (s, (demo_hal : hal)) = Panic.
Proof.
  intros s.
  destruct (overflowing_requests_panic (PH:=MockHal_PagingHandler) s demo_hal 0x10000000 0x80000000 0x100000 demo_flags true)
    as [_ Hu]; [done|done|done|].
  destruct (overflowing_requests_panic (PH:=MockHal_PagingHandler) s demo_hal 0xfffffffffffff000 0 0x1000 demo_flags true)
    as [Ho _]; [done|done|done|].
  split; [by apply Hu|by apply Ho].
Defined.
End checked_witness.
