(* ===== verification/ByteBuffer.v ===== *)
(** [AddrSpace::translated_byte_buffer] and [AddrSpace::translate_and_get_limit]
    of [src/address_space/mod.rs]: host slices for a range of guest memory. *)
From S2P Require Import Prelude Crates RefCrates Ept Memory Frame MockHal PageTable.
From S2P Require Import Backend AddrSpace AddrSpaceInv AddrSpaceSpec AddrSpaceRun Demo.
Import BackendOps(mapping_flags, frame_ok).
Import AddrSpace(va_range, areas, pt).
Local Open Scope Z_scope.

(** The addresses of the bytes of a slice. *)
Definition slice_bytes (sl : Z * Z) : list Z := seqZ sl.1 sl.2.

Lemma fmap_seqZ_linear (f : Z -> Z) m n :
  (forall i, 0 <= i < n -> f (m + i) = f m + i) -> f <$> seqZ m n = seqZ (f m) n.
Proof.
  intros Hf. apply list_eq. intros i. rewrite list_lookup_fmap.
  destruct (decide (Z.of_nat i < n)).
  - rewrite !lookup_seqZ_lt by done. simpl. f_equal. apply Hf. lia.
  - by rewrite !lookup_seqZ_ge by lia.
Qed.

Section byte_buffer.
Context {BP : BuildProfile} `{BF : Bitflags} `{MA : MemoryAddr} `{MAL : !MemoryAddrLaws}.
Context `{PH : PagingHandler} `{PT : !PageTable64} `{PV : !PageTableView}.
Context `{PTE : GenericPTE} `{MD : PagingMetaData}.
Context `{PTEL : !GenericPTELaws} `{PTL : !PageTableLaws} `{PHL : !PagingHandlerLaws}.
Context `{MS : !MemorySetOps world Backend} `{MSL : !MemorySetLaws world Backend}.
Implicit Types (h : hal) (a b : MemoryArea Backend) (s : AddrSpace.AddrSpace).

(** [hva] gives the host virtual address of every guest address from [v] up to
    [e], and host pages are contiguous. *)
Definition host_view s (hva : Z -> Z) (v e : Z) : Prop :=
  (forall w, v <= w < e ->
     exists p, AddrSpace.translate s w = Done (Some p) /\ phys_to_virt p = Done (hva w)) /\
  (forall w w', v <= w < e -> v <= w' < e -> page_of w = page_of w' ->
     hva w' - hva w = w' - w).

(** A slice stays in a page. *)
Definition slice_ok (sl : Z * Z) : Prop := 0 < sl.2 <= PAGE_SIZE.

(** The query of an address in an area that translates. *)
Lemma query_in_area s a w p :
  wf s -> a ∈ ms_iter (areas s) -> area_contains a w ->
  AddrSpace.translate s w = Done (Some p) ->
  exists fl, pt_query (pt s) w = Done (Ok (p, fl, Size4K)).
Proof.
  intros Hwf Ha Hw Ht. pose proof (area_in_space s a w Hwf Ha Hw) as Hin.
  destruct (wf_entry s a w Hwf Ha Hw) as (e & He & _).
  rewrite translate_entry, He in Ht by done.
  rewrite pt_query_spec, He by by apply (in_space_va_ok s).
  destruct (pte_is_present e); [|done]. destruct (pte_flags e) as [fl| | |]; [|done..].
  injection Ht as <-. eauto.
Qed.

Lemma align_down_page w :
  0 <= w -> align_down w (page_bytes Size4K) = page_of w.
Proof. intros. change (page_bytes Size4K) with (2 ^ 12). by rewrite align_down_spec. Qed.

Lemma translate_page s a w f :
  wf s -> a ∈ ms_iter (areas s) -> area_contains a w ->
  AddrSpace.translate s (page_of w) = Done (Some f) ->
  AddrSpace.translate s w = Done (Some (f + w mod PAGE_SIZE)).
Proof.
  intros Hwf Ha Hw Ht.
  pose proof (area_contains_page _ a w (wf_area_ok s a Hwf Ha) Hw) as Hp.
  destruct (wf_entry s a w Hwf Ha Hw) as (e & He & _).
  rewrite translate_entry, pt_entry_page, He in Ht by (try done; by apply (area_in_space s a)).
  rewrite translate_entry, He by (try done; by apply (area_in_space s a)).
  destruct (pte_is_present e); [|done]. destruct (pte_flags e); [|done..].
  injection Ht as <-. unfold mbind, outcome_bind. do 2 f_equal.
  change (page_bytes Size4K) with PAGE_SIZE. rewrite page_of_mod. lia.
Qed.

(** One round of the loop. *)
Lemma translate_loop_step s a hva fuel start mid end_ :
  wf s -> a ∈ ms_iter (areas s) -> area_contains a start -> end_ < u64_modulus ->
  start < mid <= end_ -> mid mod PAGE_SIZE = 0 \/ mid = end_ ->
  host_view s hva start mid ->
  let next := Z.min (page_of start + PAGE_SIZE) end_ in
  AddrSpace.translate_loop (S fuel) s start end_ =
    (v ← AddrSpace.translate_loop fuel s next end_; Done ((hva start, next - start) :: v)) /\
  start < next <= mid /\ next - start <= PAGE_SIZE /\
  (next mod PAGE_SIZE = 0 \/ next = end_) /\
  hva <$> seqZ start (next - start) = seqZ (hva start) (next - start).
Proof.
  intros Hwf Ha Hs Hend Hm Hmid [Hb Hl] next.
  destruct (Hb start) as (p & Ht & Hp); [lia|].
  destruct (query_in_area s a start p Hwf Ha Hs Ht) as [fl Hq].
  pose proof (in_space_va_ok s start Hwf (area_in_space s a start Hwf Ha Hs)) as Hvo.
  pose proof (wf_area_ok s a Hwf Ha) as (_ & Has & Hss & _ & Hhi & _).
  pose proof Hwf as [(_ & _ & Hlim) _].
  assert (page_of start + PAGE_SIZE < u64_modulus /\ 0 <= page_of start) as [Hpe Hp0].
  { unfold area_contains, area_end, va_ok in *. zpage. }
  assert (start < next <= mid /\ next - start <= PAGE_SIZE /\
    (next mod PAGE_SIZE = 0 \/ next = end_)) as (Hn & Hn' & Hna).
  { unfold next. destruct Hmid; zpage. }
  split; [|split; [done|split; [done|split; [done|]]]].
  - cbn [AddrSpace.translate_loop]. rewrite (proj2 (Z.ltb_lt start end_)) by lia. cbn [negb].
    rewrite Hq. unfold mbind, outcome_bind. cbn [unwrap_ok].
    unfold va_ok in Hvo. rewrite align_down_page by lia.
    rewrite addr_add_spec by (done || (simpl; unfold PAGE_SIZE in *; lia)).
    change (page_bytes Size4K) with PAGE_SIZE. fold next.
    rewrite Hp, addr_sub_spec by lia. done.
  - apply fmap_seqZ_linear. intros i Hi.
    assert (hva (start + i) - hva start = start + i - start); [|lia].
    apply Hl; [lia|lia|]. unfold next in *. zpage.
Qed.

(** The rounds up to [mid], which is a page boundary or the end. *)
Lemma translate_loop_run s a hva mid end_ :
  wf s -> a ∈ ms_iter (areas s) -> end_ < u64_modulus -> mid <= end_ ->
  mid mod PAGE_SIZE = 0 \/ mid = end_ -> mid <= area_end a ->
  forall fuel start,
    area_start a <= start <= mid -> host_view s hva start mid ->
    (Z.to_nat (mid - start) <= fuel)%nat ->
    exists fuel' slices,
      (fuel - Z.to_nat (mid - start) <= fuel')%nat /\
      AddrSpace.translate_loop fuel s start end_ =
        (rest ← AddrSpace.translate_loop fuel' s mid end_; Done (slices ++ rest)) /\
      slices ≫= slice_bytes = hva <$> seqZ start (mid - start) /\ Forall slice_ok slices.
Proof.
  intros Hwf Ha Hend Hme Hmid Hma fuel.
  induction fuel as [|fuel IH]; intros start Hs Hv Hf.
  { assert (start = mid) as -> by lia. exists 0%nat, []. rewrite Z.sub_diag.
    split; [lia|]. split; [by destruct (AddrSpace.translate_loop _ _ _ _)|by split]. }
  destruct (decide (start = mid)) as [->|Hne].
  { exists (S fuel), []. rewrite Z.sub_diag. split; [lia|].
    split; [by destruct (AddrSpace.translate_loop _ _ _ _)|by split]. }
  destruct (translate_loop_step s a hva fuel start mid end_)
    as (Hstep & Hn & Hn' & Hna & Hby); [done|done| |done|lia|done|done|].
  { unfold area_contains. lia. }
  set (next := Z.min (page_of start + PAGE_SIZE) end_) in *.
  destruct (IH next) as (fuel' & slices & Hf' & Hrun & Hbytes & Hok); [lia| |lia|].
  { destruct Hv as [Hv1 Hv2]. split; intros; [apply Hv1|apply Hv2]; lia. }
  exists fuel', ((hva start, next - start) :: slices). split; [lia|].
  split; [rewrite Hstep, Hrun; by destruct (AddrSpace.translate_loop fuel' s mid end_)|].
  split; [|constructor; [|done]; unfold slice_ok; simpl; lia].
  rewrite bind_cons, Hbytes. unfold slice_bytes at 1. simpl. rewrite <- Hby, <- fmap_app.
  f_equal. replace (mid - start) with ((next - start) + (mid - next)) by lia.
  rewrite seqZ_app by lia. do 2 f_equal. lia.
Qed.
Lemma translated_byte_buffer_unfold s a v len :
  wf s -> a ∈ ms_iter (areas s) -> area_contains a v -> 0 <= len <= area_size a ->
  v + len < u64_modulus ->
  AddrSpace.translated_byte_buffer s v len =
    (r ← AddrSpace.translate_loop (Z.to_nat len) s v (v + len); Done (Some r)).
Proof.
  intros Hwf Ha Hv Hl Hm. unfold AddrSpace.translated_byte_buffer.
  pose proof (area_in_space s a v Hwf Ha Hv) as Hin.
  rewrite in_space_test, bool_decide_true, (find_area s a v) by done. cbn [negb].
  rewrite (proj2 (Z.ltb_ge _ _)) by lia.
  pose proof (in_space_va_ok s v Hwf Hin) as [? _]. by rewrite addr_add_spec by lia.
Qed.

(** C10. [translated_byte_buffer] on a buffer inside one area whose pages are
    all mapped: the loop ends, and the slices, each inside one page, are
    together exactly the host bytes of the guest addresses of the buffer, in
    order and without gap or repetition. *)
Theorem byte_buffer_correct s a hva v len :
  wf s -> a ∈ ms_iter (areas s) -> area_contains a v ->
  0 <= len -> v + len <= area_end a -> host_view s hva v (v + len) ->
  exists slices,
    AddrSpace.translated_byte_buffer s v len = Done (Some slices) /\
    slices ≫= slice_bytes = hva <$> seqZ v len /\ Forall slice_ok slices.
Proof.
  intros Hwf Ha Hv Hl He Hh. unfold area_contains in Hv.
  pose proof (wf_area_ok s a Hwf Ha) as (_ & _ & _ & _ & Hhi & _).
  pose proof Hwf as [(_ & _ & Hlim) _]. unfold area_end in *.
  rewrite (translated_byte_buffer_unfold s a v len) by (done || lia).
  destruct (translate_loop_run s a hva (v + len) (v + len)) with (fuel := Z.to_nat len)
    (start := v) as (fuel' & slices & _ & Hrun & Hb & Hok);
    [done|done|lia|lia|by right|done|lia|done|lia|].
  exists slices. rewrite Hrun. replace (v + len - v) with len in Hb by lia. split; [|done].
  destruct fuel'; simpl; rewrite (Z.ltb_irrefl (v + len)); simpl; by rewrite app_nil_r.
Qed.

(** C26. The length is only compared with the size of the whole area: a buffer
    that starts inside the area and runs past its end passes the check, and
    then panics on the first address that is not mapped, instead of
    returning [None]. *)
Theorem byte_buffer_past_area_panics s a hva v len :
  wf s -> a ∈ ms_iter (areas s) -> area_contains a v ->
  0 <= len <= area_size a -> area_end a < v + len < u64_modulus ->
  host_view s hva v (area_end a) ->
  in_space s (area_end a) -> AddrSpace.translate s (area_end a) = Done None ->
  AddrSpace.translated_byte_buffer s v len = Panic.
Proof.
  intros Hwf Ha Hv Hl He Hh Hin Hn. unfold area_contains in Hv.
  pose proof (wf_area_ok s a Hwf Ha) as (_ & Has & Hss & _).
  rewrite (translated_byte_buffer_unfold s a v len) by (done || lia).
  destruct (translate_loop_run s a hva (area_end a) (v + len)) with (fuel := Z.to_nat len)
    (start := v) as (fuel' & slices & Hf & Hrun & _);
    [done|done|lia|lia|left; unfold area_end; zpage|lia|lia|done|lia|].
  rewrite Hrun. destruct fuel' as [|fuel']; [lia|].
  simpl. rewrite (proj2 (Z.ltb_lt (area_end a) _)) by lia. simpl.
  assert (exists err, pt_query (pt s) (area_end a) = Done (Err err)) as [err ->]; [|done].
  unfold AddrSpace.translate in Hn. rewrite in_space_test, bool_decide_true in Hn by done.
  simpl in Hn. destruct (pt_query _ _) as [[[[]]|err]| | |]; try done. eauto.
Qed.

(** C23. [translate_and_get_limit] agrees with [translate] on every address of
    an area and knows nothing of other addresses.  The limit it returns is
    the size of the whole area, which exceeds the bytes that are left from
    [vaddr] to the end of the area by the distance of [vaddr] from the start
    of the area. *)
Theorem translate_and_get_limit_correct s v :
  wf s ->
  (forall a, a ∈ ms_iter (areas s) -> area_contains a v ->
     AddrSpace.translate_and_get_limit s v =
       match AddrSpace.translate s v with
       | Done (Some p) => Done (Some (p, (area_end a - v) + (v - area_start a)))
       | Done None => Done None
       | Panic => Panic
       | UB => UB
       | OutOfFuel => OutOfFuel
       end) /\
  ((forall a, a ∈ ms_iter (areas s) -> ~ area_contains a v) ->
     AddrSpace.translate_and_get_limit s v = Done None).
Proof.
  intros Hwf. unfold AddrSpace.translate_and_get_limit. split.
  - intros a Ha Hv. pose proof (area_in_space s a v Hwf Ha Hv) as Hin.
    unfold AddrSpace.translate.
    rewrite in_space_test, bool_decide_true, (find_area s a v) by done. simpl.
    replace (area_end a - v + (v - area_start a)) with (area_size a)
      by (unfold area_end; lia).
    by destruct (pt_query (pt s) v) as [[[[]]|]| | |].
  - intros Hno. destruct (range_contains (va_range s) v); [|done]. simpl.
    destruct (ms_find (areas s) v) as [a|] eqn:Hf; [|done].
    apply ms_find_Some in Hf as [Ha Hv]. by destruct (Hno a Ha).
Qed.
End byte_buffer.

(** A populated area of three pages on the simulated platform. *)
Section demo.
#[local] Existing Instances release_build demo_env.
Import EPTEntry.

Definition buffer_area : MemoryArea Backend := mkArea 0x11000 0x3000 demo_flags (Alloc true).
Definition demo_buffer : AddrSpace.AddrSpace * hal :=
  after (AddrSpace.map_alloc 0x11000 0x3000 demo_flags true demo_as).

Lemma demo_buffer_run : AddrSpace.map_alloc 0x11000 0x3000 demo_flags true demo_as =
  Done (Ok tt, demo_buffer).
Proof. apply after_ok. vm_compute. reflexivity. Defined.

Lemma demo_buffer_wf : wf demo_buffer.1 /\ buffer_area ∈ ms_iter (areas demo_buffer.1).
Proof.
  destruct (map_alloc_run demo_as.1 demo_as.2 0x11000 0x3000 demo_flags true)
    as (res & s' & h' & Hrun & Heff); [apply demo_as_wf|done|].
  rewrite <- surjective_pairing, demo_buffer_run in Hrun. assert (res = Ok tt /\ demo_buffer = (s', h')) as [-> ->] by (split; congruence).
  apply effect_added in Heff as (Hwf & Ha & _). exact (conj Hwf Ha).
Defined.

(** Its pages are at 0x101000, 0x105000 and 0x106000 in the host. *)
Definition demo_hva (w : Z) : Z := if w <? 0x12000 then w + 0xf0000 else w + 0xf3000.

Lemma demo_buffer_view : host_view demo_buffer.1 demo_hva 0x11800 0x14000.
Proof.
  destruct demo_buffer_wf as [Hwf Ha]. split.
  - intros w Hw.
    assert (exists q f, page_of w = q /\ AddrSpace.translate demo_buffer.1 q = Done (Some f) /\
      0x2000 <= f <= 0x7000 /\ demo_hva w = f + w mod PAGE_SIZE + 0xff000)
      as (q & f & Hq & Ht & Hf & Hh).
    { exists (page_of w), (page_of w - if w <? 0x12000 then 0xf000 else 0xc000).
      split; [done|]. unfold demo_hva. split; [|case_match; zpage].
      assert (page_of w = 0x11000 \/ page_of w = 0x12000 \/ page_of w = 0x13000)
        as [E|[E|E]] by zpage; rewrite E.
      1: rewrite (proj2 (Z.ltb_lt _ _)) by zpage.
      2,3: rewrite (proj2 (Z.ltb_ge _ _)) by zpage.
      all: by vm_compute. }
    exists (f + w mod PAGE_SIZE). split.
    + apply (translate_page demo_buffer.1 buffer_area); [done|done| |congruence].
      unfold area_contains, area_end. simpl. lia.
    + simpl. rewrite mock_phys_to_virt_in; [|done|done|unfold BASE_PADDR, MEMORY_LEN; zpage].
      f_equal. rewrite Hh. unfold memory_ptr, demo_env, BASE_PADDR. lia.
  - intros w w' Hw Hw' Hp. unfold demo_hva. repeat case_match; zpage.
Defined.

Lemma byte_buffer_correct_witness :
  exists slices,
    AddrSpace.translated_byte_buffer demo_buffer.1 0x11800 0x1900 = Done (Some slices) /\
    slices ≫= slice_bytes = demo_hva <$> seqZ 0x11800 0x1900 /\ Forall slice_ok slices.
Proof.
  destruct demo_buffer_wf as [Hwf Ha].
  apply (byte_buffer_correct demo_buffer.1 buffer_area demo_hva); [done|done|done|done|done|].
  destruct demo_buffer_view as [Hv1 Hv2]. split; intros; [apply Hv1|apply Hv2]; (done || lia).
Defined.

Lemma byte_buffer_past_area_panics_witness :
  AddrSpace.translated_byte_buffer demo_buffer.1 0x11800 0x3000 = Panic.
Proof.
  destruct demo_buffer_wf as [Hwf Ha].
  apply (byte_buffer_past_area_panics demo_buffer.1 buffer_area demo_hva);
    [exact Hwf|exact Ha|by repeat split|by repeat split|by repeat split|
     exact demo_buffer_view| |by vm_compute].
  unfold in_space. assert (va_range demo_buffer.1 = mkRange 0x10000 0x20000) as -> by by vm_compute.
  by repeat split.
Defined.

Lemma translate_and_get_limit_correct_witness :
  AddrSpace.translate_and_get_limit demo_buffer.1 0x12010 = Done (Some (0x6010, 0x3000)) /\
  AddrSpace.translate_and_get_limit demo_buffer.1 0x15000 = Done None.
Proof.
  destruct demo_buffer_wf as [Hwf Ha]. split.
  - rewrite (proj1 (translate_and_get_limit_correct demo_buffer.1 0x12010 Hwf) buffer_area Ha) by done.
    by vm_compute.
  - apply (proj2 (translate_and_get_limit_correct demo_buffer.1 0x15000 Hwf)).
    assert (ms_iter (areas demo_buffer.1) = [buffer_area]) as -> by by vm_compute.
    intros a ->%list_elem_of_singleton. unfold area_contains, area_end. simpl. lia.
Defined.
End demo.
