(* ===== verification/AddrSpaceRefine.v ===== *)
(** The address space refines an abstract machine: a set of areas and a
    function from guest addresses to host addresses, changed by requests.  The
    tables, the entries and the order of the areas are not visible in it. *)
From S2P Require Import Prelude Crates RefCrates Ept Memory Frame MockHal PageTable.
From S2P Require Import Backend AddrSpace AddrSpaceInv AddrSpaceSpec AddrSpaceRun Demo.
Import BackendOps(mapping_flags, frame_ok).
Import AddrSpace(va_range, areas, pt).
Local Open Scope Z_scope.

(** * Requests and the code that serves them *)

Inductive request :=
  | ReqMapLinear (va pa size : Z) (fl : MappingFlags)
  | ReqMapAlloc (start size : Z) (fl : MappingFlags) (pop : bool)
  | ReqUnmap (start size : Z)
  | ReqFault (v : Z) (access : MappingFlags)
  | ReqClear.

Inductive reply :=
  | ReplyResult (r : AxResult unit)
  | ReplyFault (served : bool)
  | ReplyUnit.

Section perform.
Context {BP : BuildProfile} `{BF : Bitflags} `{MA : MemoryAddr}.
Context `{PH : PagingHandler} `{PT : !PageTable64}.
Context `{MS : !MemorySetOps world Backend}.

Definition perform (q : request) : M (AddrSpace.AddrSpace * hal) reply :=
  match q with
  | ReqMapLinear va pa size fl => r ← AddrSpace.map_linear va pa size fl; mret (ReplyResult r)
  | ReqMapAlloc start size fl pop => r ← AddrSpace.map_alloc start size fl pop; mret (ReplyResult r)
  | ReqUnmap start size => r ← AddrSpace.unmap start size; mret (ReplyResult r)
  | ReqFault v access => b ← AddrSpace.handle_page_fault v access; mret (ReplyFault b)
  | ReqClear => AddrSpace.clear;; mret ReplyUnit
  end.

Fixpoint perform_all (qs : list request) : M (AddrSpace.AddrSpace * hal) (list reply) :=
  match qs with
  | [] => mret []
  | q :: qs => r ← perform q; rs ← perform_all qs; mret (r :: rs)
  end.
End perform.

(** * The abstract machine *)

Record Spec := mkSpec {
  sp_range : AddrRange;
  sp_areas : list (MemoryArea Backend);
  sp_map : Z -> option Z
}.

Definition upd_range (m : Z -> option Z) (start size : Z) (f : Z -> option Z) : Z -> option Z :=
  fun v => if decide (start <= v < start + size) then f v else m v.

Section spec_machine.
Context `{BF : Bitflags} `{MD : PagingMetaData}.

(** The guards, in terms of the range. *)
Definition request_ok (r : AddrRange) (start size : Z) (aligned_too : list Z) : bool :=
  (range_start r <=? start) && (start + size <=? range_end r) &&
  forallb (fun z => z mod PAGE_SIZE =? 0) (start :: size :: aligned_too).

Definition free_for (sp : Spec) (a : MemoryArea Backend) : Prop :=
  ~ Exists (areas_overlap a) (sp_areas sp).

(** The areas a request to map may add, and the alignment it checks. *)
Definition requested (q : request) : option (MemoryArea Backend * list Z) :=
  match q with
  | ReqMapLinear va pa size fl => Some (linear_area va pa size fl, [pa])
  | ReqMapAlloc start size fl pop => Some (mkArea start size fl (Alloc pop), [])
  | _ => None
  end.

(** What a new area makes visible: host addresses at a constant distance,
    nothing yet, or a frame for each page. *)
Definition area_map (q : request) (f : Z -> option Z) : Prop :=
  match q with
  | ReqMapLinear va pa size fl =>
      forall v, va <= v < va + size -> f v = Some (pa + (v - va))
  | ReqMapAlloc start size fl false => forall v, start <= v < start + size -> f v = None
  | ReqMapAlloc start size fl true =>
      forall q, start <= q < start + size -> exists fr, frame_ok fr /\
        forall v, page_of v = page_of q -> f v = Some (fr + v mod PAGE_SIZE)
  | _ => False
  end.

Inductive spec_step (sp : Spec) : request -> reply -> Spec -> Prop :=
  | spec_map q a al f :
      requested q = Some (a, al) ->
      request_ok (sp_range sp) (area_start a) (area_size a) al = true ->
      0 < area_size a -> free_for sp a -> area_map q f ->
      spec_step sp q (ReplyResult (Ok tt))
        (mkSpec (sp_range sp) (a :: sp_areas sp)
           (upd_range (sp_map sp) (area_start a) (area_size a) f))
  | spec_map_invalid q a al :
      requested q = Some (a, al) ->
      request_ok (sp_range sp) (area_start a) (area_size a) al = false \/ area_size a = 0 ->
      spec_step sp q (ReplyResult (Err InvalidInput)) sp
  | spec_map_exists q a al :
      requested q = Some (a, al) ->
      request_ok (sp_range sp) (area_start a) (area_size a) al = true ->
      0 < area_size a -> ~ free_for sp a ->
      spec_step sp q (ReplyResult (Err AlreadyExists)) sp
  | spec_unmap start size :
      request_ok (sp_range sp) start size [] = true ->
      spec_step sp (ReqUnmap start size) (ReplyResult (Ok tt))
        (mkSpec (sp_range sp)
           (sp_areas sp ≫= fun a => area_rest a start (start + size))
           (upd_range (sp_map sp) start size (fun _ => None)))
  | spec_unmap_invalid start size :
      request_ok (sp_range sp) start size [] = false ->
      spec_step sp (ReqUnmap start size) (ReplyResult (Err InvalidInput)) sp
  | spec_fault v access a fr :
      a ∈ sp_areas sp -> area_contains a v -> area_backend a = Alloc false ->
      bf_contains (area_flags a) access = true -> frame_ok fr ->
      spec_step sp (ReqFault v access) (ReplyFault true)
        (mkSpec (sp_range sp) (sp_areas sp)
           (upd_range (sp_map sp) (page_of v) PAGE_SIZE
              (fun w => Some (fr + w mod PAGE_SIZE))))
  | spec_fault_refused v access : spec_step sp (ReqFault v access) (ReplyFault false) sp
  | spec_clear :
      spec_step sp ReqClear ReplyUnit (mkSpec (sp_range sp) [] (fun _ => None)).

Inductive spec_run : Spec -> list request -> list reply -> Spec -> Prop :=
  | spec_run_nil sp : spec_run sp [] [] sp
  | spec_run_cons sp q r sp1 qs rs sp' :
      spec_step sp q r sp1 -> spec_run sp1 qs rs sp' -> spec_run sp (q :: qs) (r :: rs) sp'.
End spec_machine.

(** * The refinement *)

Section refine.
Context {BP : BuildProfile} `{BF : Bitflags} `{MA : MemoryAddr} `{MAL : !MemoryAddrLaws}.
Context `{PH : PagingHandler} `{PT : !PageTable64} `{PV : !PageTableView}.
Context `{PTE : GenericPTE} `{MD : PagingMetaData}.
Context `{PTEL : !GenericPTELaws} `{PTL : !PageTableLaws} `{PHL : !PagingHandlerLaws}.
Context `{MS : !MemorySetOps world Backend} `{MSL : !MemorySetLaws world Backend}.
Implicit Types (h : hal) (a b : MemoryArea Backend) (s : AddrSpace.AddrSpace) (sp : Spec).

(** Requests that can be made: machine integers that do not overflow, host
    addresses below the limit, and flags that make a page present and
    readable. *)
Definition flags_good (fl : MappingFlags) : Prop := mapping_flags fl /\ flags_readable fl.

Definition valid (q : request) : Prop :=
  match q with
  | ReqMapLinear va pa size fl =>
      fits va size /\ usize pa /\ pa + size <= pa_limit /\ flags_good fl /\
      (overflow_checks = false \/ pa <= va)
  | ReqMapAlloc start size fl _ => fits start size /\ flags_good fl
  | ReqUnmap start size => fits start size
  | ReqFault _ _ | ReqClear => True
  end.

(** The abstraction relation. *)
Record refines s sp : Prop := {
  rf_wf : wf s;
  rf_tight : tight s;
  rf_range : sp_range sp = va_range s;
  rf_areas : sp_areas sp ≡ₚ ms_iter (areas s);
  rf_flags : Forall (fun a => flags_good (area_flags a)) (sp_areas sp);
  rf_map v : AddrSpace.translate s v = Done (sp_map sp v)
}.

Lemma linear_request_ok_eq s va pa size :
  linear_request_ok s va pa size = request_ok (va_range s) va size [pa].
Proof.
  unfold linear_request_ok, request_ok, in_range, aligned. simpl. rewrite andb_true_r.
  by destruct (va mod PAGE_SIZE =? 0), (pa mod PAGE_SIZE =? 0), (size mod PAGE_SIZE =? 0).
Qed.

Lemma alloc_request_ok_eq s start size :
  alloc_request_ok s start size = request_ok (va_range s) start size [].
Proof.
  unfold alloc_request_ok, request_ok, in_range, aligned. simpl. by rewrite andb_true_r.
Qed.
(** The translation as a function. *)
Definition view s (v : Z) : option Z :=
  match AddrSpace.translate s v with Done o => o | _ => None end.

Lemma translate_total s a v :
  wf s -> a ∈ ms_iter (areas s) -> area_contains a v -> flags_good (area_flags a) ->
  AddrSpace.translate s v = Done (view s v).
Proof.
  intros Hwf Ha Hv [_ Hrd]. unfold view.
  destruct (wf_entry s a v Hwf Ha Hv) as (e & He & Hpe).
  rewrite translate_entry, He by (try done; by apply (area_in_space s a)).
  destruct (pte_is_present e) eqn:Hp; [|done].
  assert (exists g, pte_flags e = Done g) as [g ->]; [|done].
  unfold BackendOps.page_entry in Hpe. destruct (area_backend a) as [off|[]].
  - subst e. apply Hrd.
  - destruct Hpe as (f & _ & ->). apply Hrd.
  - destruct Hpe as [->|(f & _ & ->)]; [by rewrite pte_empty_not_present in Hp|apply Hrd].
Qed.

(** Serving a request to map, whatever its backend. *)
Lemma refine_map s sp h q a al res s' h' :
  refines s sp -> requested q = Some (a, al) -> flags_good (area_flags a) ->
  map_effect (request_ok (va_range s) (area_start a) (area_size a) al) a res s h s' h' ->
  (res = Ok tt -> area_map q (view s')) ->
  res = Err BadState \/
  exists sp', spec_step sp q (ReplyResult res) sp' /\ refines s' sp'.
Proof.
  intros [Hwf Ht Hr Har Hfl Hm] Hq Hfa (Hwf' & Hr' & _ & _ & Hout & Htight & Hcase) Hmap.
  rewrite <- Hr in Hcase.
  assert (Exists (areas_overlap a) (ms_iter (areas s)) <-> Exists (areas_overlap a) (sp_areas sp))
    as Hov by by rewrite Har.
  destruct res as [[]|[]]; [right|right|done|right|by left].
  - destruct Hcase as (Hok & Hpos & Hno & Hit & _). eexists. split.
    + eapply (spec_map sp q a al (view s')); try done; [by rewrite Hov in Hno|by apply Hmap].
    + constructor; simpl; [done|by apply Htight|by rewrite Hr'|by rewrite Hit, Har|by constructor|].
      intros v. unfold upd_range. fold (area_end a). case_decide as Hv.
      * apply (translate_total s' a v); [done|rewrite Hit; by left|done|done].
      * by rewrite Hout.
  - destruct Hcase as (Hbad & -> & ->). exists sp. split; [by eapply spec_map_invalid|done].
  - destruct Hcase as (Hok & Hpos & Hex & -> & ->). exists sp.
    split; [|done]. eapply spec_map_exists; try done. intros Hf. apply Hf. by apply Hov.
Qed.

(** [perform] of one request is matched by a step of the machine. *)
Definition simulated sp (q : request) (o : outcome (reply * (AddrSpace.AddrSpace * hal))) : Prop :=
  exists r s' h', o = Done (r, (s', h')) /\ wf s' /\
    (r = ReplyResult (Err BadState) \/ exists sp', spec_step sp q r sp' /\ refines s' sp').

Lemma simulate_map_linear s sp h va pa size fl :
  refines s sp -> valid (ReqMapLinear va pa size fl) ->
  simulated sp (ReqMapLinear va pa size fl) (perform (ReqMapLinear va pa size fl) (s, h)).
Proof.
  intros Hrf (Hfit & Hpa & Hlim & [Hm Hrd] & Hc). pose proof (rf_wf _ _ Hrf) as Hwf.
  pose proof Hfit as (Hva & _).
  destruct (map_linear_run s h va pa size fl) as (res & s' & h' & Hrun & Heff); [done..|].
  exists (ReplyResult res), s', h'. simpl. rewrite (M_bind_Done _ _ _ _ _ Hrun).
  split; [done|]. split; [apply Heff|].
  destruct (refine_map s sp h (ReqMapLinear va pa size fl) (linear_area va pa size fl) [pa]
    res s' h') as [->|?]; [done|done|done| | |by left|by right].
  - simpl. by rewrite <- linear_request_ok_eq.
  - intros ->. apply effect_added in Heff as (Hwf' & Ha & Hok). intros v Hv.
    unfold linear_request_ok, aligned in Hok. zbool. unfold view.
    by rewrite (translate_linear_area s' va pa size fl v).
Qed.

Lemma simulate_map_alloc s sp h start size fl pop :
  refines s sp -> valid (ReqMapAlloc start size fl pop) ->
  simulated sp (ReqMapAlloc start size fl pop) (perform (ReqMapAlloc start size fl pop) (s, h)).
Proof.
  intros Hrf (Hfit & [Hm Hrd]). pose proof (rf_wf _ _ Hrf) as Hwf.
  destruct (map_alloc_run s h start size fl pop) as (res & s' & h' & Hrun & Heff); [done..|].
  exists (ReplyResult res), s', h'. simpl. rewrite (M_bind_Done _ _ _ _ _ Hrun).
  split; [done|]. split; [apply Heff|].
  destruct (refine_map s sp h (ReqMapAlloc start size fl pop) (mkArea start size fl (Alloc pop)) []
    res s' h') as [->|?]; [done|done|done| | |by left|by right].
  - simpl. by rewrite <- alloc_request_ok_eq.
  - intros ->. apply effect_added in Heff as (Hwf' & Ha & Hok). unfold view. destruct pop.
    + intros w Hw. destruct (translate_populated_area s' (mkArea start size fl (Alloc true)))
        with (q := w) as (f & Hf & Htr); [done..|].
      exists f. split; [done|]. intros v Hv. by rewrite Htr.
    + intros v Hv. by rewrite (lazy_area_unmapped s h start size fl s' h').
Qed.

Lemma flags_good_rest l start size :
  Forall (fun a => flags_good (area_flags a)) l -> 0 <= size ->
  Forall (fun a => 0 < area_size a) l ->
  Forall (fun a => flags_good (area_flags a)) (l ≫= fun a => area_rest a start (start + size)).
Proof.
  rewrite !Forall_forall. intros Hl Hs Hp b (a & Hb & Ha)%list_elem_of_bind.
  apply area_rest_elem in Hb as (-> & _); [by apply Hl|by apply Hp].
Qed.

Lemma simulate_unmap s sp h start size :
  refines s sp -> valid (ReqUnmap start size) ->
  simulated sp (ReqUnmap start size) (perform (ReqUnmap start size) (s, h)).
Proof.
  intros Hrf Hfit. pose proof Hrf as [Hwf Ht Hr Har Hfl Hm]. simpl in Hfit.
  pose proof Hfit as (_ & [Hs0 _] & _). unfold simulated. simpl.
  destruct (alloc_request_ok s start size) eqn:Hok.
  - destruct (unmap_run s h start size) as
      (s' & cut & Hrun & _ & Hwf' & Hr' & _ & Hit & Hout & Hin & Ht'); [done..|].
    rewrite (M_bind_Done _ _ _ _ _ Hrun). eexists _, s', _. split; [done|]. split; [done|].
    right. eexists. rewrite alloc_request_ok_eq, <- Hr in Hok. split; [by apply spec_unmap|].
    constructor; simpl; [done|by apply Ht'|by rewrite Hr'| | |].
    + by rewrite Hit, Har.
    + apply flags_good_rest; [done|done|]. rewrite Har. destruct Hwf as [_ (Hoks & _)].
      eapply Forall_impl; [done|]. by intros a [? _].
    + intros v. unfold upd_range. case_decide as Hv; [|by rewrite Hout].
      apply tight_translate; [done|by apply Ht'|]. intros b. rewrite Hit.
      intros (a & Hb & Ha)%list_elem_of_bind Hbv.
      apply (area_rest_contains a start (start + size) v); [lia|eauto|done].
  - exists (ReplyResult (Err InvalidInput)), s, h.
    split; [unfold mbind, M_bind; by rewrite unmap_unfold, Hok|]. split; [done|].
    right. exists sp. rewrite alloc_request_ok_eq, <- Hr in Hok.
    split; [by apply spec_unmap_invalid|done].
Qed.

Lemma simulate_fault s sp h v access :
  refines s sp -> simulated sp (ReqFault v access) (perform (ReqFault v access) (s, h)).
Proof.
  intros Hrf. pose proof Hrf as [Hwf Ht Hr Har Hfl Hm]. unfold simulated. simpl.
  destruct (fault_cases s v access Hwf) as [(a & Hlf)|Hno].
  - pose proof (fault_run s h v access a Hwf Hlf) as Hrun.
    pose proof Hlf as (Ha & Hav & Hacc & Hb). rewrite <- Har in Ha.
    assert (flags_good (area_flags a)) as [Hmf Hrd] by by rewrite Forall_forall in Hfl; apply Hfl.
    destruct (alloc_frame h) as [[f|] h'].
    + destruct Hrun as (s' & Hrun & Hwf' & Hr' & Har' & _ & Hf & _ & Hin & Hout & Ht').
      rewrite (M_bind_Done _ _ _ _ _ Hrun). eexists _, s', h'. split; [done|]. split; [done|].
      right. eexists. split; [by eapply spec_fault|].
      constructor; simpl; [done|by apply Ht'|by rewrite Hr'|by rewrite Har'|done|].
      intros w. unfold upd_range. case_decide as Hw.
      * apply Hin; [done..|]. unfold page_of, PAGE_SIZE in *. Z.div_mod_to_equations. lia.
      * rewrite Hout; [done|]. unfold page_of, PAGE_SIZE in *. Z.div_mod_to_equations. lia.
    + rewrite (M_bind_Done _ _ _ _ _ Hrun). exists (ReplyFault false), s, h'.
      split; [done|]. split; [done|]. right. exists sp. split; [apply spec_fault_refused|done].
  - rewrite (M_bind_Done _ _ _ _ _ (fault_refused s h v access Hwf Hno)).
    exists (ReplyFault false), s, h.
    split; [done|]. split; [done|]. right. exists sp. split; [apply spec_fault_refused|done].
Qed.

Lemma simulate_clear s sp h : refines s sp -> simulated sp ReqClear (perform ReqClear (s, h)).
Proof.
  intros [Hwf Ht Hr Har Hfl Hm]. unfold simulated. simpl.
  destruct (clear_run s h Hwf) as (s' & l & Hrun & _ & Hwf' & Hr' & _ & Hit & _ & _ & Ht').
  rewrite (M_bind_Done _ _ _ _ _ Hrun). eexists _, s', _. split; [done|]. split; [done|].
  right. eexists. split; [apply spec_clear|].
  constructor; simpl; [done|by apply Ht'|by rewrite Hr'|by rewrite Hit|done|].
  intros v. apply tight_translate; [done|by apply Ht'|]. rewrite Hit. by intros a ?%elem_of_nil.
Qed.

Lemma simulate s sp h q :
  refines s sp -> valid q -> simulated sp q (perform q (s, h)).
Proof.
  destruct q; intros; [by apply simulate_map_linear|by apply simulate_map_alloc|
    by apply simulate_unmap|by apply simulate_fault|by apply simulate_clear].
Qed.

(** ** Without the abstraction: after a [BadState] only the invariant is left. *)

Lemma perform_wf s h q :
  wf s -> valid q -> exists r s' h', perform q (s, h) = Done (r, (s', h')) /\ wf s'.
Proof.
  intros Hwf Hv. destruct q as [va pa size fl|start size fl pop|start size|v access|]; simpl in *.
  - destruct Hv as (? & ? & _ & [? _] & ?).
    destruct (map_linear_run s h va pa size fl) as (r & s' & h' & Hrun & Heff); [done..|].
    rewrite (M_bind_Done _ _ _ _ _ Hrun). eexists _, _, _. split; [done|apply Heff].
  - destruct Hv as (? & _).
    destruct (map_alloc_run s h start size fl pop) as (r & s' & h' & Hrun & Heff); [done..|].
    rewrite (M_bind_Done _ _ _ _ _ Hrun). eexists _, _, _. split; [done|apply Heff].
  - destruct (alloc_request_ok s start size) eqn:Hok.
    + destruct (unmap_run s h start size) as (s' & cut & Hrun & _ & Hwf' & _); [done..|].
      rewrite (M_bind_Done _ _ _ _ _ Hrun). by eexists _, _, _.
    + unfold mbind, M_bind. rewrite unmap_unfold, Hok by done. by eexists _, _, _.
  - destruct (fault_cases s v access Hwf) as [(a & Hlf)|Hno].
    + pose proof (fault_run s h v access a Hwf Hlf) as Hrun.
      destruct (alloc_frame h) as [[f|] h']; [destruct Hrun as (s' & Hrun & Hwf' & _)|];
        rewrite (M_bind_Done _ _ _ _ _ Hrun); by eexists _, _, _.
    + rewrite (M_bind_Done _ _ _ _ _ (fault_refused s h v access Hwf Hno)). by eexists _, _, _.
  - destruct (clear_run s h Hwf) as (s' & l & Hrun & _ & Hwf' & _).
    rewrite (M_bind_Done _ _ _ _ _ Hrun). by eexists _, _, _.
Qed.

Lemma perform_all_wf qs s h :
  wf s -> Forall valid qs ->
  exists rs s' h', perform_all qs (s, h) = Done (rs, (s', h')) /\ wf s'.
Proof.
  intros Hwf Hv. revert s h Hwf. induction Hv as [|q qs Hq Hv IH]; intros s h Hwf.
  { by exists [], s, h. }
  destruct (perform_wf s h q Hwf Hq) as (r & s1 & h1 & Hrun & Hwf1).
  destruct (IH s1 h1 Hwf1) as (rs & s' & h' & Hall & Hwf').
  exists (r :: rs), s', h'. split; [|done]. simpl.
  by rewrite (M_bind_Done _ _ _ _ _ Hrun), (M_bind_Done _ _ _ _ _ Hall).
Qed.

Lemma simulate_all qs s sp h :
  refines s sp -> Forall valid qs ->
  exists rs s' h', perform_all qs (s, h) = Done (rs, (s', h')) /\ wf s' /\
    (ReplyResult (Err BadState) ∉ rs ->
     exists sp', spec_run sp qs rs sp' /\ refines s' sp').
Proof.
  intros Hrf Hv. revert s sp h Hrf. induction Hv as [|q qs Hq Hv IH]; intros s sp h Hrf.
  { exists [], s, h. split; [done|]. split; [apply Hrf|]. intros _. exists sp.
    split; [constructor|done]. }
  destruct (simulate s sp h q Hrf Hq) as (r & s1 & h1 & Hrun & Hwf1 & [->|(sp1 & Hstep & Hrf1)]).
  - destruct (perform_all_wf qs s1 h1 Hwf1 Hv) as (rs & s' & h' & Hall & Hwf').
    eexists (_ :: rs), s', h'. simpl. rewrite (M_bind_Done _ _ _ _ _ Hrun).
    rewrite (M_bind_Done _ _ _ _ _ Hall). split; [done|]. split; [done|].
    intros []%not_elem_of_cons. done.
  - destruct (IH s1 sp1 h1 Hrf1) as (rs & s' & h' & Hall & Hwf' & Hspec).
    exists (r :: rs), s', h'. simpl. rewrite (M_bind_Done _ _ _ _ _ Hrun).
    rewrite (M_bind_Done _ _ _ _ _ Hall). split; [done|]. split; [done|].
    intros [_ Hn]%not_elem_of_cons. destruct (Hspec Hn) as (sp' & Hrs & Hrf').
    exists sp'. split; [by econstructor|done].
Qed.

Definition spec_init (base size : Z) : Spec := mkSpec (mkRange base (base + size)) [] (fun _ => None).

Lemma new_empty_refines h base size s h' :
  usize base -> usize size -> base + size <= va_limit ->
  AddrSpace.new_empty base size h = Done (Ok s, h') -> refines s (spec_init base size).
Proof.
  intros Hb Hs Hl Hrun. pose proof (new_empty_spec h base size Hb Hs) as Hn.
  case_match; [|congruence]. destruct (alloc_frame h) as [[f|] h1]; [|congruence].
  destruct Hn as (s1 & Hrun1 & Hr & Hit & _ & Hwf & Hp). rewrite Hrun1 in Hrun.
  injection Hrun as -> ->. specialize (Hwf Hl).
  assert (tight s) as Ht.
  { intros v Hv Hpr. rewrite Hp in Hpr; [done|by apply (in_space_va_ok s)]. }
  constructor; simpl; [done|done|done|by rewrite Hit|done|].
  intros v. apply tight_translate; [done..|]. rewrite Hit. by intros a ?%elem_of_nil.
Qed.

(** C1. Refinement: every sequence of valid requests to a new address space
    runs to its end without a panic and keeps the invariant; and as long as
    no mapping was abandoned half way ([BadState]) the replies are a run of
    the abstract machine from its initial state, which ends in a state that
    agrees with the address space on its areas and on the translation of
    every guest address. *)
Theorem address_space_refines h base size s h' qs :
  usize base -> usize size -> base + size <= va_limit ->
  AddrSpace.new_empty base size h = Done (Ok s, h') -> Forall valid qs ->
  exists rs s' h2,
    perform_all qs (s, h') = Done (rs, (s', h2)) /\ wf s' /\
    (ReplyResult (Err BadState) ∉ rs ->
     exists sp, spec_run (spec_init base size) qs rs sp /\
       sp_areas sp ≡ₚ ms_iter (areas s') /\
       forall v, AddrSpace.translate s' v = Done (sp_map sp v)).
Proof.
  intros Hb Hs Hl Hnew Hv.
  destruct (simulate_all qs s (spec_init base size) h')
    as (rs & s' & h2 & Hrun & Hwf & Hspec); [by eapply new_empty_refines|done|].
  exists rs, s', h2. do 2 (split; [done|]). intros Hn.
  destruct (Hspec Hn) as (sp & Hr & [_ _ _ Har _ Hm]). eauto.
Qed.
End refine.

(** * Witness *)

Section witness.
#[local] Existing Instances release_build demo_env.
Import EPTEntry.

(** A linear area, a lazy one that is touched twice, a refused overlap, and a
    hole punched into the linear area. *)
Definition demo_requests : list request :=
  [ReqMapLinear 0x10000 0x3000 0x3000 demo_flags;
   ReqMapAlloc 0x14000 0x2000 demo_flags false;
   ReqFault 0x15010 WRITE;
   ReqFault 0x15010 EXECUTE;
   ReqMapAlloc 0x12000 0x1000 demo_flags true;
   ReqUnmap 0x11000 0x1000].

Lemma demo_requests_valid : Forall valid demo_requests.
Proof.
  repeat (apply Forall_cons; split); [..|done].
  all: simpl; unfold flags_good; repeat split;
    first [exact demo_flags_readable | by left | done].
Defined.

Definition replies (o : outcome (list reply * (AddrSpace.AddrSpace * hal))) : list reply :=
  match o with Done (rs, _) => rs | _ => [] end.

Definition translations (o : outcome (list reply * (AddrSpace.AddrSpace * hal))) (vs : list Z) :
    list (outcome (option Z)) :=
  match o with Done (_, (s, _)) => AddrSpace.translate s <$> vs | _ => [] end.

Lemma address_space_refines_witness :
  exists s' h' sp,
    perform_all demo_requests demo_as =
      Done ([ReplyResult (Ok tt); ReplyResult (Ok tt); ReplyFault true; ReplyFault false;
             ReplyResult (Err AlreadyExists); ReplyResult (Ok tt)], (s', h')) /\
    sp_areas sp ≡ₚ ms_iter (areas s') /\ sp_map sp 0x12345 = Some 0x5345 /\
    sp_map sp 0x11345 = None.
Proof.
  destruct (address_space_refines (PH:=MockHal_PagingHandler) demo_hal 0x10000 0x10000 demo_as.1 demo_as.2 demo_requests)
    as (rs & s' & h' & Hrun & _ & Hsp);
    [done|done|done|exact demo_new_run|exact demo_requests_valid|].
  rewrite <- surjective_pairing in Hrun.
  assert (replies (perform_all demo_requests demo_as) =
    [ReplyResult (Ok tt); ReplyResult (Ok tt); ReplyFault true; ReplyFault false;
     ReplyResult (Err AlreadyExists); ReplyResult (Ok tt)]) as Hrs by (vm_compute; reflexivity).
  assert (translations (perform_all demo_requests demo_as) [0x12345; 0x11345] =
    [Done (Some 0x5345); Done None]) as Htr by (vm_compute; reflexivity).
  rewrite Hrun in Hrs, Htr. simpl in Hrs, Htr. subst rs.
  destruct Hsp as (sp & _ & Har & Hm).
  { rewrite !not_elem_of_cons. repeat split; try discriminate. apply not_elem_of_nil. }
  rewrite !Hm in Htr. injection Htr as H5 H6.
  exists s', h', sp. split; [exact Hrun|]. split; [exact Har|]. split; [exact H5|exact H6].
Defined.
End witness.
