(* ===== verification/AddrSpaceEdge.v ===== *)
(** Behaviours of the address space at the edges of its invariant: what the
    code does where the lemmas of [AddrSpaceRun] do not apply. *)
From S2P Require Import Prelude Crates RefCrates Ept Memory Frame MockHal PageTable.
From S2P Require Import Backend AddrSpace AddrSpaceInv AddrSpaceSpec AddrSpaceRun Demo.
Import BackendOps(region_ok, backend_ok, backed, dealloc_all, mapping_flags, frame_ok).
Import AddrSpace(va_range, areas, pt).
Local Open Scope Z_scope.

Section edge.
Context {BP : BuildProfile} `{BF : Bitflags} `{MA : MemoryAddr} `{MAL : !MemoryAddrLaws}.
Context `{PH : PagingHandler} `{PT : !PageTable64} `{PV : !PageTableView}.
Context `{PTE : GenericPTE} `{MD : PagingMetaData}.
Context `{PTEL : !GenericPTELaws} `{PTL : !PageTableLaws} `{PHL : !PagingHandlerLaws}.
Context `{MS : !MemorySetOps world Backend} `{MSL : !MemorySetLaws world Backend}.
Implicit Types (h : hal) (a b : MemoryArea Backend) (s : AddrSpace.AddrSpace).

(** Unmapping a linear region stops at a page that is not present. *)
Lemma unmap_linear_absent start size off h p :
  region_ok start size -> 0 < size ->
  (forall q, q ∈ pages start (page_count size) -> exists e, pt_entry p q = Some (e, Size4K)) ->
  present p start = false ->
  exists p', BackendOps.unmap (Linear off) start size (h, p) = Done (false, (h, p')).
Proof.
  intros (Ha & Hs & H0 & H1 & Hlim & Hmod) Hpos He Hp. simpl.
  unfold BackendOps.unmap_linear, mbind, M_bind. rewrite pt_unmap_region_spec by done.
  assert (exists n, page_count size = S n) as [n ->].
  { exists (Nat.pred (page_count size)). unfold page_count, PAGE_SIZE in *.
    Z.div_mod_to_equations. lia. }
  cbn [pages unmap_pages]. unfold mbind, M_bind.
  destruct (pt_unmap_absent h p start) as (err & p' & Hu & _);
    [pose proof (va_limit_bound); lia|done|].
  rewrite Hu. by exists p'.
Qed.

Lemma unmap_areas_app (l1 l2 : list (MemoryArea Backend)) w :
  unmap_areas (l1 ++ l2) w =
    (b ← unmap_areas l1; if b : bool then unmap_areas l2 else mret false) w.
Proof.
  revert w. induction l1 as [|a l1 IH]; intros w; [done|]. simpl. unfold mbind, M_bind in *.
  destruct (BackendOps.unmap _ _ _ w) as [[[] w']| | |]; [apply IH|done..].
Qed.

(** A linear area that is not present stops the removal of any list of areas
    it is in. *)
Lemma unmap_areas_absent r p a off l l' h :
  range_ok r -> areas_ok r p l -> l' ≡ₚ a :: l -> area_backend a = Linear off ->
  region_ok (area_start a) (area_size a) -> 0 < area_size a ->
  (forall b, b ∈ l -> ~ areas_overlap a b) ->
  (forall q, q ∈ pages (area_start a) (page_count (area_size a)) ->
     exists e, pt_entry p q = Some (e, Size4K) /\ pte_is_present e = false) ->
  exists w, unmap_areas l' (h, p) = Done (false, w).
Proof.
  intros Hr Hok Hl Hb Hreg Hpos Hno He.
  assert (a ∈ l') as Ha by (rewrite Hl; by left).
  apply list_elem_of_split in Ha as (l1 & l2 & ->).
  rewrite <- Permutation_middle in Hl. apply Permutation_cons_inv in Hl.
  rewrite <- Hl in Hok.
  assert (areas_ok r p l1) as Hok1.
  { destruct Hok as ((? & _)%Forall_app & Hd & (? & _)%Forall_app).
    split; [done|]. split; [|done]. by eapply disjoint_areas_prefix. }
  destruct (unmap_areas_spec r l1 h p Hr Hok1) as (p1 & Hu & _ & _ & Hs).
  rewrite unmap_areas_app. unfold mbind at 1, M_bind at 1. rewrite Hu.
  generalize (dealloc_all (l1 ≫= area_frames p) h). intros h1.
  pose proof Hreg as (Has & Hss & Hs0 & Hz0 & Hlim & _).
  assert (forall q, q ∈ pages (area_start a) (page_count (area_size a)) ->
    pt_entry p1 q = pt_entry p q) as Hsame.
  { intros q Hq. apply BackendOps.region_elem in Hq as [_ Hq]; [|done].
    apply Hs; [unfold va_ok; lia|]. intros b Hbl Hbq.
    apply (no_overlap_contains a b q); [|done|done]. apply Hno. rewrite <- Hl.
    apply elem_of_app. by left. }
  destruct (unmap_linear_absent (area_start a) (area_size a) off h1 p1) as [p' Hua]; [done|done| | |].
  - intros q Hq. rewrite Hsame by done. destruct (He q Hq) as (e & ? & _). eauto.
  - assert (area_start a ∈ pages (area_start a) (page_count (area_size a))) as Hq
      by (apply elem_of_pages_region; (done || lia)).
    destruct (He _ Hq) as (e & Hpe & Hp). unfold present. by rewrite Hsame, Hpe.
  - cbn [unmap_areas]. unfold mbind, M_bind. simpl be_unmap. rewrite Hb, Hua. by eexists.
Qed.

(** What is in the page table after a successful [map_linear] with such flags:
    the old areas are as they were, the pages of the new one are not present. *)
Lemma absent_linear_added s h va pa size fl s' h' :
  wf s -> fits va size -> usize pa -> overflow_checks = false \/ pa <= va ->
  pte_is_present (pte_new_page 0 fl false) = false ->
  AddrSpace.map_linear va pa size fl (s, h) = Done (Ok tt, (s', h')) ->
  exists l, ms_iter (areas s') ≡ₚ linear_area va pa size fl :: l /\
    range_ok (va_range s) /\ areas_ok (va_range s) (pt s') l /\
    region_ok va size /\ 0 < size /\
    (forall b, b ∈ l -> ~ areas_overlap (linear_area va pa size fl) b) /\
    forall q, q ∈ pages va (page_count size) ->
      exists e, pt_entry (pt s') q = Some (e, Size4K) /\ pte_is_present e = false.
Proof.
  intros Hwf Hfit Hpa Hc Hnp Hrun. pose proof Hwf as [Hr (Hoks & Hdis & Hbk)].
  pose proof Hfit as (Hva & Hsz & Hend). pose proof Hr as (Hr1 & Hr2 & Hr3).
  rewrite map_linear_unfold in Hrun by done.
  destruct (linear_request_ok s va pa size) eqn:Hok; [|done].
  unfold linear_request_ok, in_range, aligned in Hok. zbool.
  destruct (linear_offset_ok va pa) as [Hoff Hback]; [done..|]. rewrite Hoff in Hrun.
  apply M_bind_inv in Hrun as (res & [s1 h1] & Hma & Hret). injection Hret as Hres -> ->.
  destruct res as [[]|]; [|done]. set (a := linear_area va pa size fl).
  fold (linear_area va pa size fl) in Hma. fold a in Hma.
  destruct (map_area_cases s h a) as (Hem & Hov & Hfr); [simpl; unfold usize in *; lia|].
  destruct (decide (size = 0)) as [->|Hnz]; [by rewrite Hem in Hma|].
  assert (0 < size) as Hpos by (unfold usize in *; lia).
  destruct (decide (Exists (areas_overlap a) (ms_iter (areas s)))) as [Ho|Ho];
    [by rewrite Hov in Hma|]. specialize (Hfr Hpos Ho).
  assert (region_ok va size) as Hreg by (unfold usize in *; repeat split; (done || lia)).
  destruct (BackendOps.map_spec (area_backend a) va size fl h (pt s) Hreg Hback)
    as (ok & h2 & p2 & Hm & _ & _ & Hg & Hb).
  change (area_start a) with va in Hfr. change (area_size a) with size in Hfr.
  change (area_flags a) with fl in Hfr. rewrite Hm in Hfr.
  destruct ok; [|by rewrite Hma in Hfr]. destruct Hfr as (ars & Hfr & Hit).
  rewrite Hma in Hfr. injection Hfr as -> ->. exists (ms_iter (areas s)).
  apply not_Exists_Forall in Ho; [|apply _]. rewrite Forall_forall in Ho.
  split; [done|]. split; [done|]. split; [|split; [done|split; [done|split; [done|]]]].
  - split; [done|]. split; [done|].
    eapply (areas_backed_grows (va_range s) (pt s) _ _ (area_contains a)); [done|done| | |done].
    + intros v Hv Hn. by apply Hg.
    + intros b v Hbin Hbv Hav. by eapply no_overlap_contains; [apply Ho|..].
  - intros q Hq. destruct (Hb eq_refl q Hq) as (_ & e & He & ->). eexists. split; [exact He|].
    by rewrite pte_present_flags.
Qed.

(** C28. A linear mapping whose flags make its entries not present (no access
    right on EPT, no READ on aarch64) poisons an address space: once
    [map_linear] accepted it, beside whatever other areas there are, the page
    table refuses to unmap it, and [clear], hence also dropping the address
    space, panics on its [unwrap]. *)
Theorem clear_panics_on_absent_linear s h va pa size fl s' h' :
  wf s -> fits va size -> usize pa -> overflow_checks = false \/ pa <= va ->
  pte_is_present (pte_new_page 0 fl false) = false ->
  AddrSpace.map_linear va pa size fl (s, h) = Done (Ok tt, (s', h')) ->
  AddrSpace.clear (s', h') = Panic /\ AddrSpace.drop (s', h') = Panic.
Proof.
  intros Hwf Hfit Hpa Hc Hnp Hrun.
  destruct (absent_linear_added s h va pa size fl s' h')
    as (l & Hit & Hr & Hok & Hreg & Hpos & Hno & He); [done..|].
  assert (AddrSpace.clear (s', h') = Panic) as Hcl.
  { destruct (ms_clear_spec (areas s') (h', pt s')) as (l' & Hl & Hcase). rewrite Hit in Hl.
    destruct (unmap_areas_absent (va_range s) (pt s') (linear_area va pa size fl)
      (wrap64 (va - pa)) l l' h') as (w & Hu); [done..|].
    rewrite Hu in Hcase. destruct Hcase as (e & [ars [h2 p2]] & Hms).
    unfold AddrSpace.clear, AddrSpace.on_areas, mbind, M_bind. by rewrite Hms. }
  split; [done|]. unfold AddrSpace.drop, mbind, M_bind. by rewrite Hcl.
Qed.

(** C29. A populated mapping that the backend gives up half way ([BadState])
    leaves what it has done behind: its first [kept] bytes translate into
    frames of the allocator, though no area covers them, everything else
    translates as before, no frame is given back, and not even [clear]
    removes these pages. *)
Theorem failed_populate_leaves_pages s h start size fl s' h' :
  wf s -> fits start size -> mapping_flags fl -> flags_readable fl ->
  AddrSpace.map_alloc start size fl true (s, h) = Done (Err BadState, (s', h')) ->
  exists kept, 0 <= kept < size /\ areas s' = areas s /\ (exists fs, allocs h fs h') /\
    (forall v, start <= v < start + kept ->
       (exists f, frame_ok f /\ AddrSpace.translate s' v = Done (Some (f + v mod PAGE_SIZE))) /\
       forall b, b ∈ ms_iter (areas s') -> ~ area_contains b v) /\
    (forall v, ~ (start <= v < start + kept) ->
       AddrSpace.translate s' v = AddrSpace.translate s v) /\
    exists s2 h2, AddrSpace.clear (s', h') = Done (tt, (s2, h2)) /\
      forall v, start <= v < start + kept ->
        AddrSpace.translate s2 v = AddrSpace.translate s' v.
Proof.
  intros Hwf Hfit Hm Hrd Hrun.
  destruct (map_alloc_run s h start size fl true) as (res & s1 & h1 & Hrun1 & Heff); [done..|].
  rewrite Hrun in Hrun1. injection Hrun1 as <- <- <-. pose proof Heff as (Hwf' & Hr & _ & Hfs & _).
  apply effect_stopped in Heff as (Hok & Har & Hun & kept & Hk & _ & Hb & Hg & _).
  unfold alloc_request_ok, in_range in Hok. zbool. simpl in Hk, Hb, Hg.
  assert (forall v, start <= v < start + kept -> forall b, b ∈ ms_iter (areas s') ->
    ~ area_contains b v) as Hno.
  { intros v Hv b Hbi. apply (Hun v b); [|done]. unfold area_contains, area_end. simpl. lia. }
  exists kept. do 3 (split; [done|]). split; [|split].
  - intros v Hv. split; [|by apply Hno]. destruct (Hb v Hv) as (e & He & f & Hf & ->). exists f.
    split; [done|]. rewrite pt_entry_page in He.
    apply (translate_new_page s' v f fl); [done| |done..]. unfold in_space. rewrite Hr. lia.
  - intros v Hv. apply translate_grows; [done..|]. intros Hsp. apply Hg; [|done].
    by apply (in_space_va_ok s).
  - destruct (clear_run s' h' Hwf') as (s2 & l & Hc & _ & _ & _ & _ & _ & Ht & _).
    eexists s2, _. split; [exact Hc|]. intros v Hv. by apply Ht, Hno.
Qed.
End edge.

(** * On the simulated platform *)

Section platform.
#[local] Existing Instances release_build demo_env.
Import EPTEntry.

(** A linear area for DEVICE only, beside a populated one. *)
Definition demo_ram : AddrSpace.AddrSpace * hal :=
  after (AddrSpace.map_alloc 0x12000 0x1000 demo_flags true demo_as).
Definition demo_device : AddrSpace.AddrSpace * hal :=
  after (AddrSpace.map_linear 0x11000 0x3000 0x1000 DEVICE demo_ram).

Lemma demo_ram_wf : wf demo_ram.1.
Proof.
  destruct (map_alloc_run demo_as.1 demo_as.2 0x12000 0x1000 demo_flags true)
    as (res & s' & h' & Hrun & Heff); [apply demo_as_wf|by repeat split|].
  rewrite <- surjective_pairing in Hrun. unfold demo_ram. rewrite Hrun. apply Heff.
Defined.

Lemma clear_panics_on_absent_linear_witness :
  AddrSpace.map_linear 0x11000 0x3000 0x1000 DEVICE demo_ram = Done (Ok tt, demo_device) /\
  AddrSpace.clear demo_device = Panic.
Proof.
  assert (AddrSpace.map_linear 0x11000 0x3000 0x1000 DEVICE demo_ram = Done (Ok tt, demo_device))
    as Hrun by (apply after_ok; vm_compute; reflexivity).
  split; [exact Hrun|].
  destruct (clear_panics_on_absent_linear demo_ram.1 demo_ram.2 0x11000 0x3000 0x1000 DEVICE
    demo_device.1 demo_device.2) as [Hc _];
    [exact demo_ram_wf|by repeat split|by repeat split|by left|reflexivity| |].
  - rewrite <- !surjective_pairing. exact Hrun.
  - rewrite <- surjective_pairing in Hc. exact Hc.
Defined.

(** The simulated platform has fifteen frames left, so that a request for
    sixteen pages fails. *)
Definition demo_failed : AddrSpace.AddrSpace * hal :=
  after (AddrSpace.map_alloc 0x10000 0x10000 demo_flags true demo_as).

Lemma demo_failed_run :
  AddrSpace.map_alloc 0x10000 0x10000 demo_flags true demo_as = Done (Err BadState, demo_failed).
Proof.
  assert (match AddrSpace.map_alloc 0x10000 0x10000 demo_flags true demo_as with
          | Done (Err BadState, _) => true | _ => false end = true) as H
    by (vm_compute; reflexivity).
  unfold demo_failed. by destruct (AddrSpace.map_alloc _ _ _ _ _) as [[[|[]] ?]| | |].
Defined.

Lemma failed_populate_leaves_pages_witness :
  AddrSpace.translate demo_failed.1 0x10000 = Done (Some 0x2000) /\
  exists s h, AddrSpace.clear demo_failed = Done (tt, (s, h)) /\
    AddrSpace.translate s 0x10000 = Done (Some 0x2000).
Proof.
  assert (AddrSpace.translate demo_failed.1 0x10000 = Done (Some 0x2000)) as H2
    by (vm_compute; reflexivity).
  destruct (failed_populate_leaves_pages demo_as.1 demo_as.2 0x10000 0x10000 demo_flags
    demo_failed.1 demo_failed.2) as (kept & Hk & _ & _ & _ & Hout & s & h & Hc & Hs);
    [apply demo_as_wf|by repeat split|reflexivity|exact demo_flags_readable| |].
  { rewrite <- !surjective_pairing. apply demo_failed_run. }
  split; [exact H2|]. exists s, h. rewrite <- surjective_pairing in Hc. split; [exact Hc|].
  rewrite <- H2. apply Hs. destruct (Z.eq_dec kept 0) as [->|]; [|lia].
  specialize (Hout 0x10000 ltac:(lia)). rewrite H2 in Hout.
  assert (AddrSpace.translate demo_as.1 0x10000 = Done None) as H0 by (vm_compute; reflexivity).
  rewrite H0 in Hout. exfalso. clear - Hout. by inversion Hout.
Defined.
End platform.
