(* ===== verification/AddrSpaceA64.v ===== *)
(** The address space over the aarch64 descriptors: what their unreadable
    memory attribute means for its clients. *)
From S2P Require Import Prelude Crates RefCrates A64 Memory Frame MockHal PageTable.
From S2P Require Import Backend AddrSpace AddrSpaceInv AddrSpaceSpec AddrSpaceRun.
Import BackendOps(mapping_flags).
Import AddrSpace(va_range, areas, pt).
Import A64PTEHV.
Local Open Scope Z_scope.

Section aarch64.
Context {BP : BuildProfile} {F4 : Feature4LevelEpt}.
Context `{BF : Bitflags} `{BFL : !BitflagsLaws} `{MFB : MappingFlagBits} `{MFL : !MappingFlagLaws}.
Context `{MA : MemoryAddr} `{MAL : !MemoryAddrLaws}.
Context `{PH : PagingHandler} `{PT : !PageTable64} `{PV : !PageTableView}.
Context `{PTL : !PageTableLaws} `{PHL : !PagingHandlerLaws}.
Context `{MS : !MemorySetOps world Backend} `{MSL : !MemorySetLaws world Backend}.
Implicit Types (h : hal) (s : AddrSpace.AddrSpace).

(** A descriptor is present iff READ was asked for. *)
Lemma a64_mapping_flags fl : mapping_flags fl <-> bf_contains fl READ = true.
Proof.
  unfold mapping_flags. simpl. rewrite a64_is_present_new_page. by autorewrite with flags.
Qed.

(** C32. On aarch64, a region of device memory that is mapped readable, DEVICE
    and UNCACHED can be mapped but not translated: [map_linear] succeeds or
    refuses as always, but after a success [translate] and
    [translate_and_get_limit] panic on every address of the region. *)
Theorem a64_uncached_region_panics s h va pa size fl :
  wf s -> fits va size -> usize pa -> overflow_checks = false \/ pa <= va ->
  bf_contains fl READ = true -> bf_contains fl DEVICE = true -> bf_contains fl UNCACHED = true ->
  exists res s' h',
    AddrSpace.map_linear va pa size fl (s, h) = Done (res, (s', h')) /\ wf s' /\
    (res = Ok tt -> forall v, va <= v < va + size ->
       AddrSpace.translate s' v = Panic /\ AddrSpace.translate_and_get_limit s' v = Panic).
Proof.
  intros Hwf Hfit Hpa Hc Hr Hd Hu. pose proof (proj2 (a64_mapping_flags fl) Hr) as Hm.
  destruct (map_linear_run s h va pa size fl) as (res & s' & h' & Hrun & Heff); [done..|].
  exists res, s', h'. split; [done|]. split; [apply Heff|]. intros -> v Hv.
  apply effect_added in Heff as (Hwf' & Ha & _).
  destruct (wf_entry s' _ v Hwf' Ha Hv) as (e & He & ->).
  assert (in_space s' v) as Hin by by apply (area_in_space s' _ v Hwf' Ha).
  assert (pt_query (pt s') v = Panic) as Hq.
  { rewrite pt_query_spec, He by by apply (in_space_va_ok s').
    rewrite pte_present_flags, Hm. simpl. rewrite a64_flags_new_page.
    autorewrite with flags in Hd, Hu. by rewrite Hd, Hu. }
  unfold AddrSpace.translate, AddrSpace.translate_and_get_limit.
  rewrite in_space_test, bool_decide_true by done. simpl.
  by rewrite (find_area s' _ v Hwf' Ha Hv), Hq.
Qed.
End aarch64.

Section witness.
#[local] Existing Instances release_build demo_env.
#[local] Instance three_levels : Feature4LevelEpt := false.

#[local] Instance mock_laws : PagingHandlerLaws.
Proof. apply MockHal_laws. done. Defined.

Definition uncached_flags : MappingFlags := Z.lor READ (Z.lor DEVICE UNCACHED).

Definition a64_as : AddrSpace.AddrSpace :=
  AddrSpace.mkAddrSpace (mkRange 0x9000000 0x9010000) ms_new (mkRefPT 0x1000 ∅ ∅ []).

Definition a64_reply (o : outcome (AxResult unit * (AddrSpace.AddrSpace * hal))) : bool :=
  match o with Done (Ok _, _) => true | _ => false end.

Lemma a64_as_wf : wf a64_as.
Proof. split; [by repeat split|]. repeat split; constructor. Defined.

Lemma a64_uncached_region_panics_witness :
  exists s' h',
    AddrSpace.map_linear 0x9000000 0x9000000 0x1000 uncached_flags (a64_as, demo_hal) =
      Done (Ok tt, (s', h')) /\
    AddrSpace.translate s' 0x9000010 = Panic.
Proof.
  destruct (a64_uncached_region_panics (PH:=MockHal_PagingHandler) a64_as demo_hal
    0x9000000 0x9000000 0x1000 uncached_flags) as (res & s' & h' & Hrun & _ & Hp);
    [exact a64_as_wf|by repeat split|by repeat split|by left|reflexivity|reflexivity|reflexivity|].
  assert (a64_reply (Done (res, (s', h'))) = true) as Hok
    by (rewrite <- Hrun; vm_compute; reflexivity).
  destruct res as [[]|]; [|discriminate].
  exists s', h'. split; [exact Hrun|]. apply Hp; [reflexivity|lia].
Defined.
End witness.
