(* ===== verification/Ownership.v ===== *)
(** Ownership of frames: with an allocator that does not hand out a frame
    twice, no two pages of the allocating areas of an address space ever share
    a frame, and no frame that is mapped there was given back. *)
From S2P Require Import Prelude Crates RefCrates Ept PageTable.
From S2P Require Import Backend AddrSpace AddrSpaceInv AddrSpaceSpec AddrSpaceRun AddrSpaceRefine.
Import BackendOps(region_ok, backend_ok, flags_ok, backed, frame_at, frames_at, dealloc_all,
  mapping_flags, frame_ok).
Import AddrSpace(va_range, areas, pt).
Local Open Scope Z_scope.

(** What a frame allocator promises: the frames that are handed out and not
    given back are [live], and a new frame is none of them. *)
Class FrameOwnership `{PagingHandler} := {
  live : hal -> gset Z;
  live_alloc h f h' : alloc_frame h = (Some f, h') -> (f ∉ live h) /\ live h' = {[f]} ∪ live h;
  live_refused h h' : alloc_frame h = (None, h') -> live h' = live h;
  live_dealloc h f : live h ∖ {[f]} ⊆ live (dealloc_frame f h)
}.

Section ownership.
Context {BP : BuildProfile} `{BF : Bitflags} `{MA : MemoryAddr} `{MAL : !MemoryAddrLaws}.
Context `{PH : PagingHandler} `{FO : !FrameOwnership} `{PT : !PageTable64} `{PV : !PageTableView}.
Context `{PTE : GenericPTE} `{MD : PagingMetaData}.
Context `{PTEL : !GenericPTELaws} `{PTL : !PageTableLaws} `{PHL : !PagingHandlerLaws}.
Context `{MS : !MemorySetOps world Backend} `{MSL : !MemorySetLaws world Backend}.
Implicit Types (h : hal) (a b : MemoryArea Backend) (s : AddrSpace.AddrSpace) (p : PageTable).

Lemma live_allocs h fs h' : allocs h fs h' -> live h ⊆ live h'.
Proof.
  induction 1 as [h|h f h1 fs h' Ha _ IH|h h1 fs h' Ha _ IH]; [done| |].
  - apply live_alloc in Ha as [_ Hl]. rewrite Hl in IH. intros x Hx. apply IH. by apply elem_of_union_r.
  - apply live_refused in Ha as Hl. by rewrite <- Hl.
Qed.

Lemma live_dealloc_all fs h f : f ∈ live h -> f ∉ fs -> f ∈ live (dealloc_all fs h).
Proof.
  revert h. induction fs as [|g fs IH]; intros h Hf Hn; simpl; [done|].
  apply not_elem_of_cons in Hn as [Hne Hn]. apply IH; [|done].
  apply live_dealloc. set_solver.
Qed.

Lemma elem_of_frames_at p ps f : f ∈ frames_at p ps -> exists q, q ∈ ps /\ frame_at p q = Some f.
Proof.
  induction ps as [|q ps IH]; simpl; [by intros ?%elem_of_nil|].
  intros [Hf|Hf]%elem_of_app.
  - exists q. split; [by left|]. destruct (frame_at p q) as [g|]; simpl in Hf.
    + by apply list_elem_of_singleton in Hf as ->.
    + by apply elem_of_nil in Hf.
  - destruct (IH Hf) as (q' & ? & ?). exists q'. split; [by right|done].
Qed.

Lemma frame_at_entry p p' q : pt_entry p' q = pt_entry p q -> frame_at p' q = frame_at p q.
Proof. unfold frame_at. by intros ->. Qed.

Lemma frame_at_grows p p' q : grows p p' q -> frame_at p' q = frame_at p q.
Proof.
  intros [He|(He & e & He' & Hu)]; [by apply frame_at_entry|].
  unfold frame_at. by rewrite He, He', (unused_not_present e Hu).
Qed.

Lemma frame_at_new_page p q f fl g :
  frame_ok f -> pt_entry p q = Some (pte_new_page f fl false, Size4K) ->
  frame_at p q = Some g -> g = f.
Proof.
  intros [Hfa Hf] He. unfold frame_at. rewrite He. case_match; [|done].
  rewrite pte_new_page_paddr by done. congruence.
Qed.

(** The frames a populated mapping uses are new and all different. *)
Definition fresh_frames h h' p' (ps : list Z) : Prop :=
  forall q f, q ∈ ps -> frame_at p' q = Some f ->
    (f ∉ live h) /\ f ∈ live h' /\ forall q', q' ∈ ps -> frame_at p' q' = Some f -> q' = q.

Lemma map_alloc_loop_fresh ps fl h p h' p' :
  page_list ps ->
  BackendOps.map_alloc_loop ps fl (h, p) = Done (true, (h', p')) -> fresh_frames h h' p' ps.
Proof.
  revert h p. induction ps as [|q ps IH]; intros h p Hl Hrun; [by intros q f ?%elem_of_nil|].
  pose proof (page_list_cons q ps) as [Hc _]. destruct (Hc Hl) as (Ha & Hv & Hni & Hl').
  cbn [BackendOps.map_alloc_loop] in Hrun. unfold mbind, M_bind in Hrun.
  unfold BackendOps.h_alloc_frame at 1 in Hrun.
  destruct (alloc_frame h) as [[f|] h0] eqn:Hf; [|done].
  destruct (alloc_frame_spec _ _ _ Hf) as [Hfa Hfb].
  destruct (live_alloc _ _ _ Hf) as [Hfn Hfl].
  destruct (pt_map_spec h0 p q f fl Hv) as (r & h1 & p1 & Hm & _ & [fs Hfs] & Hg & Hcase).
  rewrite Hm in Hrun. destruct r as [[]|e]; [|done]. simpl in Hrun.
  destruct Hcase as [_ Hent]. rewrite page_of_aligned in Hent by done.
  pose proof (live_allocs _ _ _ Hfs) as Hl1.
  destruct (BackendOps.map_alloc_loop_spec ps fl h1 p1 Hl')
    as (ok & h2 & p2 & Hm2 & _ & [fs2 Hfs2] & Hg2 & _).
  rewrite Hrun in Hm2. injection Hm2 as <- <- <-. pose proof (live_allocs _ _ _ Hfs2) as Hl2.
  specialize (IH h1 p1 Hl' Hrun).
  assert (forall g, frame_at p' q = Some g -> g = f) as Hq.
  { intros g. apply (frame_at_new_page p' q f fl); [done|].
    eapply grows_entry; [|exact Hent]. apply Hg2; [done|]. by rewrite page_of_aligned. }
  assert (f ∈ live h1) as Hf1.
  { apply Hl1. rewrite Hfl. by apply elem_of_union_l, elem_of_singleton. }
  intros q0 g [->|Hq0]%elem_of_cons Hg0.
  - apply Hq in Hg0 as ->. split; [done|]. split; [by apply Hl2|].
    intros q' [->|Hq']%elem_of_cons Hg'; [done|]. by destruct (IH q' f Hq' Hg') as [[] _].
  - destruct (IH q0 g Hq0 Hg0) as (Hn & Hi & Hu). split; [|split; [done|]].
    { intros Hx. apply Hn, Hl1. rewrite Hfl. by apply elem_of_union_r. }
    intros q' [->|Hq']%elem_of_cons Hg'; [|by apply Hu].
    apply Hq in Hg' as ->. by destruct Hn.
Qed.

(** ** The invariant *)

(** The pages of the allocating areas. *)
Definition alloc_page s (q : Z) : Prop :=
  q mod PAGE_SIZE = 0 /\ exists a pop,
    a ∈ ms_iter (areas s) /\ area_contains a q /\ area_backend a = Alloc pop.

(** Every mapped frame of an allocating area is live and belongs to one page
    only. *)
Definition owns s h : Prop :=
  forall q f, alloc_page s q -> frame_at (pt s) q = Some f ->
    f ∈ live h /\ forall q', alloc_page s q' -> frame_at (pt s) q' = Some f -> q' = q.

Lemma alloc_page_va_ok s q : wf s -> alloc_page s q -> va_ok q.
Proof.
  intros Hwf (_ & a & pop & Ha & Hq & _). apply (in_space_va_ok s); [done|].
  by apply (area_in_space s a).
Qed.

(** [f] is mapped at a page of an allocating area. *)
Definition in_use s (f : Z) : Prop := exists q, alloc_page s q /\ frame_at (pt s) q = Some f.

(** What a request does to the frames: some pages get new frames, the other
    pages there are have the frames they had, still live, and a live frame
    that was not in use stays live. *)
Definition frame_step s h s' h' : Prop :=
  exists new,
    (forall q, alloc_page s' q -> q ∈ new \/
       alloc_page s q /\ frame_at (pt s') q = frame_at (pt s) q /\
       forall f, frame_at (pt s) q = Some f -> f ∈ live h -> f ∈ live h') /\
    fresh_frames h h' (pt s') new /\
    (forall f, f ∈ live h -> ~ in_use s f -> f ∈ live h').

Lemma frame_step_refl s h : frame_step s h s h.
Proof.
  exists []. split; [by right|]. split; [by intros q f ?%elem_of_nil|done].
Qed.

Lemma owns_step s h s' h' : owns s h -> frame_step s h s' h' -> owns s' h'.
Proof.
  intros Ho (new & Hp & Hfr & _) q f Hq Hf. destruct (Hp q Hq) as [Hn|(Hq0 & E & Hl)].
  - destruct (Hfr q f Hn Hf) as (Hnew & Hlive & Hu). split; [done|].
    intros q' Hq' Hf'. destruct (Hp q' Hq') as [Hn'|(Hq0' & E' & _)]; [by apply Hu|].
    rewrite E' in Hf'. by destruct Hnew; apply (Ho q' f).
  - pose proof Hf as Hf1. rewrite E in Hf1. destruct (Ho q f Hq0 Hf1) as [Hlive Hu].
    split; [by apply Hl|]. intros q' Hq' Hf'.
    destruct (Hp q' Hq') as [Hn'|(Hq0' & E' & _)]; [|rewrite E' in Hf'; by apply Hu].
    by destruct (Hfr q' f Hn' Hf') as [[] _].
Qed.

(** A frame that is handed out but not in use stays so. *)
Lemma orphan_step s h s' h' f :
  frame_step s h s' h' -> f ∈ live h /\ ~ in_use s f -> f ∈ live h' /\ ~ in_use s' f.
Proof.
  intros (new & Hp & Hfr & Hl) [Hf Hn]. split; [by apply Hl|]. intros (q & Hq & Hqf).
  destruct (Hp q Hq) as [Hnew|(Hq0 & E & _)].
  - by destruct (Hfr q f Hnew Hqf) as [[] _].
  - apply Hn. exists q. by rewrite <- E.
Qed.

(** ** The operations *)

(** The frames of the pages of a new area, whatever its backend. *)
Lemma backend_map_fresh be start size fl h p h' p' :
  region_ok start size -> backend_ok be start ->
  BackendOps.map be start size fl (h, p) = Done (true, (h', p')) ->
  (exists pop, be = Alloc pop) -> fresh_frames h h' p' (pages start (page_count size)).
Proof.
  intros Hr Hb Hrun [[] ->].
  - simpl in Hrun. pose proof Hr as (Ha & Hs & H0 & H1 & Hlim & Hmod).
    unfold BackendOps.map_alloc, mbind, M_bind in Hrun.
    rewrite addr_add_spec in Hrun by done. cbn [lift] in Hrun.
    rewrite page_iter_4k_spec in Hrun by done. cbn [unwrap lift] in Hrun.
    eapply map_alloc_loop_fresh; [|exact Hrun]. by apply BackendOps.region_pages.
  - destruct (BackendOps.lazy_map_spec start size fl h p Hr) as (ok & h1 & p1 & Hm & He).
    rewrite Hrun in Hm. injection Hm as <- <- <-. intros q f Hq Hf. exfalso.
    unfold frame_at in Hf. rewrite (He eq_refl q Hq), pte_empty_not_present in Hf. done.
Qed.

Lemma map_area_step s h a res s' h' :
  wf s -> 0 <= area_size a -> area_start a mod PAGE_SIZE = 0 ->
  area_size a mod PAGE_SIZE = 0 ->
  range_start (va_range s) <= area_start a -> area_end a <= range_end (va_range s) ->
  backend_ok (area_backend a) (area_start a) -> flags_ok (area_backend a) (area_flags a) ->
  AddrSpace.on_areas (ms_map a false) (s, h) = Done (res, (s', h')) -> frame_step s h s' h'.
Proof.
  intros Hwf Hsz Has Hss Hlo Hhi Hb Hf Hrun.
  destruct (map_area_spec s h a) as (res1 & s1 & h1 & Hrun1 & Hwf' & Hr & _ & [fs Hfs] & Hg & Hcase);
    [done..|].
  rewrite Hrun in Hrun1. injection Hrun1 as <- <- <-. pose proof (live_allocs _ _ _ Hfs) as Hlv.
  assert (forall q, alloc_page s q -> ~ area_contains a q ->
    frame_at (pt s') q = frame_at (pt s) q) as Hold.
  { intros q Hq Hna. apply frame_at_grows, Hg; [by apply (alloc_page_va_ok s)|done]. }
  destruct (map_area_cases s h a Hsz) as (_ & _ & Hfresh).
  destruct res as [[]|[]]; [|destruct Hcase as (_ & -> & ->); apply frame_step_refl|
    destruct Hcase as (_ & _ & -> & ->); apply frame_step_refl|].
  - destruct Hcase as (Hpos & Hno & Hit & _). specialize (Hfresh Hpos Hno).
    assert (region_ok (area_start a) (area_size a)) as Hreg.
    { destruct Hwf as [(? & ? & ?) _]. unfold region_ok, area_end in *. repeat split; (done || lia). }
    apply not_Exists_Forall in Hno; [|apply _]. rewrite Forall_forall in Hno.
    destruct (BackendOps.map_spec (area_backend a) (area_start a) (area_size a) (area_flags a)
      h (pt s)) as (ok & h1 & p1 & Hm & _); [done|done|].
    rewrite Hm in Hfresh. destruct ok; [|by rewrite Hfresh in Hrun].
    destruct Hfresh as (ars & Hrun2 & _). rewrite Hrun in Hrun2. injection Hrun2 as -> ->.
    exists (match area_backend a with
            | Alloc _ => pages (area_start a) (page_count (area_size a))
            | Linear _ => []
            end). split; [|split; [|by intros; apply Hlv]].
    + intros q (Hqa & b & pop & Hbi & Hbq & Hbb). rewrite Hit in Hbi.
      apply elem_of_cons in Hbi as [->|Hbi].
      * left. rewrite Hbb. by apply elem_of_pages_region.
      * assert (alloc_page s q) as Hq by (split; [done|eauto 10]). right. split; [done|].
        split; [|by intros; apply Hlv]. apply Hold; [done|]. intros Haq. by eapply no_overlap_contains; [apply (Hno b)|..].
    + destruct (area_backend a) as [off|pop] eqn:Hbe; [by intros q f ?%elem_of_nil|].
      eapply backend_map_fresh; [done|done|exact Hm|eauto].
  - destruct Hcase as (Hpos & Hno & Har & _).
    apply not_Exists_Forall in Hno; [|apply _]. rewrite Forall_forall in Hno.
    exists []. split; [|split; [by intros q f ?%elem_of_nil|by intros; apply Hlv]].
    intros q Hq. unfold alloc_page in Hq. rewrite Har in Hq. right. split; [done|].
    split; [|by intros; apply Hlv]. apply Hold; [done|]. destruct Hq as (_ & b & pop & Hbi & Hbq & _). intros Haq.
    by eapply no_overlap_contains; [apply (Hno b)|..].
Qed.

Lemma map_linear_step s h va pa size fl res s' h' :
  wf s -> fits va size -> usize pa -> mapping_flags fl ->
  overflow_checks = false \/ pa <= va ->
  AddrSpace.map_linear va pa size fl (s, h) = Done (res, (s', h')) -> frame_step s h s' h'.
Proof.
  intros Hwf Hfit Hpa Hm Hc Hrun. rewrite map_linear_unfold in Hrun by done.
  destruct (linear_request_ok s va pa size) eqn:Hok;
    [|injection Hrun as <- <- <-; apply frame_step_refl].
  unfold linear_request_ok, in_range, aligned in Hok. zbool.
  pose proof Hfit as (Hva & Hsz & Hend).
  destruct (linear_offset_ok va pa) as [Hoff Hback]; [done..|]. rewrite Hoff in Hrun.
  apply M_bind_inv in Hrun as (r & [s1 h1] & Hma & Hret). injection Hret as _ -> ->.
  eapply (map_area_step s h); [done| | | | | | | |exact Hma]; area_side.
Qed.

Lemma map_alloc_step s h start size fl pop res s' h' :
  wf s -> fits start size ->
  AddrSpace.map_alloc start size fl pop (s, h) = Done (res, (s', h')) -> frame_step s h s' h'.
Proof.
  intros Hwf Hfit Hrun. rewrite map_alloc_unfold in Hrun by done.
  destruct (alloc_request_ok s start size) eqn:Hok;
    [|injection Hrun as <- <- <-; apply frame_step_refl].
  unfold alloc_request_ok, in_range, aligned in Hok. zbool.
  pose proof Hfit as (Hva & Hsz & Hend).
  apply M_bind_inv in Hrun as (r & [s1 h1] & Hma & Hret). injection Hret as _ -> ->.
  eapply (map_area_step s h); [done| | | | | | | |exact Hma]; area_side.
Qed.

Lemma elem_of_area_frames s a f :
  wf s -> area_ok (va_range s) a -> f ∈ area_frames (pt s) a ->
  exists q pop, q mod PAGE_SIZE = 0 /\ area_contains a q /\ area_backend a = Alloc pop /\
    frame_at (pt s) q = Some f.
Proof.
  intros [Hr _] Ha. unfold area_frames.
  destruct (area_backend a) as [off|pop]; [by intros ?%elem_of_nil|].
  intros (q & Hq & Hf)%elem_of_frames_at. apply (area_pages (va_range s)) in Hq as [Hq Hqa]; [|done..].
  eauto 10.
Qed.

(** A frame of a part of an area is in use at a page of that part. *)
Lemma cut_frames_in_use s start size f :
  wf s -> start mod PAGE_SIZE = 0 -> size mod PAGE_SIZE = 0 -> 0 <= size ->
  f ∈ areas_within s start size ≫= area_frames (pt s) ->
  exists q, alloc_page s q /\ frame_at (pt s) q = Some f /\ start <= q < start + size.
Proof.
  intros Hwf Hs Hz H0 (c & Hfc & Hc)%list_elem_of_bind.
  apply list_elem_of_bind in Hc as (a & Hc & Ha).
  pose proof (area_ok_cut _ a c start size Hs Hz H0 (wf_area_ok s a Hwf Ha) Hc) as Hokc.
  destruct (elem_of_area_frames s c f Hwf Hokc Hfc) as (q & pop & Hqa & Hqc & Hbc & Hf).
  pose proof (area_cut_elem _ _ _ _ Hc) as (_ & Hbe & _).
  destruct (proj1 (area_cut_contains a start (start + size) q)) as [Haq Hin]; [eauto|].
  exists q. split; [|done]. split; [done|]. exists a, pop. by rewrite <- Hbe.
Qed.

Lemma area_frames_in_use s f :
  wf s -> f ∈ ms_iter (areas s) ≫= area_frames (pt s) -> in_use s f.
Proof.
  intros Hwf (a & Hfa & Ha)%list_elem_of_bind.
  destruct (elem_of_area_frames s a f Hwf (wf_area_ok s a Hwf Ha) Hfa)
    as (q & pop & Hqa & Hqc & Hbc & Hf).
  exists q. split; [|done]. split; [done|]. by exists a, pop.
Qed.

Lemma unmap_step s h start size res s' h' :
  wf s -> owns s h -> fits start size ->
  AddrSpace.unmap start size (s, h) = Done (res, (s', h')) -> frame_step s h s' h'.
Proof.
  intros Hwf Ho Hfit Hrun. rewrite unmap_unfold in Hrun by done.
  destruct (alloc_request_ok s start size) eqn:Hok;
    [|injection Hrun as <- <- <-; apply frame_step_refl].
  unfold alloc_request_ok, in_range, aligned in Hok. zbool.
  pose proof Hfit as (Hva & Hsz & Hend). unfold usize in *.
  destruct (remove_range_spec s h start size)
    as (s1 & h1 & cut & Hrun1 & Hwf' & Hr & _ & Hit & Hcut & -> & _ & He);
    [done|done|done|lia|lia|done|].
  rewrite (M_bind_Done _ _ _ _ _ Hrun1) in Hrun. injection Hrun as _ <- <-.
  assert (forall f, f ∈ cut ≫= area_frames (pt s) -> exists q, alloc_page s q /\
    frame_at (pt s) q = Some f /\ start <= q < start + size) as Hfreed.
  { intros f Hf. rewrite Hcut in Hf. by apply (cut_frames_in_use s start size f); [..|lia|]. }
  exists []. split; [|split; [by intros q f ?%elem_of_nil|]].
  - intros q (Hqa & b & pop & Hb & Hq & Hbb). right. rewrite Hit in Hb.
    apply list_elem_of_bind in Hb as (a & Hb & Ha).
    pose proof (wf_area_ok s a Hwf Ha) as [Hpos _].
    pose proof (area_rest_elem _ _ _ _ Hpos Hb) as (_ & Hbe & _).
    destruct (proj1 (area_rest_contains a start (start + size) q ltac:(lia))) as [Haq Hout];
      [eauto|].
    assert (alloc_page s q) as Hq0 by (split; [done|]; exists a, pop; by rewrite <- Hbe).
    split; [done|]. split.
    + apply frame_at_entry, He; [by apply (alloc_page_va_ok s)|]. by intros.
    + intros f Hf Hlive. apply live_dealloc_all; [done|].
      intros (q' & Hq' & Hf' & Hin)%Hfreed. destruct (Ho q f Hq0 Hf) as [_ Hu].
      by rewrite (Hu q') in Hin.
  - intros f Hlive Hn. apply live_dealloc_all; [done|].
    intros (q' & Hq' & Hf' & _)%Hfreed. apply Hn. by exists q'.
Qed.

Lemma fault_step s h v access res s' h' :
  wf s -> AddrSpace.handle_page_fault v access (s, h) = Done (res, (s', h')) ->
  frame_step s h s' h'.
Proof.
  intros Hwf Hrun. destruct (fault_cases s v access Hwf) as [(a & Hlf)|Hno].
  2:{ rewrite fault_refused in Hrun by done. injection Hrun as <- <- <-. apply frame_step_refl. }
  pose proof (fault_served s h v access a Hwf Hlf) as Hs.
  destruct (alloc_frame h) as [[f|] h1] eqn:Hal.
  - destruct Hs as (p' & Hrun1 & Hwf' & _ & Hf & He & Hso).
    rewrite Hrun in Hrun1. injection Hrun1 as -> -> ->.
    destruct (live_alloc _ _ _ Hal) as [Hn Hl].
    assert (live h ⊆ live h1) as Hlv by (rewrite Hl; apply union_subseteq_r).
    exists [page_of v]. split; [|split; [|by intros; apply Hlv]].
    + intros q Hq. destruct (decide (q = page_of v)) as [->|Hne]; [by left; left|].
      right. split; [done|]. split; [|by intros; apply Hlv].
      apply frame_at_entry, Hso; [by apply (alloc_page_va_ok s)|].
      destruct Hq as [Hqa _]. rewrite page_of_aligned by done. by apply not_elem_of_single.
    + intros q g ->%list_elem_of_singleton Hg. simpl in Hg.
      rewrite <- (pt_entry_page p' v) in He.
      rewrite (frame_at_new_page _ _ _ _ _ Hf He Hg), Hl.
      split; [done|]. split; [by apply elem_of_union_l, elem_of_singleton|].
      by intros q' ->%list_elem_of_singleton.
  - rewrite Hs in Hrun. injection Hrun as _ <- <-. pose proof (live_refused _ _ Hal) as Hl.
    exists []. rewrite Hl. split; [by right|]. split; [by intros q f ?%elem_of_nil|done].
Qed.

Lemma clear_step s h u s' h' :
  wf s -> AddrSpace.clear (s, h) = Done (u, (s', h')) -> frame_step s h s' h'.
Proof.
  intros Hwf Hrun. destruct (clear_run s h Hwf) as (s1 & l & Hrun1 & Hl & _ & _ & _ & Hit & _).
  rewrite Hrun in Hrun1. injection Hrun1 as -> -> ->.
  exists []. split; [|split; [by intros q f ?%elem_of_nil|]].
  - intros q (_ & a & pop & Ha & _). rewrite Hit in Ha. by apply elem_of_nil in Ha.
  - intros f Hlive Hn. apply live_dealloc_all; [done|]. rewrite Hl. intros Hf.
    by apply Hn, area_frames_in_use.
Qed.

Lemma perform_step s h q r s' h' :
  wf s -> owns s h -> valid q -> perform q (s, h) = Done (r, (s', h')) -> frame_step s h s' h'.
Proof.
  intros Hwf Ho Hv. destruct q as [va pa size fl|start size fl pop|start size|v access|];
    simpl in *; intros (x & [s1 h1] & Hrun & Hret)%M_bind_inv; injection Hret as _ -> ->.
  - destruct Hv as (? & ? & _ & [? _] & ?).
    eapply map_linear_step; [exact Hwf|..|exact Hrun]; done.
  - destruct Hv as (? & _). eapply map_alloc_step; [exact Hwf|done|exact Hrun].
  - eapply unmap_step; [exact Hwf|exact Ho|exact Hv|exact Hrun].
  - eapply fault_step; [exact Hwf|exact Hrun].
  - eapply clear_step; [exact Hwf|exact Hrun].
Qed.

Lemma perform_all_owns qs s h rs s' h' :
  wf s -> owns s h -> Forall valid qs ->
  perform_all qs (s, h) = Done (rs, (s', h')) ->
  wf s' /\ owns s' h' /\
  forall f, f ∈ live h /\ ~ in_use s f -> f ∈ live h' /\ ~ in_use s' f.
Proof.
  intros Hwf Ho Hv. revert s h rs Hwf Ho. induction Hv as [|q qs Hq Hv IH]; intros s h rs Hwf Ho; simpl.
  { by intros [= _ <- <-]. }
  destruct (perform_wf s h q Hwf Hq) as (r & s1 & h1 & Hrun & Hwf1).
  rewrite (M_bind_Done _ _ _ _ _ Hrun). intros (rs' & [s2 h2] & Hall & Hret)%M_bind_inv.
  injection Hret as _ -> ->.
  pose proof (perform_step s h q r s1 h1 Hwf Ho Hq Hrun) as Hstep.
  destruct (IH s1 h1 rs' Hwf1 (owns_step _ _ _ _ Ho Hstep) Hall) as (? & ? & Horph).
  split; [done|]. split; [done|]. intros f Hf. apply Horph. by eapply orphan_step.
Qed.

(** The frames of an address space that [new_empty] made. *)
Lemma new_empty_owns h base size s h' qs rs s' h2 :
  usize base -> usize size -> base + size <= va_limit ->
  AddrSpace.new_empty base size h = Done (Ok s, h') -> Forall valid qs ->
  perform_all qs (s, h') = Done (rs, (s', h2)) -> wf s' /\ owns s' h2.
Proof.
  intros Hb Hs Hl Hnew Hv Hrun.
  destruct (new_empty_refines h base size s h') as [Hwf _ _ Hit _ _]; [done..|].
  destruct (perform_all_owns qs s h' rs s' h2 Hwf) as (Hwf' & Ho & _); [|done|done|done].
  intros q f (_ & a & pop & Ha & _). rewrite <- Hit in Ha. by apply elem_of_nil in Ha.
Qed.

(** The frame behind the translation of an address in an allocating area. *)
Lemma translate_frame s a pop v pa :
  wf s -> a ∈ ms_iter (areas s) -> area_contains a v -> area_backend a = Alloc pop ->
  AddrSpace.translate s v = Done (Some pa) ->
  alloc_page s (page_of v) /\ frame_at (pt s) (page_of v) = Some (page_of pa).
Proof.
  intros Hwf Ha Hv Hb Ht. split.
  { split; [apply page_of_mod|]. exists a, pop. split; [done|]. split; [|done].
    by eapply area_contains_page; [apply (wf_area_ok s)|]. }
  destruct (wf_entry s a v Hwf Ha Hv) as (e & He & Hpe).
  rewrite translate_entry, He in Ht by (try done; by apply (area_in_space s a)).
  unfold frame_at. rewrite pt_entry_page, He.
  destruct (pte_is_present e) eqn:Hp; [|done]. destruct (pte_flags e); [|done..].
  injection Ht as <-. f_equal. change (page_bytes Size4K) with PAGE_SIZE.
  assert (exists f, frame_ok f /\ e = pte_new_page f (area_flags a) false) as (f & [Hfa Hf] & ->).
  { unfold BackendOps.page_entry in Hpe. rewrite Hb in Hpe. destruct pop; [done|].
    destruct Hpe as [->|?]; [by rewrite pte_empty_not_present in Hp|done]. }
  rewrite pte_new_page_paddr by done. unfold page_of, PAGE_SIZE in *.
  Z.div_mod_to_equations. lia.
Qed.

(** C2. No aliasing: whatever valid requests a new address space serves, with
    whatever answers, two addresses of different pages of its allocating
    areas never translate into the same frame, and the frames they translate
    into are ones the allocator still regards as handed out.  (It relies on
    an allocator that never hands out a frame that it has not got back.) *)
Theorem no_frame_aliasing h base size s h' qs rs s' h2 :
  usize base -> usize size -> base + size <= va_limit ->
  AddrSpace.new_empty base size h = Done (Ok s, h') -> Forall valid qs ->
  perform_all qs (s, h') = Done (rs, (s', h2)) ->
  forall a b pop pop' v w pa pa',
    a ∈ ms_iter (areas s') -> area_contains a v -> area_backend a = Alloc pop ->
    b ∈ ms_iter (areas s') -> area_contains b w -> area_backend b = Alloc pop' ->
    AddrSpace.translate s' v = Done (Some pa) -> AddrSpace.translate s' w = Done (Some pa') ->
    page_of pa ∈ live h2 /\ (page_of pa = page_of pa' -> page_of v = page_of w).
Proof.
  intros Hb Hs Hl Hnew Hv Hrun.
  destruct (new_empty_owns h base size s h' qs rs s' h2) as [Hwf' Ho]; [done..|].
  intros a b pop pop' v w pa pa' Ha Hav Hab Hb' Hbw Hbb Ht Ht'.
  destruct (translate_frame s' a pop v pa) as [Hq Hf]; [done..|].
  destruct (translate_frame s' b pop' w pa') as [Hq' Hf']; [done..|].
  destruct (Ho _ _ Hq Hf) as [Hlive Hu]. split; [done|]. intros E.
  symmetry. apply Hu; [done|]. by rewrite E.
Qed.

(** C27. A second fault on a page of a lazy area that is already backed (two
    processors of the guest that touch it at the same time, say) is served
    like the first and loses the former frame for good: it is still handed
    out, no page uses it, and whatever requests follow, [clear] included, it
    is never given back. *)
Theorem refault_leaks_frame h base size s h1 qs rs s1 h2 v access a pa f h3 :
  usize base -> usize size -> base + size <= va_limit ->
  AddrSpace.new_empty base size h = Done (Ok s, h1) -> Forall valid qs ->
  perform_all qs (s, h1) = Done (rs, (s1, h2)) ->
  lazy_fault s1 v access a -> AddrSpace.translate s1 v = Done (Some pa) ->
  alloc_frame h2 = (Some f, h3) ->
  exists s2, AddrSpace.handle_page_fault v access (s1, h2) = Done (true, (s2, h3)) /\
    forall qs' rs' s4 h4, Forall valid qs' ->
      perform_all qs' (s2, h3) = Done (rs', (s4, h4)) ->
      page_of pa ∈ live h4 /\ ~ in_use s4 (page_of pa).
Proof.
  intros Hb Hs Hl Hnew Hv Hrun Hlf Ht Hal.
  destruct (new_empty_owns h base size s h1 qs rs s1 h2) as [Hwf Ho]; [done..|].
  pose proof Hlf as (Ha & Hav & _ & Hbe).
  destruct (translate_frame s1 a false v pa) as [Hq Hf]; [done..|].
  destruct (Ho _ _ Hq Hf) as [Hlive Hu]. destruct (live_alloc _ _ _ Hal) as [Hnew' Hl3].
  pose proof (fault_served s1 h2 v access a Hwf Hlf) as Hserved. rewrite Hal in Hserved.
  destruct Hserved as (p' & Hf1 & Hwf2 & _ & Hfo & He & Hso).
  pose proof (fault_step s1 h2 v access true _ h3 Hwf Hf1) as Hstep.
  eexists. split; [exact Hf1|]. intros qs' rs' s4 h4 Hv' Hrun'.
  apply (perform_all_owns qs' _ h3 rs' s4 h4 Hwf2 (owns_step _ _ _ _ Ho Hstep) Hv' Hrun').
  split; [rewrite Hl3; by apply elem_of_union_r|]. intros (q & Hqa & Hqf). simpl in Hqf.
  destruct (decide (q = page_of v)) as [->|Hne].
  - rewrite <- (pt_entry_page p' v) in He.
    pose proof (frame_at_new_page _ _ _ _ _ Hfo He Hqf) as E. by rewrite E in Hlive.
  - rewrite (frame_at_entry (pt s1)) in Hqf.
    + by apply Hne, Hu.
    + apply Hso; [by apply (alloc_page_va_ok s1)|]. destruct Hqa as [Hqm _].
      rewrite page_of_aligned by done. by apply not_elem_of_single.
Qed.
End ownership.

(** * A reference allocator *)

Section ref_allocator.

(** Sixteen frames; the first one that is not in use is handed out. *)
Definition pool : list Z := pages 0x1000 16.

Definition pool_alloc (used : gset Z) : option Z * gset Z :=
  match list_find (fun f => f ∉ used) pool with
  | Some (_, f) => (Some f, {[f]} ∪ used)
  | None => (None, used)
  end.

Definition PoolHandler : PagingHandler := {|
  hal := gset Z;
  alloc_frame := pool_alloc;
  dealloc_frame f used := used ∖ {[f]};
  phys_to_virt p := Done p
|}.

Lemma pool_alloc_spec used f used' :
  pool_alloc used = (Some f, used') -> f ∈ pool /\ (f ∉ used) /\ used' = {[f]} ∪ used.
Proof.
  unfold pool_alloc. destruct (list_find _ pool) as [[i g]|] eqn:E; [|done].
  intros [= <- <-]. apply list_find_Some in E as (Hi & Hn & _).
  split; [by eapply list_elem_of_lookup_2|done].
Qed.

#[local] Existing Instance PoolHandler.

#[local] Instance PoolHandler_ownership : FrameOwnership.
Proof.
  refine (Build_FrameOwnership PoolHandler (fun used : gset Z => used) _ _ _).
  - intros h f h' Hal. by apply pool_alloc_spec in Hal as (_ & ? & ->).
  - intros h h'. simpl. unfold pool_alloc. case_match; [by case_match|by intros [= <-]].
  - intros h f. done.
Defined.

Import EPTEntry.

#[local] Instance PoolHandler_laws : PagingHandlerLaws.
Proof.
  constructor. intros h f h' Hal. apply pool_alloc_spec in Hal as (Hf & _).
  apply elem_of_pages in Hf as (i & Hi & ->). unfold pa_limit. simpl. zpage.
Defined.

#[local] Instance wrapping_build : BuildProfile := false.

Definition pool_flags : MappingFlags := Z.lor READ WRITE.

Definition pool_new : AddrSpace.AddrSpace * hal :=
  match AddrSpace.new_empty 0x10000 0x10000 (∅ : hal) with
  | Done (Ok s, h) => (s, h)
  | _ => (AddrSpace.mkAddrSpace (mkRange 0 0) ms_new (mkRefPT 0 ∅ ∅ []), ∅ : hal)
  end.

(** Two populated pages; one is unmapped and its frame is handed out again to
    a lazy page. *)
Definition pool_requests : list request :=
  [ReqMapAlloc 0x11000 0x2000 pool_flags true;
   ReqUnmap 0x11000 0x1000;
   ReqMapAlloc 0x15000 0x1000 pool_flags false;
   ReqFault 0x15000 READ].

Definition pool_end : AddrSpace.AddrSpace * hal :=
  match perform_all pool_requests pool_new with
  | Done (_, sh) => sh
  | _ => pool_new
  end.

Definition pool_replies : list reply :=
  match perform_all pool_requests pool_new with Done (rs, _) => rs | _ => [] end.

Lemma pool_new_run :
  AddrSpace.new_empty 0x10000 0x10000 (∅ : hal) = Done (Ok pool_new.1, pool_new.2).
Proof.
  assert (match AddrSpace.new_empty 0x10000 0x10000 (∅ : hal) with
          | Done (Ok _, _) => true | _ => false end = true) as Hok by (vm_compute; reflexivity).
  unfold pool_new. by destruct (AddrSpace.new_empty _ _ _) as [[[] ?]| | |].
Defined.

Lemma pool_run : perform_all pool_requests pool_new = Done (pool_replies, (pool_end.1, pool_end.2)).
Proof.
  assert (match perform_all pool_requests pool_new with
          | Done _ => true | _ => false end = true) as Hok by (vm_compute; reflexivity).
  unfold pool_end, pool_replies. by destruct (perform_all _ _) as [[? []]| | |].
Defined.

Lemma pool_requests_valid : Forall valid pool_requests.
Proof.
  assert (flags_readable pool_flags) as Hrd by (intros pa; eexists; reflexivity).
  repeat (apply Forall_cons; split); [..|done].
  all: simpl; unfold flags_good; repeat split; first [exact Hrd | done].
Defined.

Lemma no_frame_aliasing_witness :
  AddrSpace.translate pool_end.1 0x12345 = Done (Some 0x6345) /\
  AddrSpace.translate pool_end.1 0x15345 = Done (Some 0x2345) /\
  page_of 0x6345 ∈ live pool_end.2 /\
  (page_of 0x6345 = page_of 0x2345 -> page_of 0x12345 = page_of 0x15345).
Proof.
  split; [vm_compute; reflexivity|]. split; [vm_compute; reflexivity|].
  apply (no_frame_aliasing (∅ : hal) 0x10000 0x10000 pool_new.1 pool_new.2 pool_requests
    pool_replies pool_end.1 pool_end.2) with
    (a := mkArea 0x12000 0x1000 pool_flags (Alloc true))
    (b := mkArea 0x15000 0x1000 pool_flags (Alloc false)) (pop := true) (pop' := false).
  - by repeat split.
  - by repeat split.
  - by vm_compute.
  - exact pool_new_run.
  - exact pool_requests_valid.
  - rewrite <- surjective_pairing. exact pool_run.
  - vm_compute. set_solver.
  - by repeat split.
  - reflexivity.
  - vm_compute. set_solver.
  - by repeat split.
  - reflexivity.
  - vm_compute. reflexivity.
  - vm_compute. reflexivity.
Defined.

(** The lazy page of [pool_requests] faults again, and then everything is
    cleared: the frame 0x2000 is still handed out. *)
Definition pool_refault : AddrSpace.AddrSpace * hal :=
  match AddrSpace.handle_page_fault 0x15345 READ pool_end with
  | Done (_, sh) => sh
  | _ => pool_end
  end.

Definition pool_cleared : AddrSpace.AddrSpace * hal :=
  match perform_all [ReqClear] pool_refault with Done (_, sh) => sh | _ => pool_refault end.

Lemma refault_leaks_frame_witness :
  AddrSpace.translate pool_end.1 0x15345 = Done (Some 0x2345) /\ page_of 0x2345 ∈ live pool_cleared.2.
Proof.
  assert ((alloc_frame pool_end.2).1 = Some 0x7000) as Hg by (vm_compute; reflexivity).
  destruct (alloc_frame pool_end.2) as [o h3] eqn:Hal. cbn [fst] in Hg. subst o.
  destruct (refault_leaks_frame (∅ : hal) 0x10000 0x10000 pool_new.1 pool_new.2 pool_requests
    pool_replies pool_end.1 pool_end.2 0x15345 READ
    (mkArea 0x15000 0x1000 pool_flags (Alloc false)) 0x2345 0x7000 h3) as (s2 & Hf & Hall).
  - by repeat split.
  - by repeat split.
  - by vm_compute.
  - exact pool_new_run.
  - exact pool_requests_valid.
  - rewrite <- surjective_pairing. exact pool_run.
  - split; [vm_compute; set_solver|]. by repeat split.
  - vm_compute. reflexivity.
  - exact Hal.
  - split; [vm_compute; reflexivity|].
    assert (pool_refault = (s2, h3)) as Hr.
    { rewrite <- surjective_pairing in Hf. unfold pool_refault. by rewrite Hf. }
    assert (match perform_all [ReqClear] pool_refault with
            | Done _ => true | _ => false end = true) as Hok by (vm_compute; reflexivity).
    revert Hok. unfold pool_cleared. rewrite Hr.
    destruct (perform_all [ReqClear] (s2, h3)) as [[rs [s4 h4]]| | |] eqn:Hc; [|done..].
    intros _. apply (Hall [ReqClear] rs s4 h4); [by repeat constructor|exact Hc].
Defined.
End ref_allocator.
