(* ===== verification/Conservation.v ===== *)
(** Conservation of frames: as long as no mapping fails half way and no backed
    page faults again, the frames an address space holds are exactly those of
    its tables and those mapped in its allocating areas, and dropping it gives
    the allocator back what it had before. *)
From S2P Require Import Prelude Crates RefCrates Ept PageTable.
From S2P Require Import Backend AddrSpace AddrSpaceInv AddrSpaceSpec AddrSpaceRun AddrSpaceRefine.
From S2P Require Import Ownership.
Import BackendOps(region_ok, backend_ok, flags_ok, backed, frame_at, frames_at, dealloc_all,
  mapping_flags, frame_ok).
Import AddrSpace(va_range, areas, pt).
Local Open Scope Z_scope.

(** [T] are new frames, taken from the allocator for tables. *)
Definition tables_taken `{FrameOwnership} `{!PageTable64} (tables : PageTable -> gset Z)
    (T : gset Z) (w w' : hal * PageTable) : Prop :=
  T ## live w.1 /\ live w'.1 = T ∪ live w.1 /\ tables w'.2 = T ∪ tables w.2.

(** What the allocator and the page table promise about frames: a frame that
    is given back, and no other, is not handed out any more; a page table
    takes frames for its tables only, keeps them until it is dropped, and gives
    exactly them back then. *)
Class FrameAccounting `{FrameOwnership} `{!PageTable64} := {
  pt_tables : PageTable -> gset Z;
  live_dealloc_exact h f : live (dealloc_frame f h) = live h ∖ {[f]};
  pt_try_new_tables h p h' :
    pt_try_new h = Done (Ok p, h') -> pt_tables p ## live h /\ live h' = pt_tables p ∪ live h;
  pt_map_tables v pa sz fl w r w' :
    pt_map v pa sz fl w = Done (r, w') -> exists T, tables_taken pt_tables T w w';
  pt_map_region_tables start get size fl huge flush w r w' :
    pt_map_region start get size fl huge flush w = Done (r, w') ->
    exists T, tables_taken pt_tables T w w';
  pt_remap_tables v pa fl w r w' :
    pt_remap v pa fl w = Done (r, w') -> pt_tables w'.2 = pt_tables w.2;
  pt_unmap_tables v w r w' : pt_unmap v w = Done (r, w') -> pt_tables w'.2 = pt_tables w.2;
  pt_unmap_region_tables start size flush w r w' :
    pt_unmap_region start size flush w = Done (r, w') -> pt_tables w'.2 = pt_tables w.2;
  pt_drop_tables p h : live (pt_drop p h) = live h ∖ pt_tables p
}.

Section conservation.
Context {BP : BuildProfile} `{BF : Bitflags} `{MA : MemoryAddr} `{MAL : !MemoryAddrLaws}.
Context `{PH : PagingHandler} `{FO : !FrameOwnership} `{PT : !PageTable64} `{PV : !PageTableView}.
Context `{FA : !FrameAccounting}.
Context `{PTE : GenericPTE} `{MD : PagingMetaData}.
Context `{PTEL : !GenericPTELaws} `{PTL : !PageTableLaws} `{PHL : !PagingHandlerLaws}.
Context `{MS : !MemorySetOps world Backend} `{MSL : !MemorySetLaws world Backend}.
Implicit Types (h : hal) (a b : MemoryArea Backend) (s : AddrSpace.AddrSpace) (p : PageTable).

Lemma live_dealloc_all_exact fs h : live (dealloc_all fs h) = live h ∖ list_to_set fs.
Proof.
  revert h. induction fs as [|f fs IH]; intros h; simpl; [set_solver|].
  rewrite IH, live_dealloc_exact. set_solver.
Qed.

Lemma elem_of_frames_at_2 p ps q f : q ∈ ps -> frame_at p q = Some f -> f ∈ frames_at p ps.
Proof.
  induction ps as [|q' ps IH]; [by intros ?%elem_of_nil|].
  intros [->|Hq]%elem_of_cons Hf; simpl; apply elem_of_app; [left|right; by apply IH].
  rewrite Hf. by left.
Qed.

(** ** Tables are kept *)

Lemma unmap_alloc_loop_tables ps (w : world) r w' :
  BackendOps.unmap_alloc_loop ps w = Done (r, w') -> pt_tables w'.2 = pt_tables w.2.
Proof.
  revert w. induction ps as [|q ps IH]; intros w; simpl; [by intros [= _ <-]|].
  intros (x & w1 & Hu & Hrun)%M_bind_inv. apply pt_unmap_tables in Hu.
  destruct x as [[f sz]|e].
  - destruct (page_is_huge sz); [injection Hrun as _ <-; done|].
    apply M_bind_inv in Hrun as (y & [h2 p2] & Hd & Hrun). destruct w1 as [h1 p1].
    unfold BackendOps.h_dealloc_frame in Hd. injection Hd as _ <- <-. apply IH in Hrun. simpl in *.
    congruence.
  - apply IH in Hrun. congruence.
Qed.

Lemma unmap_tables be start size (w : world) r w' :
  BackendOps.unmap be start size w = Done (r, w') -> pt_tables w'.2 = pt_tables w.2.
Proof.
  destruct be as [off|pop]; simpl.
  - intros (x & w1 & Hu & Hret)%M_bind_inv. injection Hret as _ <-.
    by apply pt_unmap_region_tables in Hu.
  - intros (e & w1 & He & (ps & w2 & Hps & Hrun)%M_bind_inv)%M_bind_inv.
    apply lift_inv in He as [_ ->], Hps as [_ ->]. by apply unmap_alloc_loop_tables in Hrun.
Qed.

Lemma unmap_areas_tables (l : list (MemoryArea Backend)) (w : world) r w' :
  unmap_areas l w = Done (r, w') -> pt_tables w'.2 = pt_tables w.2.
Proof.
  revert w. induction l as [|a l IH]; intros w; simpl; [by intros [= _ <-]|].
  intros (x & w1 & Hu & Hrun)%M_bind_inv. apply unmap_tables in Hu.
  destruct x; [apply IH in Hrun; congruence|]. by injection Hrun as _ <-.
Qed.

Lemma remove_range_tables s h start size s' h' :
  0 <= start -> 0 <= size -> start + size < u64_modulus ->
  AddrSpace.on_areas (ms_unmap start size) (s, h) = Done (Ok tt, (s', h')) ->
  pt_tables (pt s') = pt_tables (pt s).
Proof.
  intros Hs Hz Hm Hrun.
  destruct (ms_unmap_spec start size (areas s) (h, pt s) Hs Hz Hm) as (cut & _ & Hcase).
  unfold AddrSpace.on_areas in Hrun.
  destruct (unmap_areas cut (h, pt s)) as [[[] [h1 p1]]| | |] eqn:Hu.
  { destruct Hcase as (ars & Hms & _). rewrite Hms in Hrun. injection Hrun as <- _.
    by apply unmap_areas_tables in Hu. }
  all: destruct (ms_unmap start size (areas s, (h, pt s))) as [[[[]|e] [ars [h2 p2]]]| | |];
    [by destruct (Hcase (ars, (h2, p2)))|done..].
Qed.

Lemma clear_tables s h u s' h' :
  AddrSpace.clear (s, h) = Done (u, (s', h')) -> pt_tables (pt s') = pt_tables (pt s).
Proof.
  destruct (ms_clear_spec (areas s) (h, pt s)) as (l & _ & Hcase).
  unfold AddrSpace.clear, AddrSpace.on_areas, mbind, M_bind.
  destruct (unmap_areas l (h, pt s)) as [[[] [h1 p1]]| | |] eqn:Hu.
  { destruct Hcase as (ars & -> & _). simpl. intros [= _ <- _].
    by apply unmap_areas_tables in Hu. }
  { destruct Hcase as (e & [ars [h2 p2]] & ->). done. }
  all: destruct (ms_clear (areas s, (h, pt s))) as [x| | |] eqn:E; [by destruct (Hcase x)|done..].
Qed.

Lemma fault_tables s h v access r s' h' :
  AddrSpace.handle_page_fault v access (s, h) = Done (r, (s', h')) ->
  pt_tables (pt s') = pt_tables (pt s).
Proof.
  unfold AddrSpace.handle_page_fault. destruct (negb _); [by intros [= _ <- _]|].
  destruct (ms_find _ _) as [a|]; [|by intros [= _ <- _]].
  destruct (negb _); [by intros [= _ <- _]|]. unfold AddrSpace.on_pt.
  destruct (area_backend a) as [off|[]]; simpl; [by intros [= _ <- _]..|].
  unfold mbind at 2 3, M_bind, BackendOps.h_alloc_frame.
  destruct (alloc_frame h) as [[f|] h1]; [|by intros [= _ <- _]].
  unfold mbind, M_bind. destruct (pt_remap _ _ _ _) as [[x [h2 p2]]| | |] eqn:Hr; [|done..].
  simpl. intros [= _ <- _]. by apply pt_remap_tables in Hr.
Qed.

(** ** Frames that a mapping takes *)

(** The frames that a successful mapping took: [T] for tables, and [N] mapped
    at the pages [ps]. *)
Definition frames_taken (T N : gset Z) (ps : list Z) h p h' p' : Prop :=
  T ## live h /\ N ## live h /\ T ## N /\ live h' = T ∪ N ∪ live h /\
  pt_tables p' = T ∪ pt_tables p /\
  forall f, f ∈ N <-> exists q, q ∈ ps /\ frame_at p' q = Some f.

(** One frame for a page, and then frames for tables and pages. *)
Lemma sets_taken (X T1 T N : gset Z) f :
  f ∉ X -> T1 ## {[f]} ∪ X ->
  T ## T1 ∪ ({[f]} ∪ X) -> N ## T1 ∪ ({[f]} ∪ X) -> T ## N ->
  T1 ∪ T ## X /\ {[f]} ∪ N ## X /\ T1 ∪ T ## {[f]} ∪ N /\
  T ∪ N ∪ (T1 ∪ ({[f]} ∪ X)) = T1 ∪ T ∪ ({[f]} ∪ N) ∪ X.
Proof. intros. split; [set_solver|]. split; [set_solver|]. split; set_solver. Qed.

Lemma map_alloc_loop_taken ps fl h p h' p' :
  page_list ps -> mapping_flags fl ->
  BackendOps.map_alloc_loop ps fl (h, p) = Done (true, (h', p')) ->
  exists T N, frames_taken T N ps h p h' p'.
Proof.
  intros Hl Hfl. revert h p Hl. induction ps as [|q ps IH]; intros h p Hl Hrun.
  { injection Hrun as <- <-. exists ∅, ∅. do 3 (split; [set_solver|]). split; [set_solver|].
    split; [set_solver|]. intros f. split; [set_solver|]. by intros (q & ?%elem_of_nil & _). }
  destruct (proj1 (page_list_cons q ps) Hl) as (Ha & Hv & Hni & Hl').
  cbn [BackendOps.map_alloc_loop] in Hrun. unfold mbind, M_bind in Hrun.
  unfold BackendOps.h_alloc_frame at 1 in Hrun.
  destruct (alloc_frame h) as [[f|] h0] eqn:Hf; [|done].
  destruct (alloc_frame_spec _ _ _ Hf) as [Hfa Hfb].
  destruct (live_alloc _ _ _ Hf) as [Hfn Hfl0].
  destruct (pt_map_spec h0 p q f fl Hv) as (r & h1 & p1 & Hm & _ & _ & _ & Hcase).
  rewrite Hm in Hrun. destruct r as [[]|e]; [|done]. simpl in Hrun.
  destruct Hcase as [_ Hent]. rewrite page_of_aligned in Hent by done.
  destruct (pt_map_tables _ _ _ _ _ _ _ Hm) as (T1 & HT1 & Hlv1 & Hpt1). simpl in *.
  destruct (BackendOps.map_alloc_loop_spec ps fl h1 p1 Hl')
    as (ok & h2 & p2 & Hm2 & _ & _ & Hg2 & _).
  rewrite Hrun in Hm2. injection Hm2 as <- <- <-.
  destruct (IH h1 p1 Hl' Hrun) as (T & N & HT & HN & HTN & Hlv & Hpt & Hin).
  assert (frame_at p' q = Some f) as Hq.
  { unfold frame_at. rewrite (grows_entry p1 p' q _ (Hg2 q Hv ltac:(by rewrite page_of_aligned)) Hent).
    rewrite pte_present_flags, pte_new_page_paddr by done. by rewrite Hfl. }
  exists (T1 ∪ T), ({[f]} ∪ N). rewrite Hlv1, Hfl0 in HT, HN, Hlv. rewrite Hfl0 in HT1.
  destruct (sets_taken _ _ _ _ _ Hfn HT1 HT HN HTN) as (? & ? & ? & E). rewrite E in Hlv.
  do 4 (split; [done|]). split; [by rewrite Hpt, Hpt1, (assoc_L (∪)), (comm_L (∪) T)|].
  intros g. rewrite elem_of_union, elem_of_singleton, Hin. split.
  - intros [->|(q' & Hq' & Hg)]; [exists q; split; [left|done]|exists q'; split; [by right|done]].
  - intros (q' & [->|Hq']%elem_of_cons & Hg); [left; congruence|eauto].
Qed.

(** Every backend: only an allocating one maps frames of its own. *)
Lemma map_taken be start size fl h p h' p' :
  region_ok start size -> mapping_flags fl ->
  BackendOps.map be start size fl (h, p) = Done (true, (h', p')) ->
  exists T N, frames_taken T N
    (match be with Linear _ => [] | Alloc _ => pages start (page_count size) end) h p h' p'.
Proof.
  intros Hr Hfl Hrun.
  assert (forall ps start get size fl' huge flush r,
    pt_map_region start get size fl' huge flush (h, p) = Done (r, (h', p')) ->
    (forall q, q ∈ ps -> frame_at p' q = None) -> exists T N, frames_taken T N ps h p h' p') as Hreg.
  { intros ps start' get size' fl' huge flush r Hm Hnone.
    destruct (pt_map_region_tables _ _ _ _ _ _ _ _ _ Hm) as (T & HT & Hlv & Hpt). simpl in *.
    exists T, ∅. do 3 (split; [set_solver|]). split; [set_solver|]. split; [done|].
    intros f. split; [set_solver|]. intros (q & Hq & Hf). by rewrite Hnone in Hf. }
  destruct be as [off|[]]; simpl in Hrun.
  - apply M_bind_inv in Hrun as (pa & w & [_ ->]%lift_inv & Hrun).
    apply M_bind_inv in Hrun as (r & w1 & Hm & Hret). injection Hret as _ ->.
    eapply Hreg; [exact Hm|]. by intros q ?%elem_of_nil.
  - pose proof Hr as (Ha & Hs & H0 & H1 & Hlim & Hmod).
    unfold BackendOps.map_alloc, mbind, M_bind in Hrun.
    rewrite addr_add_spec in Hrun by done. cbn [lift] in Hrun.
    rewrite page_iter_4k_spec in Hrun by done. cbn [unwrap lift] in Hrun.
    eapply map_alloc_loop_taken; [by apply BackendOps.region_pages|done|exact Hrun].
  - destruct (BackendOps.lazy_map_spec start size fl h p Hr) as (ok & h1 & p1 & Hm & He).
    simpl in Hm. rewrite Hrun in Hm. injection Hm as <- <- <-.
    apply M_bind_inv in Hrun as (r & w1 & Hm & Hret). injection Hret as _ ->.
    eapply Hreg; [exact Hm|]. intros q Hq. unfold frame_at.
    by rewrite (He eq_refl q Hq), pte_empty_not_present.
Qed.

(** ** The account of an address space *)

(** The frames that are handed out: those of others, [L], those of the tables
    and those mapped in the allocating areas; none counts twice. *)
Definition accounted (L : gset Z) s h : Prop :=
  (forall f, f ∈ live h <-> f ∈ L \/ f ∈ pt_tables (pt s) \/ in_use s f) /\
  L ## pt_tables (pt s) /\ (forall f, in_use s f -> f ∉ L /\ f ∉ pt_tables (pt s)).

(** What a request does to the account: new frames for tables, [T], and for
    pages, [N], and frames given back, [F], that were in use. *)
Definition account_step s h s' h' : Prop :=
  exists T N F : gset Z,
    T ## live h /\ N ## live h /\ T ## N /\
    live h' = T ∪ N ∪ live h ∖ F /\ pt_tables (pt s') = T ∪ pt_tables (pt s) /\
    (forall f, in_use s' f <-> f ∈ N \/ in_use s f /\ f ∉ F) /\
    (forall f, f ∈ F -> in_use s f).

Lemma account_step_refl s h h' : live h' = live h -> account_step s h s h'.
Proof. intros Hl. exists ∅, ∅, ∅. set_solver. Qed.

Lemma accounted_step L s h s' h' : accounted L s h -> account_step s h s' h' -> accounted L s' h'.
Proof.
  intros (Hlive & HLt & Hu) (T & N & F & HT & HN & HTN & Hl & Ht & Hu' & HF).
  unfold accounted. rewrite Ht, Hl. split; [|split].
  - intros f. rewrite !elem_of_union, elem_of_difference, Hu', Hlive. split; [tauto|].
    intros [HfL|[[HfT|Hft]|[HfN|Hfu]]]; try tauto.
    + right. split; [tauto|]. intros [HnL _]%HF%Hu. done.
    + right. split; [tauto|]. intros [_ Hnt]%HF%Hu. done.
  - intros f HfL [HfT|Hft]%elem_of_union; [|by apply (HLt f)].
    apply (HT f); [done|]. apply Hlive. by left.
  - intros f [HfN|[Hfu _]]%Hu'.
    + assert (f ∉ live h) as Hn by (intros ?; by apply (HN f)). rewrite Hlive in Hn.
      split; [tauto|]. intros [HfT|Hft]%elem_of_union; [by apply (HTN f)|tauto].
    + destruct (Hu f Hfu) as [HnL Hnt]. split; [done|].
      intros [HfT|Hft]%elem_of_union; [|done]. apply (HT f); [done|]. apply Hlive. tauto.
Qed.

(** ** The operations *)

(** A frame mapped at a page of an area is one of the area's frames. *)
Lemma area_frames_elem r p a pop q f :
  range_ok r -> area_ok r a -> area_backend a = Alloc pop ->
  area_contains a q -> q mod PAGE_SIZE = 0 -> frame_at p q = Some f -> f ∈ area_frames p a.
Proof.
  intros Hr Ha Hb Hq Hqa Hf. unfold area_frames. rewrite Hb.
  eapply elem_of_frames_at_2; [|exact Hf]. by apply (area_pages r).
Qed.

Lemma map_area_account s h a res s' h' :
  wf s -> 0 <= area_size a -> area_start a mod PAGE_SIZE = 0 ->
  area_size a mod PAGE_SIZE = 0 ->
  range_start (va_range s) <= area_start a -> area_end a <= range_end (va_range s) ->
  backend_ok (area_backend a) (area_start a) -> mapping_flags (area_flags a) ->
  AddrSpace.on_areas (ms_map a false) (s, h) = Done (res, (s', h')) ->
  res <> Err MsBadState -> account_step s h s' h'.
Proof.
  intros Hwf Hsz Has Hss Hlo Hhi Hb Hf Hrun Hres.
  destruct (map_area_cases s h a Hsz) as (Hzero & Hover & Hfresh).
  destruct (decide (area_size a = 0)) as [Hz|Hz].
  { rewrite Hzero in Hrun by done. injection Hrun as _ <- <-. by apply account_step_refl. }
  destruct (decide (Exists (areas_overlap a) (ms_iter (areas s)))) as [Ho|Ho].
  { rewrite Hover in Hrun by (done || lia). injection Hrun as _ <- <-. by apply account_step_refl. }
  specialize (Hfresh ltac:(lia) Ho).
  assert (region_ok (area_start a) (area_size a)) as Hreg.
  { destruct Hwf as [(? & ? & ?) _]. unfold region_ok, area_end in *. repeat split; (done || lia). }
  destruct (BackendOps.map_spec (area_backend a) (area_start a) (area_size a) (area_flags a)
    h (pt s) Hreg Hb) as (ok & h1 & p1 & Hm & _ & _ & Hg & _).
  rewrite Hm in Hfresh. destruct ok; [|rewrite Hfresh in Hrun; by injection Hrun as <- _ _].
  destruct Hfresh as (ars & Hrun1 & Hit). rewrite Hrun in Hrun1. injection Hrun1 as -> -> ->.
  destruct (map_taken _ _ _ _ _ _ _ _ Hreg Hf Hm) as (T & N & HT & HN & HTN & Hlv & Hpt & Hin).
  exists T, N, ∅. do 3 (split; [done|]). split; [by rewrite difference_empty_L|].
  split; [done|]. split; [|by intros f ?%elem_of_empty]. intros f. rewrite Hin.
  apply not_Exists_Forall in Ho; [|apply _]. rewrite Forall_forall in Ho.
  assert (forall q, alloc_page s q -> frame_at p1 q = frame_at (pt s) q) as Hold.
  { intros q Hq. apply frame_at_grows, Hg; [by apply (alloc_page_va_ok s)|].
    destruct Hq as (_ & b & pop & Hbi & Hbq & _). intros Haq.
    by eapply no_overlap_contains; [apply (Ho b)|..]. }
  split.
  - intros (q & (Hqa & b & pop & Hbi & Hbq & Hbb) & Hqf). simpl in Hbi, Hqf. rewrite Hit in Hbi.
    apply elem_of_cons in Hbi as [->|Hbi].
    + left. exists q. rewrite Hbb. split; [by apply elem_of_pages_region|done].
    + assert (alloc_page s q) as Hq by (split; [done|eauto 10]).
      right. split; [|by apply not_elem_of_empty]. exists q. by rewrite <- (Hold q).
  - intros [(q & Hq & Hqf)|[(q & Hq & Hqf) _]].
    + destruct (area_backend a) as [off|pop] eqn:Hbe; [by apply elem_of_nil in Hq|].
      exists q. split; [|done]. apply elem_of_pages_region in Hq as [Hqr Hqa]; [|done..].
      split; [done|]. exists a, pop. simpl. rewrite Hit. split; [by left|done].
    + exists q. rewrite <- (Hold q Hq) in Hqf. split; [|done].
      destruct Hq as (Hqa & b & pop & Hbi & Hbq). split; [done|]. exists b, pop. simpl.
      rewrite Hit. split; [by right|done].
Qed.

Lemma map_linear_account s h va pa size fl res s' h' :
  wf s -> fits va size -> usize pa -> mapping_flags fl ->
  overflow_checks = false \/ pa <= va ->
  AddrSpace.map_linear va pa size fl (s, h) = Done (res, (s', h')) ->
  res <> Err BadState -> account_step s h s' h'.
Proof.
  intros Hwf Hfit Hpa Hm Hc Hrun Hres. rewrite map_linear_unfold in Hrun by done.
  destruct (linear_request_ok s va pa size) eqn:Hok;
    [|injection Hrun as _ <- <-; by apply account_step_refl].
  unfold linear_request_ok, in_range, aligned in Hok. zbool.
  pose proof Hfit as (Hva & Hsz & Hend).
  destruct (linear_offset_ok va pa) as [Hoff Hback]; [done..|]. rewrite Hoff in Hrun.
  apply M_bind_inv in Hrun as (r & [s1 h1] & Hma & Hret). injection Hret as <- -> ->.
  eapply (map_area_account s h); [done| | | | | | | |exact Hma|by intros ->]; area_side.
Qed.

Lemma map_alloc_account s h start size fl pop res s' h' :
  wf s -> fits start size -> mapping_flags fl ->
  AddrSpace.map_alloc start size fl pop (s, h) = Done (res, (s', h')) ->
  res <> Err BadState -> account_step s h s' h'.
Proof.
  intros Hwf Hfit Hm Hrun Hres. rewrite map_alloc_unfold in Hrun by done.
  destruct (alloc_request_ok s start size) eqn:Hok;
    [|injection Hrun as _ <- <-; by apply account_step_refl].
  unfold alloc_request_ok, in_range, aligned in Hok. zbool.
  pose proof Hfit as (Hva & Hsz & Hend).
  apply M_bind_inv in Hrun as (r & [s1 h1] & Hma & Hret). injection Hret as <- -> ->.
  eapply (map_area_account s h); [done| | | | | | | |exact Hma|by intros ->]; area_side.
Qed.

(** The frames of the parts of the areas in a range. *)
Lemma in_use_cut s start size q f :
  wf s -> start mod PAGE_SIZE = 0 -> size mod PAGE_SIZE = 0 -> 0 <= size ->
  alloc_page s q -> frame_at (pt s) q = Some f -> start <= q < start + size ->
  f ∈ areas_within s start size ≫= area_frames (pt s).
Proof.
  intros Hwf Hs Hz H0 (Hqa & a & pop & Ha & Haq & Hb) Hf Hin.
  destruct (proj2 (area_cut_contains a start (start + size) q)) as (c & Hc & Hcq); [done|].
  apply list_elem_of_bind. exists c. split; [|apply list_elem_of_bind; eauto].
  pose proof (area_cut_elem _ _ _ _ Hc) as (_ & Hbe & _).
  pose proof Hwf as [Hr _].
  eapply (area_frames_elem (va_range s)); [done| |by rewrite Hbe|done|done|done].
  by apply (area_ok_cut _ a c start size Hs Hz H0 (wf_area_ok s a Hwf Ha)).
Qed.

Lemma alloc_page_without s s' start size q :
  wf s -> 0 <= size -> ms_iter (areas s') ≡ₚ areas_without s start size ->
  alloc_page s' q <-> alloc_page s q /\ ~ start <= q < start + size.
Proof.
  intros Hwf H0 Hit. unfold alloc_page. setoid_rewrite Hit. split.
  - intros (Hqa & b & pop & (a & Hb & Ha)%list_elem_of_bind & Hq & Hbb).
    pose proof (wf_area_ok s a Hwf Ha) as [Hpos _].
    pose proof (area_rest_elem _ _ _ _ Hpos Hb) as (_ & Hbe & _).
    destruct (proj1 (area_rest_contains a start (start + size) q ltac:(lia))) as [Haq Hout];
      [eauto|]. split; [|done]. split; [done|]. exists a, pop. by rewrite <- Hbe.
  - intros [(Hqa & a & pop & Ha & Haq & Hab) Hout]. split; [done|].
    destruct (proj2 (area_rest_contains a start (start + size) q ltac:(lia))) as (b & Hb & Hbq);
      [done|]. pose proof (wf_area_ok s a Hwf Ha) as [Hpos _].
    pose proof (area_rest_elem _ _ _ _ Hpos Hb) as (_ & Hbe & _).
    exists b, pop. rewrite Hbe. split; [|done]. apply list_elem_of_bind. eauto.
Qed.

Lemma unmap_account s h start size res s' h' :
  wf s -> owns s h -> fits start size ->
  AddrSpace.unmap start size (s, h) = Done (res, (s', h')) -> account_step s h s' h'.
Proof.
  intros Hwf Ho Hfit Hrun. rewrite unmap_unfold in Hrun by done.
  destruct (alloc_request_ok s start size) eqn:Hok;
    [|injection Hrun as _ <- <-; by apply account_step_refl].
  unfold alloc_request_ok, in_range, aligned in Hok. zbool.
  pose proof Hfit as (Hva & Hsz & Hend). unfold usize in *.
  destruct (remove_range_spec s h start size)
    as (s1 & h1 & cut & Hrun1 & Hwf' & Hr & _ & Hit & Hcut & -> & _ & He);
    [done|done|done|lia|lia|done|].
  rewrite (M_bind_Done _ _ _ _ _ Hrun1) in Hrun. injection Hrun as _ <- <-.
  apply remove_range_tables in Hrun1; [|lia..].
  exists ∅, ∅, (list_to_set (cut ≫= area_frames (pt s))). do 3 (split; [set_solver|]).
  split; [by rewrite live_dealloc_all_exact, !(left_id_L ∅ (∪))|].
  split; [by rewrite (left_id_L ∅ (∪))|].
  assert (forall f, f ∈ (list_to_set (cut ≫= area_frames (pt s)) : gset Z) <->
    exists q, alloc_page s q /\ frame_at (pt s) q = Some f /\ start <= q < start + size) as Hfreed.
  { intros f. rewrite elem_of_list_to_set, Hcut. split.
    - by apply (cut_frames_in_use s start size f); [..|lia].
    - intros (q & Hq & Hf & Hin). by eapply in_use_cut; [..|lia|exact Hq|exact Hf|exact Hin]. }
  split; [|intros f (q & Hq & Hf & _)%Hfreed; by exists q].
  assert (forall q, alloc_page s q -> ~ start <= q < start + size ->
    frame_at (pt s1) q = frame_at (pt s) q) as Hkept.
  { intros q Hq Hout. apply frame_at_entry, He; [by apply (alloc_page_va_ok s)|]. by intros. }
  pose proof (fun q => alloc_page_without s s1 start size q Hwf ltac:(lia) Hit) as Hpages.
  intros f. split.
  - intros (q & [Hq Hout]%Hpages & Hqf). rewrite Hkept in Hqf by done. right.
    split; [by exists q|]. intros (q' & Hq' & Hf' & Hin)%Hfreed.
    destruct (Ho q f Hq Hqf) as [_ Hu]. by rewrite (Hu q') in Hin.
  - intros [?%elem_of_empty|[(q & Hq & Hqf) Hn]]; [done|]. exists q.
    assert (~ start <= q < start + size) as Hout by (intros Hin; apply Hn, Hfreed; eauto).
    rewrite Hkept, Hpages by done. done.
Qed.

(** A fault, which if it is served is on a page that does not translate yet. *)
Lemma fault_account s h v access res s' h' :
  wf s -> (forall a, lazy_fault s v access a -> mapping_flags (area_flags a)) ->
  (res = true -> AddrSpace.translate s v = Done None) ->
  AddrSpace.handle_page_fault v access (s, h) = Done (res, (s', h')) -> account_step s h s' h'.
Proof.
  intros Hwf Hfl Htr Hrun. pose proof (fault_tables _ _ _ _ _ _ _ Hrun) as Htab.
  destruct (fault_cases s v access Hwf) as [(a & Hlf)|Hno].
  2:{ rewrite fault_refused in Hrun by done. injection Hrun as _ <- <-. by apply account_step_refl. }
  pose proof (fault_served s h v access a Hwf Hlf) as Hs.
  pose proof Hlf as (Ha & Hav & _ & Hbe). specialize (Hfl a Hlf).
  destruct (alloc_frame h) as [[f|] h1] eqn:Hal.
  2:{ rewrite Hs in Hrun. injection Hrun as _ <- <-.
      apply account_step_refl. by apply live_refused in Hal. }
  destruct Hs as (p' & Hrun1 & Hwf' & _ & [Hfa Hfo] & He & Hso).
  rewrite Hrun in Hrun1. injection Hrun1 as -> -> ->.
  destruct (live_alloc _ _ _ Hal) as [Hn Hl].
  assert (frame_at (pt s) (page_of v) = None) as Hnone.
  { specialize (Htr eq_refl). rewrite translate_entry in Htr by (try done; by apply (area_in_space s a)).
    unfold frame_at. rewrite pt_entry_page. destruct (pt_entry (pt s) v) as [[e sz]|]; [|done].
    destruct (pte_is_present e); [|done]. by destruct (pte_flags e). }
  assert (frame_at p' (page_of v) = Some f) as Hnew.
  { unfold frame_at. rewrite pt_entry_page, He, pte_present_flags, pte_new_page_paddr by done.
    by rewrite Hfl. }
  assert (forall q, alloc_page s q -> q <> page_of v -> frame_at p' q = frame_at (pt s) q) as Hold.
  { intros q Hq Hne. apply frame_at_entry, Hso; [by apply (alloc_page_va_ok s)|].
    destruct Hq as [Hqa _]. rewrite page_of_aligned by done. by apply not_elem_of_single. }
  exists ∅, {[f]}, ∅. split; [set_solver|]. split; [set_solver|]. split; [set_solver|].
  split; [rewrite Hl; set_solver|]. split; [by rewrite Htab, (left_id_L ∅ (∪))|].
  split; [|by intros g ?%elem_of_empty]. intros g. rewrite elem_of_singleton. split.
  - intros (q & Hq & Hqf). simpl in Hqf. destruct (decide (q = page_of v)) as [->|Hne].
    + left. congruence.
    + right. split; [|by apply not_elem_of_empty]. exists q. by rewrite <- (Hold q).
  - intros [->|[(q & Hq & Hqf) _]].
    + exists (page_of v). split; [|done]. split; [apply page_of_mod|]. exists a, false.
      split; [done|]. split; [|done]. by eapply area_contains_page; [apply (wf_area_ok s)|].
    + exists q. split; [done|]. simpl. rewrite Hold; [done|done|]. intros ->. congruence.
Qed.

Lemma clear_account s h u s' h' :
  wf s -> AddrSpace.clear (s, h) = Done (u, (s', h')) ->
  account_step s h s' h' /\ forall f, ~ in_use s' f.
Proof.
  intros Hwf Hrun. pose proof (clear_tables _ _ _ _ _ Hrun) as Htab.
  destruct (clear_run s h Hwf) as (s1 & l & Hrun1 & Hl & _ & _ & _ & Hit & _).
  rewrite Hrun in Hrun1. injection Hrun1 as -> -> ->.
  assert (forall f, ~ in_use s1 f) as Hnone.
  { intros f (q & (_ & a & pop & Ha & _) & _). rewrite Hit in Ha. by apply elem_of_nil in Ha. }
  split; [|done]. exists ∅, ∅, (list_to_set (l ≫= area_frames (pt s))).
  do 3 (split; [set_solver|]).
  split; [by rewrite live_dealloc_all_exact, !(left_id_L ∅ (∪))|].
  split; [by rewrite Htab, (left_id_L ∅ (∪))|]. split.
  - intros f. split; [by intros ?%Hnone|].
    intros [?%elem_of_empty|[(q & (Hqa & a & pop & Ha & Haq & Hb) & Hf) Hn]]; [done|].
    destruct Hn. apply elem_of_list_to_set. rewrite Hl. apply list_elem_of_bind. exists a.
    split; [|done]. pose proof Hwf as [Hr _].
    eapply (area_frames_elem (va_range s)); [done|by apply (wf_area_ok s)|done..].
  - intros f. rewrite elem_of_list_to_set, Hl. by apply area_frames_in_use.
Qed.

(** ** Runs *)

(** A request that loses no frame: it does not fail half way, and a fault
    that is served is on a page that did not translate. *)
Definition clean_step s (q : request) (r : reply) : bool :=
  match q, r with
  | ReqFault v _, ReplyFault true =>
      match AddrSpace.translate s v with Done None => true | _ => false end
  | _, ReplyResult (Err BadState) => false
  | _, _ => true
  end.

Fixpoint clean_run (qs : list request) (sh : AddrSpace.AddrSpace * hal) : bool :=
  match qs with
  | [] => true
  | q :: qs =>
      match perform q sh with
      | Done (r, sh') => clean_step sh.1 q r && clean_run qs sh'
      | _ => false
      end
  end.

Lemma perform_account s sp h q r s' h' :
  refines s sp -> owns s h -> valid q -> perform q (s, h) = Done (r, (s', h')) ->
  clean_step s q r = true -> account_step s h s' h'.
Proof.
  intros Hrf Ho Hv. pose proof (rf_wf _ _ Hrf) as Hwf.
  destruct q as [va pa size fl|start size fl pop|start size|v access|]; simpl in Hv |- *;
    intros (x & [s1 h1] & Hrun & Hret)%M_bind_inv; injection Hret as <- -> ->; intros Hclean.
  - destruct Hv as (? & ? & _ & [? _] & ?).
    eapply map_linear_account; [exact Hwf|..|exact Hrun|]; [done..|]. by intros ->.
  - destruct Hv as (? & ? & _). eapply map_alloc_account; [exact Hwf|done|done|exact Hrun|].
    by intros ->.
  - eapply unmap_account; [exact Hwf|exact Ho|exact Hv|exact Hrun].
  - eapply fault_account; [exact Hwf| | |exact Hrun].
    + intros a (Ha & _). pose proof (rf_flags _ _ Hrf) as Hfl. rewrite (rf_areas _ _ Hrf) in Hfl.
      rewrite Forall_forall in Hfl. by apply Hfl.
    + intros ->. simpl in Hclean. by destruct (AddrSpace.translate s v) as [[]| | |].
  - by eapply clear_account.
Qed.

Lemma clean_run_account L qs s sp h :
  refines s sp -> owns s h -> accounted L s h -> Forall valid qs -> clean_run qs (s, h) = true ->
  exists rs s' h', perform_all qs (s, h) = Done (rs, (s', h')) /\ wf s' /\ accounted L s' h'.
Proof.
  intros Hrf Ho Ha Hv. revert s sp h Hrf Ho Ha. induction Hv as [|q qs Hq Hv IH];
    intros s sp h Hrf Ho Ha Hclean.
  { exists [], s, h. split; [done|]. split; [apply Hrf|done]. }
  destruct (simulate s sp h q Hrf Hq) as (r & s1 & h1 & Hrun & _ & Hcase).
  simpl in Hclean. rewrite Hrun in Hclean. apply andb_true_iff in Hclean as [Hstep Hclean].
  destruct Hcase as [->|(sp1 & _ & Hrf1)]; [by destruct q|].
  pose proof (perform_step s h q r s1 h1 (rf_wf _ _ Hrf) Ho Hq Hrun) as Hfs.
  pose proof (perform_account s sp h q r s1 h1 Hrf Ho Hq Hrun Hstep) as Has.
  destruct (IH s1 sp1 h1 Hrf1 (owns_step _ _ _ _ Ho Hfs) (accounted_step _ _ _ _ _ Ha Has) Hclean)
    as (rs & s' & h' & Hall & Hwf' & Ha').
  exists (r :: rs), s', h'. simpl.
  by rewrite (M_bind_Done _ _ _ _ _ Hrun), (M_bind_Done _ _ _ _ _ Hall).
Qed.

(** A new address space holds the frames of its page table only. *)
Lemma new_empty_account h base size s h1 :
  ms_iter (areas s) = [] -> AddrSpace.new_empty base size h = Done (Ok s, h1) ->
  owns s h1 /\ accounted (live h) s h1.
Proof.
  intros Hit. unfold AddrSpace.new_empty.
  intros (r & h0 & [_ ->]%lift_inv & (x & h2 & Hnew & Hret)%M_bind_inv)%M_bind_inv.
  injection Hret as Hs ->. destruct x as [p|]; [|done]. injection Hs as <-.
  apply pt_try_new_tables in Hnew as [Hd Hl].
  assert (forall q, ~ alloc_page (AddrSpace.mkAddrSpace r ms_new p) q) as Hnone.
  { intros q (_ & a & pop & Ha & _). rewrite Hit in Ha. by apply elem_of_nil in Ha. }
  split; [by intros q f ?%Hnone|]. split; [|split; [done|by intros f (q & ?%Hnone & _)]].
  intros f. rewrite Hl, elem_of_union. simpl. split; [tauto|].
  intros [?|[?|(q & ?%Hnone & _)]]; [by right|by left|done].
Qed.

(** C37. Conservation of frames.  Let a new address space serve any valid
    requests, of which none fails half way and none is a fault that is served
    on a page that is backed already.  Then at the end the frames that are
    handed out are exactly those that were handed out before the address
    space was made, those of its page table, and those mapped in its
    allocating areas; and dropping the address space leaves the allocator with
    exactly the frames handed out that were so before it was made. *)
Theorem frames_conserved h base size s h1 qs :
  usize base -> usize size -> base + size <= va_limit ->
  AddrSpace.new_empty base size h = Done (Ok s, h1) -> Forall valid qs ->
  clean_run qs (s, h1) = true ->
  exists rs s' h2 s3 h3,
    perform_all qs (s, h1) = Done (rs, (s', h2)) /\
    (forall f, f ∈ live h2 <-> f ∈ live h \/ f ∈ pt_tables (pt s') \/ in_use s' f) /\
    AddrSpace.drop (s', h2) = Done (tt, (s3, h3)) /\ live h3 = live h.
Proof.
  intros Hb Hs Hlim Hnew Hv Hclean.
  pose proof (new_empty_refines h base size s h1 Hb Hs Hlim Hnew) as Hrf.
  destruct (new_empty_account h base size s h1) as [Ho Ha]; [|done|].
  { by apply Permutation_nil_r, (symmetry (rf_areas _ _ Hrf)). }
  destruct (clean_run_account (live h) qs s _ h1 Hrf Ho Ha Hv Hclean)
    as (rs & s' & h2 & Hall & Hwf & Ha2).
  destruct (clear_run s' h2 Hwf) as (s3 & l & Hc & _).
  destruct (clear_account _ _ _ _ _ Hwf Hc) as [Hstep Hnone].
  destruct (accounted_step _ _ _ _ _ Ha2 Hstep) as (Hlive & Hd & _).
  exists rs, s', h2, s3, (pt_drop (pt s3) (dealloc_all (l ≫= area_frames (pt s')) h2)).
  split; [done|]. split; [apply Ha2|].
  split; [unfold AddrSpace.drop; by rewrite (M_bind_Done _ _ _ _ _ Hc)|].
  apply set_eq. intros f. rewrite pt_drop_tables, elem_of_difference, Hlive. split.
  - intros [[?|[?|?%Hnone]] ?]; done.
  - intros Hf. split; [by left|]. intros Ht. by apply (Hd f).
Qed.
End conservation.

(** * The reference page table keeps the account *)

Section ref_accounting.
Context `{PH : PagingHandler} `{FO : !FrameOwnership}.
Context `{PTE : GenericPTE} `{MD : PagingMetaData} `{PTEL : !GenericPTELaws}.
Hypothesis dealloc_exact : forall (h : hal) f, live (dealloc_frame f h) = live h ∖ {[f]}.

Definition ref_pt_tables (p : RefPT) : gset Z := list_to_set (rp_frames p ++ [rp_root p]).

Lemma allocs_live h fs h' :
  allocs h fs h' ->
  (list_to_set fs : gset Z) ## live h /\ live h' = list_to_set fs ∪ live h.
Proof.
  induction 1 as [h|h f h1 fs h' Ha _ [IHd IHl]|h h1 fs h' Ha _ IH]; simpl.
  - split; [set_solver|]. by rewrite (left_id_L ∅ (∪)).
  - apply live_alloc in Ha as [Hn Hl]. rewrite Hl in IHd, IHl. split; [set_solver|].
    rewrite IHl. set_solver.
  - apply live_refused in Ha as Hl. by rewrite <- Hl.
Qed.

Lemma created_taken h p h' p' :
  tables_created h p h' p' -> rp_root p' = rp_root p ->
  exists T, tables_taken ref_pt_tables T (h, p) (h', p').
Proof.
  intros (fs & Hfs & Hfr) Hroot. destruct (allocs_live _ _ _ Hfs) as [Hd Hl].
  exists (list_to_set fs). split; [done|]. split; [done|]. unfold ref_pt_tables. simpl.
  rewrite Hfr, Hroot, !list_to_set_app_L. set_solver.
Qed.

Lemma ref_map_taken v pa sz fl w r w' :
  ref_map v pa sz fl w = Done (r, w') -> exists T, tables_taken ref_pt_tables T w w'.
Proof.
  destruct w as [h p]. change (ref_map v pa sz fl) with (ref_map v pa Size4K fl). intros Hrun.
  destruct (ref_map_spec h p v pa fl) as (r1 & h1 & p1 & Hrun1 & Hroot & Hc & _).
  rewrite Hrun in Hrun1. injection Hrun1 as -> ->. by apply created_taken.
Qed.

Lemma taken_trans T1 T2 (w w1 w2 : hal * RefPT) :
  tables_taken ref_pt_tables T1 w w1 -> tables_taken ref_pt_tables T2 w1 w2 ->
  tables_taken ref_pt_tables (T2 ∪ T1) w w2.
Proof.
  intros (Hd1 & Hl1 & Ht1) (Hd2 & Hl2 & Ht2). unfold tables_taken.
  rewrite Ht2, Ht1, Hl2, Hl1, !(assoc_L (∪)). rewrite Hl1 in Hd2. split; [set_solver|done].
Qed.

Lemma ref_map_pages_taken ps get fl w r w' :
  ref_map_pages ps get fl w = Done (r, w') -> exists T, tables_taken ref_pt_tables T w w'.
Proof.
  assert (forall w, tables_taken ref_pt_tables ∅ w w) as Hrefl.
  { intros w0. unfold tables_taken. rewrite !(left_id_L ∅ (∪)). split; [set_solver|done]. }
  revert w. induction ps as [|q ps IH]; intros w; simpl; [intros [= _ <-]; eauto|].
  intros (pa & w0 & [_ ->]%lift_inv & (x & w1 & Hm & Hrun)%M_bind_inv)%M_bind_inv.
  destruct (ref_map_taken _ _ _ _ _ _ _ Hm) as [T1 HT1]. destruct x as [[]|e].
  - destruct (IH w1 Hrun) as [T2 HT2]. eauto using taken_trans.
  - injection Hrun as _ <-. eauto.
Qed.

Lemma ref_unmap_keeps v (w : hal * RefPT) r w' :
  ref_unmap v w = Done (r, w') -> ref_pt_tables w'.2 = ref_pt_tables w.2.
Proof.
  destruct w as [h p]. simpl. destruct (ref_entry p v) as [[e sz]|]; [|by intros [= _ <-]].
  destruct (pte_is_present e); by intros [= _ <-].
Qed.

Lemma ref_unmap_pages_keeps ps (w : hal * RefPT) r w' :
  ref_unmap_pages ps w = Done (r, w') -> ref_pt_tables w'.2 = ref_pt_tables w.2.
Proof.
  revert w. induction ps as [|q ps IH]; intros w; simpl; [by intros [= _ <-]|].
  intros (x & w1 & Hu & Hrun)%M_bind_inv. apply ref_unmap_keeps in Hu.
  destruct x as [?|e]; [apply IH in Hrun; congruence|]. by injection Hrun as _ <-.
Qed.

Lemma RefPageTable_accounting : FrameAccounting.
Proof.
  refine (Build_FrameAccounting PH FO RefPageTable ref_pt_tables dealloc_exact _ _ _ _ _ _ _).
  - intros h p h'. simpl. destruct (alloc_frame h) as [[f|] h1] eqn:Ha; [|done].
    intros [= <- <-]. apply live_alloc in Ha as [Hn Hl]. unfold ref_pt_tables. simpl.
    rewrite Hl. set_solver.
  - intros v pa sz fl w r w'. apply ref_map_taken.
  - intros start get size fl huge flush w r w'. apply ref_map_pages_taken.
  - intros v pa fl [h p] r w'. simpl.
    destruct (ref_entry p v) as [[e sz]|]; by intros [= _ <-].
  - intros v w r w'. apply ref_unmap_keeps.
  - intros start size flush w r w'. apply ref_unmap_pages_keeps.
  - intros p h. simpl. unfold ref_pt_tables.
    generalize (rp_frames p ++ [rp_root p]). intros fs. revert h.
    induction fs as [|f fs IH]; intros h; simpl; [set_solver|].
    rewrite IH, dealloc_exact. set_solver.
Defined.
End ref_accounting.

Section witness.
#[local] Existing Instances PoolHandler PoolHandler_ownership PoolHandler_laws wrapping_build.
Import EPTEntry.

#[local] Instance pool_accounting : FrameAccounting := RefPageTable_accounting (fun _ _ => eq_refl).

Lemma frames_conserved_witness :
  clean_run pool_requests pool_new = true /\
  exists rs s' h2 s3 h3,
    perform_all pool_requests pool_new = Done (rs, (s', h2)) /\
    AddrSpace.drop (s', h2) = Done (tt, (s3, h3)) /\ live h3 = ∅.
Proof.
  assert (clean_run pool_requests pool_new = true) as Hc by (vm_compute; reflexivity).
  split; [exact Hc|].
  destruct (frames_conserved (∅ : hal) 0x10000 0x10000 pool_new.1 pool_new.2 pool_requests)
    as (rs & s' & h2 & s3 & h3 & Hrun & _ & Hd & Hl).
  - by repeat split.
  - by repeat split.
  - by vm_compute.
  - exact pool_new_run.
  - exact pool_requests_valid.
  - rewrite <- surjective_pairing. exact Hc.
  - rewrite <- surjective_pairing in Hrun. exists rs, s', h2, s3, h3. done.
Defined.
End witness.
