(* ===== verification/Accessor.v ===== *)
(** [src/memory_accessor.rs]: access to guest memory through translated
    pointers, typed and by buffers, over the host memory of [Memory]. *)
From S2P Require Import Prelude Crates Memory.
Local Open Scope Z_scope.

(** The required method of the trait [GuestMemoryAccessor]: the host address
    of a guest address and the number of bytes accessible from there. *)
Class GuestMemoryAccessor :=
  translate_and_get_limit : Z -> outcome (option (Z * Z)).

(** A [Copy] type as raw memory sees it; not every sequence of bytes has to be
    a value of it. *)
Record CopyType := mkCopy {
  copy_val :> Type;
  copy_valid : copy_val -> Prop;
  size_of : nat;
  align_of : Z;
  to_bytes : copy_val -> list Z;
  from_bytes : list Z -> option copy_val;
  to_bytes_length v : length (to_bytes v) = size_of;
  from_to_bytes v : copy_valid v -> from_bytes (to_bytes v) = Some v
}.

(** The unsigned integers, little endian, at their natural alignment. *)
Fixpoint le_bytes (n : nat) (z : Z) : list Z :=
  match n with
  | O => []
  | S n => z mod 256 :: le_bytes n (z / 256)
  end.

Fixpoint le_value (bs : list Z) : Z :=
  match bs with
  | [] => 0
  | b :: bs => b + 256 * le_value bs
  end.

Lemma le_bytes_length n z : length (le_bytes n z) = n.
Proof. revert z. induction n; intros; simpl; auto. Qed.

Lemma le_value_bytes n z : 0 <= z < 2 ^ (8 * Z.of_nat n) -> le_value (le_bytes n z) = z.
Proof.
  revert z. induction n as [|n IH]; intros z Hz; simpl le_bytes; simpl le_value.
  { simpl in Hz. lia. }
  rewrite IH; [Z.div_mod_to_equations; lia|].
  replace (8 * Z.of_nat (S n)) with (8 + 8 * Z.of_nat n) in Hz by lia.
  rewrite Z.pow_add_r in Hz by lia. change (2 ^ 8) with 256 in Hz.
  Z.div_mod_to_equations. nia.
Qed.

Definition uint (n : nat) : CopyType :=
  mkCopy Z (fun z => 0 <= z < 2 ^ (8 * Z.of_nat n)) n (Z.of_nat n) (le_bytes n)
    (fun bs => Some (le_value bs)) (le_bytes_length n)
    (fun z Hz => f_equal Some (le_value_bytes n z Hz)).

(** [bool], of whose bytes only two are valid. *)
Definition bool_byte (b : bool) : list Z := [if b then 1 else 0].
Definition byte_bool (bs : list Z) : option bool :=
  match bs with [0] => Some false | [1] => Some true | _ => None end.

Lemma bool_byte_length b : length (bool_byte b) = 1%nat.
Proof. done. Qed.

Lemma byte_bool_byte b : True -> byte_bool (bool_byte b) = Some b.
Proof. by destruct b. Qed.

Definition bool_type : CopyType :=
  mkCopy bool (fun _ => True) 1 1 bool_byte byte_bool bool_byte_length byte_bool_byte.

Definition u8 : CopyType := uint 1.
Definition u32 : CopyType := uint 4.
Definition u64 : CopyType := uint 8.

Section ops.
Context {BP : BuildProfile} {GMA : GuestMemoryAccessor}.

(** [core::ptr::read_volatile] and [write_volatile]: the pointer must be
    aligned for the type and point to allocated bytes, and what is read must be
    a value of the type. *)
Definition ptr_read_volatile (V : CopyType) (ptr : Z) : M mem V := fun m =>
  if ptr mod align_of V =? 0
  then bs ← read_bytes m ptr (size_of V);
       match from_bytes V bs with Some v => Done (v, m) | None => UB end
  else UB.

Definition ptr_write_volatile (V : CopyType) (ptr : Z) (val : V) : M mem unit := fun m =>
  if ptr mod align_of V =? 0
  then m' ← write_bytes m ptr (to_bytes V val); Done (tt, m')
  else UB.

Definition read_obj (V : CopyType) (guest_addr : Z) : M mem (AxResult V) :=
  r ← lift (translate_and_get_limit guest_addr);
  match r with
  | None => mret (Err InvalidInput)
  | Some (host_addr, limit) =>
      if limit <? Z.of_nat (size_of V) then mret (Err InvalidInput) else
      v ← ptr_read_volatile V host_addr;
      mret (Ok v)
  end.

Definition write_obj (V : CopyType) (guest_addr : Z) (val : V) : M mem (AxResult unit) :=
  r ← lift (translate_and_get_limit guest_addr);
  match r with
  | None => mret (Err InvalidInput)
  | Some (host_addr, limit) =>
      if limit <? Z.of_nat (size_of V) then mret (Err InvalidInput) else
      ptr_write_volatile V host_addr val;;
      mret (Ok tt)
  end.

(** [copy_nonoverlapping] between a Rust buffer and host memory; buffers are
    values of their own, so that the two never overlap. *)
Definition copy_from_host (src : Z) (n : nat) : M mem (list Z) := fun m =>
  bs ← read_bytes m src n; Done (bs, m).

Definition copy_to_host (dst : Z) (bs : list Z) : M mem unit := fun m =>
  m' ← write_bytes m dst bs; Done (tt, m').

(** The loop over the regions of a buffer: the answer and the final contents
    of the remaining buffer. *)
Fixpoint read_loop (fuel : nat) (current_guest_addr : Z) (remaining_buffer : list Z) :
    M mem (AxResult unit * list Z) :=
  match remaining_buffer with
  | [] => mret (Ok tt, [])
  | _ :: _ =>
      match fuel with
      | O => lift OutOfFuel
      | S fuel =>
          r ← lift (translate_and_get_limit current_guest_addr);
          match r with
          | None => mret (Err InvalidInput, remaining_buffer)
          | Some (current_host_addr, current_accessible_size) =>
              let bytes_to_read :=
                Nat.min (length remaining_buffer) (Z.to_nat current_accessible_size) in
              bs ← copy_from_host current_host_addr bytes_to_read;
              next ← lift (usize_add current_guest_addr (Z.of_nat bytes_to_read));
              res ← read_loop fuel next (skipn bytes_to_read remaining_buffer);
              mret (res.1, bs ++ res.2)
          end
      end
  end.

(** The contents of the buffer come back with the answer.  [fuel] bounds the
    rounds of the loop. *)
Definition read_buffer_rounds (fuel : nat) (guest_addr : Z) (buffer : list Z) :
    M mem (AxResult unit * list Z) :=
  if bool_decide (buffer = []) then mret (Ok tt, buffer) else
  r ← lift (translate_and_get_limit guest_addr);
  match r with
  | None => mret (Err InvalidInput, buffer)
  | Some (host_addr, accessible_size) =>
      if Z.of_nat (length buffer) <=? accessible_size then
        bs ← copy_from_host host_addr (length buffer);
        mret (Ok tt, bs)
      else read_loop fuel guest_addr buffer
  end.

(** A round that makes progress transfers at least a byte. *)
Definition read_buffer (guest_addr : Z) (buffer : list Z) : M mem (AxResult unit * list Z) :=
  read_buffer_rounds (length buffer) guest_addr buffer.

Fixpoint write_loop (fuel : nat) (current_guest_addr : Z) (remaining_buffer : list Z) :
    M mem (AxResult unit) :=
  match remaining_buffer with
  | [] => mret (Ok tt)
  | _ :: _ =>
      match fuel with
      | O => lift OutOfFuel
      | S fuel =>
          r ← lift (translate_and_get_limit current_guest_addr);
          match r with
          | None => mret (Err InvalidInput)
          | Some (current_host_addr, current_accessible_size) =>
              let bytes_to_write :=
                Nat.min (length remaining_buffer) (Z.to_nat current_accessible_size) in
              copy_to_host current_host_addr (firstn bytes_to_write remaining_buffer);;
              next ← lift (usize_add current_guest_addr (Z.of_nat bytes_to_write));
              write_loop fuel next (skipn bytes_to_write remaining_buffer)
          end
      end
  end.

Definition write_buffer_rounds (fuel : nat) (guest_addr : Z) (buffer : list Z) :
    M mem (AxResult unit) :=
  if bool_decide (buffer = []) then mret (Ok tt) else
  r ← lift (translate_and_get_limit guest_addr);
  match r with
  | None => mret (Err InvalidInput)
  | Some (host_addr, accessible_size) =>
      if Z.of_nat (length buffer) <=? accessible_size then
        copy_to_host host_addr buffer;;
        mret (Ok tt)
      else write_loop fuel guest_addr buffer
  end.

Definition write_buffer (guest_addr : Z) (buffer : list Z) : M mem (AxResult unit) :=
  write_buffer_rounds (length buffer) guest_addr buffer.

Definition read_volatile (V : CopyType) (guest_addr : Z) : M mem (AxResult V) :=
  read_obj V guest_addr.

Definition write_volatile (V : CopyType) (guest_addr : Z) (val : V) : M mem (AxResult unit) :=
  write_obj V guest_addr val.
End ops.

(** * The guest's view of its memory *)

(** Guest memory, byte by byte: [host] gives the host address of a guest
    address, if it has one. *)
Fixpoint guest_read (host : Z -> option Z) (m : mem) (ga : Z) (n : nat) : option (list Z) :=
  match n with
  | O => Some []
  | S n => h ← host ga; b ← m !! h; bs ← guest_read host m (ga + 1) n; Some (b :: bs)
  end.

Fixpoint guest_write (host : Z -> option Z) (m : mem) (ga : Z) (bs : list Z) : option mem :=
  match bs with
  | [] => Some m
  | b :: bs => h ← host ga; guest_write host (<[h := b]> m) (ga + 1) bs
  end.

(** What [translate_and_get_limit] promises in its documentation: an address
    with a translation has a nonempty region of accessible bytes, which are
    the host bytes of the guest addresses from there on. *)
Definition accessor_ok `{GuestMemoryAccessor} (host : Z -> option Z) (m : mem) : Prop :=
  forall ga, 0 <= ga ->
    match translate_and_get_limit ga with
    | Done None => host ga = None
    | Done (Some (h, limit)) =>
        0 < limit /\ forall i, 0 <= i < limit -> host (ga + i) = Some (h + i) /\ is_Some (m !! (h + i))
    | _ => False
    end.

(** ** Regions *)

(** The [n] guest bytes from [ga] on lie contiguously at [h]. *)
Definition region_at (host : Z -> option Z) (ga h : Z) (n : nat) : Prop :=
  forall i, 0 <= i < Z.of_nat n -> host (ga + i) = Some (h + i).

Lemma region_at_S host ga h n :
  region_at host ga h (S n) -> host ga = Some h /\ region_at host (ga + 1) (h + 1) n.
Proof.
  intros Hr. split; [rewrite <- (Z.add_0_r ga), <- (Z.add_0_r h); apply Hr; lia|].
  intros i Hi. rewrite <- !Z.add_assoc. apply Hr. lia.
Qed.

Lemma guest_read_region host m ga h n :
  region_at host ga h n ->
  guest_read host m ga n =
    match read_bytes m h n with Done bs => Some bs | _ => None end.
Proof.
  revert ga h. induction n as [|n IH]; intros ga h Hr; [done|].
  apply region_at_S in Hr as [Hh Hr]. cbn [guest_read read_bytes]. rewrite Hh. simpl.
  destruct (m !! h) as [b|]; [|done]. simpl. rewrite (IH _ _ Hr).
  by destruct (read_bytes m (h + 1) n).
Qed.

Lemma guest_write_region host m ga h bs :
  region_at host ga h (length bs) -> allocated m h (length bs) ->
  exists m', write_bytes m h bs = Done m' /\ guest_write host m ga bs = Some m'.
Proof.
  revert m ga h. induction bs as [|b bs IH]; intros m ga h Hr Hal; [by exists m|].
  apply region_at_S in Hr as [Hh Hr]. apply allocated_S in Hal as [[b' Hb] Hal].
  simpl. rewrite Hh, Hb. simpl. apply IH; [done|].
  intros i Hi. rewrite lookup_insert_is_Some. destruct (decide (h = h + 1 + i)); eauto.
Qed.

Lemma guest_read_app host m ga n k bs cs :
  guest_read host m ga n = Some bs -> guest_read host m (ga + Z.of_nat n) k = Some cs ->
  guest_read host m ga (n + k) = Some (bs ++ cs).
Proof.
  revert ga bs. induction n as [|n IH]; intros ga bs; simpl.
  - intros [= <-]. by rewrite Z.add_0_r.
  - destruct (host ga) as [h|]; simpl; [|done]. destruct (m !! h) as [b|]; simpl; [|done].
    destruct (guest_read host m (ga + 1) n) as [bs'|] eqn:Hr; simpl; [|done].
    intros [= <-] Hc. rewrite (IH _ _ Hr); [done|].
    by replace (ga + 1 + Z.of_nat n) with (ga + Z.of_nat (S n)) by lia.
Qed.

Lemma guest_write_app host m ga bs cs :
  guest_write host m ga (bs ++ cs) =
    m' ← guest_write host m ga bs; guest_write host m' (ga + Z.of_nat (length bs)) cs.
Proof.
  revert m ga. induction bs as [|b bs IH]; intros m ga; simpl.
  - by rewrite Z.add_0_r.
  - destruct (host ga) as [h|]; simpl; [|done]. rewrite IH.
    by replace (ga + 1 + Z.of_nat (length bs)) with (ga + Z.of_nat (S (length bs))) by lia.
Qed.

(** Guest addresses that share no host byte. *)
Definition host_injective (host : Z -> option Z) (P : Z -> Prop) : Prop :=
  forall x y h, P x -> P y -> host x = Some h -> host y = Some h -> x = y.

Lemma guest_write_lookup_other host m ga bs m' x :
  guest_write host m ga bs = Some m' ->
  (forall y, ga <= y < ga + Z.of_nat (length bs) -> host y <> Some x) -> m' !! x = m !! x.
Proof.
  revert m ga. induction bs as [|b bs IH]; intros m ga; simpl; [by intros [= <-]|].
  destruct (host ga) as [h|] eqn:Hh; simpl; [|done]. intros Hw Hx.
  rewrite (IH _ _ Hw); [|intros; apply Hx; lia]. apply lookup_insert_ne. intros ->.
  apply (Hx ga); [lia|done].
Qed.

Lemma guest_read_write host m ga bs m' :
  host_injective host (fun y => ga <= y < ga + Z.of_nat (length bs)) ->
  guest_write host m ga bs = Some m' -> guest_read host m' ga (length bs) = Some bs.
Proof.
  revert m ga. induction bs as [|b bs IH]; intros m ga Hi; simpl; [done|].
  destruct (host ga) as [h|] eqn:Hh; simpl; [|done]. intros Hw. simpl in Hi.
  rewrite (guest_write_lookup_other _ _ _ _ _ h Hw), lookup_insert_eq; simpl.
  - rewrite (IH (<[h:=b]> m) (ga + 1)); [done| |done].
    intros x y k Hx Hy. apply Hi; lia.
  - intros y Hy Hy'. assert (y = ga); [|lia]. by apply (Hi y ga h); [lia|lia|..].
Qed.

Lemma guest_write_dom host m ga bs m' x :
  guest_write host m ga bs = Some m' -> is_Some (m !! x) -> is_Some (m' !! x).
Proof.
  revert m ga. induction bs as [|b bs IH]; intros m ga; simpl; [by intros [= <-]|].
  destruct (host ga) as [h|]; simpl; [|done]. intros Hw Hx. apply (IH _ _ Hw).
  rewrite lookup_insert_is_Some. destruct (decide (h = x)); eauto.
Qed.

Section specs.
Context {BP : BuildProfile} {GMA : GuestMemoryAccessor}.

Lemma accessor_ok_write host m ga bs m' :
  accessor_ok host m -> guest_write host m ga bs = Some m' -> accessor_ok host m'.
Proof.
  intros Hok Hw x Hx. specialize (Hok x Hx).
  destruct (translate_and_get_limit x) as [[[h limit]|]| | |]; try done.
  destruct Hok as [Hl Hr]. split; [done|]. intros i Hi. destruct (Hr i Hi) as [Hh Hs].
  split; [done|]. by eapply guest_write_dom.
Qed.

Lemma accessor_region host m ga h limit n :
  accessor_ok host m -> 0 <= ga ->
  translate_and_get_limit ga = Done (Some (h, limit)) -> Z.of_nat n <= limit ->
  region_at host ga h n /\ allocated m h n.
Proof.
  intros Hok Hga Ht Hn. specialize (Hok ga Hga). rewrite Ht in Hok. destruct Hok as [_ Hr].
  split; intros i Hi; apply Hr; lia.
Qed.

(** What a buffer access transfers: the first [k] bytes, up to the first
    guest address without a translation, and the answer that goes with it. *)
Definition transfer (host : Z -> option Z) (ga : Z) (len k : nat) (res : AxResult unit) : Prop :=
  (k <= len)%nat /\
  match res with
  | Ok _ => k = len
  | Err e => e = InvalidInput /\ (k < len)%nat /\ host (ga + Z.of_nat k) = None
  end.

Lemma transfer_step host ga len n k res :
  (n <= len)%nat -> transfer host (ga + Z.of_nat n) (len - n) k res ->
  transfer host ga len (n + k) res.
Proof.
  intros Hn [Hk Hres]. split; [lia|]. destruct res as [[]|e]; [lia|].
  destruct Hres as (-> & ? & Hh). split; [done|]. split; [lia|].
  rewrite <- Hh. f_equal. lia.
Qed.

Lemma read_loop_spec host m fuel ga rem :
  accessor_ok host m -> 0 <= ga -> ga + Z.of_nat (length rem) < u64_modulus ->
  (length rem <= fuel)%nat ->
  exists k res bs,
    read_loop fuel ga rem m = Done ((res, bs ++ skipn k rem), m) /\
    guest_read host m ga k = Some bs /\ transfer host ga (length rem) k res.
Proof.
  intros Hok. revert ga rem. induction fuel as [|fuel IH]; intros ga rem Hga Hend Hf.
  { destruct rem; [|simpl in Hf; lia]. exists 0%nat, (Ok tt), []. by repeat split. }
  destruct rem as [|b rem]; [exists 0%nat, (Ok tt), []; by repeat split|].
  cbn [read_loop]. set (r := b :: rem) in *. pose proof (Hok ga Hga) as Ht.
  unfold mbind, M_bind, lift.
  destruct (translate_and_get_limit ga) as [[[h limit]|]| | |] eqn:Htr; try done.
  2:{ exists 0%nat, (Err InvalidInput), []. split; [done|]. split; [done|].
      split; [lia|]. split; [done|]. split; [simpl; lia|]. by rewrite Z.add_0_r. }
  destruct Ht as [Hlim _]. set (n := Nat.min (length r) (Z.to_nat limit)).
  assert (0 < n <= length r)%nat as Hn by (unfold n, r; cbn [length]; lia).
  destruct (accessor_region host m ga h limit n Hok Hga Htr) as [Hr Hal]; [lia|].
  destruct (read_bytes_allocated m h n Hal) as (bs & Hbs & _).
  unfold copy_from_host. rewrite Hbs. simpl. unfold usize_add.
  rewrite usize_arith_in_range by lia.
  destruct (IH (ga + Z.of_nat n) (skipn n r)) as (k & res & cs & Hrun & Hread & Htf);
    [lia|rewrite length_skipn; lia|rewrite length_skipn; lia|].
  rewrite Hrun. exists (n + k)%nat, res, (bs ++ cs). split; [|split].
  - simpl. by rewrite skipn_skipn, app_assoc, (Nat.add_comm k n).
  - apply guest_read_app; [|done]. by rewrite (guest_read_region _ _ _ _ _ Hr), Hbs.
  - rewrite length_skipn in Htf. apply (transfer_step _ _ (length r)); [lia|done].
Qed.
Lemma write_loop_spec host fuel m ga rem :
  accessor_ok host m -> 0 <= ga -> ga + Z.of_nat (length rem) < u64_modulus ->
  (length rem <= fuel)%nat ->
  exists k res m',
    write_loop fuel ga rem m = Done (res, m') /\
    guest_write host m ga (firstn k rem) = Some m' /\ transfer host ga (length rem) k res.
Proof.
  revert m ga rem. induction fuel as [|fuel IH]; intros m ga rem Hok Hga Hend Hf.
  { destruct rem; [|simpl in Hf; lia]. exists 0%nat, (Ok tt), m. by repeat split. }
  destruct rem as [|b rem]; [exists 0%nat, (Ok tt), m; by repeat split|].
  cbn [write_loop]. set (r := b :: rem) in *. pose proof (Hok ga Hga) as Ht.
  unfold mbind, M_bind, lift.
  destruct (translate_and_get_limit ga) as [[[h limit]|]| | |] eqn:Htr; try done.
  2:{ exists 0%nat, (Err InvalidInput), m. split; [done|]. split; [done|].
      split; [lia|]. split; [done|]. split; [simpl; lia|]. by rewrite Z.add_0_r. }
  destruct Ht as [Hlim _]. set (n := Nat.min (length r) (Z.to_nat limit)).
  assert (0 < n <= length r)%nat as Hn by (unfold n, r; cbn [length]; lia).
  assert (length (firstn n r) = n) as Hln by (rewrite length_firstn; lia).
  destruct (accessor_region host m ga h limit n Hok Hga Htr) as [Hr Hal]; [lia|].
  rewrite <- Hln in Hr, Hal at 1.
  destruct (guest_write_region host m ga h (firstn n r) Hr Hal) as (m1 & Hw & Hgw).
  unfold copy_to_host. rewrite Hw. simpl. unfold usize_add.
  rewrite usize_arith_in_range by lia.
  destruct (IH m1 (ga + Z.of_nat n) (skipn n r)) as (k & res & m' & Hrun & Hwrite & Htf);
    [by eapply accessor_ok_write|lia|rewrite length_skipn; lia|rewrite length_skipn; lia|].
  rewrite Hrun. exists (n + k)%nat, res, m'. split; [done|]. split.
  - rewrite <- take_take_drop, guest_write_app, Hgw. simpl. by rewrite Hln.
  - rewrite length_skipn in Htf. apply (transfer_step _ _ (length r)); [lia|done].
Qed.

Lemma read_buffer_run host m ga buffer :
  accessor_ok host m -> 0 <= ga -> ga + Z.of_nat (length buffer) < u64_modulus ->
  exists k res bs,
    read_buffer ga buffer m = Done ((res, bs ++ skipn k buffer), m) /\
    guest_read host m ga k = Some bs /\ transfer host ga (length buffer) k res.
Proof.
  intros Hok Hga Hend. unfold read_buffer, read_buffer_rounds. case_bool_decide as Hnil.
  { subst buffer. exists 0%nat, (Ok tt), []. by repeat split. }
  pose proof (Hok ga Hga) as Ht. unfold mbind, M_bind, lift.
  destruct (translate_and_get_limit ga) as [[[h limit]|]| | |] eqn:Htr; try done.
  - destruct (Z.of_nat (length buffer) <=? limit) eqn:Hlim; zbool; [|by apply read_loop_spec].
    destruct (accessor_region host m ga h limit (length buffer)) as [Hr Hal]; [done..|].
    destruct (read_bytes_allocated m h _ Hal) as (bs & Hbs & Hl).
    exists (length buffer), (Ok tt), bs. unfold copy_from_host. rewrite Hbs. split; [|split].
    + by rewrite skipn_all, app_nil_r.
    + by rewrite (guest_read_region _ _ _ _ _ Hr), Hbs.
    + by split.
  - exists 0%nat, (Err InvalidInput), []. split; [done|]. split; [done|]. split; [lia|].
    split; [done|]. rewrite Z.add_0_r. split; [|done]. destruct buffer; [done|simpl; lia].
Qed.

Lemma write_buffer_run host m ga buffer :
  accessor_ok host m -> 0 <= ga -> ga + Z.of_nat (length buffer) < u64_modulus ->
  exists k res m',
    write_buffer ga buffer m = Done (res, m') /\
    guest_write host m ga (firstn k buffer) = Some m' /\
    transfer host ga (length buffer) k res.
Proof.
  intros Hok Hga Hend. unfold write_buffer, write_buffer_rounds. case_bool_decide as Hnil.
  { subst buffer. exists 0%nat, (Ok tt), m. by repeat split. }
  pose proof (Hok ga Hga) as Ht. unfold mbind, M_bind, lift.
  destruct (translate_and_get_limit ga) as [[[h limit]|]| | |] eqn:Htr; try done.
  - destruct (Z.of_nat (length buffer) <=? limit) eqn:Hlim; zbool; [|by apply write_loop_spec].
    destruct (accessor_region host m ga h limit (length buffer)) as [Hr Hal]; [done..|].
    destruct (guest_write_region host m ga h buffer Hr Hal) as (m' & Hw & Hgw).
    exists (length buffer), (Ok tt), m'. unfold copy_to_host. rewrite Hw. split; [done|].
    rewrite firstn_all. by split.
  - exists 0%nat, (Err InvalidInput), m. split; [done|]. split; [done|]. split; [lia|].
    split; [done|]. rewrite Z.add_0_r. split; [|done]. destruct buffer; [done|simpl; lia].
Qed.
(** C11. [read_buffer] and [write_buffer] refine the access to guest memory
    byte by byte.  Both always end.  They transfer the bytes of the guest
    addresses from [guest_addr] on, in order, whichever way the accessor
    splits them into regions, and succeed exactly if all of them have a
    translation; otherwise the answer is [InvalidInput], the bytes before the
    first address without a translation were transferred all the same, and
    the rest of the buffer, or of memory, is as before. *)
Theorem buffer_access_correct host m ga buffer :
  accessor_ok host m -> 0 <= ga -> ga + Z.of_nat (length buffer) < u64_modulus ->
  (exists k res bs,
     read_buffer ga buffer m = Done ((res, bs ++ skipn k buffer), m) /\
     guest_read host m ga k = Some bs /\ transfer host ga (length buffer) k res) /\
  (exists k res m',
     write_buffer ga buffer m = Done (res, m') /\
     guest_write host m ga (firstn k buffer) = Some m' /\
     transfer host ga (length buffer) k res).
Proof. intros. split; [by apply read_buffer_run|by apply write_buffer_run]. Qed.

Lemma guest_read_translated host m ga n bs :
  guest_read host m ga n = Some bs -> forall i, 0 <= i < Z.of_nat n -> host (ga + i) <> None.
Proof.
  revert ga bs. induction n as [|n IH]; intros ga bs; simpl; [lia|].
  destruct (host ga) as [h|] eqn:Hh; simpl; [|done]. destruct (m !! h); simpl; [|done].
  destruct (guest_read host m (ga + 1) n) eqn:Hr; simpl; [|done].
  intros _ i Hi. destruct (decide (i = 0)) as [->|]; [by rewrite Z.add_0_r, Hh|].
  replace (ga + i) with (ga + 1 + (i - 1)) by lia. eapply IH; [done|lia].
Qed.

Lemma guest_read_ext host m m' ga n :
  (forall y h, ga <= y < ga + Z.of_nat n -> host y = Some h -> m' !! h = m !! h) ->
  guest_read host m' ga n = guest_read host m ga n.
Proof.
  revert ga. induction n as [|n IH]; intros ga He; simpl; [done|].
  destruct (host ga) as [h|] eqn:Hh; simpl; [|done]. rewrite (He ga h) by (done || lia).
  rewrite IH; [done|]. intros y k Hy. apply He. lia.
Qed.

(** How far a transfer gets does not depend on the contents of memory. *)
Lemma transfer_unique host m m' ga len k k' res res' bs bs' :
  transfer host ga len k res -> guest_read host m ga k = Some bs ->
  transfer host ga len k' res' -> guest_read host m' ga k' = Some bs' ->
  k = k' /\ res = res'.
Proof.
  intros [Hk Hr] Hg [Hk' Hr'] Hg'.
  pose proof (guest_read_translated _ _ _ _ _ Hg) as Ht.
  pose proof (guest_read_translated _ _ _ _ _ Hg') as Ht'.
  assert (k = k') as <-.
  { destruct (Nat.lt_trichotomy k k') as [Hlt|[->|Hlt]]; [|done|].
    - destruct res as [[]|e]; [lia|]. destruct Hr as (_ & _ & Hn).
      destruct (Ht' (Z.of_nat k)); [lia|done].
    - destruct res' as [[]|e]; [lia|]. destruct Hr' as (_ & _ & Hn).
      destruct (Ht (Z.of_nat k')); [lia|done]. }
  split; [done|]. destruct res as [[]|e], res' as [[]|e']; [done|lia|lia|].
  destruct Hr as [-> _], Hr' as [-> _]. done.
Qed.

(** C18. Round trip: what [write_buffer] wrote, [read_buffer] of the same
    length reads back, when no two guest addresses of the buffer share a host
    byte; and host bytes that belong to no guest address of the buffer are
    unchanged. *)
Theorem write_read_buffer host m ga bytes m' buffer :
  accessor_ok host m -> 0 <= ga -> ga + Z.of_nat (length bytes) < u64_modulus ->
  host_injective host (fun y => ga <= y < ga + Z.of_nat (length bytes)) ->
  length buffer = length bytes ->
  write_buffer ga bytes m = Done (Ok tt, m') ->
  read_buffer ga buffer m' = Done ((Ok tt, bytes), m') /\
  forall x, (forall y, ga <= y < ga + Z.of_nat (length bytes) -> host y <> Some x) ->
    m' !! x = m !! x.
Proof.
  intros Hok Hga Hend Hinj Hlen Hw.
  destruct (write_buffer_run host m ga bytes) as (k & res & m1 & Hrun & Hgw & Hk & Hres); [done..|].
  rewrite Hw in Hrun. injection Hrun as <- <-. subst k. rewrite firstn_all in Hgw.
  pose proof (accessor_ok_write _ _ _ _ _ Hok Hgw) as Hok'.
  pose proof (guest_read_write _ _ _ _ _ Hinj Hgw) as Hgr.
  split; [|intros x; by apply (guest_write_lookup_other host m ga bytes)].
  destruct (read_buffer_run host m' ga buffer) as (k & res & bs & Hrun & Hread & Hk' & Hres');
    [done|done|by rewrite Hlen|].
  destruct res as [[]|e].
  - subst k. rewrite Hlen, Hgr in Hread. injection Hread as <-.
    by rewrite Hrun, skipn_all, app_nil_r.
  - destruct Hres' as (_ & Hk2 & Hn). exfalso.
    eapply (guest_read_translated _ _ _ _ _ Hgr); [|exact Hn]. lia.
Qed.

(** C19. Typed access.  Without a translation, or when the accessible region is
    smaller than the type, both directions answer [InvalidInput] and touch
    nothing.  Otherwise, at an aligned host address, [read_obj] reads the
    guest's bytes, which is undefined behaviour when they are not a value of
    the type; a value that is written is read back, by the volatile variants
    too, and only the bytes of the object change; at a misaligned host address
    both directions are undefined behaviour. *)
Theorem typed_access_correct (V : CopyType) host m ga (val : V) :
  accessor_ok host m -> 0 <= ga -> copy_valid V val ->
  match translate_and_get_limit ga with
  | Done (Some (h, limit)) =>
      if limit <? Z.of_nat (size_of V) then
        read_obj V ga m = Done (Err InvalidInput, m) /\
        write_obj V ga val m = Done (Err InvalidInput, m)
      else if h mod align_of V =? 0 then
        (exists bs, guest_read host m ga (size_of V) = Some bs /\
           read_obj V ga m =
             match from_bytes V bs with Some v => Done (Ok v, m) | None => UB end) /\
        exists m', write_obj V ga val m = Done (Ok tt, m') /\
          read_obj V ga m' = Done (Ok val, m') /\ read_volatile V ga m' = Done (Ok val, m') /\
          guest_write host m ga (to_bytes V val) = Some m' /\
          forall x, ~ h <= x < h + Z.of_nat (size_of V) -> m' !! x = m !! x
      else read_obj V ga m = UB /\ write_obj V ga val m = UB
  | _ => read_obj V ga m = Done (Err InvalidInput, m) /\
      write_obj V ga val m = Done (Err InvalidInput, m)
  end.
Proof.
  intros Hok Hga Hv. pose proof (Hok ga Hga) as Ht.
  unfold read_volatile, read_obj, write_obj, mbind, M_bind, lift.
  destruct (translate_and_get_limit ga) as [[[h limit]|]| | |] eqn:Htr; try done.
  case_match eqn:Hl; [done|]. zbool. unfold ptr_read_volatile, ptr_write_volatile.
  case_match eqn:Ha; [|done].
  destruct (accessor_region host m ga h limit (size_of V)) as [Hr Hal]; [done..|]. split.
  { destruct (read_bytes_allocated m h (size_of V) Hal) as (bs & Hbs & _). exists bs.
    split; [by rewrite (guest_read_region _ _ _ _ _ Hr), Hbs|]. rewrite Hbs. simpl.
    by destruct (from_bytes V bs). }
  rewrite <- (to_bytes_length V val) in Hr, Hal.
  destruct (guest_write_region host m ga h (to_bytes V val) Hr Hal) as (m' & Hw & Hgw).
  pose proof (read_write_bytes _ _ _ _ Hw) as Hrd. rewrite to_bytes_length in Hrd.
  rewrite Hw. unfold mbind, outcome_bind, mret, M_ret.
  exists m'. rewrite Hrd, from_to_bytes by done. do 4 (split; [done|]).
  intros x Hx. rewrite (write_bytes_lookup _ _ _ _ _ Hw), to_bytes_length.
  by rewrite decide_False.
Qed.

Lemma zero_limit_loops ga h m fuel buffer :
  0 <= ga < u64_modulus -> buffer <> [] ->
  translate_and_get_limit ga = Done (Some (h, 0)) ->
  read_loop fuel ga buffer m = OutOfFuel /\ write_loop fuel ga buffer m = OutOfFuel.
Proof.
  intros Hga Hb Ht. induction fuel as [|fuel IH]; (destruct buffer as [|b buffer]; [done|]);
    [done|].
  cbn [read_loop write_loop]. unfold mbind, M_bind, lift. rewrite Ht.
  change (Z.to_nat 0) with 0%nat. rewrite Nat.min_0_r.
  unfold copy_from_host, copy_to_host. simpl. unfold usize_add.
  rewrite Z.add_0_r, usize_arith_in_range by done. by destruct IH as [-> ->].
Qed.

(** C34. [read_buffer] and [write_buffer] of a nonempty buffer never end when
    the accessor answers with an accessible size of zero for its address: the
    whole operation, first translation and fast path included, is still
    running after any number of rounds of its loop. *)
Theorem zero_limit_diverges ga h m fuel buffer :
  0 <= ga < u64_modulus -> buffer <> [] ->
  translate_and_get_limit ga = Done (Some (h, 0)) ->
  read_buffer_rounds fuel ga buffer m = OutOfFuel /\
  write_buffer_rounds fuel ga buffer m = OutOfFuel.
Proof.
  intros Hga Hb Ht. unfold read_buffer_rounds, write_buffer_rounds.
  rewrite bool_decide_eq_false_2 by done. unfold mbind, M_bind, lift. rewrite Ht.
  rewrite (proj2 (Z.leb_gt _ _)) by (destruct buffer; [done|simpl; lia]).
  by apply (zero_limit_loops ga h).
Qed.
End specs.
