(* ===== verification/AccessorMock.v ===== *)
(** The accessor of the tests of [src/memory_accessor.rs], and witnesses for
    the properties of [Accessor]. *)
From S2P Require Import Prelude Crates Memory Frame MockHal Accessor.
Local Open Scope Z_scope.

Record MockTranslator := mkTranslator { base_addr : Z; memory_size : Z }.

Section translator.
Context {BP : BuildProfile} {ME : MockEnv}.

Definition mock_translate (t : MockTranslator) : GuestMemoryAccessor := fun guest_addr =>
  let offset := guest_addr in
  if offset <? memory_size t then
    p0 ← usize_add BASE_PADDR (base_addr t);
    phys_addr ← usize_add p0 offset;
    virt_addr ← mock_phys_to_virt phys_addr;
    accessible_size ← usize_sub (memory_size t) offset;
    Done (Some (virt_addr, accessible_size))
  else Done None.

(** The guest's memory is the part of [MEMORY] at [base_addr]. *)
Definition mock_host (t : MockTranslator) (ga : Z) : option Z :=
  if (0 <=? ga) && (ga <? memory_size t) then Some (memory_ptr + base_addr t + ga) else None.

(** A translator whose memory lies inside the simulated memory. *)
Definition translator_ok (t : MockTranslator) : Prop :=
  0 <= base_addr t /\ 0 <= memory_size t /\ base_addr t + memory_size t <= MEMORY_LEN.

Lemma mock_translate_spec t ga :
  0 <= memory_ptr -> memory_ptr + MEMORY_LEN <= u64_modulus ->
  translator_ok t -> 0 <= ga ->
  mock_translate t ga =
    Done (if ga <? memory_size t
          then Some (memory_ptr + base_addr t + ga, memory_size t - ga) else None).
Proof.
  intros Hp0 Hp1 (Hb & Hs & Hl) Hga. unfold mock_translate, usize_add, usize_sub.
  case_match eqn:E; [|done]. zbool. unfold MEMORY_LEN, u64_modulus in *.
  unfold mbind, outcome_bind.
  rewrite usize_arith_in_range by (unfold BASE_PADDR, u64_modulus; lia).
  rewrite usize_arith_in_range by (unfold BASE_PADDR, u64_modulus; lia).
  rewrite mock_phys_to_virt_in by (unfold BASE_PADDR, MEMORY_LEN, u64_modulus; lia).
  rewrite usize_arith_in_range by (unfold u64_modulus; lia).
  do 3 f_equal. lia.
Qed.

Lemma mock_accessor_ok t m :
  0 <= memory_ptr -> memory_ptr + MEMORY_LEN <= u64_modulus ->
  allocated m memory_ptr (Z.to_nat MEMORY_LEN) -> translator_ok t ->
  accessor_ok (H:=mock_translate t) (mock_host t) m.
Proof.
  intros Hp0 Hp1 Hal Ht ga Hga. unfold translate_and_get_limit.
  rewrite mock_translate_spec by done. unfold mock_host. pose proof Ht as (Hb & Hs & Hl).
  destruct (ga <? memory_size t) eqn:E; zbool.
  - split; [lia|]. intros i Hi.
    rewrite (proj2 (Z.leb_le _ _)), (proj2 (Z.ltb_lt _ _)) by lia. split; [f_equal; lia|].
    rewrite <- !Z.add_assoc. apply Hal. lia.
  - by rewrite andb_false_r.
Qed.

(** C25. The translators of the tests keep the documented promise of
    [translate_and_get_limit] when their memory lies inside the simulated
    memory, and guests with disjoint parts of it are isolated: whatever one
    writes through [write_buffer], successfully or not, the other one reads
    what it would have read before.  A translator that reaches beyond the
    simulated memory, as the second one of [test_two_vm_isolation] does,
    panics there instead of answering [None]. *)
Theorem mock_translators_isolated t1 t2 m ga1 bytes ga2 buffer :
  0 <= memory_ptr -> memory_ptr + MEMORY_LEN <= u64_modulus ->
  allocated m memory_ptr (Z.to_nat MEMORY_LEN) ->
  translator_ok t1 -> translator_ok t2 ->
  base_addr t1 + memory_size t1 <= base_addr t2 \/ base_addr t2 + memory_size t2 <= base_addr t1 ->
  0 <= ga1 -> ga1 + Z.of_nat (length bytes) < u64_modulus ->
  0 <= ga2 -> ga2 + Z.of_nat (length buffer) < u64_modulus ->
  accessor_ok (H:=mock_translate t1) (mock_host t1) m /\
  (exists res m' res2 bs,
    write_buffer (GMA:=mock_translate t1) ga1 bytes m = Done (res, m') /\
    read_buffer (GMA:=mock_translate t2) ga2 buffer m = Done ((res2, bs), m) /\
    read_buffer (GMA:=mock_translate t2) ga2 buffer m' = Done ((res2, bs), m')) /\
  forall t3 ga3,
    0 <= base_addr t3 -> 0 <= ga3 < memory_size t3 -> MEMORY_LEN <= base_addr t3 + ga3 ->
    BASE_PADDR + base_addr t3 + ga3 < u64_modulus -> mock_translate t3 ga3 = Panic.
Proof.
  intros Hp0 Hp1 Hal Ht1 Ht2 Hd Hg1 Hl1 Hg2 Hl2.
  pose proof (mock_accessor_ok t1 m Hp0 Hp1 Hal Ht1) as Hok1. split; [done|]. split.
  - destruct (write_buffer_run (GMA:=mock_translate t1) (mock_host t1) m ga1 bytes) as (k & res & m' & Hw & Hgw & _); [done..|].
    assert (allocated m' memory_ptr (Z.to_nat MEMORY_LEN)) as Hal'.
    { intros i Hi. eapply guest_write_dom; [done|by apply Hal]. }
    destruct (read_buffer_run (GMA:=mock_translate t2) (mock_host t2) m ga2 buffer)
      as (k1 & r1 & b1 & Hr1 & Hgr1 & Htf1); [by apply mock_accessor_ok|done..|].
    destruct (read_buffer_run (GMA:=mock_translate t2) (mock_host t2) m' ga2 buffer)
      as (k2 & r2 & b2 & Hr2 & Hgr2 & Htf2); [by apply mock_accessor_ok|done..|].
    assert (guest_read (mock_host t2) m' ga2 k1 = Some b1) as Hgr.
    { rewrite <- Hgr1. apply guest_read_ext. intros y hy _ Hy.
      apply (guest_write_lookup_other (mock_host t1) m ga1 (firstn k bytes)); [done|].
      intros z _ Hz. unfold mock_host, translator_ok in *. repeat case_match; simplify_eq. zbool. lia. }
    destruct (transfer_unique _ _ _ _ _ _ _ _ _ _ _ Htf1 Hgr Htf2 Hgr2) as [<- <-].
    rewrite Hgr in Hgr2. injection Hgr2 as <-. eauto 10.
  - intros t3 ga3 Hb3 Hg3 Ho3 Hm3.
    unfold mock_translate, usize_add. rewrite (proj2 (Z.ltb_lt _ _)) by lia.
    unfold mbind, outcome_bind. unfold MEMORY_LEN in *.
    rewrite usize_arith_in_range by (unfold BASE_PADDR in *; lia).
    rewrite usize_arith_in_range by (unfold BASE_PADDR in *; lia).
    unfold mock_phys_to_virt. rewrite andb_comm.
    by rewrite (proj2 (Z.ltb_ge _ _)) by (unfold BASE_PADDR, MEMORY_LEN in *; lia).
Qed.
End translator.

(** * Witnesses *)

(** A guest with 32 bytes in two regions of 16 bytes, which are swapped in
    host memory. *)
Definition swapped_host (ga : Z) : option Z :=
  if (0 <=? ga) && (ga <? 16) then Some (0x100010 + ga)
  else if (16 <=? ga) && (ga <? 32) then Some (0x100000 + (ga - 16))
  else None.

Definition swapped_accessor : GuestMemoryAccessor := fun ga =>
  Done (if (0 <=? ga) && (ga <? 16) then Some (0x100010 + ga, 16 - ga)
        else if (16 <=? ga) && (ga <? 32) then Some (0x100000 + (ga - 16), 32 - ga)
        else None).

Definition swapped_mem : mem := mem_region 0x100000 32.

Lemma swapped_ok : accessor_ok (H:=swapped_accessor) swapped_host swapped_mem.
Proof.
  intros ga Hga. unfold translate_and_get_limit, swapped_accessor, swapped_host.
  pose proof (allocated_mem_region 0x100000 32) as Hal.
  destruct ((0 <=? ga) && (ga <? 16)) eqn:E1; zbool.
  - split; [lia|]. intros i Hi.
    rewrite (proj2 (Z.leb_le 0 _)), (proj2 (Z.ltb_lt _ 16)) by lia. split; [f_equal; lia|].
    replace (0x100010 + ga + i) with (0x100000 + (16 + ga + i)) by lia. apply Hal. lia.
  - destruct ((16 <=? ga) && (ga <? 32)) eqn:E2; zbool; [|done].
    split; [lia|]. intros i Hi.
    rewrite (proj2 (Z.ltb_ge _ 16)), andb_false_r by lia.
    rewrite (proj2 (Z.leb_le 16 _)), (proj2 (Z.ltb_lt _ 32)) by lia. split; [f_equal; lia|].
    replace (0x100000 + (ga - 16) + i) with (0x100000 + (ga - 16 + i)) by lia. apply Hal. lia.
Defined.

Lemma swapped_injective P : host_injective swapped_host P.
Proof.
  intros x y h _ _. unfold swapped_host. repeat case_match; intros; simplify_eq; zbool; lia.
Defined.

Section witnesses.
#[local] Existing Instances checked_build demo_env swapped_accessor.

(** Ten bytes across the border of the regions, and ten that run off the
    end. *)
Definition ten_bytes : list Z := [1; 2; 3; 4; 5; 6; 7; 8; 9; 10].

Definition bytes_at (om : option mem) (xs : list Z) : list (option Z) :=
  match om with Some m => (fun x => m !! x) <$> xs | None => [] end.

Definition answer {A} (o : outcome (AxResult unit * A)) : option (AxResult unit) :=
  match o with Done (r, _) => Some r | _ => None end.

Lemma buffer_access_correct_witness :
  (exists m', write_buffer 12 ten_bytes swapped_mem = Done (Ok tt, m') /\
     m' !! 0x10001f = Some 4 /\ m' !! 0x100000 = Some 5) /\
  (exists m', write_buffer 26 ten_bytes swapped_mem = Done (Err InvalidInput, m') /\
     guest_write swapped_host swapped_mem 26 (firstn 6 ten_bytes) = Some m').
Proof.
  split.
  - destruct (buffer_access_correct swapped_host swapped_mem 12 ten_bytes swapped_ok)
      as [_ (k & res & m' & Hw & Hg & Hk & Hres)]; [done|done|].
    destruct res as [[]|e]; [subst k|exfalso].
    2:{ apply (f_equal answer) in Hw. vm_compute in Hw. discriminate. }
    exists m'. split; [exact Hw|].
    assert (bytes_at (guest_write swapped_host swapped_mem 12
      (firstn (length ten_bytes) ten_bytes)) [0x10001f; 0x100000] = [Some 4; Some 5]) as Hb
      by (vm_compute; reflexivity).
    rewrite Hg in Hb. simpl in Hb. injection Hb as H4 H5. exact (conj H4 H5).
  - destruct (buffer_access_correct swapped_host swapped_mem 26 ten_bytes swapped_ok)
      as [_ (k & res & m' & Hw & Hg & Hk & Hres)]; [done|done|].
    destruct res as [[]|e].
    { exfalso. apply (f_equal answer) in Hw. vm_compute in Hw. discriminate. }
    destruct Hres as (-> & Hk' & Hn). exists m'. split; [exact Hw|].
    assert (k = 6%nat) as ->; [|exact Hg].
    do 6 (destruct k as [|k]; [discriminate|]). destruct k as [|k]; [reflexivity|].
    exfalso. apply (f_equal (fun o => bool_decide (is_Some o))) in Hg.
    destruct k as [|[|[|k]]]; [vm_compute in Hg; discriminate..|]. cbn in Hk'. lia.
Defined.

Lemma write_read_buffer_witness :
  exists m', write_buffer 12 ten_bytes swapped_mem = Done (Ok tt, m') /\
    read_buffer 12 (replicate 10 0) m' = Done ((Ok tt, ten_bytes), m').
Proof.
  assert (exists m', write_buffer 12 ten_bytes swapped_mem = Done (Ok tt, m')) as [m' Hw].
  { eexists. vm_compute. reflexivity. }
  exists m'. split; [exact Hw|].
  apply (write_read_buffer swapped_host swapped_mem 12 ten_bytes m' (replicate 10 0) swapped_ok);
    [lia|done|apply swapped_injective|done|exact Hw].
Defined.

Lemma typed_access_correct_witness :
  (exists m', write_obj u32 4 0x12345678 swapped_mem = Done (Ok tt, m') /\
     read_obj u32 4 m' = Done (Ok 0x12345678, m')) /\
  write_obj u32 13 7 swapped_mem = Done (Err InvalidInput, swapped_mem) /\
  read_obj u32 5 swapped_mem = UB /\
  read_obj bool_type 0 (<[0x100010 := 2]> swapped_mem) = UB.
Proof.
  split; [|split; [|split]].
  - destruct (typed_access_correct u32 swapped_host swapped_mem 4 0x12345678 swapped_ok)
      as (_ & m' & Hw & Hr & _); [lia|simpl; lia|]. by exists m'.
  - by apply (typed_access_correct u32 swapped_host swapped_mem 13 7 swapped_ok); [lia|simpl; lia].
  - by apply (typed_access_correct u32 swapped_host swapped_mem 5 7 swapped_ok); [lia|simpl; lia].
  - assert (accessor_ok (H:=swapped_accessor) swapped_host (<[0x100010 := 2]> swapped_mem)) as Hok.
    { by apply (accessor_ok_write swapped_host swapped_mem 0 [2]); [apply swapped_ok|]. }
    destruct (typed_access_correct bool_type swapped_host _ 0 true Hok)
      as [(bs & Hbs & Hread) _]; [lia|done|].
    assert (bs = [2]) as -> by (vm_compute in Hbs; congruence). exact Hread.
Defined.

Lemma mock_translators_isolated_witness :
  (exists res m' res2 bs,
    write_buffer (GMA:=mock_translate (mkTranslator 0 0x8000)) 0x200 [0xaa; 0xaa] demo_mem
      = Done (res, m') /\
    read_buffer (GMA:=mock_translate (mkTranslator 0x8000 0x8000)) 0x200 [0; 0] demo_mem
      = Done ((res2, bs), demo_mem) /\
    read_buffer (GMA:=mock_translate (mkTranslator 0x8000 0x8000)) 0x200 [0; 0] m'
      = Done ((res2, bs), m')) /\
  mock_translate (mkTranslator 0x8000 0x10000) 0x8000 = Panic.
Proof.
  destruct (mock_translators_isolated (mkTranslator 0 0x8000) (mkTranslator 0x8000 0x8000)
    demo_mem 0x200 [0xaa; 0xaa] 0x200 [0; 0]) as (_ & Hio & Hp);
    [by vm_compute|by vm_compute|apply allocated_mem_region|by repeat split|by repeat split|
     by left|lia|by vm_compute|lia|by vm_compute|].
  split; [exact Hio|]. apply Hp; by repeat split.
Defined.

Lemma zero_limit_diverges_witness :
  read_buffer_rounds (GMA:=fun _ => Done (Some (0x100000, 0))) 1000 8 [1; 2] swapped_mem
    = OutOfFuel.
Proof.
  by apply (zero_limit_diverges (GMA:=fun _ => Done (Some (0x100000, 0))) 8 0x100000).
Defined.
End witnesses.
