(* ===== verification/Device.v ===== *)
(** [src/device]: access widths, ports, system registers and the ranges of
    addresses that devices claim, with the text they print as. *)
From S2P Require Import Prelude Crates RefCrates.
From stdpp Require Import strings.
From Stdlib Require Import Ascii String.
Local Open Scope Z_scope.

(** * Access widths *)

Inductive AccessWidth := Byte | Word | Dword | Qword.

#[export] Instance AccessWidth_eq_dec : EqDecision AccessWidth.
Proof. solve_decision. Defined.

Module AccessWidths.
(** [TryFrom<usize> for AccessWidth]. *)
Definition try_from (value : Z) : result AccessWidth unit :=
  match value with
  | 1 => Ok Byte
  | 2 => Ok Word
  | 4 => Ok Dword
  | 8 => Ok Qword
  | _ => Err tt
  end.

(** [From<AccessWidth> for usize]. *)
Definition to_usize (width : AccessWidth) : Z :=
  match width with Byte => 1 | Word => 2 | Dword => 4 | Qword => 8 end.

Definition size (self : AccessWidth) : Z := to_usize self.

(** The range of bits, half open. *)
Definition bits_range (self : AccessWidth) : Z * Z :=
  match self with
  | Byte => (0, 8)
  | Word => (0, 16)
  | Dword => (0, 32)
  | Qword => (0, 64)
  end.

(** The derived [Ord]: the order of the variants. *)
Definition rank (w : AccessWidth) : nat :=
  match w with Byte => 0 | Word => 1 | Dword => 2 | Qword => 3 end.

(** C38. The conversions between widths and byte counts are inverse to each
    other and refuse every other number; a width covers exactly the bits of
    its bytes, at most the 64 of a register, and a larger width in the
    derived order has more bytes. *)
Theorem access_width_roundtrip (w w' : AccessWidth) (n : Z) :
  try_from (size w) = Ok w /\
  (try_from n = Ok w <-> n = size w) /\
  (try_from n = Err tt <-> n ∉ size <$> [Byte; Word; Dword; Qword]) /\
  bits_range w = (0, 8 * size w) /\ 8 * size w <= 64 /\
  ((rank w < rank w')%nat <-> size w < size w').
Proof.
  split; [by destruct w|]. split; [|split; [|split; [by destruct w|split; [by destruct w|]]]].
  - split; [|intros ->; by destruct w]. unfold try_from. by repeat case_match; intros; simplify_eq.
  - rewrite list_elem_of_fmap. split.
    + intros Hn (x & -> & _). by destruct x.
    + intros Hn. destruct (try_from n) as [x|[]] eqn:E; [|done]. destruct Hn. exists x.
      split; [|destruct x; set_solver]. unfold try_from in E.
      repeat case_match; by simplify_eq.
  - destruct w, w'; simpl; lia.
Qed.
End AccessWidths.

(** * Ports and system registers *)

(** [Port(pub u16)] and [SysRegAddr(pub usize)]. *)
Record Port := mkPort { port_0 : Z }.
Record SysRegAddr := mkSysReg { sysreg_0 : Z }.

Definition Port_new (port : Z) : Port := mkPort port.
Definition Port_number (self : Port) : Z := port_0 self.
Definition SysRegAddr_new (addr : Z) : SysRegAddr := mkSysReg addr.
Definition SysRegAddr_addr (self : SysRegAddr) : Z := sysreg_0 self.

#[export] Instance Port_eq_dec : EqDecision Port.
Proof. solve_decision. Defined.
#[export] Instance SysRegAddr_eq_dec : EqDecision SysRegAddr.
Proof. solve_decision. Defined.

(** * Ranges of device addresses *)

(** The trait [DeviceAddrRange], with its associated address type. *)
Class DeviceAddrRange (R : Type) := {
  Addr : Type;
  contains : R -> Addr -> bool
}.

Record SysRegAddrRange := mkSysRegRange { sysreg_start : SysRegAddr; sysreg_end : SysRegAddr }.
Record PortRange := mkPortRange { port_start : Port; port_end : Port }.

Definition SysRegAddrRange_new (start end_ : SysRegAddr) : SysRegAddrRange :=
  mkSysRegRange start end_.
Definition PortRange_new (start end_ : Port) : PortRange := mkPortRange start end_.

#[export] Instance AddrRange_device `{MemoryAddr} : DeviceAddrRange AddrRange := {
  Addr := Z;
  contains self addr := range_contains self addr
}.

#[export] Instance SysRegAddrRange_device : DeviceAddrRange SysRegAddrRange := {
  Addr := SysRegAddr;
  contains self addr :=
    (sysreg_0 (sysreg_start self) <=? sysreg_0 addr) && (sysreg_0 addr <=? sysreg_0 (sysreg_end self))
}.

#[export] Instance PortRange_device : DeviceAddrRange PortRange := {
  Addr := Port;
  contains self addr :=
    (port_0 (port_start self) <=? port_0 addr) && (port_0 addr <=? port_0 (port_end self))
}.

(** * Formatting *)

(** The digits of a number, most significant first; [fuel] digits are
    enough for numbers below [base ^ fuel]. *)
Fixpoint to_digits (base : Z) (fuel : nat) (n : Z) : list Z :=
  match fuel with
  | O => []
  | S fuel => if n <? base then [n] else to_digits base fuel (n / base) ++ [n mod base]
  end.

Definition digit_char (upper : bool) (d : Z) : ascii :=
  ascii_of_nat (Z.to_nat (if d <? 10 then 48 + d else if upper then 55 + d else 87 + d)).

Definition digits_text (base : Z) (fuel : nat) (upper : bool) (n : Z) : string :=
  string_of_list_ascii (digit_char upper <$> to_digits base fuel n).

(** [{:#x}], [{:#X}] and [{}] of an unsigned integer of at most 64 bits. *)
Definition fmt_hex (n : Z) : string := "0x" +:+ digits_text 16 16 false n.
Definition fmt_HEX (n : Z) : string := "0x" +:+ digits_text 16 16 true n.
Definition fmt_dec (n : Z) : string := digits_text 10 20 false n.

Definition Port_LowerHex (p : Port) : string := "Port(" +:+ fmt_hex (port_0 p) +:+ ")".
Definition Port_UpperHex (p : Port) : string := "Port(" +:+ fmt_HEX (port_0 p) +:+ ")".
Definition Port_Debug (p : Port) : string := "Port(" +:+ fmt_dec (port_0 p) +:+ ")".
Definition SysRegAddr_LowerHex (a : SysRegAddr) : string :=
  "SysRegAddr(" +:+ fmt_hex (sysreg_0 a) +:+ ")".
Definition SysRegAddr_UpperHex (a : SysRegAddr) : string :=
  "SysRegAddr(" +:+ fmt_HEX (sysreg_0 a) +:+ ")".
Definition SysRegAddr_Debug (a : SysRegAddr) : string :=
  "SysRegAddr(" +:+ fmt_dec (sysreg_0 a) +:+ ")".
Definition SysRegAddrRange_LowerHex (r : SysRegAddrRange) : string :=
  fmt_hex (sysreg_0 (sysreg_start r)) +:+ "..=" +:+ fmt_hex (sysreg_0 (sysreg_end r)).
Definition PortRange_LowerHex (r : PortRange) : string :=
  fmt_hex (port_0 (port_start r)) +:+ "..=" +:+ fmt_hex (port_0 (port_end r)).

Example Port_LowerHex_example : Port_LowerHex (Port_new 0x3f8) = "Port(0x3f8)".
Proof. reflexivity. Qed.

(** ** Reading the text back

    A strict reader of texts with numbers in them, written without the printer:
    a text has literal parts and numbers in a base and a case, where a number
    has at least one digit and no superfluous leading zero. *)

Inductive piece := Lit (s : string) | Num (base : Z) (upper : bool).

Definition between (lo hi c : Z) : bool := (lo <=? c) && (c <=? hi).

Definition digit_value (base : Z) (upper : bool) (c : ascii) : option Z :=
  let c := Z.of_nat (nat_of_ascii c) in
  let letter_a := if upper then 65 else 97 in
  if between 48 (Z.min 57 (47 + base)) c then Some (c - 48)
  else if between letter_a (letter_a + base - 11) c then Some (c - letter_a + 10)
  else None.

(** The digits at the beginning of a text, and the rest of it. *)
Fixpoint span_digits (base : Z) (upper : bool) (cs : list ascii) : list Z * list ascii :=
  match cs with
  | [] => ([], [])
  | c :: cs' =>
      match digit_value base upper c with
      | Some d => let '(ds, rest) := span_digits base upper cs' in (d :: ds, rest)
      | None => ([], cs)
      end
  end.

Definition digits_value (base : Z) (ds : list Z) : Z := foldl (fun v d => v * base + d) 0 ds.

Definition canonical (ds : list Z) : bool :=
  match ds with [] => false | [_] => true | d :: _ => negb (d =? 0) end.

Fixpoint strip (pre cs : list ascii) : option (list ascii) :=
  match pre, cs with
  | [], _ => Some cs
  | a :: pre, c :: cs => if decide (a = c) then strip pre cs else None
  | _ :: _, [] => None
  end.

Fixpoint scan_chars (fmt : list piece) (cs : list ascii) : option (list Z) :=
  match fmt with
  | [] => match cs with [] => Some [] | _ => None end
  | Lit s :: fmt => rest ← strip (list_ascii_of_string s) cs; scan_chars fmt rest
  | Num base upper :: fmt =>
      let '(ds, rest) := span_digits base upper cs in
      if canonical ds then cons (digits_value base ds) <$> scan_chars fmt rest else None
  end.

Definition scan (fmt : list piece) (s : string) : option (list Z) :=
  scan_chars fmt (list_ascii_of_string s).

Example scan_example :
  scan [Lit "0x"; Num 16 false; Lit "..=0x"; Num 16 false] "0x3f8..=0x3ff" = Some [0x3f8; 0x3ff] /\
  scan [Lit "0x"; Num 16 true] "0x3f8" = None /\ scan [Lit "0x"; Num 16 false] "0x03f8" = None.
Proof. repeat split. Qed.

Lemma digit_value_Some base upper c d :
  2 <= base <= 16 ->
  digit_value base upper c = Some d <-> 0 <= d < base /\ c = digit_char upper d.
Proof.
  intros Hb. unfold digit_value, digit_char, between. split.
  - intros Hd. rewrite <- (ascii_nat_embedding c).
    destruct upper; repeat case_match; simplify_eq; zbool; (split; [lia|]);
      f_equal; lia.
  - intros [Hd ->]. rewrite nat_ascii_embedding by (destruct upper; repeat case_match; lia).
    destruct upper; repeat case_match; zbool; try (f_equal; lia).
    all: rewrite !Z.leb_gt in *; lia.
Qed.

Lemma digit_value_char base upper d :
  2 <= base <= 16 -> 0 <= d < base -> digit_value base upper (digit_char upper d) = Some d.
Proof. intros Hb Hd. by apply digit_value_Some. Qed.

(** What may follow the digits of a number. *)
Definition no_digit (base : Z) (upper : bool) (cs : list ascii) : Prop :=
  match cs with [] => True | c :: _ => digit_value base upper c = None end.

Lemma span_digits_spec base upper cs ds rest :
  2 <= base <= 16 ->
  span_digits base upper cs = (ds, rest) <->
    cs = (digit_char upper <$> ds) ++ rest /\ Forall (fun d => 0 <= d < base) ds /\
    no_digit base upper rest.
Proof.
  intros Hb. revert ds rest. induction cs as [|c cs IH]; intros ds rest; simpl.
  { split; [by intros [= <- <-]|]. intros ([? ->]%eq_sym%app_eq_nil & _). by destruct ds. }
  destruct (digit_value base upper c) as [d|] eqn:Hc.
  - destruct (span_digits base upper cs) as [ds' rest'] eqn:Hs.
    apply digit_value_Some in Hc as [Hd ->]; [|done]. split.
    + intros [= <- <-]. destruct (proj1 (IH _ _) eq_refl) as (-> & ? & ?). by auto.
    + destruct ds as [|d0 ds]; simpl.
      { intros (<- & _ & Hn). unfold no_digit in Hn.
        by rewrite digit_value_char in Hn. }
      intros ([= He ->] & [Hd0 Hds]%Forall_cons & Hn).
      assert (d = d0) as ->.
      { apply (f_equal (digit_value base upper)) in He.
        rewrite !digit_value_char in He by done. by injection He. }
      by injection (proj2 (IH ds rest) (conj eq_refl (conj Hds Hn))) as -> ->.
  - split; [by intros [= <- <-]|]. destruct ds as [|d0 ds]; simpl; [by intros (<- & _)|].
    intros ([= -> ->] & [Hd0 _]%Forall_cons & _).
    by rewrite digit_value_char in Hc.
Qed.

Lemma digits_value_snoc base ds d : digits_value base (ds ++ [d]) = digits_value base ds * base + d.
Proof. unfold digits_value. by rewrite foldl_app. Qed.

Lemma canonical_snoc ds d : ds <> [] -> canonical (ds ++ [d]) = negb (bool_decide (hd 0 ds = 0)).
Proof.
  destruct ds as [|a [|b ds]]; [done|..]; intros _; simpl; f_equal;
    by destruct (Z.eqb_spec a 0), (bool_decide_reflect (a = 0)).
Qed.

(** Digits without a leading zero stand for a positive number. *)
Lemma digits_value_pos base ds :
  2 <= base -> Forall (fun d => 0 <= d < base) ds -> ds <> [] -> hd 0 ds <> 0 ->
  1 <= digits_value base ds.
Proof.
  intros Hb. induction ds as [|d ds IH] using rev_ind; [done|].
  intros [Hds [Hd _]%Forall_cons]%Forall_app _ Hh. rewrite digits_value_snoc.
  destruct ds as [|a ds]; [simpl in *; unfold digits_value; simpl; lia|].
  specialize (IH Hds ltac:(done) Hh). nia.
Qed.

(** Canonical digits, from the right. *)
Lemma canonical_digits_snoc base ds d n :
  2 <= base -> 0 <= d < base ->
  Forall (fun d => 0 <= d < base) ds ->
  canonical (ds ++ [d]) = true /\ digits_value base (ds ++ [d]) = n <->
    (ds = [] /\ n = d) \/
    (base <= n /\ canonical ds = true /\ digits_value base ds = n / base /\ d = n mod base).
Proof.
  intros Hb Hd Hds. rewrite digits_value_snoc.
  destruct (decide (ds = [])) as [->|Hne].
  { split; [intros [_ <-]; by left|]. intros [[_ ->]|(_ & ? & _)]; [by split|done]. }
  rewrite canonical_snoc, negb_true_iff, bool_decide_eq_false by done. split.
  - intros [Hh Hv]. right. pose proof (digits_value_pos base ds Hb Hds Hne Hh).
    split; [nia|]. split; [|split].
    + destruct ds as [|a [|b l]]; simpl in *; [done|done|]. by apply negb_true_iff, Z.eqb_neq.
    + apply (Z.div_unique n base _ d); lia.
    + apply (Z.mod_unique n base (digits_value base ds)); lia.
  - intros [[? _]|(Hn & Hc & Hv & Hm)]; [done|]. split; [|Z.div_mod_to_equations; lia].
    destruct ds as [|a [|b l]]; [done|..]; simpl in *; [|zbool; done].
    unfold digits_value in Hv. simpl in Hv. Z.div_mod_to_equations. nia.
Qed.

(** The digits the printer makes are the canonical digits of the number. *)
Lemma to_digits_spec base fuel n ds :
  2 <= base -> (1 <= fuel)%nat -> 0 <= n < base ^ Z.of_nat fuel ->
  ds = to_digits base fuel n <->
    Forall (fun d => 0 <= d < base) ds /\ canonical ds = true /\ digits_value base ds = n.
Proof.
  intros Hb. revert n ds. induction fuel as [|fuel IH]; intros n ds Hf Hn; [lia|]. cbn [to_digits].
  rewrite Nat2Z.inj_succ, Z.pow_succ_r in Hn by lia.
  assert (0 <= n mod base < base) as Hm by (apply Z.mod_pos_bound; lia).
  destruct (n <? base) eqn:E; zbool.
  - split; [intros ->; unfold digits_value; simpl; repeat constructor; lia|].
    induction ds as [|d ds _] using rev_ind; [by intros (_ & ? & _)|].
    intros ([Hds [Hd _]%Forall_cons]%Forall_app & Hc).
    apply canonical_digits_snoc in Hc as [[-> ->]|[? _]]; [done|lia|done..].
  - assert (1 <= fuel)%nat as Hf' by (destruct fuel; [simpl in Hn; lia|lia]).
    assert (0 <= n / base < base ^ Z.of_nat fuel) as Hq.
    { split; [apply Z.div_pos; lia|]. apply Z.div_lt_upper_bound; lia. }
    split.
    + intros ->. destruct (proj1 (IH (n / base) _ Hf' Hq) eq_refl) as (Hds & Hc & Hv).
      split; [apply Forall_app; split; [done|by apply Forall_singleton]|].
      apply canonical_digits_snoc; [done|done|done|]. by right.
    + induction ds as [|d ds _] using rev_ind; [by intros (_ & ? & _)|].
      intros ([Hds [Hd _]%Forall_cons]%Forall_app & Hc).
      apply canonical_digits_snoc in Hc as [[-> ->]|(_ & Hc & Hv & ->)]; [lia| |done..].
      f_equal. by apply IH.
Qed.

(** ** A scanner step at a time *)

Lemma strip_spec pre cs rest : strip pre cs = Some rest <-> cs = pre ++ rest.
Proof.
  revert cs. induction pre as [|a pre IH]; intros cs; simpl.
  { split; [by intros [= ->]|by intros ->]. }
  destruct cs as [|c cs]; [done|]. case_decide as Ha.
  - subst. rewrite IH. split; [by intros ->|by intros [= ->]].
  - split; [done|]. by intros [= -> _].
Qed.

Lemma scan_lit s fmt cs vs :
  scan_chars (Lit s :: fmt) cs = Some vs <->
    exists rest, cs = list_ascii_of_string s ++ rest /\ scan_chars fmt rest = Some vs.
Proof.
  simpl. rewrite bind_Some. split; intros (rest & H1 & H2); exists rest; by apply strip_spec in H1.
Qed.

(** A number is read to its last digit, when what follows cannot begin with
    one. *)
Lemma scan_num base upper fuel n fmt cs vs :
  2 <= base <= 16 -> (1 <= fuel)%nat -> 0 <= n < base ^ Z.of_nat fuel ->
  (forall rest, scan_chars fmt rest = Some vs -> no_digit base upper rest) ->
  scan_chars (Num base upper :: fmt) cs = Some (n :: vs) <->
    exists rest, cs = list_ascii_of_string (digits_text base fuel upper n) ++ rest /\
      scan_chars fmt rest = Some vs.
Proof.
  intros Hb Hf Hn Hfmt. unfold digits_text. rewrite list_ascii_of_string_of_list_ascii.
  cbn [scan_chars]. destruct (span_digits base upper cs) as [ds rest] eqn:Hs. split.
  - destruct (canonical ds) eqn:Hc; [|done].
    intros (vs' & Hvs & [= Hv ->])%fmap_Some. exists rest. split; [|done].
    apply span_digits_spec in Hs as (-> & Hr & _); [|done]. do 2 f_equal.
    by apply to_digits_spec; [lia|..].
  - intros (rest' & Hcs & Hvs).
    destruct (proj1 (to_digits_spec base fuel n _ ltac:(lia) Hf Hn) eq_refl) as (Hr & Hc & Hv).
    assert (span_digits base upper cs = (to_digits base fuel n, rest')) as Hs'.
    { apply span_digits_spec; [done|]. auto. }
    rewrite Hs in Hs'. injection Hs' as -> ->. by rewrite Hc, Hv, Hvs.
Qed.

Lemma list_ascii_of_string_app (s t : string) :
  list_ascii_of_string (s +:+ t) = list_ascii_of_string s ++ list_ascii_of_string t.
Proof. induction s as [|c s IH]; [done|]. simpl. by f_equal. Qed.

Lemma list_ascii_of_string_inj s t : list_ascii_of_string s = list_ascii_of_string t -> s = t.
Proof.
  intros He. rewrite <- (string_of_list_ascii_of_string s), <- (string_of_list_ascii_of_string t).
  by f_equal.
Qed.

Lemma scan_end cs vs : scan_chars [] cs = Some vs <-> cs = [] /\ vs = [].
Proof. destruct cs; simpl; split; [by intros [= <-]|by intros [_ ->]|done|by intros [? _]]. Qed.

(** Nothing after a number, or a literal that does not begin with a digit. *)
Lemma no_digit_end base upper vs rest : scan_chars [] rest = Some vs -> no_digit base upper rest.
Proof. by intros [-> _]%scan_end. Qed.

Lemma no_digit_lit base upper c s fmt vs rest :
  digit_value base upper c = None ->
  scan_chars (Lit (String c s) :: fmt) rest = Some vs -> no_digit base upper rest.
Proof. intros Hc (rest' & -> & _)%scan_lit. exact Hc. Qed.

(** A number between two literals. *)
Lemma scan_wrapped pre base upper fuel c post n s :
  2 <= base <= 16 -> (1 <= fuel)%nat -> 0 <= n < base ^ Z.of_nat fuel ->
  digit_value base upper c = None ->
  scan [Lit pre; Num base upper; Lit (String c post)] s = Some [n] <->
    s = pre +:+ digits_text base fuel upper n +:+ String c post.
Proof.
  intros Hb Hf Hn Hc. unfold scan. rewrite scan_lit. setoid_rewrite (scan_num base upper fuel n);
    [|done|done|done|intros ?; by apply no_digit_lit].
  setoid_rewrite scan_lit. setoid_rewrite scan_end. split.
  - intros (r1 & Hs & r2 & -> & r3 & -> & -> & _). apply list_ascii_of_string_inj.
    by rewrite Hs, !list_ascii_of_string_app, app_nil_r.
  - intros ->. eexists. rewrite list_ascii_of_string_app. split; [done|]. eexists.
    rewrite list_ascii_of_string_app. split; [done|]. exists []. by rewrite app_nil_r.
Qed.

(** Two numbers, each after a literal. *)
Lemma scan_pair pre c mid fuel n n' s :
  (1 <= fuel)%nat -> 0 <= n < 16 ^ Z.of_nat fuel -> 0 <= n' < 16 ^ Z.of_nat fuel ->
  digit_value 16 false c = None ->
  scan [Lit pre; Num 16 false; Lit (String c mid); Num 16 false] s = Some [n; n'] <->
    s = pre +:+ digits_text 16 fuel false n +:+ String c mid +:+ digits_text 16 fuel false n'.
Proof.
  intros Hf Hn Hn' Hc. unfold scan. rewrite scan_lit. setoid_rewrite (scan_num 16 false fuel n);
    [|lia|done|done|intros ?; by apply no_digit_lit].
  setoid_rewrite scan_lit. setoid_rewrite (scan_num 16 false fuel n');
    [|lia|done|done|intros ?; apply no_digit_end].
  setoid_rewrite scan_end. split.
  - intros (r1 & Hs & r2 & -> & r3 & -> & r4 & -> & -> & _). apply list_ascii_of_string_inj.
    by rewrite Hs, !list_ascii_of_string_app, app_nil_r.
  - intros ->. eexists. rewrite list_ascii_of_string_app. split; [done|]. eexists.
    rewrite list_ascii_of_string_app. split; [done|]. eexists.
    rewrite list_ascii_of_string_app. split; [done|]. exists []. by rewrite app_nil_r.
Qed.

(** The printed text is, by computation, the literal parts with the digits. *)
Local Ltac reads_as lem := rewrite lem; [reflexivity|first [done|lia]..].

(** C39. The text of ports, system registers and their ranges, against a strict
    reader that is written without the printer: a string is read as the
    number [p] after [Port(0x] in lower case hexadecimal, with [)] and nothing
    else after it, exactly when it is what the port [p] prints as with
    [{:x}]; likewise in upper case with [{:X}] and in decimal, without [0x],
    with [{:?}]; the same for all 64-bit system register addresses; and ranges
    print as their two bounds in hexadecimal with [..=] between them.  So the
    label, the base, the case, the prefix and the absence of leading zeros are
    all determined, and every text is read back to the numbers it stands
    for. *)
Theorem device_text_roundtrip :
  (forall p s, 0 <= p < 2 ^ 16 ->
     (scan [Lit "Port(0x"; Num 16 false; Lit ")"] s = Some [p] <-> s = Port_LowerHex (Port_new p)) /\
     (scan [Lit "Port(0x"; Num 16 true; Lit ")"] s = Some [p] <-> s = Port_UpperHex (Port_new p)) /\
     (scan [Lit "Port("; Num 10 false; Lit ")"] s = Some [p] <-> s = Port_Debug (Port_new p))) /\
  (forall a s, 0 <= a < 2 ^ 64 ->
     (scan [Lit "SysRegAddr(0x"; Num 16 false; Lit ")"] s = Some [a] <->
        s = SysRegAddr_LowerHex (SysRegAddr_new a)) /\
     (scan [Lit "SysRegAddr(0x"; Num 16 true; Lit ")"] s = Some [a] <->
        s = SysRegAddr_UpperHex (SysRegAddr_new a)) /\
     (scan [Lit "SysRegAddr("; Num 10 false; Lit ")"] s = Some [a] <->
        s = SysRegAddr_Debug (SysRegAddr_new a))) /\
  (forall p q s, 0 <= p < 2 ^ 16 -> 0 <= q < 2 ^ 16 ->
     (scan [Lit "0x"; Num 16 false; Lit "..=0x"; Num 16 false] s = Some [p; q] <->
        s = PortRange_LowerHex (PortRange_new (Port_new p) (Port_new q)))) /\
  (forall a b s, 0 <= a < 2 ^ 64 -> 0 <= b < 2 ^ 64 ->
     (scan [Lit "0x"; Num 16 false; Lit "..=0x"; Num 16 false] s = Some [a; b] <->
        s = SysRegAddrRange_LowerHex (SysRegAddrRange_new (SysRegAddr_new a) (SysRegAddr_new b)))).
Proof.
  split; [|split; [|split]].
  - intros p s Hp. split; [|split].
    + reads_as (scan_wrapped "Port(0x" 16 false 16).
    + reads_as (scan_wrapped "Port(0x" 16 true 16).
    + reads_as (scan_wrapped "Port(" 10 false 20).
  - intros a s Ha. split; [|split].
    + reads_as (scan_wrapped "SysRegAddr(0x" 16 false 16).
    + reads_as (scan_wrapped "SysRegAddr(0x" 16 true 16).
    + reads_as (scan_wrapped "SysRegAddr(" 10 false 20).
  - intros p q s Hp Hq. reads_as (scan_pair "0x" "." ".=0x" 16).
  - intros a b s Ha Hb. reads_as (scan_pair "0x" "." ".=0x" 16).
Qed.

Lemma device_text_roundtrip_witness :
  scan [Lit "Port(0x"; Num 16 false; Lit ")"] "Port(0x3f8)" = Some [0x3f8] /\
  scan [Lit "0x"; Num 16 false; Lit "..=0x"; Num 16 false] "0x3f8..=0x3ff" = Some [0x3f8; 0x3ff].
Proof.
  destruct device_text_roundtrip as (Hp & _ & Hr & _). split.
  - apply (Hp 0x3f8); [lia|reflexivity].
  - apply (Hr 0x3f8 0x3ff); [lia|lia|reflexivity].
Defined.
