(* ===== verification/Tests.v ===== *)
(** The unit tests of the repository ([src/address_space/mod.rs],
    [src/frame.rs], [src/memory_accessor.rs]) as programs of the model, in a
    build with overflow checks, on the simulated platform and the extended
    page table. *)
From S2P Require Import Prelude Crates RefCrates Ept Memory Frame MockHal.
From S2P Require Import Backend AddrSpace Accessor AccessorMock.
Local Open Scope Z_scope.

(** [assert!]. *)
Definition assert_ {S} (b : bool) : M S unit := fun s => if b then Done (tt, s) else Panic.

Definition in_memory (p : Z) : bool := (BASE_PADDR <=? p) && (p <? BASE_PADDR + MEMORY_LEN).

Section tests.
#[local] Existing Instances checked_build demo_env.
Import EPTEntry.

(** * address_space *)

Abbreviation Space := (AddrSpace.AddrSpace * hal)%type (only parsing).

(** The test address space, dropped at the end of the test. *)
Definition with_addr_space (body : M Space unit) : M hal unit := fun h =>
  '(r, h) ← AddrSpace.new_empty 0x10000 0x10000 h;
  s ← unwrap_ok r;
  '(_, (_, h)) ← (body;; AddrSpace.drop) (s, h);
  Done (tt, h).

Definition counter (f : MockState -> Z) : M Space Z := fun '(s, h) => Done (f (`h), (s, h)).
Definition get {A} (f : AddrSpace.AddrSpace -> A) : M Space A := fun '(s, h) => Done (f s, (s, h)).
Definition call {A} (m : M Space (AxResult A)) : M Space A := r ← m; lift (unwrap_ok r).
Definition translate (v : Z) : M Space (option Z) :=
  AddrSpace.on_self (fun s => AddrSpace.translate s v).

Definition flags : MappingFlags := bf_union READ WRITE.

Definition test_addrspace_creation : M hal unit :=
  with_addr_space (
    b ← get AddrSpace.base; assert_ (b =? 0x10000);;
    n ← get AddrSpace.size; assert_ (n =? 0x10000);;
    e ← get AddrSpace.end_; assert_ (e =? 0x20000);;
    c ← counter ALLOC_COUNT; assert_ (c =? 1)).

Definition contains (start size : Z) : M Space bool :=
  AddrSpace.on_self (fun s => AddrSpace.contains_range s start size).

Definition test_contains_range : M hal unit :=
  with_addr_space (
    b ← contains 0x10000 0x1000; assert_ b;;
    b ← contains 0x11000 0x2000; assert_ b;;
    b ← contains 0x10000 0x10000; assert_ b;;
    b ← contains 0xf000 0x1000; assert_ (negb b);;
    b ← contains 0x20000 0x1000; assert_ (negb b);;
    b ← contains 0x10000 0x11000; assert_ (negb b);;
    b ← contains 0x13000 0xf000; assert_ (negb b)).

Definition test_map_linear : M hal unit :=
  with_addr_space (
    call (AddrSpace.map_linear 0x18000 0x10000 0x8000 flags);;
    p ← translate 0x18000; assert_ (bool_decide (p = Some 0x10000));;
    p ← translate 0x19000; assert_ (bool_decide (p = Some 0x11000))).

Definition test_map_alloc_populate : M hal unit :=
  with_addr_space (
    initial_allocs ← counter ALLOC_COUNT; assert_ (initial_allocs =? 1);;
    call (AddrSpace.map_alloc 0x10000 0x2000 flags true);;
    final_allocs ← counter ALLOC_COUNT; assert_ (initial_allocs <? final_allocs);;
    p ← translate 0x10000; paddr1 ← lift (unwrap p);
    p ← translate 0x11000; paddr2 ← lift (unwrap p);
    assert_ (in_memory paddr1);; assert_ (in_memory paddr2);;
    assert_ (negb (paddr1 =? paddr2))).

Definition test_map_alloc_lazy : M hal unit :=
  with_addr_space (
    initial_allocs ← counter ALLOC_COUNT;
    call (AddrSpace.map_alloc 0x13000 0x1000 flags false);;
    after_map_allocs ← counter ALLOC_COUNT; assert_ (initial_allocs <=? after_map_allocs);;
    p ← translate 0x13000; assert_ (bool_decide (p = None))).

Definition test_page_fault_handling : M hal unit :=
  with_addr_space (
    call (AddrSpace.map_alloc 0x14000 0x1000 flags false);;
    before_pf_allocs ← counter ALLOC_COUNT;
    handled ← AddrSpace.handle_page_fault 0x14000 READ; assert_ handled;;
    after_pf_allocs ← counter ALLOC_COUNT; assert_ (before_pf_allocs <? after_pf_allocs);;
    p ← translate 0x14000; assert_ (bool_decide (is_Some p))).

Definition test_unmap : M hal unit :=
  with_addr_space (
    call (AddrSpace.map_alloc 0x15000 0x2000 flags true);;
    p ← translate 0x15000; assert_ (bool_decide (is_Some p));;
    p ← translate 0x16000; assert_ (bool_decide (is_Some p));;
    before_unmap_deallocs ← counter DEALLOC_COUNT;
    call (AddrSpace.unmap 0x15000 0x2000);;
    p ← translate 0x15000; assert_ (bool_decide (p = None));;
    p ← translate 0x16000; assert_ (bool_decide (p = None));;
    after_unmap_deallocs ← counter DEALLOC_COUNT;
    assert_ (before_unmap_deallocs <? after_unmap_deallocs)).

Definition test_clear : M hal unit :=
  with_addr_space (
    call (AddrSpace.map_alloc 0x16000 0x1000 flags true);;
    call (AddrSpace.map_alloc 0x17000 0x1000 flags true);;
    p ← translate 0x16000; assert_ (bool_decide (is_Some p));;
    p ← translate 0x17000; assert_ (bool_decide (is_Some p));;
    before_clear_deallocs ← counter DEALLOC_COUNT;
    AddrSpace.clear;;
    p ← translate 0x16000; assert_ (bool_decide (p = None));;
    p ← translate 0x17000; assert_ (bool_decide (p = None));;
    after_clear_deallocs ← counter DEALLOC_COUNT;
    assert_ (before_clear_deallocs <? after_clear_deallocs)).

Definition test_translate : M hal unit :=
  with_addr_space (
    call (AddrSpace.map_alloc 0x18000 0x1000 flags true);;
    p ← translate 0x18000; paddr ← lift (unwrap p); assert_ (in_memory paddr);;
    p ← translate 0x19000; assert_ (bool_decide (p = None));;
    p ← translate 0x30000; assert_ (bool_decide (p = None))).

(** The bytes the test writes into a segment, and the check that they are
    there. *)
Definition pattern (n : Z) : list Z := (fun i => i mod 256) <$> seqZ 0 n.

Fixpoint fill_segments (segs : list (Z * Z)) (m : mem) : outcome mem :=
  match segs with
  | [] => Done m
  | (ptr, n) :: segs => m ← write_bytes m ptr (pattern n); fill_segments segs m
  end.

Fixpoint check_segments (segs : list (Z * Z)) (m : mem) : outcome bool :=
  match segs with
  | [] => Done true
  | (ptr, n) :: segs =>
      bs ← read_bytes m ptr (Z.to_nat n);
      if bool_decide (bs = pattern n) then check_segments segs m else Done false
  end.

Definition byte_buffer (v len : Z) : M Space (option (list (Z * Z))) :=
  AddrSpace.on_self (fun s => AddrSpace.translated_byte_buffer s v len).

Definition test_translated_byte_buffer : M hal unit :=
  with_addr_space (
    call (AddrSpace.map_alloc 0x19000 0x2000 flags true);;
    b ← byte_buffer 0x19000 0x1100; buffer ← lift (unwrap b);
    m ← lift (fill_segments buffer demo_mem);
    good ← lift (check_segments buffer m); assert_ good;;
    b ← byte_buffer 0x19000 0x3000; assert_ (bool_decide (b = None));;
    b ← byte_buffer 0x1d000 0x100; assert_ (bool_decide (b = None))).

Definition limit_of (v : Z) : M Space (option (Z * Z)) :=
  AddrSpace.on_self (fun s => AddrSpace.translate_and_get_limit s v).

Definition test_translate_and_get_limit : M hal unit :=
  with_addr_space (
    call (AddrSpace.map_alloc 0x1a000 0x3000 flags true);;
    r ← limit_of 0x1a000; pl ← lift (unwrap r);
    assert_ (in_memory pl.1);; assert_ (pl.2 =? 0x3000);;
    r ← limit_of 0x1e000; assert_ (bool_decide (r = None));;
    r ← limit_of 0x30000; assert_ (bool_decide (r = None))).

(** Runs a test from the reset state; the number of frames given back. *)
Definition run_test (t : M hal unit) : outcome Z :=
  '(_, h) ← t demo_hal; Done (DEALLOC_COUNT (`h)).

Definition passes (o : outcome Z) : bool := match o with Done _ => true | _ => false end.

Lemma address_space_tests :
  forallb (fun t => passes (run_test t))
    [test_addrspace_creation; test_contains_range; test_map_linear; test_map_alloc_populate;
     test_map_alloc_lazy; test_page_fault_handling; test_unmap; test_clear; test_translate;
     test_translated_byte_buffer; test_translate_and_get_limit] = true /\
  run_test test_addrspace_creation = Done 1.
Proof. split; vm_compute; reflexivity. Qed.

(** * frame *)

Abbreviation Host := (MockState * mem)%type (only parsing).

(** The decorator and the check on exit, from memory that holds anything. *)
Definition run_frame_test (expected : Z) (t : M Host unit) : outcome unit :=
  '(_, _) ← (mock_hal_test t;; test_dealloc_count expected) (mkMock 0x7000 3 9 true, demo_mem);
  Done tt.

Definition alloc_frame_ : M Host PhysFrame.PhysFrame :=
  r ← PhysFrame.alloc (HAL:=MockHal_AxMmHal); lift (unwrap_ok r).

(** The page of a frame holds the byte [b] throughout. *)
Definition page_is (f : PhysFrame.PhysFrame) (b : Z) : M Host bool := fun '(h, m) =>
  ptr ← PhysFrame.as_mut_ptr (HAL:=MockHal_AxMmHal) f;
  bs ← read_bytes m ptr (Z.to_nat PAGE_SIZE);
  Done (forallb (fun x => x =? b) bs, (h, m)).

Definition start_is (f : PhysFrame.PhysFrame) (p : Z) : M Host unit :=
  q ← lift (PhysFrame.start_paddr f); assert_ (q =? p).

Definition test_alloc_dealloc_cycle : M Host unit :=
  f ← alloc_frame_; start_is f BASE_PADDR;; PhysFrame.drop (HAL:=MockHal_AxMmHal) f.

Definition test_alloc_zero : M Host unit :=
  r ← PhysFrame.alloc_zero (HAL:=MockHal_AxMmHal); f ← lift (unwrap_ok r);
  start_is f BASE_PADDR;;
  b ← page_is f 0; assert_ b;;
  PhysFrame.drop (HAL:=MockHal_AxMmHal) f.

Definition test_fill_operation : M Host unit :=
  f ← alloc_frame_; start_is f BASE_PADDR;;
  PhysFrame.fill (HAL:=MockHal_AxMmHal) f 0xaa;;
  b ← page_is f 0xaa; assert_ b;;
  PhysFrame.drop (HAL:=MockHal_AxMmHal) f.

Fixpoint alloc_filled (patterns : list Z) : M Host (list (PhysFrame.PhysFrame * Z)) :=
  match patterns with
  | [] => mret []
  | b :: bs =>
      f ← alloc_frame_;
      PhysFrame.fill (HAL:=MockHal_AxMmHal) f b;;
      fs ← alloc_filled bs;
      mret ((f, b) :: fs)
  end.

Fixpoint check_filled (fs : list (PhysFrame.PhysFrame * Z)) : M Host unit :=
  match fs with
  | [] => mret tt
  | (f, b) :: fs => good ← page_is f b; assert_ good;; check_filled fs
  end.

Fixpoint drop_all (fs : list (PhysFrame.PhysFrame * Z)) : M Host unit :=
  match fs with
  | [] => mret tt
  | (f, _) :: fs => PhysFrame.drop (HAL:=MockHal_AxMmHal) f;; drop_all fs
  end.

Definition test_fill_multiple_frames : M Host unit :=
  fs ← alloc_filled [0xa0; 0xa1; 0xa2; 0xa3; 0xa4];
  check_filled fs;; drop_all fs.

Definition test_uninit_access : outcome Z := PhysFrame.start_paddr PhysFrame.uninit.

Definition set_fail (b : bool) : M Host unit := fun '(h, m) =>
  Done (tt, (set_alloc_fail b h, m)).

Definition test_alloc_no_memory : M Host unit :=
  set_fail true;;
  r ← PhysFrame.alloc (HAL:=MockHal_AxMmHal);
  assert_ (match r with Err NoMemory => true | _ => false end);;
  set_fail false.

Lemma frame_tests :
  run_frame_test 1 test_alloc_dealloc_cycle = Done tt /\
  run_frame_test 1 test_alloc_zero = Done tt /\
  run_frame_test 1 test_fill_operation = Done tt /\
  run_frame_test 5 test_fill_multiple_frames = Done tt /\
  test_uninit_access = Panic /\
  run_frame_test 0 test_alloc_no_memory = Done tt.
Proof. repeat apply conj; vm_compute; reflexivity. Qed.

(** * memory_accessor *)

Definition run_accessor_test (t : M mem unit) : outcome unit :=
  '(_, _) ← t demo_mem; Done tt.

Definition whole_memory : GuestMemoryAccessor := mock_translate (mkTranslator 0 MEMORY_LEN).

Definition expect {A} (m : M mem (AxResult A)) : M mem A := r ← m; lift (unwrap_ok r).
Definition is_err {A} (m : M mem (AxResult A)) : M mem unit := r ← m; assert_ (negb (is_ok r)).

(** Reads as many bytes as [bytes] has and asserts that they are these. *)
Definition read_back (t : GuestMemoryAccessor) (ga : Z) (bytes : list Z) : M mem (list Z) :=
  r ← read_buffer (GMA:=t) ga (replicate (length bytes) 0);
  assert_ (is_ok r.1);; assert_ (bool_decide (r.2 = bytes));; mret r.2.

Definition test_basic_read_write_operations : M mem unit :=
  expect (write_obj (GMA:=whole_memory) u32 0x100 0x12345678);;
  v ← expect (read_obj (GMA:=whole_memory) u32 0x100); assert_ (v =? 0x12345678);;
  let buffer := [0x11; 0x22; 0x33; 0x44; 0x55; 0x66; 0x77; 0x88] in
  expect (write_buffer (GMA:=whole_memory) 0x200 buffer);;
  read_back whole_memory 0x200 buffer;;
  is_err (read_obj (GMA:=whole_memory) u32 (MEMORY_LEN + 0x1000));;
  is_err (write_obj (GMA:=whole_memory) u32 (MEMORY_LEN + 0x1000) 42).

Definition vm1 : GuestMemoryAccessor := mock_translate (mkTranslator 0 (MEMORY_LEN / 2)).
Definition vm2 : GuestMemoryAccessor :=
  mock_translate (mkTranslator (MEMORY_LEN / 2) MEMORY_LEN).

Definition test_two_vm_isolation : M mem unit :=
  expect (write_obj (GMA:=vm1) u64 0x100 0xdeadbeefcafebabe);;
  expect (write_obj (GMA:=vm2) u64 0x100 0x1234567890abcdef);;
  v1 ← expect (read_obj (GMA:=vm1) u64 0x100);
  v2 ← expect (read_obj (GMA:=vm2) u64 0x100);
  assert_ (v1 =? 0xdeadbeefcafebabe);; assert_ (v2 =? 0x1234567890abcdef);;
  assert_ (negb (v1 =? v2));;
  expect (write_buffer (GMA:=vm1) 0x200 (replicate 16 0xaa));;
  expect (write_buffer (GMA:=vm2) 0x200 (replicate 16 0x55));;
  vm1_read_buffer ← read_back vm1 0x200 (replicate 16 0xaa);
  vm2_read_buffer ← read_back vm2 0x200 (replicate 16 0x55);
  assert_ (bool_decide (vm1_read_buffer <> vm2_read_buffer));;
  is_err (read_obj (GMA:=vm1) u32 (MEMORY_LEN / 2 + 0x100)).

Fixpoint check_bytes (ga : Z) (bytes : list Z) : M mem unit :=
  match bytes with
  | [] => mret tt
  | b :: bytes =>
      v ← expect (read_obj (GMA:=whole_memory) u8 ga);
      assert_ (v =? b);; check_bytes (ga + 1) bytes
  end.

Definition test_cross_page_access : M mem unit :=
  let test_data := seqZ 1 16 in
  expect (write_buffer (GMA:=whole_memory) (4096 - 8) test_data);;
  read_back whole_memory (4096 - 8) test_data;;
  check_bytes (4096 - 8) test_data.

Definition test_region_boundary_edge_cases : M mem unit :=
  let boundary_data := [0xab; 0xcd; 0xef; 0x12] in
  expect (write_buffer (GMA:=whole_memory) 4096 boundary_data);;
  read_back whole_memory 4096 boundary_data;;
  expect (write_buffer (GMA:=whole_memory) 4096 []);;
  read_back whole_memory 4096 [];;
  expect (write_buffer (GMA:=whole_memory) 4096 [0x42]).

Lemma accessor_tests :
  run_accessor_test test_basic_read_write_operations = Done tt /\
  run_accessor_test test_two_vm_isolation = Done tt /\
  run_accessor_test test_cross_page_access = Done tt /\
  run_accessor_test test_region_boundary_edge_cases = Done tt.
Proof. repeat apply conj; vm_compute; reflexivity. Qed.

End tests.
